(** * CLOCK-Pro block cache shard (internal/cache/clockpro.go)

    A shallow embedding of one cache shard: the entry arena with its two
    intrusive circular lists, the three clock hands, the size and count
    counters, and the operations Get, Set, Delete, EvictFile and Reserve
    together with the eviction sweep.

    Conventions.
    - [*entry] and [*Value] are addresses ([positive]) into two arenas that
      stand for the manually managed memory; a nil pointer is [None].
    - The [int64] counters are modelled as [Z]: they hold sums of lengths
      of buffers that are resident in memory and stay far below [2^63]. The
      amount of a reservation is the caller's: [reservedSize], the target
      size computed from it and the per-shard amount of [Cache.Reserve] wrap
      around as 64-bit integers do ([wrap64]; [int] is the 64-bit one).
    - A Go panic, a nil dereference and a dereference of a freed address
      are all the result [Panic]; loops and the mutually recursive hand
      functions take a fuel argument and answer [OutOfFuel] when it runs
      out.
    - The build is the regular one: [invariants.Enabled] and
      [entriesGoAllocated] are false, so [metaCheck] does nothing and the
      [entries] map is not maintained; tracing calls are no-ops.
    - The shard mutex is not modelled: every operation runs atomically. *)

From stdpp Require Import gmap list fin_maps fin_sets.
From Stdlib Require Import ZArith Lia.

Local Open Scope Z_scope.
Set Warnings "-clear-no-such-hyp".

(** ** Results of fallible, fuel-bounded code *)

Inductive res (A : Type) : Type :=
| Ok (a : A)
| Panic
| OutOfFuel.
Arguments Ok {A} a.
Arguments Panic {A}.
Arguments OutOfFuel {A}.

Definition bind {A B : Type} (m : res A) (k : A -> res B) : res B :=
  match m with
  | Ok a => k a
  | Panic => Panic
  | OutOfFuel => OutOfFuel
  end.

Notation "'do' x <- m ; k" := (bind m (fun x => k))
  (at level 10, x pattern, m at level 100, k at level 200).

(** ** Keys *)

Record key : Type := Key { key_id : N; key_fileNum : N; key_offset : N }.

#[global] Instance key_eq_dec : EqDecision key.
Proof. solve_decision. Defined.

#[global] Instance key_countable : Countable key.
Proof.
  refine (inj_countable' (fun k => (key_id k, key_fileNum k, key_offset k))
            (fun t => Key t.1.1 t.1.2 t.2) _).
  by intros [].
Defined.

(** [key.file]: the key under which a file's blocks are grouped. *)
Definition file (k : key) : key :=
  {| key_id := key_id k; key_fileNum := key_fileNum k; key_offset := 0%N |}.

(** ** Values, entries and the shard *)

Definition ptr := positive.
Definition vptr := positive.

(** Modelled from the spec: the Value type (value.go is not among the
    sources): an owned byte buffer plus a reference count. *)
Record Value : Type := mkValue { v_buf : list Byte.byte; v_refs : Z }.

Inductive entryType : Type := etTest | etCold | etHot.

#[global] Instance entryType_eq_dec : EqDecision entryType.
Proof. solve_decision. Defined.

(** Modelled from the spec: the entry type (entry.go is not among the
    sources): key, size, type tag, reference bit, at most one Value, and the
    links of the shard ring ([blockLink]) and of the file ring
    ([fileLink]). *)
Record entry : Type := mkEntry {
  e_key : key;
  e_val : option vptr;
  e_blockNext : ptr;
  e_blockPrev : ptr;
  e_fileNext : ptr;
  e_filePrev : ptr;
  e_size : Z;
  e_ptype : entryType;
  e_referenced : bool
}.

Definition Handle := option vptr.

Definition Valid (h : Handle) : bool :=
  match h with Some _ => true | None => false end.

Record shard : Type := mkShard {
  hits : Z;
  misses : Z;
  reservedSize : Z;
  maxSize : Z;
  coldTarget : Z;
  blocks : gmap key ptr;
  files : gmap key ptr;
  handHot : option ptr;
  handCold : option ptr;
  handTest : option ptr;
  sizeHot : Z;
  sizeCold : Z;
  sizeTest : Z;
  countHot : Z;
  countCold : Z;
  countTest : Z;
  (* manually managed memory *)
  mem_entries : gmap ptr entry;
  mem_values : gmap vptr Value
}.

(** *** Field updates *)

Definition set_val (v : option vptr) (e : entry) : entry :=
  mkEntry (e_key e) v (e_blockNext e) (e_blockPrev e) (e_fileNext e)
    (e_filePrev e) (e_size e) (e_ptype e) (e_referenced e).
Definition set_blockNext (n : ptr) (e : entry) : entry :=
  mkEntry (e_key e) (e_val e) n (e_blockPrev e) (e_fileNext e)
    (e_filePrev e) (e_size e) (e_ptype e) (e_referenced e).
Definition set_blockPrev (n : ptr) (e : entry) : entry :=
  mkEntry (e_key e) (e_val e) (e_blockNext e) n (e_fileNext e)
    (e_filePrev e) (e_size e) (e_ptype e) (e_referenced e).
Definition set_fileNext (n : ptr) (e : entry) : entry :=
  mkEntry (e_key e) (e_val e) (e_blockNext e) (e_blockPrev e) n
    (e_filePrev e) (e_size e) (e_ptype e) (e_referenced e).
Definition set_filePrev (n : ptr) (e : entry) : entry :=
  mkEntry (e_key e) (e_val e) (e_blockNext e) (e_blockPrev e) (e_fileNext e)
    n (e_size e) (e_ptype e) (e_referenced e).
Definition set_size (n : Z) (e : entry) : entry :=
  mkEntry (e_key e) (e_val e) (e_blockNext e) (e_blockPrev e) (e_fileNext e)
    (e_filePrev e) n (e_ptype e) (e_referenced e).
Definition set_ptype (t : entryType) (e : entry) : entry :=
  mkEntry (e_key e) (e_val e) (e_blockNext e) (e_blockPrev e) (e_fileNext e)
    (e_filePrev e) (e_size e) t (e_referenced e).
Definition set_referenced (b : bool) (e : entry) : entry :=
  mkEntry (e_key e) (e_val e) (e_blockNext e) (e_blockPrev e) (e_fileNext e)
    (e_filePrev e) (e_size e) (e_ptype e) b.

Definition set_hits (x : Z) (c : shard) : shard :=
  mkShard x (misses c) (reservedSize c) (maxSize c) (coldTarget c)
    (blocks c) (files c) (handHot c) (handCold c) (handTest c)
    (sizeHot c) (sizeCold c) (sizeTest c) (countHot c) (countCold c)
    (countTest c) (mem_entries c) (mem_values c).
Definition set_misses (x : Z) (c : shard) : shard :=
  mkShard (hits c) x (reservedSize c) (maxSize c) (coldTarget c)
    (blocks c) (files c) (handHot c) (handCold c) (handTest c)
    (sizeHot c) (sizeCold c) (sizeTest c) (countHot c) (countCold c)
    (countTest c) (mem_entries c) (mem_values c).
Definition set_reservedSize (x : Z) (c : shard) : shard :=
  mkShard (hits c) (misses c) x (maxSize c) (coldTarget c)
    (blocks c) (files c) (handHot c) (handCold c) (handTest c)
    (sizeHot c) (sizeCold c) (sizeTest c) (countHot c) (countCold c)
    (countTest c) (mem_entries c) (mem_values c).
Definition set_coldTarget (x : Z) (c : shard) : shard :=
  mkShard (hits c) (misses c) (reservedSize c) (maxSize c) x
    (blocks c) (files c) (handHot c) (handCold c) (handTest c)
    (sizeHot c) (sizeCold c) (sizeTest c) (countHot c) (countCold c)
    (countTest c) (mem_entries c) (mem_values c).
Definition set_blocks (m : gmap key ptr) (c : shard) : shard :=
  mkShard (hits c) (misses c) (reservedSize c) (maxSize c) (coldTarget c)
    m (files c) (handHot c) (handCold c) (handTest c)
    (sizeHot c) (sizeCold c) (sizeTest c) (countHot c) (countCold c)
    (countTest c) (mem_entries c) (mem_values c).
Definition set_files (m : gmap key ptr) (c : shard) : shard :=
  mkShard (hits c) (misses c) (reservedSize c) (maxSize c) (coldTarget c)
    (blocks c) m (handHot c) (handCold c) (handTest c)
    (sizeHot c) (sizeCold c) (sizeTest c) (countHot c) (countCold c)
    (countTest c) (mem_entries c) (mem_values c).
Definition set_handHot (h : option ptr) (c : shard) : shard :=
  mkShard (hits c) (misses c) (reservedSize c) (maxSize c) (coldTarget c)
    (blocks c) (files c) h (handCold c) (handTest c)
    (sizeHot c) (sizeCold c) (sizeTest c) (countHot c) (countCold c)
    (countTest c) (mem_entries c) (mem_values c).
Definition set_handCold (h : option ptr) (c : shard) : shard :=
  mkShard (hits c) (misses c) (reservedSize c) (maxSize c) (coldTarget c)
    (blocks c) (files c) (handHot c) h (handTest c)
    (sizeHot c) (sizeCold c) (sizeTest c) (countHot c) (countCold c)
    (countTest c) (mem_entries c) (mem_values c).
Definition set_handTest (h : option ptr) (c : shard) : shard :=
  mkShard (hits c) (misses c) (reservedSize c) (maxSize c) (coldTarget c)
    (blocks c) (files c) (handHot c) (handCold c) h
    (sizeHot c) (sizeCold c) (sizeTest c) (countHot c) (countCold c)
    (countTest c) (mem_entries c) (mem_values c).
(** [add_hot ds dc]: [sizeHot += ds; countHot += dc], and likewise for the
    other two categories. *)
Definition add_hot (ds dc : Z) (c : shard) : shard :=
  mkShard (hits c) (misses c) (reservedSize c) (maxSize c) (coldTarget c)
    (blocks c) (files c) (handHot c) (handCold c) (handTest c)
    (sizeHot c + ds) (sizeCold c) (sizeTest c) (countHot c + dc) (countCold c)
    (countTest c) (mem_entries c) (mem_values c).
Definition add_cold (ds dc : Z) (c : shard) : shard :=
  mkShard (hits c) (misses c) (reservedSize c) (maxSize c) (coldTarget c)
    (blocks c) (files c) (handHot c) (handCold c) (handTest c)
    (sizeHot c) (sizeCold c + ds) (sizeTest c) (countHot c) (countCold c + dc)
    (countTest c) (mem_entries c) (mem_values c).
Definition add_test (ds dc : Z) (c : shard) : shard :=
  mkShard (hits c) (misses c) (reservedSize c) (maxSize c) (coldTarget c)
    (blocks c) (files c) (handHot c) (handCold c) (handTest c)
    (sizeHot c) (sizeCold c) (sizeTest c + ds) (countHot c) (countCold c)
    (countTest c + dc) (mem_entries c) (mem_values c).
Definition set_entries (m : gmap ptr entry) (c : shard) : shard :=
  mkShard (hits c) (misses c) (reservedSize c) (maxSize c) (coldTarget c)
    (blocks c) (files c) (handHot c) (handCold c) (handTest c)
    (sizeHot c) (sizeCold c) (sizeTest c) (countHot c) (countCold c)
    (countTest c) m (mem_values c).
Definition set_values (m : gmap vptr Value) (c : shard) : shard :=
  mkShard (hits c) (misses c) (reservedSize c) (maxSize c) (coldTarget c)
    (blocks c) (files c) (handHot c) (handCold c) (handTest c)
    (sizeHot c) (sizeCold c) (sizeTest c) (countHot c) (countCold c)
    (countTest c) (mem_entries c) m.

(** ** Manually managed memory *)

(** Dereference of an entry address. *)
Definition getE (p : ptr) (c : shard) : res entry :=
  match mem_entries c !! p with
  | Some e => Ok e
  | None => Panic
  end.

Definition setE (p : ptr) (e : entry) (c : shard) : shard :=
  set_entries (<[p := e]> (mem_entries c)) c.

(** [p.field = ...]: read the entry at [p], write it back modified. *)
Definition modE (p : ptr) (f : entry -> entry) (c : shard) : res shard :=
  do e <- getE p c;
  Ok (setE p (f e) c).

Definition getV (v : vptr) (c : shard) : res Value :=
  match mem_values c !! v with
  | Some x => Ok x
  | None => Panic
  end.

(** Modelled from the spec: [Value.acquire] (value.go is not among the
    sources): the count is incremented whenever a new owner is added. *)
Definition acquire (v : vptr) (c : shard) : res shard :=
  do x <- getV v c;
  Ok (set_values (<[v := mkValue (v_buf x) (v_refs x + 1)]> (mem_values c)) c).

(** Modelled from the spec: [Value.release] (value.go is not among the
    sources): the count is decremented on release and the buffer is returned
    to the allocator only at count 0; releasing a nil Value does nothing. *)
Definition release (ov : option vptr) (c : shard) : res shard :=
  match ov with
  | None => Ok c
  | Some v =>
      do x <- getV v c;
      if v_refs x - 1 <? 0 then Panic
      else if v_refs x - 1 =? 0 then
        Ok (set_values (delete v (mem_values c)) c)
      else
        Ok (set_values (<[v := mkValue (v_buf x) (v_refs x - 1)]> (mem_values c)) c)
  end.

(** Modelled from the spec: [Alloc] (value.go is not among the sources)
    returns a Value with count 1 that no shard tracks yet. The buffer
    contents are the ones the caller writes before handing the Value to
    [Set]. *)
Definition Alloc (b : list Byte.byte) (c : shard) : vptr * shard :=
  let v := fresh (dom (mem_values c)) in
  (v, set_values (<[v := mkValue b 1]> (mem_values c)) c).

(** Modelled from the spec: [newEntry] (entry.go is not among the sources):
    a cold, unreferenced entry without a Value whose two rings are the
    one-node rings that link to itself. *)
Definition newEntry (k : key) (sz : Z) (c : shard) : ptr * shard :=
  let p := fresh (dom (mem_entries c)) in
  (p, setE p (mkEntry k None p p p p sz etCold false) c).

(** Modelled from the spec: [entry.setValue] (entry.go is not among the
    sources): the slot becomes an owner of the new Value and gives up the
    one it held. *)
Definition setValue (p : ptr) (v : option vptr) (c : shard) : res shard :=
  do c <- match v with Some w => acquire w c | None => Ok c end;
  do e <- getE p c;
  do c <- modE p (set_val v) c;
  release (e_val e) c.

Definition peekValue (p : ptr) (c : shard) : res (option vptr) :=
  do e <- getE p c;
  Ok (e_val e).

(** Modelled from the spec: [entry.acquireValue] (entry.go is not among the
    sources): a live reference to the slot's Value, nil for a valueless
    slot. *)
Definition acquireValue (p : ptr) (c : shard) : res (option vptr * shard) :=
  do e <- getE p c;
  match e_val e with
  | Some v => do c <- acquire v c; Ok (Some v, c)
  | None => Ok (None, c)
  end.

(** Modelled from the spec: [entry.free] (entry.go is not among the
    sources): the Value is released and the entry memory is freed. *)
Definition free (p : ptr) (c : shard) : res shard :=
  do c <- setValue p None c;
  Ok (set_entries (delete p (mem_entries c)) c).

(** [e.next()] and [e.prev()] answer nil on a nil receiver. *)
Definition next (op : option ptr) (c : shard) : res (option ptr) :=
  match op with
  | None => Ok None
  | Some p => do e <- getE p c; Ok (Some (e_blockNext e))
  end.

Definition prev (op : option ptr) (c : shard) : res (option ptr) :=
  match op with
  | None => Ok None
  | Some p => do e <- getE p c; Ok (Some (e_blockPrev e))
  end.

(** Modelled from the spec: [entry.link] (entry.go is not among the
    sources): [e.link(s)] puts [s] into the shard ring just before [e]. *)
Definition link (e s : ptr) (c : shard) : res shard :=
  do ee <- getE e c;
  do c <- modE s (set_blockPrev (e_blockPrev ee)) c;
  do c <- modE (e_blockPrev ee) (set_blockNext s) c;
  do c <- modE s (set_blockNext e) c;
  modE e (set_blockPrev s) c.

(** Modelled from the spec: [entry.unlink] (entry.go is not among the
    sources): the node leaves the shard ring and becomes a one-node ring;
    the result is its former successor, which is the node itself exactly
    when it was the last one. *)
Definition unlink (e : ptr) (c : shard) : res (ptr * shard) :=
  do ee <- getE e c;
  do c <- modE (e_blockPrev ee) (set_blockNext (e_blockNext ee)) c;
  do e1 <- getE e c;
  do c <- modE (e_blockNext e1) (set_blockPrev (e_blockPrev e1)) c;
  do c <- modE e (fun x => set_blockNext e (set_blockPrev e x)) c;
  Ok (e_blockNext ee, c).

(** Modelled from the spec: [entry.linkFile] and [entry.unlinkFile]
    (entry.go is not among the sources): the same two operations on the
    per-file ring. *)
Definition linkFile (e s : ptr) (c : shard) : res shard :=
  do ee <- getE e c;
  do c <- modE s (set_filePrev (e_filePrev ee)) c;
  do c <- modE (e_filePrev ee) (set_fileNext s) c;
  do c <- modE s (set_fileNext e) c;
  modE e (set_filePrev s) c.

Definition unlinkFile (e : ptr) (c : shard) : res (ptr * shard) :=
  do ee <- getE e c;
  do c <- modE (e_filePrev ee) (set_fileNext (e_fileNext ee)) c;
  do e1 <- getE e c;
  do c <- modE (e_fileNext e1) (set_filePrev (e_filePrev e1)) c;
  do c <- modE e (fun x => set_fileNext e (set_filePrev e x)) c;
  Ok (e_fileNext ee, c).

(** ** The shard *)

Definition notNil (o : option ptr) : bool :=
  match o with Some _ => true | None => false end.

(** The value that two's complement arithmetic on 64 bits leaves. *)
Definition wrap64 (z : Z) : Z := (z + 2 ^ 63) mod 2 ^ 64 - 2 ^ 63.

Definition targetSize (c : shard) : Z :=
  let target := wrap64 (maxSize c - reservedSize c) in
  if target <? 1 then 1 else target.

Definition checkConsistency (c : shard) : res unit :=
  if (sizeHot c <? 0) || (sizeCold c <? 0) || (sizeTest c <? 0)
     || (countHot c <? 0) || (countCold c <? 0) || (countTest c <? 0)
  then Panic
  else if (0 <? sizeHot c) && (countHot c =? 0) then Panic
  else if (0 <? sizeCold c) && (countCold c =? 0) then Panic
  else if (0 <? sizeTest c) && (countTest c =? 0) then Panic
  else Ok tt.

(** [if e == c.handX { c.handX = c.handX.prev() }] for the three hands. *)
Definition retreatHands (e : ptr) (c : shard) : res shard :=
  do c <- (if decide (handHot c = Some e)
           then do p <- prev (handHot c) c; Ok (set_handHot p c) else Ok c);
  do c <- (if decide (handCold c = Some e)
           then do p <- prev (handCold c) c; Ok (set_handCold p c) else Ok c);
  if decide (handTest c = Some e)
  then do p <- prev (handTest c) c; Ok (set_handTest p c) else Ok c.

Definition clearHands (c : shard) : shard :=
  set_handTest None (set_handCold None (set_handHot None c)).

Definition metaDel (e : ptr) (c : shard) : res (option vptr * shard) :=
  do ee <- getE e c;
  let deletedValue := e_val ee in
  let c := setE e (set_val None ee) c in
  let c := set_blocks (delete (e_key ee) (blocks c)) c in
  do c <- retreatHands e c;
  do r <- unlink e c;
  let c := if decide (r.1 = e) then clearHands r.2 else r.2 in
  let fkey := file (e_key ee) in
  do r <- unlinkFile e c;
  let c := if decide (e = r.1)
           then set_files (delete fkey (files r.2)) r.2
           else set_files (<[fkey := r.1]> (files r.2)) r.2 in
  Ok (deletedValue, c).

Definition metaEvict (e : ptr) (c : shard) : res (option vptr * shard) :=
  do ee <- getE e c;
  let c := match e_ptype ee with
           | etHot => add_hot (- e_size ee) (-1) c
           | etCold => add_cold (- e_size ee) (-1) c
           | etTest => add_test (- e_size ee) (-1) c
           end in
  do r <- metaDel e c;
  do c <- free e r.2;
  Ok (r.1, c).

(** *** The three hands *)

(** Cold hand on a referenced cold entry: promote it to hot. *)
Definition coldHit (e : ptr) (c : shard) : res shard :=
  do c <- modE e (set_referenced false) c;
  do c <- modE e (set_ptype etHot) c;
  do ee <- getE e c;
  Ok (add_hot (e_size ee) 1 (add_cold (- e_size ee) (-1) c)).

(** Cold hand on an unreferenced cold entry: demote it to test. *)
Definition coldMiss (e : ptr) (c : shard) : res shard :=
  do c <- setValue e None c;
  do c <- modE e (set_ptype etTest) c;
  do ee <- getE e c;
  Ok (add_test (e_size ee) 1 (add_cold (- e_size ee) (-1) c)).

Definition advanceCold (c : shard) : res shard :=
  do n <- next (handCold c) c; Ok (set_handCold n c).

(** The body of [runHandHot] below its test-hand call, without the final
    advance. *)
Definition hotVisit (c : shard) : res shard :=
  match handHot c with
  | None => Panic
  | Some e =>
      do ee <- getE e c;
      if decide (e_ptype ee = etHot) then
        if e_referenced ee then modE e (set_referenced false) c
        else
          do c <- modE e (set_ptype etCold) c;
          Ok (add_cold (e_size ee) 1 (add_hot (- e_size ee) (-1) c))
      else Ok c
  end.

Definition advanceHot (c : shard) : res shard :=
  do n <- next (handHot c) c; Ok (set_handHot n c).

(** The body of [runHandTest] below its cold-hand call, without the final
    advance. *)
Definition testVisit (c : shard) : res shard :=
  match handTest c with
  | None => Panic
  | Some e =>
      do ee <- getE e c;
      if decide (e_ptype ee = etTest) then
        let c := add_test (- e_size ee) (-1) c in
        let c := set_coldTarget (coldTarget c - e_size ee) c in
        let c := if coldTarget c <? 0 then set_coldTarget 0 c else c in
        do r <- metaDel e c;
        do c <- release r.1 r.2;
        free e c
      else Ok c
  end.

Definition advanceTest (c : shard) : res shard :=
  do n <- next (handTest c) c; Ok (set_handTest n c).

Definition evictCond (c : shard) : bool :=
  (targetSize c <=? sizeHot c + sizeCold c) && notNil (handCold c).
Definition testCond (c : shard) : bool :=
  (targetSize c <? sizeTest c) && notNil (handTest c).
Definition hotCond (c : shard) : bool :=
  (targetSize c - coldTarget c <=? sizeHot c) && notNil (handHot c).

Definition hotTail (c : shard) : res shard :=
  do c <- hotVisit c; advanceHot c.
Definition testTail (c : shard) : res shard :=
  do c <- testVisit c; advanceTest c.

(** [runHandCold] with its two inner loops, [runHandHot] and [runHandTest].
    The two debugging parameters of [runHandCold] are always passed the
    fields they are compared with, so its panic cannot fire and is left
    out. *)
Fixpoint runHandCold (fuel : nat) (c : shard) {struct fuel} : res shard :=
  match fuel with
  | O => OutOfFuel
  | S n =>
      match handCold c with
      | None => Panic
      | Some e =>
          do ee <- getE e c;
          do c <- (if decide (e_ptype ee = etCold) then
                     if e_referenced ee then coldHit e c
                     else do c <- coldMiss e c; testLoop n c
                   else Ok c);
          do c <- advanceCold c;
          hotLoop n c
      end
  end
with testLoop (fuel : nat) (c : shard) {struct fuel} : res shard :=
  match fuel with
  | O => OutOfFuel
  | S n =>
      if testCond c then do c <- runHandTest n c; testLoop n c else Ok c
  end
with hotLoop (fuel : nat) (c : shard) {struct fuel} : res shard :=
  match fuel with
  | O => OutOfFuel
  | S n =>
      if hotCond c then do c <- runHandHot n c; hotLoop n c else Ok c
  end
with runHandHot (fuel : nat) (c : shard) {struct fuel} : res shard :=
  match fuel with
  | O => OutOfFuel
  | S n =>
      if bool_decide (handHot c = handTest c) && notNil (handTest c) then
        do c <- runHandTest n c;
        if notNil (handHot c) then hotTail c else Ok c
      else hotTail c
  end
with runHandTest (fuel : nat) (c : shard) {struct fuel} : res shard :=
  match fuel with
  | O => OutOfFuel
  | S n =>
      if (0 <? sizeCold c) && bool_decide (handTest c = handCold c)
         && notNil (handCold c)
      then
        if countCold c =? 0 then Panic
        else
          do c <- runHandCold n c;
          if notNil (handTest c) then testTail c else Ok c
      else testTail c
  end.

Fixpoint evict (fuel : nat) (c : shard) {struct fuel} : res shard :=
  match fuel with
  | O => OutOfFuel
  | S n =>
      if evictCond c then do c <- runHandCold n c; evict n c else Ok c
  end.

(** *** Insertion *)

(** [metaAdd]: true if the entry was added, false if it would not fit. *)
Definition metaAdd (fuel : nat) (k : key) (e : ptr) (c : shard)
  : res (bool * shard) :=
  do c <- evict fuel c;
  do ee <- getE e c;
  if targetSize c <? e_size ee then Ok (false, c)
  else
    let c := set_blocks (<[k := e]> (blocks c)) c in
    do c <- match handHot c with
            | None =>
                Ok (set_handTest (Some e)
                      (set_handCold (Some e) (set_handHot (Some e) c)))
            | Some h => link h e c
            end;
    do c <- (if decide (handCold c = handHot c)
             then do p <- prev (handCold c) c; Ok (set_handCold p c)
             else Ok c);
    let fkey := file k in
    do c <- match files c !! fkey with
            | None => Ok (set_files (<[fkey := e]> (files c)) c)
            | Some fileBlocks => linkFile fileBlocks e c
            end;
    Ok (true, c).

(** ** Operations *)

Definition Get (k : key) (c : shard) : res (Handle * shard) :=
  do r <- match blocks c !! k with
          | Some e =>
              do r <- acquireValue e c;
              match r.1 with
              | Some _ => do c <- modE e (set_referenced true) r.2; Ok (r.1, c)
              | None => Ok (None, r.2)
              end
          | None => Ok (None, c)
          end;
  match r.1 with
  | None => Ok (None, set_misses (misses r.2 + 1) r.2)
  | Some v => Ok (Some v, set_hits (hits r.2 + 1) r.2)
  end.

(** [shard.Set] ([Set] is a reserved word). *)
Definition Set_ (fuel : nat) (k : key) (value : vptr) (c : shard)
  : res (Handle * shard) :=
  do x <- getV value c;
  if negb (v_refs x =? 1) then Panic
  else
    let len := Z.of_nat (length (v_buf x)) in
    do c <-
      match blocks c !! k with
      | None =>
          (* no cache entry? add it *)
          let ec := newEntry k len c in
          let e := ec.1 in
          do c <- setValue e (Some value) ec.2;
          do r <- metaAdd fuel k e c;
          if r.1 then
            do ee <- getE e r.2;
            Ok (add_cold (e_size ee) 1 r.2)
          else free e r.2
      | Some e =>
          do v <- peekValue e c;
          match v with
          | Some _ =>
              (* cache entry was a hot or cold page *)
              do c <- setValue e (Some value) c;
              do c <- modE e (set_referenced true) c;
              do ee <- getE e c;
              let delta := len - e_size ee in
              do c <- modE e (set_size len) c;
              let c := if decide (e_ptype ee = etHot)
                       then add_hot delta 0 c else add_cold delta 0 c in
              evict fuel c
          | None =>
              (* cache entry was a test page *)
              do ee <- getE e c;
              let c := add_test (- e_size ee) (-1) c in
              do r <- metaDel e c;
              do c <- release r.1 r.2;
              do c <- modE e (set_size len) c;
              let c := set_coldTarget (coldTarget c + len) c in
              let c := if targetSize c <? coldTarget c
                       then set_coldTarget (targetSize c) c else c in
              do c <- modE e (set_referenced false) c;
              do c <- setValue e (Some value) c;
              do c <- modE e (set_ptype etHot) c;
              do r <- metaAdd fuel k e c;
              if r.1 then
                do ee <- getE e r.2;
                Ok (add_hot (e_size ee) 1 r.2)
              else free e r.2
          end
      end;
    do _ <- checkConsistency c;
    Ok (Some value, c).

Definition Delete (k : key) (c : shard) : res shard :=
  match blocks c !! k with
  | None => Ok c
  | Some e =>
      do r <- metaEvict e c;
      do _ <- checkConsistency r.2;
      release r.1 r.2
  end.

Definition blocksPerMutexAcquisition : nat := 5.

Fixpoint releaseAll (vs : list (option vptr)) (c : shard) : res shard :=
  match vs with
  | [] => Ok c
  | v :: vs => do c <- release v c; releaseAll vs c
  end.

(** The loop of [evictFileRun]: [room] is the capacity left in
    [obsoleteValues]. The result carries [moreRemaining] and the collected
    values. *)
Fixpoint evictFileLoop (room : nat) (b : ptr) (obsoleteValues : list (option vptr))
    (c : shard) {struct room} : res (bool * list (option vptr) * shard) :=
  match room with
  | O => Ok (true, obsoleteValues, c)
  | S room =>
      do eb <- getE b c;
      let n := e_fileNext eb in
      do r <- metaEvict b c;
      let obsoleteValues := obsoleteValues ++ [r.1] in
      if decide (b = n) then
        do _ <- checkConsistency r.2;
        Ok (false, obsoleteValues, r.2)
      else evictFileLoop room n obsoleteValues r.2
  end.

Definition evictFileRun (fkey : key) (c : shard) : res (bool * shard) :=
  match files c !! fkey with
  | None => Ok (false, c)
  | Some blocks =>
      do r <- evictFileLoop blocksPerMutexAcquisition blocks [] c;
      do c <- releaseAll r.1.2 r.2;
      Ok (r.1.1, c)
  end.

Fixpoint EvictFile (fuel : nat) (id fileNum : N) (c : shard) {struct fuel}
  : res shard :=
  match fuel with
  | O => OutOfFuel
  | S n =>
      do r <- evictFileRun (Key id fileNum 0) c;
      if r.1 then EvictFile n id fileNum r.2 else Ok r.2
  end.

Definition Reserve (fuel : nat) (n : Z) (c : shard) : res shard :=
  let c := set_reservedSize (wrap64 (reservedSize c + n)) c in
  let c := if targetSize c <? coldTarget c
           then set_coldTarget (targetSize c) c else c in
  do c <- evict fuel c;
  do _ <- checkConsistency c;
  Ok c.

(** One shard as [newShards] creates it, [size] being the shard's share of
    the cache size. *)
Definition newShard (size : Z) : shard :=
  mkShard 0 0 0 size size ∅ ∅ None None None 0 0 0 0 0 0 ∅ ∅.

(** ** Reachable states

    The states of one shard that its operations produce from the empty
    shard. [Alloc] stands for the caller allocating and filling a Value
    before [Set]. Handles are kept by the callers: the states in which a
    caller has released a Handle are not described here. *)
Inductive reachable : shard -> Prop :=
  | reach_new size : 0 <= size < 2 ^ 63 -> reachable (newShard size)
  | reach_Alloc b c : reachable c -> reachable (Alloc b c).2
  | reach_Get k c h c' : reachable c -> Get k c = Ok (h, c') -> reachable c'
  | reach_Set fuel k v c h c' :
      reachable c -> Set_ fuel k v c = Ok (h, c') -> reachable c'
  | reach_Delete k c c' : reachable c -> Delete k c = Ok c' -> reachable c'
  | reach_EvictFile fuel id fileNum c c' :
      reachable c -> EvictFile fuel id fileNum c = Ok c' -> reachable c'
  | reach_Reserve fuel n c c' :
      reachable c -> Reserve fuel n c = Ok c' -> reachable c'.

(** ** Metrics *)

(** [shard.Size]: the space used by the entries that hold a Value. *)
Definition Size (c : shard) : Z := sizeHot c + sizeCold c.

(** The part of [Cache.Metrics] that one shard adds: [blocks.Len()] to
    [Count], [sizeHot + sizeCold] to [Size], and the two counters. *)
Record Metrics : Type := mkMetrics {
  m_Size : Z; m_Count : Z; m_Hits : Z; m_Misses : Z
}.

Definition shardMetrics (c : shard) : Metrics :=
  mkMetrics (sizeHot c + sizeCold c) (Z.of_nat (size (blocks c)))
    (hits c) (misses c).

(** ** Freeing a shard *)

(** One turn of the loop of [shard.Free]: [metaDel] rather than
    [metaEvict], so the counters stay as they are. *)
Definition freeHead (e : ptr) (c : shard) : res shard :=
  do r <- metaDel e c;
  do c <- release r.1 r.2;
  free e c.

Fixpoint freeLoop (fuel : nat) (c : shard) {struct fuel} : res shard :=
  match fuel with
  | O => OutOfFuel
  | S n =>
      match handHot c with
      | None => Ok c
      | Some e => do c <- freeHead e c; freeLoop n c
      end
  end.

(** [shard.Free]. Modelled from the spec: [blockMap.Close] (the map is not
    among the sources) gives the memory of a map back; the map is left
    without keys. *)
Definition shard_Free (fuel : nat) (c : shard) : res shard :=
  do c <- freeLoop fuel c;
  Ok (set_files ∅ (set_blocks ∅ c)).

(** ** The check of the invariants build

    [metaCheck] does its work only when [invariants.Enabled] is set; it is
    modelled for that build, with manually allocated entries as in the rest
    of the model ([entriesGoAllocated] is false, so [c.entries] is nil and
    its lookup finds nothing). [os.Exit(1)] ends the program; the model
    answers [Panic]. *)

(** The six local counters of [metaCheck]. *)
Record recount : Type := mkRecount {
  r_countHot : Z; r_countCold : Z; r_countTest : Z;
  r_sizeHot : Z; r_sizeCold : Z; r_sizeTest : Z
}.

(** The [switch t.ptype] of the loop. *)
Definition tally (t : entry) (r : recount) : recount :=
  match e_ptype t with
  | etHot =>
      mkRecount (r_countHot r + 1) (r_countCold r) (r_countTest r)
        (r_sizeHot r + e_size t) (r_sizeCold r) (r_sizeTest r)
  | etCold =>
      mkRecount (r_countHot r) (r_countCold r + 1) (r_countTest r)
        (r_sizeHot r) (r_sizeCold r + e_size t) (r_sizeTest r)
  | etTest =>
      mkRecount (r_countHot r) (r_countCold r) (r_countTest r + 1)
        (r_sizeHot r) (r_sizeCold r) (r_sizeTest r + e_size t)
  end.

(** The loop of [metaCheck], entered at [t]: it ends at [handHot]. *)
Fixpoint metaCheckWalk (fuel : nat) (e t : ptr) (r : recount) (c : shard)
    {struct fuel} : res recount :=
  match fuel with
  | O => OutOfFuel
  | S n =>
      do et <- getE t c;
      let r := tally et r in
      if decide (e = t) then Panic
      else if decide (Some t = handHot c) then Ok r
      else metaCheckWalk n e (e_blockNext et) r c
  end.

(** Modelled from the spec: [blockMap.findByValue] (the map is not among
    the sources): whether some key of the map is bound to the entry. *)
Definition findByValue (e : ptr) (m : gmap key ptr) : bool :=
  bool_decide (e ∈ (map_to_list m).*2).

Definition diverges (r : recount) (c : shard) : bool :=
  negb (r_countHot r =? countHot c) || negb (r_countCold r =? countCold c)
  || negb (r_countTest r =? countTest c) || negb (r_sizeHot r =? sizeHot c)
  || negb (r_sizeCold r =? sizeCold c) || negb (r_sizeTest r =? sizeTest c).

(** [for t := c.handHot.next(); t != nil; t = t.next()]. *)
Definition metaCheckCount (fuel : nat) (e : ptr) (c : shard) : res recount :=
  do t <- next (handHot c) c;
  match t with
  | None => Ok (mkRecount 0 0 0 0 0 0)
  | Some t => metaCheckWalk fuel e t (mkRecount 0 0 0 0 0 0) c
  end.

Definition metaCheck (fuel : nat) (e : ptr) (c : shard) : res unit :=
  if findByValue e (blocks c) then Panic
  else if findByValue e (files c) then Panic
  else
    do r <- metaCheckCount fuel e c;
    if diverges r c then Panic else Ok tt.

(** [metaEvict] as the invariants build runs it. *)
Definition metaEvict_checked (fuel : nat) (e : ptr) (c : shard)
  : res (option vptr * shard) :=
  do ee <- getE e c;
  let c := match e_ptype ee with
           | etHot => add_hot (- e_size ee) (-1) c
           | etCold => add_cold (- e_size ee) (-1) c
           | etTest => add_test (- e_size ee) (-1) c
           end in
  do r <- metaDel e c;
  do _ <- metaCheck fuel e r.2;
  do c <- free e r.2;
  Ok (r.1, c).

(** ** Handles and Values *)




(** ** The cache

    A [Cache] is a slice of shards. The Values live in manually managed
    memory that all shards share: the cache carries that memory, and a
    shard works on it while it runs ([enter]) and hands it back when it is
    done ([leave]). The trace of the reference count is not modelled. *)
Record Cache : Type := mkCache {
  cache_refs : Z;
  cache_maxSize : Z;
  cache_idAlloc : Z;
  cache_shards : list shard;
  cache_values : gmap vptr Value
}.

Definition set_refs (x : Z) (C : Cache) : Cache :=
  mkCache x (cache_maxSize C) (cache_idAlloc C) (cache_shards C) (cache_values C).

Definition set_idAlloc (x : Z) (C : Cache) : Cache :=
  mkCache (cache_refs C) (cache_maxSize C) x (cache_shards C) (cache_values C).

Definition enter (C : Cache) (s : shard) : shard :=
  set_values (cache_values C) s.

Definition leave (i : nat) (s : shard) (C : Cache) : Cache :=
  mkCache (cache_refs C) (cache_maxSize C) (cache_idAlloc C)
    (<[i := s]> (cache_shards C)) (mem_values s).

(** [c.shards[i].op(...)]. *)
Definition onShard {A : Type} (i : nat) (op : shard -> res (A * shard))
    (C : Cache) : res (A * Cache) :=
  match cache_shards C !! i with
  | None => Panic
  | Some s => do r <- op (enter C s); Ok (r.1, leave i r.2 C)
  end.

(** [for i := range c.shards { c.shards[i].op(...) }]. *)
Fixpoint eachShardFrom (op : shard -> res shard) (n i : nat) (C : Cache)
    {struct n} : res Cache :=
  match n with
  | O => Ok C
  | S n =>
      do r <- onShard i (fun s => do s' <- op s; Ok (tt, s')) C;
      eachShardFrom op n (S i) r.2
  end.

Definition eachShard (op : shard -> res shard) (C : Cache) : res Cache :=
  eachShardFrom op (length (cache_shards C)) O C.

(** [newShards]: [shards] shards, each with an equal share of [size]. The
    divisions are the truncating ones of Go. *)
Definition newShards (size : Z) (shards : nat) : Cache :=
  mkCache 1 size 1 (replicate shards (newShard (size ÷ Z.of_nat shards))) ∅.

Definition minimumShardSize : Z := 4 * 2 ^ 20.

(** [New]; [procs] is what [runtime.GOMAXPROCS(0)] answers. *)
Definition New (procs : nat) (size : Z) : Cache :=
  let m := (4 * procs)%nat in
  let m := if (4 <? Z.of_nat m) && (size ÷ Z.of_nat m <? minimumShardSize)
           then 4%nat else m in
  newShards size m.

Definition prime64 : Z := 1099511628211.
Definition offset64 : Z := 14695981039346656037.

(** The three loops of [getShard]: eight rounds over the bytes of a
    [uint64], in [uint64] arithmetic. *)
Fixpoint fnv (rounds : nat) (h x : Z) {struct rounds} : Z :=
  match rounds with
  | O => h
  | S n =>
      fnv n (Z.lxor ((h * prime64) mod 2 ^ 64) (Z.land x 255)) (Z.shiftr x 8)
  end.

(** The hash of [getShard]. *)
Definition shardHash (id fileNum offset : N) : Z :=
  let h := fnv 8 offset64 (Z.of_N id) in
  let h := fnv 8 h (Z.of_N fileNum) in
  fnv 8 h (Z.of_N offset).

(** [getShard] answers the index of the shard; with no shard the
    remainder of the division by zero panics. *)
Definition getShard (id fileNum offset : N) (C : Cache) : res nat :=
  if (id =? 0)%N then Panic
  else
    let h := shardHash id fileNum offset in
    match length (cache_shards C) with
    | O => Panic
    | S _ => Ok (Z.to_nat (h mod Z.of_nat (length (cache_shards C))))
    end.

(** [Cache.Ref]. *)
Definition Ref (C : Cache) : res Cache :=
  let v := cache_refs C + 1 in
  if v <=? 1 then Panic else Ok (set_refs v C).

(** [Cache.Unref]. *)
Definition Unref (fuel : nat) (C : Cache) : res Cache :=
  let v := cache_refs C - 1 in
  let C := set_refs v C in
  if v <? 0 then Panic
  else if v =? 0 then eachShard (shard_Free fuel) C
  else Ok C.

Definition Cache_Get (id fileNum offset : N) (C : Cache)
  : res (Handle * Cache) :=
  do i <- getShard id fileNum offset C;
  onShard i (Get (Key id fileNum offset)) C.

Definition Cache_Set (fuel : nat) (id fileNum offset : N) (value : vptr)
    (C : Cache) : res (Handle * Cache) :=
  do i <- getShard id fileNum offset C;
  onShard i (Set_ fuel (Key id fileNum offset) value) C.

Definition Cache_Delete (id fileNum offset : N) (C : Cache) : res Cache :=
  do i <- getShard id fileNum offset C;
  do r <- onShard i (fun s => do s' <- Delete (Key id fileNum offset) s;
                              Ok (tt, s')) C;
  Ok r.2.

Definition Cache_EvictFile (fuel : nat) (id fileNum : N) (C : Cache)
  : res Cache :=
  if (id =? 0)%N then Panic
  else eachShard (EvictFile fuel id fileNum) C.

Definition MaxSize (C : Cache) : Z := cache_maxSize C.

(** [Cache.Size]: [size += c.shards[i].Size()] over the shards. *)
Definition Cache_Size (C : Cache) : Z :=
  foldl (fun size s => size + Size s) 0 (cache_shards C).

(** One turn of the loop of [Cache.Metrics]. *)
Definition addMetrics (m : Metrics) (s : shard) : Metrics :=
  mkMetrics (m_Size m + (sizeHot s + sizeCold s))
    (m_Count m + Z.of_nat (size (blocks s)))
    (m_Hits m + hits s) (m_Misses m + misses s).

Definition Cache_Metrics (C : Cache) : Metrics :=
  foldl addMetrics (mkMetrics 0 0 0 0) (cache_shards C).

(** [Cache.Reserve]. The closure it returns is described by the variable
    it captures, [shardN]; [Unreserve] is a call of the closure. *)
Definition Cache_Reserve (fuel : nat) (n : Z) (C : Cache) : res (Z * Cache) :=
  match length (cache_shards C) with
  | O => Panic
  | S _ =>
      let len := Z.of_nat (length (cache_shards C)) in
      let shardN := wrap64 (n + len - 1) ÷ len in
      do C <- eachShard (Reserve fuel shardN) C;
      Ok (shardN, C)
  end.

Definition Unreserve (fuel : nat) (shardN : Z) (C : Cache) : res (Z * Cache) :=
  if shardN =? -1 then Panic
  else
    do C <- eachShard (Reserve fuel (wrap64 (- shardN))) C;
    Ok (-1, C).

(** [Alloc], on the Values of a cache. *)
Definition Cache_Alloc (b : list Byte.byte) (C : Cache) : vptr * Cache :=
  let v := fresh (dom (cache_values C)) in
  (v, mkCache (cache_refs C) (cache_maxSize C) (cache_idAlloc C)
        (cache_shards C) (<[v := mkValue b 1]> (cache_values C))).

(** [Cache.NewID]: [idAlloc] is a [uint64]. *)
Definition NewID (C : Cache) : Z * Cache :=
  let v := (cache_idAlloc C + 1) mod 2 ^ 64 in
  (v, set_idAlloc v C).

(** ** Reachable caches

    The states of a cache that its operations produce from a new cache, as
    long as a reference to the cache is left. As for one shard, the callers
    keep their Handles. *)
Inductive creachable : Cache -> Prop :=
  | creach_New procs size :
      (0 < procs)%nat -> 0 <= size < 2 ^ 63 -> creachable (New procs size)
  | creach_Alloc b C : creachable C -> creachable (Cache_Alloc b C).2
  | creach_Get id fileNum offset C h C' :
      creachable C -> Cache_Get id fileNum offset C = Ok (h, C') ->
      creachable C'
  | creach_Set fuel id fileNum offset v C h C' :
      creachable C -> Cache_Set fuel id fileNum offset v C = Ok (h, C') ->
      creachable C'
  | creach_Delete id fileNum offset C C' :
      creachable C -> Cache_Delete id fileNum offset C = Ok C' ->
      creachable C'
  | creach_EvictFile fuel id fileNum C C' :
      creachable C -> Cache_EvictFile fuel id fileNum C = Ok C' ->
      creachable C'
  | creach_Reserve fuel n C r C' :
      creachable C -> Cache_Reserve fuel n C = Ok (r, C') -> creachable C'
  | creach_Unreserve fuel shardN C r C' :
      creachable C -> Unreserve fuel shardN C = Ok (r, C') -> creachable C'
  | creach_Ref C C' : creachable C -> Ref C = Ok C' -> creachable C'
  | creach_Unref fuel C C' :
      creachable C -> Unref fuel C = Ok C' -> 0 < cache_refs C' ->
      creachable C'
  | creach_NewID C : creachable C -> creachable (NewID C).2.

(** * Verification *)

(** ** 64-bit integers *)

Lemma wrap64_id z : - 2 ^ 63 <= z < 2 ^ 63 -> wrap64 z = z.
Proof. intros H. unfold wrap64. rewrite Z.mod_small; lia. Qed.

Lemma wrap64_range z : - 2 ^ 63 <= wrap64 z < 2 ^ 63.
Proof.
  unfold wrap64. pose proof (Z.mod_pos_bound (z + 2 ^ 63) (2 ^ 64)). lia.
Qed.

Lemma wrap64_congr a b : a mod 2 ^ 64 = b mod 2 ^ 64 -> wrap64 a = wrap64 b.
Proof.
  intros H. unfold wrap64. f_equal.
  rewrite (Z.add_mod a), (Z.add_mod b) by lia. by rewrite H.
Qed.

Lemma wrap64_mod z : wrap64 z mod 2 ^ 64 = z mod 2 ^ 64.
Proof.
  unfold wrap64.
  rewrite <-(Zminus_mod_idemp_l ((z + 2 ^ 63) mod 2 ^ 64)), Z.mod_mod by lia.
  rewrite Zminus_mod_idemp_l. f_equal. lia.
Qed.

Lemma wrap64_add_l a b : wrap64 (wrap64 a + b) = wrap64 (a + b).
Proof.
  apply wrap64_congr.
  by rewrite (Z.add_mod (wrap64 a)), wrap64_mod, <-Z.add_mod by lia.
Qed.

Lemma wrap64_add_r a b : wrap64 (a + wrap64 b) = wrap64 (a + b).
Proof. by rewrite (Z.add_comm a), wrap64_add_l, Z.add_comm. Qed.

Lemma wrap64_sub_r a b : wrap64 (a - wrap64 b) = wrap64 (a - b).
Proof.
  apply wrap64_congr.
  by rewrite (Zminus_mod a (wrap64 b)), wrap64_mod, <-Zminus_mod.
Qed.

(** ** Circular doubly linked lists over an arena

    A ring is described by the two link fields seen as partial functions
    on addresses, and by the list of its nodes in [next] order, starting
    anywhere. The same theory serves the shard ring and the file rings. *)

(** The last node of [a :: l]. *)
Fixpoint last_of (a : ptr) (l : list ptr) : ptr :=
  match l with
  | [] => a
  | b :: l' => last_of b l'
  end.

Lemma last_of_app a l b : last_of a (l ++ [b]) = b.
Proof. revert a; induction l as [|x l IH]; intros a; simpl; auto. Qed.

Lemma last_of_in a l : last_of a l ∈ a :: l.
Proof.
  revert a; induction l as [|x l IH]; intros a; simpl.
  - set_solver.
  - specialize (IH x). set_solver.
Qed.

Section rings.
Context (nx pv : ptr -> option ptr).

Definition linked (a b : ptr) : Prop := nx a = Some b /\ pv b = Some a.

Fixpoint path (a : ptr) (l : list ptr) : Prop :=
  match l with
  | [] => True
  | b :: l' => linked a b /\ path b l'
  end.

Definition ring (l : list ptr) : Prop :=
  match l with
  | [] => True
  | a :: l' => path a l' /\ linked (last_of a l') a
  end.

Lemma path_app a l1 l2 :
  path a (l1 ++ l2) <-> path a l1 /\ path (last_of a l1) l2.
Proof.
  revert a; induction l1 as [|x l1 IH]; intros a; simpl.
  - tauto.
  - rewrite IH. tauto.
Qed.

Lemma ring_rotate a l : ring (a :: l) -> ring (l ++ [a]).
Proof.
  destruct l as [|b l]; simpl; [tauto|].
  intros [[Hab Hp] Hl]. rewrite last_of_app. split; [|done].
  apply path_app. simpl. tauto.
Qed.

Lemma ring_rotate_to l p :
  ring l -> p ∈ l -> exists l', ring (p :: l') /\ l ≡ₚ p :: l'.
Proof.
  intros Hr Hin. apply list_elem_of_split in Hin as (l1 & l2 & ->).
  revert l2 Hr. induction l1 as [|a l1 IH]; intros l2 Hr.
  - exists l2. split; [done|reflexivity].
  - apply ring_rotate in Hr. simpl in Hr.
    rewrite <-app_assoc in Hr. simpl in Hr.
    destruct (IH _ Hr) as (l' & Hr' & Hp).
    exists l'. split; [done|].
    rewrite <-Hp. simpl.
    etrans; [apply Permutation_cons_append|].
    by rewrite <-app_assoc.
Qed.

Lemma path_next_in a l p :
  path a l -> p ∈ a :: l -> p <> last_of a l ->
  exists q, nx p = Some q /\ q ∈ l.
Proof.
  revert a; induction l as [|b l IH]; intros a; simpl.
  - intros _ ->%list_elem_of_singleton; done.
  - intros [[Hn _] Hp] Hin Hne.
    apply elem_of_cons in Hin as [->|Hin].
    + exists b. split; [done|set_solver].
    + destruct (IH b Hp Hin Hne) as (q & ? & ?). exists q. set_solver.
Qed.

Lemma path_prev_in a l p :
  path a l -> p ∈ l -> exists q, pv p = Some q /\ q ∈ a :: l.
Proof.
  revert a; induction l as [|b l IH]; intros a; simpl.
  - intros _ Hin. by apply elem_of_nil in Hin.
  - intros [[_ Hv] Hp] Hin.
    apply elem_of_cons in Hin as [->|Hin].
    + exists a. split; [done|set_solver].
    + destruct (IH b Hp Hin) as (q & ? & ?). exists q. set_solver.
Qed.

Lemma ring_next_in l p :
  ring l -> p ∈ l -> exists q, nx p = Some q /\ q ∈ l.
Proof.
  destruct l as [|a l]; simpl; [set_solver|].
  intros [Hp [Hl _]] Hin.
  destruct (decide (p = last_of a l)) as [->|Hne].
  - exists a. split; [done|set_solver].
  - destruct (path_next_in a l p Hp Hin Hne) as (q & ? & ?).
    exists q. set_solver.
Qed.

Lemma ring_prev_in l p :
  ring l -> p ∈ l -> exists q, pv p = Some q /\ q ∈ l.
Proof.
  destruct l as [|a l]; simpl; [set_solver|].
  intros [Hp [_ Hl]] Hin.
  apply elem_of_cons in Hin as [->|Hin].
  - exists (last_of a l). split; [done|apply last_of_in].
  - destruct (path_prev_in a l p Hp Hin) as (q & ? & ?). by exists q.
Qed.

(** A node that is its own successor, or its own predecessor, is alone
    in its ring. *)
Lemma ring_self_next l p :
  NoDup l -> ring l -> p ∈ l -> nx p = Some p -> l = [p].
Proof.
  intros Hnd Hr Hin Hself.
  destruct (ring_rotate_to l p Hr Hin) as (l' & Hr' & Hperm).
  rewrite Hperm in Hnd.
  destruct l' as [|b l'].
  - by apply Permutation_singleton_r in Hperm.
  - simpl in Hr'. destruct Hr' as [[[Hn _] _] _].
    rewrite Hself in Hn. injection Hn as <-.
    apply NoDup_cons in Hnd as [Hnd _]. set_solver.
Qed.

Lemma ring_self_prev l p :
  NoDup l -> ring l -> p ∈ l -> pv p = Some p -> l = [p].
Proof.
  intros Hnd Hr Hin Hself.
  destruct (ring_rotate_to l p Hr Hin) as (l' & Hr' & Hperm).
  rewrite Hperm in Hnd.
  destruct l' as [|b l'].
  - by apply Permutation_singleton_r in Hperm.
  - simpl in Hr'. destruct Hr' as [_ [_ Hv]].
    rewrite Hself in Hv. injection Hv as Hv.
    apply NoDup_cons in Hnd as [Hnd _].
    pose proof (last_of_in b l') as Hl. rewrite <-Hv in Hl. set_solver.
Qed.
End rings.

Lemma path_frame nx pv nx' pv' a l :
  NoDup (a :: l) ->
  (forall x, x ∈ a :: l -> x <> last_of a l -> nx' x = nx x) ->
  (forall y, y ∈ l -> pv' y = pv y) ->
  path nx pv a l -> path nx' pv' a l.
Proof.
  revert a; induction l as [|b l IH]; intros a Hnd Hnx Hpv; simpl; [done|].
  intros [[Hn Hv] Hp].
  apply NoDup_cons in Hnd as [Ha Hnd].
  split; [split|].
  - rewrite Hnx; [done|set_solver|].
    simpl. intros Heq. apply Ha. rewrite Heq. apply last_of_in.
  - rewrite Hpv; [done|set_solver].
  - apply IH; [done| |intros; apply Hpv; set_solver|done].
    intros x Hx Hne. apply Hnx; [set_solver|done].
Qed.

Lemma ring_frame nx pv nx' pv' l :
  (forall x, x ∈ l -> nx' x = nx x /\ pv' x = pv x) ->
  ring nx pv l -> ring nx' pv' l.
Proof.
  intros Hsame. destruct l as [|a l]; simpl; [done|].
  assert (forall b m, (forall x, x ∈ b :: m -> x ∈ a :: l) ->
            path nx pv b m -> path nx' pv' b m) as Hpath.
  { intros b m; revert b; induction m as [|y m IH]; intros b Hsub; simpl;
      [done|].
    intros [[Hn Hv] Hp].
    destruct (Hsame b) as [Hb _]; [apply Hsub; set_solver|].
    destruct (Hsame y) as [_ Hy]; [apply Hsub; set_solver|].
    split; [split; congruence|].
    apply IH; [|done]. intros x Hx. apply Hsub. set_solver. }
  intros [Hp [Hn Hv]]. split; [by apply Hpath|].
  destruct (Hsame (last_of a l)) as [Hb _]; [apply last_of_in|].
  destruct (Hsame a) as [_ Hy]; [set_solver|].
  split; congruence.
Qed.

(** Taking the head node out of a ring. *)
Lemma ring_unlink nx pv nx' pv' e l n0 p0 :
  NoDup (e :: l) ->
  ring nx pv (e :: l) ->
  nx e = Some n0 -> pv e = Some p0 ->
  (forall x, x <> e -> x <> p0 -> nx' x = nx x) ->
  (forall x, x <> e -> x <> n0 -> pv' x = pv x) ->
  (p0 <> e -> nx' p0 = Some n0) ->
  (n0 <> e -> pv' n0 = Some p0) ->
  ring nx' pv' l.
Proof.
  intros Hnd Hr Hne Hpe Hnx Hpv Hnp Hpn.
  destruct l as [|b m]; [done|].
  simpl in Hr. destruct Hr as [[[Hn Hv] Hp] [Hln Hlv]].
  assert (n0 = b) as -> by congruence.
  assert (p0 = last_of b m) as -> by congruence.
  apply NoDup_cons in Hnd as [He Hnd].
  pose proof (last_of_in b m) as Hlast.
  simpl. split.
  - apply (path_frame nx pv); [done| | |done].
    + intros x Hx Hxl. apply Hnx; [set_solver|done].
    + intros y Hy. apply Hpv; [set_solver|].
      apply NoDup_cons in Hnd as [Hb _]. set_solver.
  - split.
    + apply Hnp. set_solver.
    + apply Hpn. set_solver.
Qed.

(** Putting an outside node [s] just before the head node [h]. *)
Lemma ring_link nx pv nx' pv' h l s p0 :
  NoDup (h :: l) -> s ∉ h :: l ->
  ring nx pv (h :: l) ->
  pv h = Some p0 ->
  (forall x, x <> s -> x <> p0 -> nx' x = nx x) ->
  (forall x, x <> s -> x <> h -> pv' x = pv x) ->
  nx' p0 = Some s -> nx' s = Some h ->
  pv' s = Some p0 -> pv' h = Some s ->
  ring nx' pv' (h :: l ++ [s]).
Proof.
  intros Hnd Hs Hr Hph Hnx Hpv H1 H2 H3 H4.
  simpl in Hr. destruct Hr as [Hp [Hln Hlv]].
  assert (p0 = last_of h l) as -> by congruence.
  pose proof (last_of_in h l) as Hlast.
  simpl. rewrite last_of_app. split; [|done].
  apply path_app. split.
  - apply (path_frame nx pv); [done| | |done].
    + intros x Hx Hxl. apply Hnx; [set_solver|done].
    + intros y Hy. apply NoDup_cons in Hnd as [Hh _].
      apply Hpv; set_solver.
  - simpl. done.
Qed.

Lemma ring_single nx pv s :
  nx s = Some s -> pv s = Some s -> ring nx pv [s].
Proof. simpl. unfold linked. tauto. Qed.

(** ** Reading and writing the arena *)

Lemma bind_Ok {A B} (m : res A) (k : A -> res B) b :
  bind m k = Ok b <-> exists a, m = Ok a /\ k a = Ok b.
Proof.
  destruct m; simpl; split; try (intros (? & ? & ?)); try done.
  - intros. by eexists.
  - intros. by simplify_eq.
Qed.

Lemma getE_Ok p c e : getE p c = Ok e <-> mem_entries c !! p = Some e.
Proof. unfold getE. destruct (mem_entries c !! p); split; congruence. Qed.

Lemma getV_Ok v c x : getV v c = Ok x <-> mem_values c !! v = Some x.
Proof. unfold getV. destruct (mem_values c !! v); split; congruence. Qed.

Lemma modE_Ok p f c c' :
  modE p f c = Ok c' <->
  exists e, mem_entries c !! p = Some e /\ c' = setE p (f e) c.
Proof.
  unfold modE, getE. destruct (mem_entries c !! p); simpl; split.
  - intros [= <-]. by eexists.
  - intros (? & [= <-] & ->). done.
  - done.
  - intros (? & ? & _). done.
Qed.

(** Symbolic execution of straight-line code: split every successful
    [bind], and turn successful reads and writes into arena facts. *)
Ltac inv_ok :=
  repeat match goal with
    | H : bind _ _ = Ok _ |- _ =>
        apply bind_Ok in H; destruct H as (? & ? & H)
    | H : getE _ _ = Ok _ |- _ => apply getE_Ok in H
    | H : getV _ _ = Ok _ |- _ => apply getV_Ok in H
    | H : modE _ _ _ = Ok _ |- _ =>
        apply modE_Ok in H; destruct H as (? & ? & ->)
    | H : Ok _ = Ok _ |- _ => injection H as H
    | H : Panic = Ok _ |- _ => discriminate H
    | H : OutOfFuel = Ok _ |- _ => discriminate H
    end.

(** [upd_at p f x] is the change that [p.field = ...] makes to the entry
    stored at address [x]. *)
Definition upd_at (p : ptr) (f : entry -> entry) (x : ptr) : entry -> entry :=
  if decide (x = p) then f else fun e => e.

Lemma lookup_alter_at f p (h : gmap ptr entry) x :
  alter f p h !! x = upd_at p f x <$> h !! x.
Proof.
  rewrite lookup_alter. unfold upd_at.
  repeat case_decide; try congruence. by destruct (h !! x).
Qed.

Lemma modE_eq p f c :
  modE p f c =
  match mem_entries c !! p with
  | Some _ => Ok (set_entries (alter f p (mem_entries c)) c)
  | None => Panic
  end.
Proof.
  unfold modE, getE, setE.
  destruct (mem_entries c !! p) as [e|] eqn:He; simpl; [|done].
  do 2 f_equal. apply map_eq. intros x.
  rewrite lookup_alter, lookup_insert.
  case_decide; subst; [by rewrite He|done].
Qed.

(** The entry stored at [x] after [unlink e], as a function of the entry
    stored there before; [p0] and [n0] are the former neighbours of [e]. *)
Definition unlinked (e p0 n0 x : ptr) (ex : entry) : entry :=
  upd_at e (fun y => set_blockNext e (set_blockPrev e y)) x
    (upd_at n0 (set_blockPrev p0) x
       (upd_at p0 (set_blockNext n0) x ex)).

Lemma unlink_char e c ee :
  mem_entries c !! e = Some ee ->
  is_Some (mem_entries c !! e_blockPrev ee) ->
  is_Some (mem_entries c !! e_blockNext ee) ->
  exists h',
    unlink e c = Ok (e_blockNext ee, set_entries h' c) /\
    forall x, h' !! x =
      unlinked e (e_blockPrev ee) (e_blockNext ee) x <$> mem_entries c !! x.
Proof.
  intros He [ep Hp] [en Hn].
  unfold unlink. unfold getE at 1. rewrite He. simpl.
  rewrite modE_eq, Hp. simpl.
  unfold getE. simpl. rewrite lookup_alter_at, He. simpl.
  assert (e_blockNext (upd_at (e_blockPrev ee) (set_blockNext (e_blockNext ee)) e ee)
          = e_blockNext ee) as ->
    by (unfold upd_at; case_decide; done).
  assert (e_blockPrev (upd_at (e_blockPrev ee) (set_blockNext (e_blockNext ee)) e ee)
          = e_blockPrev ee) as ->
    by (unfold upd_at; case_decide; done).
  rewrite modE_eq. simpl. rewrite lookup_alter_at, Hn. simpl.
  rewrite modE_eq. simpl. rewrite !lookup_alter_at, He. simpl.
  eexists. split; [done|].
  intros x. rewrite !lookup_alter_at. unfold unlinked.
  by destruct (mem_entries c !! x).
Qed.

(** The entry stored at [x] after [e.link(s)]; [p0] is the former
    predecessor of [e]. *)
Definition linked_in (e s p0 x : ptr) (ex : entry) : entry :=
  upd_at e (set_blockPrev s) x
    (upd_at s (set_blockNext e) x
       (upd_at p0 (set_blockNext s) x
          (upd_at s (set_blockPrev p0) x ex))).

Lemma link_char e s c ee :
  mem_entries c !! e = Some ee ->
  is_Some (mem_entries c !! s) ->
  is_Some (mem_entries c !! e_blockPrev ee) ->
  exists h',
    link e s c = Ok (set_entries h' c) /\
    forall x, h' !! x = linked_in e s (e_blockPrev ee) x <$> mem_entries c !! x.
Proof.
  intros He [es Hs] [ep Hp].
  unfold link. unfold getE at 1. rewrite He. simpl.
  rewrite modE_eq, Hs. simpl.
  rewrite modE_eq. simpl. rewrite lookup_alter_at, Hp. simpl.
  rewrite modE_eq. simpl. rewrite !lookup_alter_at, Hs. simpl.
  rewrite modE_eq. simpl. rewrite !lookup_alter_at, He. simpl.
  eexists. split; [done|].
  intros x. rewrite !lookup_alter_at. unfold linked_in.
  by destruct (mem_entries c !! x).
Qed.

(** The same for the file ring. *)
Definition unlinkedFile (e p0 n0 x : ptr) (ex : entry) : entry :=
  upd_at e (fun y => set_fileNext e (set_filePrev e y)) x
    (upd_at n0 (set_filePrev p0) x
       (upd_at p0 (set_fileNext n0) x ex)).

Lemma unlinkFile_char e c ee :
  mem_entries c !! e = Some ee ->
  is_Some (mem_entries c !! e_filePrev ee) ->
  is_Some (mem_entries c !! e_fileNext ee) ->
  exists h',
    unlinkFile e c = Ok (e_fileNext ee, set_entries h' c) /\
    forall x, h' !! x =
      unlinkedFile e (e_filePrev ee) (e_fileNext ee) x <$> mem_entries c !! x.
Proof.
  intros He [ep Hp] [en Hn].
  unfold unlinkFile. unfold getE at 1. rewrite He. simpl.
  rewrite modE_eq, Hp. simpl.
  unfold getE. simpl. rewrite lookup_alter_at, He. simpl.
  assert (e_fileNext (upd_at (e_filePrev ee) (set_fileNext (e_fileNext ee)) e ee)
          = e_fileNext ee) as ->
    by (unfold upd_at; case_decide; done).
  assert (e_filePrev (upd_at (e_filePrev ee) (set_fileNext (e_fileNext ee)) e ee)
          = e_filePrev ee) as ->
    by (unfold upd_at; case_decide; done).
  rewrite modE_eq. simpl. rewrite lookup_alter_at, Hn. simpl.
  rewrite modE_eq. simpl. rewrite !lookup_alter_at, He. simpl.
  eexists. split; [done|].
  intros x. rewrite !lookup_alter_at. unfold unlinkedFile.
  by destruct (mem_entries c !! x).
Qed.

Definition linkedFile_in (e s p0 x : ptr) (ex : entry) : entry :=
  upd_at e (set_filePrev s) x
    (upd_at s (set_fileNext e) x
       (upd_at p0 (set_fileNext s) x
          (upd_at s (set_filePrev p0) x ex))).

Lemma linkFile_char e s c ee :
  mem_entries c !! e = Some ee ->
  is_Some (mem_entries c !! s) ->
  is_Some (mem_entries c !! e_filePrev ee) ->
  exists h',
    linkFile e s c = Ok (set_entries h' c) /\
    forall x, h' !! x =
      linkedFile_in e s (e_filePrev ee) x <$> mem_entries c !! x.
Proof.
  intros He [es Hs] [ep Hp].
  unfold linkFile. unfold getE at 1. rewrite He. simpl.
  rewrite modE_eq, Hs. simpl.
  rewrite modE_eq. simpl. rewrite lookup_alter_at, Hp. simpl.
  rewrite modE_eq. simpl. rewrite !lookup_alter_at, Hs. simpl.
  rewrite modE_eq. simpl. rewrite !lookup_alter_at, He. simpl.
  eexists. split; [done|].
  intros x. rewrite !lookup_alter_at. unfold linkedFile_in.
  by destruct (mem_entries c !! x).
Qed.

(** ** Characterisation of [metaDel] *)

(** A hand that points at the deleted entry steps back to its
    predecessor. *)
Definition retreat (e p0 : ptr) (h : option ptr) : option ptr :=
  if decide (h = Some e) then Some p0 else h.

Definition metaDel_entry (e : ptr) (ee : entry) (x : ptr) (ex : entry) : entry :=
  unlinkedFile e (e_filePrev ee) (e_fileNext ee) x
    (unlinked e (e_blockPrev ee) (e_blockNext ee) x
       (upd_at e (set_val None) x ex)).

Definition metaDel_hand (e : ptr) (ee : entry) (h : option ptr) : option ptr :=
  if decide (e_blockNext ee = e) then None else retreat e (e_blockPrev ee) h.

Definition metaDel_files (e : ptr) (ee : entry) (m : gmap key ptr) : gmap key ptr :=
  if decide (e = e_fileNext ee) then delete (file (e_key ee)) m
  else <[file (e_key ee) := e_fileNext ee]> m.

Definition metaDel_state (e : ptr) (ee : entry) (h' : gmap ptr entry) (c : shard)
  : shard :=
  set_files (metaDel_files e ee (files c))
    (set_handTest (metaDel_hand e ee (handTest c))
       (set_handCold (metaDel_hand e ee (handCold c))
          (set_handHot (metaDel_hand e ee (handHot c))
             (set_blocks (delete (e_key ee) (blocks c))
                (set_entries h' c))))).

Lemma retreatHands_char e c ee :
  mem_entries c !! e = Some ee ->
  retreatHands e c =
  Ok (set_handTest (retreat e (e_blockPrev ee) (handTest c))
        (set_handCold (retreat e (e_blockPrev ee) (handCold c))
           (set_handHot (retreat e (e_blockPrev ee) (handHot c)) c))).
Proof.
  intros He. unfold retreatHands, retreat, prev, getE.
  destruct c as [h m r mx ct b f hh hc ht sh sc st ch cc cx me mv].
  simpl in *.
  repeat (case_decide; subst; simpl; rewrite ?He; simpl); done.
Qed.

Lemma metaDel_char e c ee :
  mem_entries c !! e = Some ee ->
  is_Some (mem_entries c !! e_blockPrev ee) ->
  is_Some (mem_entries c !! e_blockNext ee) ->
  is_Some (mem_entries c !! e_filePrev ee) ->
  is_Some (mem_entries c !! e_fileNext ee) ->
  exists h',
    metaDel e c = Ok (e_val ee, metaDel_state e ee h' c) /\
    forall x, h' !! x = metaDel_entry e ee x <$> mem_entries c !! x.
Proof.
  intros He Hbp Hbn Hfp Hfn.
  unfold metaDel. unfold getE at 1. rewrite He. simpl.
  set (c1 := set_blocks _ _).
  assert (forall x, mem_entries c1 !! x
                    = upd_at e (set_val None) x <$> mem_entries c !! x) as H1.
  { intros x. subst c1. simpl. rewrite lookup_insert. unfold upd_at.
    case_decide; subst; [by rewrite decide_True, He|].
    rewrite decide_False by done. by destruct (mem_entries c !! x). }
  assert (mem_entries c1 !! e = Some (set_val None ee)) as He1.
  { rewrite H1, He. unfold upd_at. by rewrite decide_True. }
  rewrite (retreatHands_char e c1 _ He1). simpl.
  set (c2 := set_handTest _ _).
  edestruct (unlink_char e c2 _ He1) as (h3 & -> & H3).
  { simpl. rewrite H1. by apply fmap_is_Some. }
  { simpl. rewrite H1. by apply fmap_is_Some. }
  simpl.
  change (mem_entries c2) with (mem_entries c1) in H3.
  change (e_blockPrev (set_val None ee)) with (e_blockPrev ee) in H3.
  change (e_blockNext (set_val None ee)) with (e_blockNext ee) in H3.
  set (c3 := if decide _ then _ else _).
  assert (mem_entries c3 = h3) as Hh3 by (subst c3; by case_decide).
  assert (h3 !! e = Some (unlinked e (e_blockPrev ee) (e_blockNext ee) e
                            (set_val None ee))) as He3.
  { rewrite H3. by rewrite He1. }
  edestruct (unlinkFile_char e c3) as (h4 & -> & H4).
  { rewrite Hh3. exact He3. }
  { rewrite Hh3, H3, H1. do 2 apply fmap_is_Some.
    unfold unlinked, upd_at. repeat case_decide; simpl; done. }
  { rewrite Hh3, H3, H1. do 2 apply fmap_is_Some.
    unfold unlinked, upd_at. repeat case_decide; simpl; done. }
  simpl.
  assert (e_fileNext (unlinked e (e_blockPrev ee) (e_blockNext ee) e
                        (set_val None ee)) = e_fileNext ee) as Efn
    by (unfold unlinked, upd_at; repeat case_decide; done).
  assert (e_filePrev (unlinked e (e_blockPrev ee) (e_blockNext ee) e
                        (set_val None ee)) = e_filePrev ee) as Efp
    by (unfold unlinked, upd_at; repeat case_decide; done).
  exists h4. split.
  - f_equal. f_equal. rewrite Efn.
    unfold metaDel_state, metaDel_files, metaDel_hand.
    subst c3 c2 c1. simpl.
    repeat case_decide; try congruence; reflexivity.
  - intros x. rewrite H4, Hh3, H3, H1.
    rewrite Efn, Efp. unfold metaDel_entry.
    by destruct (mem_entries c !! x).
Qed.

Lemma metaDel_entry_key e ee x ex : e_key (metaDel_entry e ee x ex) = e_key ex.
Proof.
  unfold metaDel_entry, unlinkedFile, unlinked, upd_at.
  repeat case_decide; done.
Qed.

Lemma metaDel_entry_blockNext e ee x ex :
  e_blockNext (metaDel_entry e ee x ex) =
  if decide (x = e) then e
  else if decide (x = e_blockPrev ee) then e_blockNext ee else e_blockNext ex.
Proof.
  unfold metaDel_entry, unlinkedFile, unlinked, upd_at.
  repeat case_decide; done.
Qed.

Lemma metaDel_entry_blockPrev e ee x ex :
  e_blockPrev (metaDel_entry e ee x ex) =
  if decide (x = e) then e
  else if decide (x = e_blockNext ee) then e_blockPrev ee else e_blockPrev ex.
Proof.
  unfold metaDel_entry, unlinkedFile, unlinked, upd_at.
  repeat case_decide; done.
Qed.

Lemma metaDel_entry_fileNext e ee x ex :
  e_fileNext (metaDel_entry e ee x ex) =
  if decide (x = e) then e
  else if decide (x = e_filePrev ee) then e_fileNext ee else e_fileNext ex.
Proof.
  unfold metaDel_entry, unlinkedFile, unlinked, upd_at.
  repeat case_decide; done.
Qed.

Lemma metaDel_entry_filePrev e ee x ex :
  e_filePrev (metaDel_entry e ee x ex) =
  if decide (x = e) then e
  else if decide (x = e_fileNext ee) then e_filePrev ee else e_filePrev ex.
Proof.
  unfold metaDel_entry, unlinkedFile, unlinked, upd_at.
  repeat case_decide; done.
Qed.

Lemma metaDel_entry_val e ee x ex :
  e_val (metaDel_entry e ee x ex) = if decide (x = e) then None else e_val ex.
Proof.
  unfold metaDel_entry, unlinkedFile, unlinked, upd_at.
  repeat case_decide; done.
Qed.

Lemma metaDel_entry_size e ee x ex : e_size (metaDel_entry e ee x ex) = e_size ex.
Proof.
  unfold metaDel_entry, unlinkedFile, unlinked, upd_at.
  repeat case_decide; done.
Qed.

Lemma metaDel_entry_ptype e ee x ex :
  e_ptype (metaDel_entry e ee x ex) = e_ptype ex.
Proof.
  unfold metaDel_entry, unlinkedFile, unlinked, upd_at.
  repeat case_decide; done.
Qed.

Lemma metaDel_entry_referenced e ee x ex :
  e_referenced (metaDel_entry e ee x ex) = e_referenced ex.
Proof.
  unfold metaDel_entry, unlinkedFile, unlinked, upd_at.
  repeat case_decide; done.
Qed.

(** ** The structure of a shard

    [fld f c] views one field of the arena as a partial function on
    addresses. [Struct c l] says that [l] lists the nodes of the shard ring
    in order, that the hands point into it, and that the two maps describe
    it: [blocks] maps each key to its node, and for every file the file
    ring gathers exactly the nodes of that file, with [files] pointing at
    one of them. *)

Definition fld {A : Type} (f : entry -> A) (c : shard) (p : ptr) : option A :=
  f <$> mem_entries c !! p.

Definition fileOf (e : entry) : key := file (e_key e).

Definition hands_in (c : shard) (l : list ptr) : Prop :=
  match l with
  | [] => handHot c = None /\ handCold c = None /\ handTest c = None
  | _ => exists a b d,
      handHot c = Some a /\ handCold c = Some b /\ handTest c = Some d /\
      a ∈ l /\ b ∈ l /\ d ∈ l
  end.

Definition file_ring (c : shard) (l : list ptr) (fk : key) (lf : list ptr) : Prop :=
  NoDup lf /\
  ring (fld e_fileNext c) (fld e_filePrev c) lf /\
  (forall p, p ∈ lf <-> p ∈ l /\ fld fileOf c p = Some fk) /\
  match files c !! fk with
  | Some p => p ∈ lf
  | None => lf = []
  end.

Record Struct (c : shard) (l : list ptr) : Prop := {
  st_nodup : NoDup l;
  st_ring : ring (fld e_blockNext c) (fld e_blockPrev c) l;
  st_hands : hands_in c l;
  st_blocks : forall k p,
    blocks c !! k = Some p <-> p ∈ l /\ fld e_key c p = Some k;
  st_files : forall fk, exists lf, file_ring c l fk lf
}.

Lemma fld_Some {A} (f : entry -> A) c p a :
  fld f c p = Some a <-> exists e, mem_entries c !! p = Some e /\ f e = a.
Proof.
  unfold fld. destruct (mem_entries c !! p) as [e|]; simpl; split.
  - intros [= <-]. by exists e.
  - intros (? & [= <-] & <-). done.
  - done.
  - intros (? & ? & _). done.
Qed.

Lemma Struct_alloc c l p :
  Struct c l -> p ∈ l -> is_Some (mem_entries c !! p).
Proof.
  intros S Hin.
  destruct (ring_next_in _ _ _ _ (st_ring _ _ S) Hin) as (q & Hq & _).
  apply fld_Some in Hq as (e & -> & _). by eexists.
Qed.

Lemma Struct_links c l p e :
  Struct c l -> p ∈ l -> mem_entries c !! p = Some e ->
  e_blockNext e ∈ l /\ e_blockPrev e ∈ l /\
  is_Some (mem_entries c !! e_blockNext e) /\
  is_Some (mem_entries c !! e_blockPrev e).
Proof.
  intros S Hin He.
  destruct (ring_next_in _ _ _ _ (st_ring _ _ S) Hin) as (q & Hq & Hql).
  destruct (ring_prev_in _ _ _ _ (st_ring _ _ S) Hin) as (r & Hr & Hrl).
  unfold fld in Hq, Hr. rewrite He in Hq, Hr. simpl in *.
  injection Hq as ->. injection Hr as ->.
  repeat split; eauto using Struct_alloc.
Qed.

Lemma Struct_file_links c l p e :
  Struct c l -> p ∈ l -> mem_entries c !! p = Some e ->
  is_Some (mem_entries c !! e_fileNext e) /\
  is_Some (mem_entries c !! e_filePrev e).
Proof.
  intros S Hin He.
  destruct (st_files _ _ S (fileOf e)) as (lf & Hnd & Hr & Hmem & _).
  assert (p ∈ lf) as Hp.
  { apply Hmem. split; [done|]. unfold fld. by rewrite He. }
  destruct (ring_next_in _ _ _ _ Hr Hp) as (q & Hq & Hql).
  destruct (ring_prev_in _ _ _ _ Hr Hp) as (r & Hrr & Hrl).
  unfold fld in Hq, Hrr. rewrite He in Hq, Hrr. simpl in *.
  injection Hq as ->. injection Hrr as ->.
  apply Hmem in Hql as [? _]. apply Hmem in Hrl as [? _].
  split; eauto using Struct_alloc.
Qed.

Lemma Struct_key_inj c l p q k :
  Struct c l -> p ∈ l -> q ∈ l ->
  fld e_key c p = Some k -> fld e_key c q = Some k -> p = q.
Proof.
  intros S Hp Hq Hkp Hkq.
  assert (blocks c !! k = Some p) as H1 by (by apply (st_blocks _ _ S)).
  assert (blocks c !! k = Some q) as H2 by (by apply (st_blocks _ _ S)).
  congruence.
Qed.

Lemma fld_metaDel_state {A} (f : entry -> A) e ee h' c x :
  (forall x, h' !! x = metaDel_entry e ee x <$> mem_entries c !! x) ->
  fld f (metaDel_state e ee h' c) x =
  (fun ex => f (metaDel_entry e ee x ex)) <$> mem_entries c !! x.
Proof.
  intros Hh. unfold fld. simpl. rewrite Hh.
  by destruct (mem_entries c !! x).
Qed.

Lemma fld_metaDel_other {A} (f : entry -> A) e ee h' c x :
  (forall x, h' !! x = metaDel_entry e ee x <$> mem_entries c !! x) ->
  (forall ex, f (metaDel_entry e ee x ex) = f ex) ->
  fld f (metaDel_state e ee h' c) x = fld f c x.
Proof.
  intros Hh Hf. rewrite (fld_metaDel_state f e ee h' c x Hh).
  unfold fld. destruct (mem_entries c !! x); simpl; [by rewrite Hf|done].
Qed.

Lemma metaDel_Struct c l e :
  Struct c l -> e ∈ l ->
  exists ee h' l',
    mem_entries c !! e = Some ee /\
    metaDel e c = Ok (e_val ee, metaDel_state e ee h' c) /\
    (forall x, h' !! x = metaDel_entry e ee x <$> mem_entries c !! x) /\
    l ≡ₚ e :: l' /\
    Struct (metaDel_state e ee h' c) l'.
Proof.
  intros S Hin.
  destruct (Struct_alloc c l e S Hin) as [ee He].
  destruct (Struct_links c l e ee S Hin He) as (Hnl & Hpl & Hbn & Hbp).
  destruct (Struct_file_links c l e ee S Hin He) as (Hfn & Hfp).
  destruct (metaDel_char e c ee He Hbp Hbn Hfp Hfn) as (h' & Hrun & Hh).
  destruct (ring_rotate_to _ _ l e (st_ring _ _ S) Hin) as (l' & Hr & Hperm).
  exists ee, h', l'. repeat (split; [done|]).
  pose proof (st_nodup _ _ S) as Hnd. rewrite Hperm in Hnd.
  pose proof Hnd as Hnd'. apply NoDup_cons in Hnd' as [Hel' Hndl'].
  assert (forall x, x ∈ l' -> x ∈ l) as Hsub by (intros; rewrite Hperm; set_solver).
  assert (forall x, x ∈ l -> x <> e -> x ∈ l') as Hsup.
  { intros x Hx Hne. rewrite Hperm in Hx. set_solver. }
  assert (fld e_blockNext c e = Some (e_blockNext ee)) as Hne
    by (unfold fld; by rewrite He).
  assert (fld e_blockPrev c e = Some (e_blockPrev ee)) as Hpe
    by (unfold fld; by rewrite He).
  (* the ring is a one-node ring exactly when [e] is its own neighbour *)
  assert (e_blockNext ee = e -> l' = []) as Hsingle.
  { intros Heq. rewrite Heq in Hne.
    pose proof (ring_self_next _ _ l e (st_nodup _ _ S) (st_ring _ _ S) Hin Hne)
      as Hl.
    rewrite Hl in Hperm. apply Permutation_cons_inv in Hperm.
    by apply Permutation_nil_l in Hperm. }
  assert (e_blockPrev ee = e -> l' = []) as Hsingle'.
  { intros Heq. rewrite Heq in Hpe.
    pose proof (ring_self_prev _ _ l e (st_nodup _ _ S) (st_ring _ _ S) Hin Hpe)
      as Hl.
    rewrite Hl in Hperm. apply Permutation_cons_inv in Hperm.
    by apply Permutation_nil_l in Hperm. }
  split.
  - done.
  - (* shard ring *)
    eapply (ring_unlink (fld e_blockNext c) (fld e_blockPrev c)); eauto.
    + intros x H1 H2. rewrite (fld_metaDel_state _ _ _ _ _ _ Hh). unfold fld.
      destruct (mem_entries c !! x); simpl; [|done].
      rewrite metaDel_entry_blockNext. by rewrite !decide_False.
    + intros x H1 H2. rewrite (fld_metaDel_state _ _ _ _ _ _ Hh). unfold fld.
      destruct (mem_entries c !! x); simpl; [|done].
      rewrite metaDel_entry_blockPrev. by rewrite !decide_False.
    + intros H1. rewrite (fld_metaDel_state _ _ _ _ _ _ Hh).
      destruct Hbp as [ep ->]. simpl.
      rewrite metaDel_entry_blockNext. rewrite decide_False by done.
      by rewrite decide_True.
    + intros H1. rewrite (fld_metaDel_state _ _ _ _ _ _ Hh).
      destruct Hbn as [en ->]. simpl.
      rewrite metaDel_entry_blockPrev. rewrite decide_False by done.
      by rewrite decide_True.
  - (* hands *)
    pose proof (st_hands _ _ S) as Hh0. unfold hands_in in *.
    destruct l as [|y l0]; [by apply elem_of_nil in Hin|].
    destruct Hh0 as (a & b & d & Ha & Hb & Hd & Hal & Hbl & Hdl).
    simpl. unfold metaDel_hand.
    destruct l' as [|z l1].
    + assert (y :: l0 = [e]) as Hl.
      { apply Permutation_singleton_r. by symmetry. }
      assert (e_blockNext ee = e) as Hself.
      { rewrite Hl in Hnl. by apply list_elem_of_singleton in Hnl. }
      by rewrite !decide_True.
    + rewrite !decide_False by (intros Heq; by specialize (Hsingle Heq)).
      assert (e_blockPrev ee <> e) as Hpne
        by (intros Heq; by specialize (Hsingle' Heq)).
      unfold retreat. rewrite Ha, Hb, Hd.
      assert (forall t, t ∈ y :: l0 ->
                exists t', (if decide (Some t = Some e)
                            then Some (e_blockPrev ee) else Some t) = Some t'
                           /\ t' ∈ z :: l1) as Hstep.
      { intros t Ht. case_decide as Hte.
        - eexists. split; [done|]. by apply Hsup.
        - eexists. split; [done|]. apply Hsup; [done|congruence]. }
      destruct (Hstep a Hal) as (a' & -> & ?).
      destruct (Hstep b Hbl) as (b' & -> & ?).
      destruct (Hstep d Hdl) as (d' & -> & ?).
      by exists a', b', d'.
  - (* blocks *)
    intros k p. simpl.
    rewrite (fld_metaDel_other e_key _ _ _ _ _ Hh)
      by (intros; apply metaDel_entry_key).
    rewrite lookup_delete. case_decide as Hk.
    + split; [done|]. intros [Hp Hkp]. exfalso.
      apply Hel'. subst k.
      assert (p = e); [|by subst].
      eapply (Struct_key_inj c l); eauto.
      unfold fld. by rewrite He.
    + rewrite (st_blocks _ _ S). split.
      * intros [Hp Hkp]. split; [|done]. apply Hsup; [done|].
        intros ->. unfold fld in Hkp. rewrite He in Hkp. simpl in Hkp.
        congruence.
      * intros [Hp Hkp]. split; [by apply Hsub|done].
  - (* files *)
    intros fk.
    destruct (st_files _ _ S fk) as (lf & Hndf & Hrf & Hmem & Hhead).
    assert (forall p, fld fileOf (metaDel_state e ee h' c) p = fld fileOf c p)
      as Hfo.
    { intros p. apply (fld_metaDel_other fileOf _ _ _ _ _ Hh).
      intros. unfold fileOf. by rewrite metaDel_entry_key. }
    destruct (decide (fk = fileOf ee)) as [->|Hfk].
    + (* the file of [e] *)
      assert (e ∈ lf) as Helf.
      { apply Hmem. split; [done|]. unfold fld. by rewrite He. }
      destruct (ring_rotate_to _ _ lf e Hrf Helf) as (lf' & Hrf' & Hpf).
      pose proof Hndf as Hndf'. rewrite Hpf in Hndf'.
      pose proof Hndf' as Hx. apply NoDup_cons in Hx as [Helf' Hndlf'].
      assert (fld e_fileNext c e = Some (e_fileNext ee)) as Hfne
        by (unfold fld; by rewrite He).
      assert (fld e_filePrev c e = Some (e_filePrev ee)) as Hfpe
        by (unfold fld; by rewrite He).
      exists lf'. split; [done|]. split; [|split].
      * eapply (ring_unlink (fld e_fileNext c) (fld e_filePrev c)); eauto.
        -- intros x H1 H2. rewrite (fld_metaDel_state _ _ _ _ _ _ Hh).
           unfold fld. destruct (mem_entries c !! x); simpl; [|done].
           rewrite metaDel_entry_fileNext. by rewrite !decide_False.
        -- intros x H1 H2. rewrite (fld_metaDel_state _ _ _ _ _ _ Hh).
           unfold fld. destruct (mem_entries c !! x); simpl; [|done].
           rewrite metaDel_entry_filePrev. by rewrite !decide_False.
        -- intros H1. rewrite (fld_metaDel_state _ _ _ _ _ _ Hh).
           destruct Hfp as [ep ->]. simpl.
           rewrite metaDel_entry_fileNext. rewrite decide_False by done.
           by rewrite decide_True.
        -- intros H1. rewrite (fld_metaDel_state _ _ _ _ _ _ Hh).
           destruct Hfn as [en ->]. simpl.
           rewrite metaDel_entry_filePrev. rewrite decide_False by done.
           by rewrite decide_True.
      * intros p. rewrite Hfo. split.
        -- intros Hp. assert (p ∈ lf) as Hp' by (rewrite Hpf; set_solver).
           apply Hmem in Hp' as [Hpl' Hpk]. split; [|done].
           apply Hsup; [done|]. intros ->. done.
        -- intros [Hp Hpk].
           assert (p ∈ lf) as Hp' by (apply Hmem; split; [by apply Hsub|done]).
           rewrite Hpf in Hp'. apply elem_of_cons in Hp' as [->|]; done.
      * simpl. unfold metaDel_files.
        change (file (e_key ee)) with (fileOf ee).
        case_decide as Hself.
        -- rewrite lookup_delete_eq.
           rewrite <-Hself in Hfne.
           pose proof (ring_self_next _ _ lf e Hndf Hrf Helf Hfne) as Hl.
           rewrite Hl in Hpf. apply Permutation_cons_inv in Hpf.
           by apply Permutation_nil_l in Hpf.
        -- rewrite lookup_insert_eq.
           destruct (ring_next_in _ _ lf e Hrf Helf) as (q & Hq & Hql).
           rewrite Hfne in Hq. injection Hq as <-.
           rewrite Hpf in Hql. apply elem_of_cons in Hql as [?|]; [|done].
           congruence.
    + (* another file *)
      assert (e ∉ lf) as Helf.
      { intros Hx. apply Hmem in Hx as [_ Hx]. unfold fld in Hx.
        rewrite He in Hx. simpl in Hx. congruence. }
      assert (forall q, q ∈ lf -> q <> e_fileNext ee /\ q <> e_filePrev ee)
        as Hnb.
      { intros q Hq.
        destruct (st_files _ _ S (fileOf ee)) as (le & _ & Hre & Hme & _).
        assert (e ∈ le) as Hele.
        { apply Hme. split; [done|]. unfold fld. by rewrite He. }
        destruct (ring_next_in _ _ le e Hre Hele) as (n & Hn & Hnle).
        destruct (ring_prev_in _ _ le e Hre Hele) as (r & Hrr & Hrle).
        unfold fld in Hn, Hrr. rewrite He in Hn, Hrr. simpl in *.
        injection Hn as <-. injection Hrr as <-.
        apply Hmem in Hq as [_ Hq].
        apply Hme in Hnle as [_ Hnle]. apply Hme in Hrle as [_ Hrle].
        split; intros ->; congruence. }
      exists lf. split; [done|]. split; [|split].
      * eapply ring_frame; [|exact Hrf].
        intros x Hx. destruct (Hnb x Hx) as [H1 H2].
        assert (x <> e) as H3 by (intros ->; done).
        rewrite !(fld_metaDel_state _ _ _ _ _ _ Hh). unfold fld.
        destruct (mem_entries c !! x); simpl; [|done].
        rewrite metaDel_entry_fileNext, metaDel_entry_filePrev.
        by rewrite !decide_False.
      * intros p. rewrite Hfo, Hmem. split.
        -- intros [Hp Hpk]. split; [|done]. apply Hsup; [done|].
           intros ->. unfold fld in Hpk. rewrite He in Hpk. simpl in Hpk.
           congruence.
        -- intros [Hp Hpk]. split; [by apply Hsub|done].
      * simpl. unfold metaDel_files.
        change (file (e_key ee)) with (fileOf ee).
        case_decide.
        -- by rewrite lookup_delete_ne.
        -- by rewrite lookup_insert_ne.
Qed.

(** ** Frames

    An entry splits into its skeleton (key and links), which [Struct]
    reads, and its cargo, which the counters read. *)

Definition cargo (e : entry) : option vptr * Z * entryType * bool :=
  (e_val e, e_size e, e_ptype e, e_referenced e).

Definition blinks (e : entry) : ptr * ptr := (e_blockNext e, e_blockPrev e).
Definition flinks (e : entry) : ptr * ptr := (e_fileNext e, e_filePrev e).

Definition scalars (c : shard) :=
  (hits c, misses c, reservedSize c, maxSize c, coldTarget c,
   (sizeHot c, sizeCold c, sizeTest c), (countHot c, countCold c, countTest c)).

Lemma fld_proj {A B} (f : entry -> A) (g : A -> B) c c' x :
  fld f c' x = fld f c x ->
  fld (fun e => g (f e)) c' x = fld (fun e => g (f e)) c x.
Proof.
  unfold fld.
  destruct (mem_entries c' !! x), (mem_entries c !! x); simpl;
    intros [=]; congruence.
Qed.

Lemma fld_blinks c c' x :
  fld blinks c' x = fld blinks c x ->
  fld e_blockNext c' x = fld e_blockNext c x /\
  fld e_blockPrev c' x = fld e_blockPrev c x.
Proof.
  intros H. split.
  - exact (fld_proj blinks fst c c' x H).
  - exact (fld_proj blinks snd c c' x H).
Qed.

Lemma fld_flinks c c' x :
  fld flinks c' x = fld flinks c x ->
  fld e_fileNext c' x = fld e_fileNext c x /\
  fld e_filePrev c' x = fld e_filePrev c x.
Proof.
  intros H. split.
  - exact (fld_proj flinks fst c c' x H).
  - exact (fld_proj flinks snd c c' x H).
Qed.

Lemma fld_key_fileOf c c' x :
  fld e_key c' x = fld e_key c x -> fld fileOf c' x = fld fileOf c x.
Proof. exact (fld_proj e_key file c c' x). Qed.

Lemma file_ring_frame c c' l fk lf :
  files c' !! fk = files c !! fk ->
  (forall x, x ∈ l -> fld e_key c' x = fld e_key c x) ->
  (forall x, x ∈ l -> fld flinks c' x = fld flinks c x) ->
  file_ring c l fk lf -> file_ring c' l fk lf.
Proof.
  intros Hf Hk Hl (Hnd & Hr & Hmem & Hhead).
  split; [done|]. split; [|split].
  - eapply ring_frame; [|exact Hr]. intros x Hx.
    apply fld_flinks, Hl. by apply Hmem in Hx as [? _].
  - intros p. rewrite Hmem. split.
    + intros [Hp Hpk]. split; [done|].
      by rewrite (fld_key_fileOf _ _ _ (Hk p Hp)).
    + intros [Hp Hpk]. split; [done|].
      by rewrite <-(fld_key_fileOf _ _ _ (Hk p Hp)).
  - by rewrite Hf.
Qed.

Lemma hands_in_frame c c' l :
  handHot c' = handHot c -> handCold c' = handCold c ->
  handTest c' = handTest c -> hands_in c l -> hands_in c' l.
Proof. unfold hands_in. by intros -> -> ->. Qed.

Lemma Struct_frame c c' l :
  (forall x, x ∈ l -> fld e_key c' x = fld e_key c x) ->
  (forall x, x ∈ l -> fld blinks c' x = fld blinks c x) ->
  (forall x, x ∈ l -> fld flinks c' x = fld flinks c x) ->
  hands_in c' l ->
  blocks c' = blocks c -> files c' = files c ->
  Struct c l -> Struct c' l.
Proof.
  intros Hk Hb Hf Hh Hbl Hfl S. split.
  - apply (st_nodup _ _ S).
  - eapply ring_frame; [|exact (st_ring _ _ S)].
    intros x Hx. by apply fld_blinks, Hb.
  - done.
  - intros k p. rewrite Hbl, (st_blocks _ _ S). split.
    + intros [Hp Hpk]. by rewrite (Hk p Hp).
    + intros [Hp Hpk]. by rewrite <-(Hk p Hp).
  - intros fk. destruct (st_files _ _ S fk) as (lf & Hlf).
    exists lf. apply (file_ring_frame c c'); auto. by rewrite Hfl.
Qed.

(** ** Characterisation of the insertion done by [metaAdd] *)

Definition insertRing (k : key) (e : ptr) (c : shard) : res shard :=
  let c := set_blocks (<[k := e]> (blocks c)) c in
  do c <- match handHot c with
          | None =>
              Ok (set_handTest (Some e)
                    (set_handCold (Some e) (set_handHot (Some e) c)))
          | Some h => link h e c
          end;
  if decide (handCold c = handHot c)
  then do p <- prev (handCold c) c; Ok (set_handCold p c)
  else Ok c.

Definition insertFile (k : key) (e : ptr) (c : shard) : res shard :=
  match files c !! file k with
  | None => Ok (set_files (<[file k := e]> (files c)) c)
  | Some fileBlocks => linkFile fileBlocks e c
  end.

Lemma metaAdd_eq fuel k e c :
  metaAdd fuel k e c =
  do c <- evict fuel c;
  do ee <- getE e c;
  if targetSize c <? e_size ee then Ok (false, c)
  else do c <- insertRing k e c; do c <- insertFile k e c; Ok (true, c).
Proof.
  unfold metaAdd, insertRing, insertFile.
  destruct (evict fuel c) as [c1| |]; simpl; try done.
  destruct (getE e c1) as [ee| |]; simpl; try done.
  destruct (targetSize c1 <? e_size ee); [done|].
  destruct (handHot c1) as [h|]; simpl.
  - destruct (link h e _) as [c2| |]; simpl; done.
  - reflexivity.
Qed.

Lemma linked_in_blockNext h s p0 x ex :
  e_blockNext (linked_in h s p0 x ex) =
  if decide (x = s) then h
  else if decide (x = p0) then s else e_blockNext ex.
Proof. unfold linked_in, upd_at. repeat case_decide; done. Qed.

Lemma linked_in_blockPrev h s p0 x ex :
  e_blockPrev (linked_in h s p0 x ex) =
  if decide (x = h) then s
  else if decide (x = s) then p0 else e_blockPrev ex.
Proof. unfold linked_in, upd_at. repeat case_decide; done. Qed.

Lemma linked_in_key h s p0 x ex : e_key (linked_in h s p0 x ex) = e_key ex.
Proof. unfold linked_in, upd_at. repeat case_decide; done. Qed.

Lemma linked_in_flinks h s p0 x ex : flinks (linked_in h s p0 x ex) = flinks ex.
Proof. unfold linked_in, upd_at. repeat case_decide; done. Qed.

Lemma linked_in_cargo h s p0 x ex : cargo (linked_in h s p0 x ex) = cargo ex.
Proof. unfold linked_in, upd_at. repeat case_decide; done. Qed.

Lemma linkedFile_in_fileNext h s p0 x ex :
  e_fileNext (linkedFile_in h s p0 x ex) =
  if decide (x = s) then h
  else if decide (x = p0) then s else e_fileNext ex.
Proof. unfold linkedFile_in, upd_at. repeat case_decide; done. Qed.

Lemma linkedFile_in_filePrev h s p0 x ex :
  e_filePrev (linkedFile_in h s p0 x ex) =
  if decide (x = h) then s
  else if decide (x = s) then p0 else e_filePrev ex.
Proof. unfold linkedFile_in, upd_at. repeat case_decide; done. Qed.

Lemma linkedFile_in_key h s p0 x ex : e_key (linkedFile_in h s p0 x ex) = e_key ex.
Proof. unfold linkedFile_in, upd_at. repeat case_decide; done. Qed.

Lemma linkedFile_in_blinks h s p0 x ex :
  blinks (linkedFile_in h s p0 x ex) = blinks ex.
Proof. unfold linkedFile_in, upd_at. repeat case_decide; done. Qed.

Lemma linkedFile_in_cargo h s p0 x ex :
  cargo (linkedFile_in h s p0 x ex) = cargo ex.
Proof. unfold linkedFile_in, upd_at. repeat case_decide; done. Qed.

(** A pointwise change of the arena that preserves a field preserves its
    view. *)
Lemma fld_pointwise {A} (f : entry -> A) (F : ptr -> entry -> entry) c c' x :
  (forall x, mem_entries c' !! x = F x <$> mem_entries c !! x) ->
  (forall ex, f (F x ex) = f ex) ->
  fld f c' x = fld f c x.
Proof.
  intros Hh Hf. unfold fld. rewrite Hh.
  destruct (mem_entries c !! x); simpl; [by rewrite Hf|done].
Qed.

Lemma fld_pointwise_at {A} (f : entry -> A) (F : ptr -> entry -> entry) c c' x :
  (forall x, mem_entries c' !! x = F x <$> mem_entries c !! x) ->
  fld f c' x = (fun ex => f (F x ex)) <$> mem_entries c !! x.
Proof.
  intros Hh. unfold fld. rewrite Hh. by destruct (mem_entries c !! x).
Qed.

Lemma insertRing_spec k e c l ee :
  Struct c l -> e ∉ l ->
  mem_entries c !! e = Some ee -> e_key ee = k -> blinks ee = (e, e) ->
  blocks c !! k = None ->
  exists c' l',
    insertRing k e c = Ok c' /\ l' ≡ₚ e :: l /\
    NoDup l' /\
    ring (fld e_blockNext c') (fld e_blockPrev c') l' /\
    hands_in c' l' /\
    (forall k p, blocks c' !! k = Some p <-> p ∈ l' /\ fld e_key c' p = Some k) /\
    files c' = files c /\ scalars c' = scalars c /\
    mem_values c' = mem_values c /\
    (forall x, fld e_key c' x = fld e_key c x) /\
    (forall x, fld flinks c' x = fld flinks c x) /\
    (forall x, fld cargo c' x = fld cargo c x).
Proof.
  intros S Hel He Hk Hself Hnone.
  injection Hself as Hsn Hsp.
  assert (forall c' l', l' ≡ₚ e :: l ->
            blocks c' = <[k := e]> (blocks c) ->
            (forall x, fld e_key c' x = fld e_key c x) ->
            forall k' p, blocks c' !! k' = Some p
                         <-> p ∈ l' /\ fld e_key c' p = Some k') as Hblocks.
  { intros c' l' Hperm Hb Hkeys k' p. rewrite Hb, Hkeys, Hperm.
    rewrite lookup_insert. case_decide as Hkk.
    - subst k'. split.
      + intros [= <-]. split; [set_solver|]. unfold fld. by rewrite He, <-Hk.
      + intros [Hp Hpk]. f_equal.
        apply elem_of_cons in Hp as [->|Hp]; [done|].
        assert (blocks c !! e_key ee = Some p) as Hx
          by (apply (st_blocks _ _ S); by rewrite Hk).
        rewrite <-Hk in Hnone. congruence.
    - rewrite (st_blocks _ _ S). split.
      + intros [? ?]. split; [set_solver|done].
      + intros [Hp Hpk]. split; [|done].
        apply elem_of_cons in Hp as [->|Hp]; [|done].
        unfold fld in Hpk. rewrite He in Hpk. simpl in Hpk. congruence. }
  unfold insertRing. simpl.
  pose proof (st_hands _ _ S) as Hh. unfold hands_in in Hh.
  destruct l as [|y l0].
  - (* first element *)
    destruct Hh as (-> & Hc & Ht). simpl.
    rewrite decide_True by done. unfold getE. simpl. rewrite He. simpl.
    rewrite Hsp.
    eexists _, [e]. split; [done|]. split; [done|].
    split; [apply NoDup_singleton|].
    split.
    { apply ring_single; unfold fld; simpl; rewrite He; simpl; congruence. }
    split.
    { simpl. exists e, e, e. set_solver. }
    split; [by apply Hblocks|].
    done.
  - destruct Hh as (a & b & d & Ha & Hb & Hd & Hal & Hbl & Hdl).
    rewrite Ha.
    destruct (Struct_alloc _ _ a S Hal) as [ea Hea].
    destruct (Struct_links _ _ a ea S Hal Hea) as (_ & Hpl & _ & Hpa).
    set (c1 := set_blocks _ c).
    edestruct (link_char a e c1 ea) as (h' & -> & Hh'); [done|by eexists|done|].
    simpl.
    set (c2 := set_entries h' c1).
    assert (forall x, mem_entries c2 !! x
              = linked_in a e (e_blockPrev ea) x <$> mem_entries c !! x) as Hpt
      by exact Hh'.
    assert (a <> e) as Hae by (intros ->; done).
    assert (e_blockPrev ea <> e) as Hpe by (intros Heq; by rewrite Heq in Hpl).
    destruct (ring_rotate_to _ _ _ a (st_ring _ _ S) Hal) as (l1 & Hr1 & Hperm).
    pose proof (st_nodup _ _ S) as Hnd. rewrite Hperm in Hnd.
    assert (e ∉ a :: l1) as Hel1 by (by rewrite <-Hperm).
    assert (ring (fld e_blockNext c2) (fld e_blockPrev c2) (a :: l1 ++ [e]))
      as Hring.
    { eapply (ring_link (fld e_blockNext c) (fld e_blockPrev c)); eauto.
      - unfold fld. by rewrite Hea.
      - intros x H1 H2. rewrite (fld_pointwise_at _ _ c c2 x Hpt). unfold fld.
        destruct (mem_entries c !! x); simpl; [|done].
        rewrite linked_in_blockNext. by rewrite !decide_False.
      - intros x H1 H2. rewrite (fld_pointwise_at _ _ c c2 x Hpt). unfold fld.
        destruct (mem_entries c !! x); simpl; [|done].
        rewrite linked_in_blockPrev. by rewrite !decide_False.
      - rewrite (fld_pointwise_at _ _ c c2 _ Hpt). destruct Hpa as [ep ->].
        simpl. rewrite linked_in_blockNext.
        rewrite decide_False by done. by rewrite decide_True.
      - rewrite (fld_pointwise_at _ _ c c2 _ Hpt). rewrite He. simpl.
        rewrite linked_in_blockNext. by rewrite decide_True.
      - rewrite (fld_pointwise_at _ _ c c2 _ Hpt). rewrite He. simpl.
        rewrite linked_in_blockPrev. rewrite decide_False by done.
        by rewrite decide_True.
      - rewrite (fld_pointwise_at _ _ c c2 _ Hpt). rewrite Hea. simpl.
        rewrite linked_in_blockPrev. by rewrite decide_True. }
    assert (a :: l1 ++ [e] ≡ₚ e :: y :: l0) as Hperm'.
    { rewrite Hperm. rewrite app_comm_cons. by rewrite <-Permutation_cons_append. }
    assert (NoDup (a :: l1 ++ [e])) as Hnd'.
    { rewrite Hperm'. apply NoDup_cons. split; [done|apply (st_nodup _ _ S)]. }
    assert (forall x, fld e_key c2 x = fld e_key c x) as Hkeys.
    { intros x. apply (fld_pointwise _ _ c c2 x Hpt).
      intros. apply linked_in_key. }
    assert (forall x, fld flinks c2 x = fld flinks c x) as Hfl.
    { intros x. apply (fld_pointwise _ _ c c2 x Hpt).
      intros. apply linked_in_flinks. }
    assert (forall x, fld cargo c2 x = fld cargo c x) as Hcg.
    { intros x. apply (fld_pointwise _ _ c c2 x Hpt).
      intros. apply linked_in_cargo. }
    assert (forall t, t ∈ y :: l0 -> t ∈ a :: l1 ++ [e]) as Hsub
      by (intros; rewrite Hperm'; set_solver).
    assert (e ∈ a :: l1 ++ [e]) as Hein by (rewrite Hperm'; set_solver).
    change (handCold c2) with (handCold c). change (handHot c2) with (handHot c).
    rewrite Ha, Hb.
    case_decide as Hba.
    + (* the cold hand steps back onto the new entry *)
      injection Hba as ->. simpl. unfold getE. rewrite Hpt, Hea. simpl.
      rewrite linked_in_blockPrev, decide_True by done.
      eexists _, (a :: l1 ++ [e]).
      split; [done|]. split; [done|]. split; [done|]. split; [done|].
      split.
      { simpl. exists a, e, d. rewrite Ha, Hd. repeat split; auto. }
      split; [by apply Hblocks|].
      done.
    + eexists _, (a :: l1 ++ [e]).
      split; [done|]. split; [done|]. split; [done|]. split; [done|].
      split.
      { simpl. exists a, b, d. rewrite Ha, Hb, Hd. repeat split; auto. }
      split; [by apply Hblocks|].
      done.
Qed.

Lemma file_ring_perm c l l' fk lf :
  l ≡ₚ l' -> file_ring c l fk lf -> file_ring c l' fk lf.
Proof.
  intros Hp (Hnd & Hr & Hmem & Hhead).
  split; [done|]. split; [done|]. split; [|done].
  intros p. by rewrite Hmem, Hp.
Qed.

Lemma insertFile_spec k e c l ee :
  (forall fk, exists lf, file_ring c l fk lf) -> e ∉ l ->
  mem_entries c !! e = Some ee -> e_key ee = k -> flinks ee = (e, e) ->
  exists c',
    insertFile k e c = Ok c' /\
    (forall fk, exists lf, file_ring c' (e :: l) fk lf) /\
    blocks c' = blocks c /\
    handHot c' = handHot c /\ handCold c' = handCold c /\
    handTest c' = handTest c /\
    scalars c' = scalars c /\ mem_values c' = mem_values c /\
    (forall x, fld e_key c' x = fld e_key c x) /\
    (forall x, fld blinks c' x = fld blinks c x) /\
    (forall x, fld cargo c' x = fld cargo c x).
Proof.
  intros Hfiles Hel He Hk Hself.
  injection Hself as Hsn Hsp.
  assert (fld fileOf c e = Some (file k)) as Hfe
    by (unfold fld, fileOf; rewrite He; simpl; by rewrite Hk).
  destruct (Hfiles (file k)) as (lf & Hnd & Hr & Hmem & Hhead).
  unfold insertFile.
  destruct (files c !! file k) as [fb|] eqn:Hfb.
  - (* the file has blocks already *)
    destruct (ring_prev_in _ _ lf fb Hr Hhead) as (q & Hq & Hql).
    apply fld_Some in Hq as (efb & Hefb & <-).
    destruct (ring_next_in _ _ lf _ Hr Hql) as (q' & Hq' & _).
    apply fld_Some in Hq' as (eq & Heq & _).
    edestruct (linkFile_char fb e c efb) as (h' & -> & Hh');
      [done|by eexists|by eexists|].
    set (c2 := set_entries h' c).
    assert (forall x, mem_entries c2 !! x
              = linkedFile_in fb e (e_filePrev efb) x <$> mem_entries c !! x)
      as Hpt by exact Hh'.
    assert (forall x, fld e_key c2 x = fld e_key c x) as Hkeys.
    { intros x. apply (fld_pointwise _ _ c c2 x Hpt).
      intros. apply linkedFile_in_key. }
    assert (forall x, fld fileOf c2 x = fld fileOf c x) as Hfo
      by (intros; apply fld_key_fileOf, Hkeys).
    assert (e ∉ lf) as Helf by (intros Hx; by apply Hmem in Hx as [? _]).
    assert (fb <> e) as Hfbe by (intros ->; done).
    assert (e_filePrev efb <> e) as Hpe by (intros Hx; by rewrite Hx in Hql).
    exists c2. split; [done|]. split.
    { intros fk. destruct (decide (fk = file k)) as [->|Hfk].
      - destruct (ring_rotate_to _ _ _ fb Hr Hhead) as (l1 & Hr1 & Hperm).
        pose proof Hnd as Hnd1. rewrite Hperm in Hnd1.
        assert (e ∉ fb :: l1) as Hel1 by (by rewrite <-Hperm).
        assert (fb :: l1 ++ [e] ≡ₚ e :: lf) as Hperm'.
        { rewrite Hperm, app_comm_cons. by rewrite <-Permutation_cons_append. }
        exists (fb :: l1 ++ [e]). split; [|split; [|split]].
        + rewrite Hperm'. by apply NoDup_cons.
        + eapply (ring_link (fld e_fileNext c) (fld e_filePrev c)); eauto.
          * unfold fld. by rewrite Hefb.
          * intros x H1 H2. rewrite (fld_pointwise_at _ _ c c2 x Hpt).
            unfold fld. destruct (mem_entries c !! x); simpl; [|done].
            rewrite linkedFile_in_fileNext. by rewrite !decide_False.
          * intros x H1 H2. rewrite (fld_pointwise_at _ _ c c2 x Hpt).
            unfold fld. destruct (mem_entries c !! x); simpl; [|done].
            rewrite linkedFile_in_filePrev. by rewrite !decide_False.
          * rewrite (fld_pointwise_at _ _ c c2 _ Hpt), Heq. simpl.
            rewrite linkedFile_in_fileNext.
            rewrite decide_False by done. by rewrite decide_True.
          * rewrite (fld_pointwise_at _ _ c c2 _ Hpt), He. simpl.
            rewrite linkedFile_in_fileNext. by rewrite decide_True.
          * rewrite (fld_pointwise_at _ _ c c2 _ Hpt), He. simpl.
            rewrite linkedFile_in_filePrev. rewrite decide_False by done.
            by rewrite decide_True.
          * rewrite (fld_pointwise_at _ _ c c2 _ Hpt), Hefb. simpl.
            rewrite linkedFile_in_filePrev. by rewrite decide_True.
        + intros p. rewrite Hperm', Hfo, !elem_of_cons, Hmem. split.
          * intros [->|[? ?]]; [by split; [left|]|]. split; [by right|done].
          * intros [[->|?] ?]; [by left|by right].
        + simpl. rewrite Hfb. rewrite Hperm'. set_solver.
      - destruct (Hfiles fk) as (lf' & Hnd' & Hr' & Hmem' & Hhead').
        exists lf'. split; [done|]. split; [|split].
        + eapply ring_frame; [|exact Hr'].
          intros x Hx. apply Hmem' in Hx as [Hxl Hxk].
          assert (x <> e) by (intros ->; done).
          assert (x <> fb).
          { intros ->. apply Hmem in Hhead as [_ Hx]. congruence. }
          assert (x <> e_filePrev efb).
          { intros ->. apply Hmem in Hql as [_ Hx]. congruence. }
          rewrite !(fld_pointwise_at _ _ c c2 x Hpt). unfold fld.
          destruct (mem_entries c !! x); simpl; [|done].
          rewrite linkedFile_in_fileNext, linkedFile_in_filePrev.
          by rewrite !decide_False.
        + intros p. rewrite Hfo, elem_of_cons, Hmem'. split.
          * intros [? ?]. split; [by right|done].
          * intros [[->|?] ?]; [congruence|done].
        + done. }
    repeat split; try done.
    + intros x. apply (fld_pointwise _ _ c c2 x Hpt).
      intros. apply linkedFile_in_blinks.
    + intros x. apply (fld_pointwise _ _ c c2 x Hpt).
      intros. apply linkedFile_in_cargo.
  - (* first block of the file *)
    subst lf.
    eexists. split; [done|]. split; [|done].
    intros fk. destruct (decide (fk = file k)) as [->|Hfk].
    + exists [e]. split; [apply NoDup_singleton|]. split; [|split].
      * apply ring_single; unfold fld; simpl; rewrite He; simpl; congruence.
      * intros p. change (fld fileOf (set_files _ c) p) with (fld fileOf c p).
        rewrite list_elem_of_singleton, elem_of_cons. split.
        -- intros ->. split; [by left|done].
        -- intros [[->|Hp] Hpk]; [done|].
           assert (p ∈ []) as Hx by (by apply Hmem). by apply elem_of_nil in Hx.
      * simpl. rewrite lookup_insert_eq. set_solver.
    + destruct (Hfiles fk) as (lf' & Hnd' & Hr' & Hmem' & Hhead').
      exists lf'. split; [done|]. split; [done|]. split.
      * intros p. change (fld fileOf (set_files _ c) p) with (fld fileOf c p).
        rewrite elem_of_cons, Hmem'. split.
        -- intros [? ?]. split; [by right|done].
        -- intros [[->|?] ?]; [congruence|done].
      * simpl. by rewrite lookup_insert_ne.
Qed.

(** ** Counters, cargo and values *)

Fixpoint zsum (f : ptr -> Z) (l : list ptr) : Z :=
  match l with
  | [] => 0
  | p :: l => f p + zsum f l
  end.

Lemma zsum_perm f l l' : l ≡ₚ l' -> zsum f l = zsum f l'.
Proof. induction 1; simpl; lia. Qed.

Lemma zsum_ext f g l : (forall p, p ∈ l -> f p = g p) -> zsum f l = zsum g l.
Proof.
  induction l as [|a l IH]; simpl; intros H; [done|].
  rewrite H by set_solver. rewrite IH; [done|]. intros. apply H. set_solver.
Qed.

Lemma zsum_nonneg f l : (forall p, p ∈ l -> 0 <= f p) -> 0 <= zsum f l.
Proof.
  induction l as [|a l IH]; simpl; intros H; [done|].
  assert (0 <= f a) by (apply H; set_solver).
  assert (0 <= zsum f l) by (apply IH; intros; apply H; set_solver). lia.
Qed.

Lemma zsum_pos_inv f l : 0 < zsum f l -> exists p, p ∈ l /\ 0 < f p.
Proof.
  induction l as [|a l IH]; simpl; intros H; [lia|].
  destruct (decide (0 < f a)).
  - exists a. set_solver.
  - destruct IH as (p & ? & ?); [lia|]. exists p. set_solver.
Qed.

(** The bytes and the unit that the entry at [p] adds to category [t]. *)
Definition weight (t : entryType) (c : shard) (p : ptr) : Z :=
  match mem_entries c !! p with
  | Some e => if decide (e_ptype e = t) then e_size e else 0
  | None => 0
  end.

Definition unit_of (t : entryType) (c : shard) (p : ptr) : Z :=
  match mem_entries c !! p with
  | Some e => if decide (e_ptype e = t) then 1 else 0
  | None => 0
  end.

Definition sizeOf (t : entryType) (c : shard) : Z :=
  match t with etHot => sizeHot c | etCold => sizeCold c | etTest => sizeTest c end.

Definition countOf (t : entryType) (c : shard) : Z :=
  match t with etHot => countHot c | etCold => countCold c | etTest => countTest c end.

(** The counters agree with a recount over the ring. *)
Definition Counts (c : shard) (l : list ptr) : Prop :=
  forall t, sizeOf t c = zsum (weight t c) l /\ countOf t c = zsum (unit_of t c) l.

(** Sizes are not negative, and exactly the test entries hold no Value. *)
Definition Typed (c : shard) (l : list ptr) : Prop :=
  forall p e, p ∈ l -> mem_entries c !! p = Some e ->
    0 <= e_size e /\ (e_ptype e = etTest <-> e_val e = None).

(** Every Value held by the ring is live, is counted once for its slot and
    once more for the Handle that [Set] returned, and is held by one slot
    only. *)
Definition Vals (c : shard) (l : list ptr) : Prop :=
  (forall p e v, p ∈ l -> mem_entries c !! p = Some e -> e_val e = Some v ->
     exists x, mem_values c !! v = Some x /\ 2 <= v_refs x) /\
  (forall p q ep eq v, p ∈ l -> q ∈ l ->
     mem_entries c !! p = Some ep -> mem_entries c !! q = Some eq ->
     e_val ep = Some v -> e_val eq = Some v -> p = q).

Definition CT (c : shard) : Prop := 0 <= coldTarget c <= targetSize c.

Record Inv (c : shard) (l : list ptr) : Prop := {
  inv_struct : Struct c l;
  inv_counts : Counts c l;
  inv_typed : Typed c l;
  inv_vals : Vals c l;
  inv_ct : CT c
}.

(** What a step that works on the ring [l] leaves alone: the arena outside
    the ring, the Values the ring does not hold, the keys that are absent,
    and the configuration. It adds no node and stores no new Value. *)
Record Frame (l : list ptr) (c c' : shard) (l' : list ptr) : Prop := {
  fr_outside : forall x, x ∉ l -> mem_entries c' !! x = mem_entries c !! x;
  fr_values : forall v,
    (forall p ep, p ∈ l -> mem_entries c !! p = Some ep -> e_val ep <> Some v) ->
    mem_values c' !! v = mem_values c !! v;
  fr_blocks : forall k, blocks c !! k = None -> blocks c' !! k = None;
  fr_held : forall p ep' w, p ∈ l' -> mem_entries c' !! p = Some ep' ->
    e_val ep' = Some w ->
    exists ep, mem_entries c !! p = Some ep /\ e_val ep = Some w;
  fr_sub : forall p, p ∈ l' -> p ∈ l;
  fr_max : maxSize c' = maxSize c;
  fr_reserved : reservedSize c' = reservedSize c;
  fr_hits : hits c' = hits c;
  fr_misses : misses c' = misses c;
  fr_key : forall p, p ∈ l' -> fld e_key c' p = fld e_key c p;
  fr_buf : forall w x', mem_values c' !! w = Some x' ->
    exists x, mem_values c !! w = Some x /\ v_buf x' = v_buf x;
  fr_alive : forall w x, mem_values c !! w = Some x ->
    exists x', mem_values c' !! w = Some x' /\ v_buf x' = v_buf x
}.

Lemma Frame_refl l c : Frame l c c l.
Proof. split; eauto. Qed.

Lemma Frame_trans l0 c0 l1 c1 l2 c2 :
  Frame l0 c0 c1 l1 -> Frame l1 c1 c2 l2 -> Frame l0 c0 c2 l2.
Proof.
  intros F1 F2. split.
  - intros x Hx. rewrite (fr_outside _ _ _ _ F2), (fr_outside _ _ _ _ F1); auto.
    intros Hx'. by apply (fr_sub _ _ _ _ F1) in Hx'.
  - intros v Hv. rewrite (fr_values _ _ _ _ F2), (fr_values _ _ _ _ F1); auto.
    intros p ep Hp Hep Hval.
    destruct (fr_held _ _ _ _ F1 p ep v Hp Hep Hval) as (ep0 & ? & ?).
    eapply Hv; eauto. by apply (fr_sub _ _ _ _ F1).
  - intros k Hk. by apply (fr_blocks _ _ _ _ F2), (fr_blocks _ _ _ _ F1).
  - intros p ep' w Hp Hep Hw.
    destruct (fr_held _ _ _ _ F2 p ep' w Hp Hep Hw) as (ep1 & ? & ?).
    eapply (fr_held _ _ _ _ F1); eauto. by apply (fr_sub _ _ _ _ F2).
  - intros p Hp. by apply (fr_sub _ _ _ _ F1), (fr_sub _ _ _ _ F2).
  - by rewrite (fr_max _ _ _ _ F2), (fr_max _ _ _ _ F1).
  - by rewrite (fr_reserved _ _ _ _ F2), (fr_reserved _ _ _ _ F1).
  - by rewrite (fr_hits _ _ _ _ F2), (fr_hits _ _ _ _ F1).
  - by rewrite (fr_misses _ _ _ _ F2), (fr_misses _ _ _ _ F1).
  - intros p Hp. rewrite (fr_key _ _ _ _ F2) by done.
    apply (fr_key _ _ _ _ F1). by apply (fr_sub _ _ _ _ F2).
  - intros w x2 Hw.
    destruct (fr_buf _ _ _ _ F2 w x2 Hw) as (x1 & Hx1 & Hb1).
    destruct (fr_buf _ _ _ _ F1 w x1 Hx1) as (x0 & Hx0 & Hb0).
    exists x0. split; [done|congruence].
  - intros w x0 Hw.
    destruct (fr_alive _ _ _ _ F1 w x0 Hw) as (x1 & Hx1 & Hb1).
    destruct (fr_alive _ _ _ _ F2 w x1 Hx1) as (x2 & Hx2 & Hb2).
    exists x2. split; [done|congruence].
Qed.

Lemma Frame_targetSize l c c' l' : Frame l c c' l' -> targetSize c' = targetSize c.
Proof.
  intros F. unfold targetSize.
  by rewrite (fr_max _ _ _ _ F), (fr_reserved _ _ _ _ F).
Qed.

(** ** Changing the cargo of one ring entry *)

Definition weight_of (t : entryType) (e : entry) : Z :=
  if decide (e_ptype e = t) then e_size e else 0.
Definition unit_for (t : entryType) (e : entry) : Z :=
  if decide (e_ptype e = t) then 1 else 0.

Lemma weight_lookup t c p e :
  mem_entries c !! p = Some e -> weight t c p = weight_of t e.
Proof. unfold weight. by intros ->. Qed.

Lemma unit_lookup t c p e :
  mem_entries c !! p = Some e -> unit_of t c p = unit_for t e.
Proof. unfold unit_of. by intros ->. Qed.

Lemma weight_same t c c' p :
  mem_entries c' !! p = mem_entries c !! p -> weight t c' p = weight t c p.
Proof. unfold weight. by intros ->. Qed.

Lemma unit_same t c c' p :
  mem_entries c' !! p = mem_entries c !! p -> unit_of t c' p = unit_of t c p.
Proof. unfold unit_of. by intros ->. Qed.

Lemma weight_cargo t c c' p :
  fld cargo c' p = fld cargo c p -> weight t c' p = weight t c p.
Proof.
  unfold fld, weight.
  destruct (mem_entries c' !! p) as [[]|], (mem_entries c !! p) as [[]|];
    simpl; intros [=]; subst; done.
Qed.

Lemma unit_cargo t c c' p :
  fld cargo c' p = fld cargo c p -> unit_of t c' p = unit_of t c p.
Proof.
  unfold fld, unit_of.
  destruct (mem_entries c' !! p) as [[]|], (mem_entries c !! p) as [[]|];
    simpl; intros [=]; subst; done.
Qed.

Lemma zsum_split f l e : NoDup l -> e ∈ l ->
  exists l0, l ≡ₚ e :: l0 /\ (e ∉ l0) /\ zsum f l = f e + zsum f l0.
Proof.
  intros Hnd Hin. apply list_elem_of_split in Hin as (l1 & l2 & ->).
  exists (l1 ++ l2).
  assert (l1 ++ e :: l2 ≡ₚ e :: l1 ++ l2) as Hp
    by (by rewrite Permutation_middle).
  split; [done|]. split.
  - rewrite Hp in Hnd. by apply NoDup_cons in Hnd as [? _].
  - by rewrite (zsum_perm _ _ _ Hp).
Qed.

Lemma zsum_update f g l e :
  NoDup l -> e ∈ l -> (forall p, p ∈ l -> p <> e -> g p = f p) ->
  zsum g l = zsum f l - f e + g e.
Proof.
  intros Hnd Hin Hsame.
  destruct (zsum_split f l e Hnd Hin) as (l0 & Hp & He & ->).
  rewrite (zsum_perm g _ _ Hp). simpl.
  rewrite (zsum_ext g f l0); [lia|].
  intros p Hp0. apply Hsame; [rewrite Hp; set_solver|].
  intros ->. done.
Qed.

Lemma Struct_update c c' l e ee ee' :
  Struct c l -> mem_entries c !! e = Some ee ->
  mem_entries c' = <[e := ee']> (mem_entries c) ->
  e_key ee' = e_key ee -> blinks ee' = blinks ee -> flinks ee' = flinks ee ->
  handHot c' = handHot c -> handCold c' = handCold c ->
  handTest c' = handTest c ->
  blocks c' = blocks c -> files c' = files c ->
  Struct c' l.
Proof.
  intros S He Hh Hk Hb Hf ?????.
  assert (forall A (f : entry -> A), f ee' = f ee ->
            forall x, fld f c' x = fld f c x) as Hfld.
  { intros A f Hfe x. unfold fld. rewrite Hh, lookup_insert.
    case_decide; subst; [by rewrite He; simpl; f_equal|done]. }
  apply (Struct_frame c c'); auto.
  by apply (hands_in_frame c c'), (st_hands _ _ S).
Qed.

Lemma Counts_update c c' l e ee ee' :
  Counts c l -> NoDup l -> e ∈ l -> mem_entries c !! e = Some ee ->
  mem_entries c' = <[e := ee']> (mem_entries c) ->
  (forall t, sizeOf t c' = sizeOf t c - weight_of t ee + weight_of t ee') ->
  (forall t, countOf t c' = countOf t c - unit_for t ee + unit_for t ee') ->
  Counts c' l.
Proof.
  intros C Hnd Hin He Hh Hs Hc t.
  destruct (C t) as [Cs Cc].
  assert (mem_entries c' !! e = Some ee') as He'
    by (rewrite Hh; apply lookup_insert_eq).
  assert (forall p, p <> e -> mem_entries c' !! p = mem_entries c !! p) as Hne
    by (intros; rewrite Hh; by apply lookup_insert_ne).
  split.
  - rewrite Hs, Cs.
    rewrite (zsum_update (weight t c) (weight t c') l e Hnd Hin).
    + rewrite (weight_lookup t c e ee He), (weight_lookup t c' e ee' He'). lia.
    + intros p _ Hp. apply weight_same. by apply Hne.
  - rewrite Hc, Cc.
    rewrite (zsum_update (unit_of t c) (unit_of t c') l e Hnd Hin).
    + rewrite (unit_lookup t c e ee He), (unit_lookup t c' e ee' He'). lia.
    + intros p _ Hp. apply unit_same. by apply Hne.
Qed.

Lemma Typed_update c c' l e ee' :
  Typed c l ->
  mem_entries c' = <[e := ee']> (mem_entries c) ->
  0 <= e_size ee' -> (e_ptype ee' = etTest <-> e_val ee' = None) ->
  Typed c' l.
Proof.
  intros T Hh Hs Hv p ep Hp. rewrite Hh, lookup_insert.
  case_decide; subst; [by intros [= <-]|]. by apply T.
Qed.

(** A change of type tag or reference bit of one ring entry, with the
    counters moved accordingly. *)
Lemma Inv_retag c c' l e ee ee' :
  Inv c l -> e ∈ l -> mem_entries c !! e = Some ee ->
  mem_entries c' = <[e := ee']> (mem_entries c) ->
  e_key ee' = e_key ee -> blinks ee' = blinks ee -> flinks ee' = flinks ee ->
  e_val ee' = e_val ee -> e_size ee' = e_size ee ->
  (e_ptype ee' = etTest <-> e_val ee' = None) ->
  handHot c' = handHot c -> handCold c' = handCold c ->
  handTest c' = handTest c ->
  blocks c' = blocks c -> files c' = files c ->
  mem_values c' = mem_values c ->
  maxSize c' = maxSize c -> reservedSize c' = reservedSize c ->
  coldTarget c' = coldTarget c -> hits c' = hits c -> misses c' = misses c ->
  (forall t, sizeOf t c' = sizeOf t c - weight_of t ee + weight_of t ee') ->
  (forall t, countOf t c' = countOf t c - unit_for t ee + unit_for t ee') ->
  Inv c' l /\ Frame l c c' l.
Proof.
  intros I Hin He Hh Hk Hb Hf Hv Hsz Hty Hhh Hhc Hht Hbl Hfl Hvals
    Hmax Hres Hct Hhits Hmiss Hs Hc.
  destruct I as [S C T V K].
  assert (forall p ep', mem_entries c' !! p = Some ep' ->
            exists ep, mem_entries c !! p = Some ep /\ e_val ep = e_val ep')
    as Hvalsame.
  { intros p ep'. rewrite Hh, lookup_insert. case_decide; subst.
    - intros [= <-]. eauto.
    - eauto. }
  split; [split|split]; try done.
  - eapply Struct_update; eauto.
  - eapply Counts_update; eauto. apply (st_nodup _ _ S).
  - eapply Typed_update; eauto. rewrite Hsz. by apply (T e ee).
  - destruct V as [V1 V2]. split.
    + intros p ep' v Hp Hep Hval. rewrite Hvals.
      destruct (Hvalsame p ep' Hep) as (ep & Hep0 & Hveq).
      eapply V1; eauto. congruence.
    + intros p q ep' eq' v Hp Hq Hep Heq Hvp Hvq.
      destruct (Hvalsame p ep' Hep) as (ep & Hep0 & Hveq).
      destruct (Hvalsame q eq' Heq) as (eq & Heq0 & Hveq').
      apply (V2 p q ep eq v); auto; congruence.
  - unfold CT, targetSize in *. by rewrite Hct, Hmax, Hres.
  - intros x Hx. rewrite Hh, lookup_insert_ne; [done|]. by intros ->.
  - intros. by rewrite Hvals.
  - intros. by rewrite Hbl.
  - intros p ep' w Hp Hep Hw.
    destruct (Hvalsame p ep' Hep) as (ep & Hep0 & Hveq).
    exists ep. split; [done|congruence].
  - intros p Hp. unfold fld. rewrite Hh, lookup_insert.
    case_decide; subst; [by rewrite He; simpl; f_equal|done].
  - intros w x'. rewrite Hvals. eauto.
  - intros w x'. rewrite Hvals. eauto.
Qed.

Lemma modE_lookup p f c e :
  mem_entries c !! p = Some e -> modE p f c = Ok (setE p (f e) c).
Proof. intros H. unfold modE, getE. by rewrite H. Qed.

Lemma coldHit_spec c l e ee c' :
  Inv c l -> e ∈ l -> mem_entries c !! e = Some ee -> e_ptype ee = etCold ->
  coldHit e c = Ok c' -> Inv c' l /\ Frame l c c' l.
Proof.
  intros I Hin He Hty Hrun. unfold coldHit in Hrun.
  rewrite (modE_lookup _ _ _ _ He) in Hrun. simpl in Hrun.
  rewrite (modE_lookup _ _ _ (set_referenced false ee)) in Hrun
    by apply lookup_insert_eq.
  simpl in Hrun. unfold getE in Hrun. simpl in Hrun.
  rewrite lookup_insert_eq in Hrun. simpl in Hrun. injection Hrun as <-.
  assert (e_val ee <> None) as Hval.
  { intros Hx. apply (inv_typed _ _ I e ee Hin He) in Hx. congruence. }
  eapply (Inv_retag c _ l e ee (set_ptype etHot (set_referenced false ee)));
    eauto; simpl; try reflexivity.
  - by rewrite insert_insert_eq.
  - split; [done|]. intros Hx. done.
  - intros t. unfold weight_of. simpl. rewrite Hty.
    destruct t; simpl; repeat case_decide; try congruence; lia.
  - intros t. unfold unit_for. simpl. rewrite Hty.
    destruct t; simpl; repeat case_decide; try congruence; lia.
Qed.

(** ** The hands *)

Lemma hands_elim c l :
  hands_in c l ->
  (l = [] /\ handHot c = None /\ handCold c = None /\ handTest c = None) \/
  (exists a b d, handHot c = Some a /\ handCold c = Some b /\
                 handTest c = Some d /\ a ∈ l /\ b ∈ l /\ d ∈ l).
Proof. unfold hands_in. destruct l; [left|right]; tauto. Qed.

Lemma hands_some c l a b d :
  handHot c = Some a -> handCold c = Some b -> handTest c = Some d ->
  a ∈ l -> b ∈ l -> d ∈ l -> hands_in c l.
Proof.
  intros. unfold hands_in. destruct l; [by apply elem_of_nil in H2|].
  by exists a, b, d.
Qed.

Lemma hand_in_ring c l :
  hands_in c l ->
  (forall e, handHot c = Some e -> e ∈ l) /\
  (forall e, handCold c = Some e -> e ∈ l) /\
  (forall e, handTest c = Some e -> e ∈ l).
Proof.
  intros [(-> & -> & -> & ->)|(a & b & d & -> & -> & -> & ? & ? & ?)]%hands_elim;
    repeat split; intros e [=]; by subst.
Qed.

Lemma hands_nil c l :
  hands_in c l ->
  (handHot c = None -> l = []) /\ (handCold c = None -> l = []) /\
  (handTest c = None -> l = []).
Proof.
  intros [(-> & _)|(a & b & d & -> & -> & -> & _)]%hands_elim;
    repeat split; done.
Qed.

(** Moving the hands inside the ring keeps everything else. *)
Lemma Inv_hands c c' l :
  Inv c l ->
  mem_entries c' = mem_entries c -> mem_values c' = mem_values c ->
  blocks c' = blocks c -> files c' = files c -> scalars c' = scalars c ->
  hands_in c' l ->
  Inv c' l /\ Frame l c c' l.
Proof.
  intros [S C T V K] Hh Hv Hb Hf Hs Hhands.
  injection Hs as Hhits Hmiss Hres Hmax Hct Hsh Hsc Hst Hch Hcc Hcx.
  assert (forall A (f : entry -> A) x, fld f c' x = fld f c x) as Hfld
    by (intros; unfold fld; by rewrite Hh).
  split; [split|split]; try done.
  - apply (Struct_frame c c'); auto.
  - intros t. destruct (C t) as [Cs Cc]. split.
    + rewrite (zsum_ext (weight t c') (weight t c)).
      * rewrite <-Cs. destruct t; simpl; congruence.
      * intros. apply weight_same. by rewrite Hh.
    + rewrite (zsum_ext (unit_of t c') (unit_of t c)).
      * rewrite <-Cc. destruct t; simpl; congruence.
      * intros. apply unit_same. by rewrite Hh.
  - intros p e. rewrite Hh. apply T.
  - destruct V as [V1 V2]. split.
    + intros p e v. rewrite Hh, Hv. apply V1.
    + intros p q ep eq v. rewrite Hh. apply V2.
  - unfold CT, targetSize in *. by rewrite Hct, Hmax, Hres.
  - intros. by rewrite Hh.
  - intros. by rewrite Hv.
  - intros. by rewrite Hb.
  - intros p ep' w ?. rewrite Hh. eauto.
  - intros w x'. rewrite Hv. eauto.
  - intros w x'. rewrite Hv. eauto.
Qed.

Lemma advanceCold_spec c l c' :
  Inv c l -> advanceCold c = Ok c' -> Inv c' l /\ Frame l c c' l.
Proof.
  intros I Hrun. unfold advanceCold, next in Hrun.
  pose proof (st_hands _ _ (inv_struct _ _ I)) as Hh.
  destruct (hands_elim _ _ Hh) as
    [(-> & Ha & Hb & Hd)|(a & b & d & Ha & Hb & Hd & Hal & Hbl & Hdl)].
  - rewrite Hb in Hrun. simpl in Hrun. injection Hrun as <-.
    apply Inv_hands; try done; simpl; by rewrite ?Ha, ?Hb, ?Hd.
  - rewrite Hb in Hrun. inv_ok. subst.
    match goal with H : mem_entries c !! ?p = Some ?ep |- _ =>
      assert (p ∈ l) as Hpl by done;
      destruct (Struct_links c l p ep (inv_struct _ _ I) Hpl H) as (Hn & _)
    end.
    apply Inv_hands; try done.
    by eapply (hands_some _ _ a _ d); simpl; eauto.
Qed.

Lemma advanceHot_spec c l c' :
  Inv c l -> advanceHot c = Ok c' -> Inv c' l /\ Frame l c c' l.
Proof.
  intros I Hrun. unfold advanceHot, next in Hrun.
  pose proof (st_hands _ _ (inv_struct _ _ I)) as Hh.
  destruct (hands_elim _ _ Hh) as
    [(-> & Ha & Hb & Hd)|(a & b & d & Ha & Hb & Hd & Hal & Hbl & Hdl)].
  - rewrite Ha in Hrun. simpl in Hrun. injection Hrun as <-.
    apply Inv_hands; try done; simpl; by rewrite ?Ha, ?Hb, ?Hd.
  - rewrite Ha in Hrun. inv_ok. subst.
    match goal with H : mem_entries c !! ?p = Some ?ep |- _ =>
      assert (p ∈ l) as Hpl by done;
      destruct (Struct_links c l p ep (inv_struct _ _ I) Hpl H) as (Hn & _)
    end.
    apply Inv_hands; try done.
    by eapply (hands_some _ _ _ b d); simpl; eauto.
Qed.

Lemma advanceTest_spec c l c' :
  Inv c l -> advanceTest c = Ok c' -> Inv c' l /\ Frame l c c' l.
Proof.
  intros I Hrun. unfold advanceTest, next in Hrun.
  pose proof (st_hands _ _ (inv_struct _ _ I)) as Hh.
  destruct (hands_elim _ _ Hh) as
    [(-> & Ha & Hb & Hd)|(a & b & d & Ha & Hb & Hd & Hal & Hbl & Hdl)].
  - rewrite Hd in Hrun. simpl in Hrun. injection Hrun as <-.
    apply Inv_hands; try done; simpl; by rewrite ?Ha, ?Hb, ?Hd.
  - rewrite Hd in Hrun. inv_ok. subst.
    match goal with H : mem_entries c !! ?p = Some ?ep |- _ =>
      assert (p ∈ l) as Hpl by done;
      destruct (Struct_links c l p ep (inv_struct _ _ I) Hpl H) as (Hn & _)
    end.
    apply Inv_hands; try done.
    by eapply (hands_some _ _ a b _); simpl; eauto.
Qed.

Lemma hotVisit_spec c l c' :
  Inv c l -> hotVisit c = Ok c' -> Inv c' l /\ Frame l c c' l.
Proof.
  intros I Hrun. unfold hotVisit in Hrun.
  destruct (handHot c) as [e|] eqn:Hhot; [|done].
  assert (e ∈ l) as Hin.
  { destruct (hand_in_ring _ _ (st_hands _ _ (inv_struct _ _ I))) as (H1 & _).
    by apply H1. }
  apply bind_Ok in Hrun as (ee & He%getE_Ok & Hrun).
  case_decide as Hty; [|injection Hrun as <-; split; [done|apply Frame_refl]].
  assert (e_val ee <> None) as Hval.
  { intros Hx. apply (inv_typed _ _ I e ee Hin He) in Hx. congruence. }
  destruct (e_referenced ee) eqn:Href.
  - rewrite (modE_lookup _ _ _ _ He) in Hrun. injection Hrun as <-.
    eapply (Inv_retag c _ l e ee (set_referenced false ee));
      eauto; simpl; try reflexivity.
    + split; [congruence|done].
    + intros t. unfold weight_of. simpl. destruct t; simpl; lia.
    + intros t. unfold unit_for. simpl. destruct t; simpl; lia.
  - rewrite (modE_lookup _ _ _ _ He) in Hrun. simpl in Hrun.
    injection Hrun as <-.
    eapply (Inv_retag c _ l e ee (set_ptype etCold ee));
      eauto; simpl; try reflexivity.
    + split; [done|]. intros Hx. done.
    + intros t. unfold weight_of. simpl. rewrite Hty.
      destruct t; simpl; repeat case_decide; try congruence; lia.
    + intros t. unfold unit_for. simpl. rewrite Hty.
      destruct t; simpl; repeat case_decide; try congruence; lia.
Qed.

Lemma Inv_hand_in c l :
  Inv c l ->
  (forall e, handHot c = Some e -> e ∈ l) /\
  (forall e, handCold c = Some e -> e ∈ l) /\
  (forall e, handTest c = Some e -> e ∈ l).
Proof. intros I. apply hand_in_ring, (st_hands _ _ (inv_struct _ _ I)). Qed.

Lemma coldMiss_spec c l e ee :
  Inv c l -> e ∈ l -> mem_entries c !! e = Some ee -> e_ptype ee = etCold ->
  exists c', coldMiss e c = Ok c' /\ Inv c' l /\ Frame l c c' l.
Proof.
  intros I Hin He Hty.
  destruct I as [S C T V K]. destruct V as [V1 V2].
  destruct (e_val ee) as [v|] eqn:Hval; cycle 1.
  { apply (T e ee Hin He) in Hval. congruence. }
  destruct (V1 e ee v Hin He Hval) as (x & Hx & Hrefs).
  unfold coldMiss, setValue. simpl. unfold getE at 1. rewrite He. simpl.
  rewrite (modE_lookup _ _ _ _ He). simpl.
  rewrite Hval. unfold release, getV. simpl. rewrite Hx. simpl.
  destruct (v_refs x - 1 <? 0) eqn:E1; [lia|].
  destruct (v_refs x - 1 =? 0) eqn:E2; [lia|].
  cbn [bind].
  rewrite (modE_lookup _ _ _ (set_val None ee)) by apply lookup_insert_eq.
  simpl. unfold getE. simpl. rewrite lookup_insert_eq. simpl.
  eexists. split; [done|].
  set (ee' := set_ptype etTest (set_val None ee)).
  set (c' := add_test _ _ _).
  assert (mem_entries c' = <[e := ee']> (mem_entries c)) as Hh
    by (subst c'; simpl; by rewrite insert_insert_eq).
  assert (mem_values c'
          = <[v := mkValue (v_buf x) (v_refs x - 1)]> (mem_values c)) as Hv
    by done.
  assert (forall p ep', p <> e -> mem_entries c' !! p = Some ep' ->
            mem_entries c !! p = Some ep') as Hother.
  { intros p ep' Hp. by rewrite Hh, lookup_insert_ne. }
  assert (forall p ep' w, p ∈ l -> mem_entries c' !! p = Some ep' ->
            e_val ep' = Some w ->
            p <> e /\ w <> v /\ mem_entries c !! p = Some ep') as Hheld.
  { intros p ep' w Hp Hep Hw.
    assert (p <> e) as Hpe.
    { intros ->. rewrite Hh, lookup_insert_eq in Hep.
      injection Hep as <-. done. }
    pose proof (Hother p ep' Hpe Hep) as Hep0.
    repeat split; try done.
    intros ->. apply Hpe. by apply (V2 p e ep' ee v). }
  split; [split|split]; try done.
  - eapply (Struct_update c c' l e ee ee'); eauto.
  - eapply (Counts_update c c' l e ee ee'); eauto.
    + apply (st_nodup _ _ S).
    + intros t. subst c' ee'. unfold weight_of. simpl. rewrite Hty.
      destruct t; simpl; repeat case_decide; try congruence; lia.
    + intros t. subst c' ee'. unfold unit_for. simpl. rewrite Hty.
      destruct t; simpl; repeat case_decide; try congruence; lia.
  - eapply Typed_update; eauto; subst ee'; simpl; [|done].
    by apply (T e ee).
  - split.
    + intros p ep' w Hp Hep Hw.
      destruct (Hheld p ep' w Hp Hep Hw) as (Hpe & Hwv & Hep0).
      rewrite Hv, lookup_insert_ne by done. by apply (V1 p ep').
    + intros p q ep' eq' w Hp Hq Hep Heq Hwp Hwq.
      destruct (Hheld p ep' w Hp Hep Hwp) as (_ & _ & Hep0).
      destruct (Hheld q eq' w Hq Heq Hwq) as (_ & _ & Heq0).
      by apply (V2 p q ep' eq' w).
  - intros y Hy. rewrite Hh, lookup_insert_ne; [done|]. by intros ->.
  - intros w Hw. rewrite Hv, lookup_insert_ne; [done|].
    intros ->. by apply (Hw e ee).
  - intros p ep' w Hp Hep Hw.
    destruct (Hheld p ep' w Hp Hep Hw) as (_ & _ & Hep0). eauto.
  - intros p Hp. unfold fld. rewrite Hh, lookup_insert.
    case_decide; subst; [by rewrite He|done].
  - intros w x'. rewrite Hv, lookup_insert. case_decide; subst.
    + intros [= <-]. eauto.
    + eauto.
  - intros w x0 Hw. rewrite Hv, lookup_insert. case_decide; subst.
    + eexists. split; [done|]. simpl. congruence.
    + eauto.
Qed.

(** ** Removing an entry: [metaEvict] *)

Lemma metaDel_entry_outside e ee x ex :
  x <> e -> x <> e_blockPrev ee -> x <> e_blockNext ee ->
  x <> e_filePrev ee -> x <> e_fileNext ee ->
  metaDel_entry e ee x ex = ex.
Proof.
  intros. unfold metaDel_entry, unlinkedFile, unlinked, upd_at.
  by rewrite !decide_False.
Qed.

Lemma metaDel_entry_cargo e ee x ex :
  x <> e -> cargo (metaDel_entry e ee x ex) = cargo ex.
Proof.
  intros. unfold cargo.
  rewrite metaDel_entry_val, metaDel_entry_size, metaDel_entry_ptype,
    metaDel_entry_referenced.
  by rewrite decide_False.
Qed.

(** The state after [metaEvict e]: the counters of the entry's category
    are lowered, the entry is unlinked and its memory is freed. *)
Definition lower (ee : entry) (c : shard) : shard :=
  match e_ptype ee with
  | etHot => add_hot (- e_size ee) (-1) c
  | etCold => add_cold (- e_size ee) (-1) c
  | etTest => add_test (- e_size ee) (-1) c
  end.

Lemma lower_sizeOf ee c t :
  sizeOf t (lower ee c) = sizeOf t c - weight_of t ee.
Proof.
  unfold lower, weight_of.
  destruct (e_ptype ee), t; simpl; repeat case_decide; try congruence; lia.
Qed.

Lemma lower_countOf ee c t :
  countOf t (lower ee c) = countOf t c - unit_for t ee.
Proof.
  unfold lower, unit_for.
  destruct (e_ptype ee), t; simpl; repeat case_decide; try congruence; lia.
Qed.

Lemma Struct_file_links_in c l p e :
  Struct c l -> p ∈ l -> mem_entries c !! p = Some e ->
  e_fileNext e ∈ l /\ e_filePrev e ∈ l.
Proof.
  intros S Hin He.
  destruct (st_files _ _ S (fileOf e)) as (lf & Hnd & Hr & Hmem & _).
  assert (p ∈ lf) as Hp.
  { apply Hmem. split; [done|]. unfold fld. by rewrite He. }
  destruct (ring_next_in _ _ _ _ Hr Hp) as (q & Hq & Hql).
  destruct (ring_prev_in _ _ _ _ Hr Hp) as (r & Hrr & Hrl).
  unfold fld in Hq, Hrr. rewrite He in Hq, Hrr. simpl in *.
  injection Hq as ->. injection Hrr as ->.
  apply Hmem in Hql as [? _]. apply Hmem in Hrl as [? _]. done.
Qed.

Lemma Struct_lower ee c l : Struct c l -> Struct (lower ee c) l.
Proof.
  intros S.
  assert (mem_entries (lower ee c) = mem_entries c) as Hh
    by (unfold lower; by destruct (e_ptype ee)).
  apply (Struct_frame c); try (unfold lower; by destruct (e_ptype ee));
    try (intros; unfold fld; by rewrite Hh); try done.
  apply (hands_in_frame c); try (unfold lower; by destruct (e_ptype ee)).
  apply (st_hands _ _ S).
Qed.

Lemma metaEvict_spec c l e :
  Inv c l -> e ∈ l ->
  exists ee c' l',
    mem_entries c !! e = Some ee /\
    metaEvict e c = Ok (e_val ee, c') /\
    l ≡ₚ e :: l' /\
    Inv c' l' /\ Frame l c c' l' /\
    mem_values c' = mem_values c /\
    blocks c' = delete (e_key ee) (blocks c) /\
    coldTarget c' = coldTarget c /\
    (forall t, sizeOf t c' = sizeOf t c - weight_of t ee) /\
    (forall t, countOf t c' = countOf t c - unit_for t ee) /\
    mem_entries c' !! e = None /\
    (forall x, x ∈ l' -> fld cargo c' x = fld cargo c x) /\
    (forall x, x ∈ l' -> fld e_key c' x = fld e_key c x) /\
    files c' = metaDel_files e ee (files c) /\
    exists h',
      metaDel e (lower ee c) = Ok (e_val ee, metaDel_state e ee h' (lower ee c)) /\
      (forall x, h' !! x = metaDel_entry e ee x <$> mem_entries c !! x) /\
      c' = set_entries (delete e h') (metaDel_state e ee h' (lower ee c)).
Proof.
  intros I Hin.
  destruct I as [S C T V K].
  destruct (Struct_alloc c l e S Hin) as [ee He].
  destruct (Struct_links c l e ee S Hin He) as (Hbn & Hbp & _).
  destruct (Struct_file_links_in c l e ee S Hin He) as (Hfn & Hfp).
  pose proof (Struct_lower ee c l S) as S1.
  assert (mem_entries (lower ee c) = mem_entries c) as Hh1
    by (unfold lower; by destruct (e_ptype ee)).
  destruct (metaDel_Struct _ _ e S1 Hin)
    as (ee1 & h' & l' & He1 & Hrun & Hh & Hperm & S2).
  rewrite Hh1, He in He1. injection He1 as <-.
  exists ee.
  unfold metaEvict. unfold getE. rewrite He. cbn [bind].
  change (match e_ptype ee with
          | etTest => add_test (- e_size ee) (-1) c
          | etCold => add_cold (- e_size ee) (-1) c
          | etHot => add_hot (- e_size ee) (-1) c
          end) with (lower ee c).
  rewrite Hrun. cbn [bind fst snd].
  set (c2 := metaDel_state e ee h' (lower ee c)).
  assert (mem_entries c2 = h') as Hc2 by done.
  assert (h' !! e = Some (metaDel_entry e ee e ee)) as He2
    by (by rewrite Hh, Hh1, He).
  unfold free, setValue. cbn [bind]. unfold getE. rewrite Hc2, He2. cbn [bind].
  rewrite (modE_lookup _ _ _ (metaDel_entry e ee e ee)) by (by rewrite Hc2).
  cbn [bind]. rewrite metaDel_entry_val, decide_True by done.
  cbn [release bind].
  set (c3 := set_entries _ _).
  assert (forall x, mem_entries c3 !! x =
            if decide (x = e) then None
            else metaDel_entry e ee x <$> mem_entries c !! x) as Hpt.
  { intros x. subst c3. cbn [mem_entries set_entries setE].
    destruct (decide (x = e)) as [->|Hne].
    - by rewrite lookup_delete_eq.
    - rewrite lookup_delete_ne, lookup_insert_ne by done.
      by rewrite Hc2, Hh, Hh1. }
  pose proof (st_nodup _ _ S) as Hnd. rewrite Hperm in Hnd.
  apply NoDup_cons in Hnd as [Hel' Hnd'].
  assert (forall x, x ∈ l' -> x ∈ l /\ x <> e) as Hsub.
  { intros x Hx. split; [rewrite Hperm; set_solver|]. by intros ->. }
  assert (forall A (f : entry -> A) x, x <> e ->
            (forall ex, f (metaDel_entry e ee x ex) = f ex) ->
            fld f c3 x = fld f c x) as Hfld.
  { intros A f x Hx Hf. unfold fld. rewrite Hpt, decide_False by done.
    destruct (mem_entries c !! x); simpl; [by rewrite Hf|done]. }
  assert (forall x, x ∈ l' -> fld cargo c3 x = fld cargo c x) as Hcargo.
  { intros x Hx. destruct (Hsub x Hx). apply Hfld; [done|].
    intros. by apply metaDel_entry_cargo. }
  assert (forall x ex', x ∈ l' -> mem_entries c3 !! x = Some ex' ->
            exists ex, mem_entries c !! x = Some ex /\ cargo ex' = cargo ex)
    as Hent.
  { intros x ex' Hx Hex. destruct (Hsub x Hx) as [_ Hne].
    rewrite Hpt, decide_False in Hex by done.
    destruct (mem_entries c !! x) as [ex|]; [|done].
    injection Hex as <-. exists ex. split; [done|].
    by apply metaDel_entry_cargo. }
  assert (forall t, sizeOf t c3 = sizeOf t c - weight_of t ee) as Hsz
    by (intros; apply lower_sizeOf).
  assert (forall t, countOf t c3 = countOf t c - unit_for t ee) as Hcn
    by (intros; apply lower_countOf).
  assert (scalars_same : maxSize c3 = maxSize c /\ reservedSize c3 = reservedSize c
          /\ coldTarget c3 = coldTarget c /\ hits c3 = hits c
          /\ misses c3 = misses c /\ mem_values c3 = mem_values c).
  { subst c3 c2. unfold lower. by destruct (e_ptype ee). }
  destruct scalars_same as (Hmax & Hres & Hct & Hhits & Hmiss & Hvals).
  exists c3, l'. split; [done|]. split; [done|]. split; [done|].
  split; [split|split; [split|]]; try done.
  - (* structure *)
    apply (Struct_frame c2); try done.
    + intros x Hx. destruct (Hsub x Hx). unfold fld. simpl.
      by rewrite lookup_delete_ne, lookup_insert_ne.
    + intros x Hx. destruct (Hsub x Hx). unfold fld. simpl.
      by rewrite lookup_delete_ne, lookup_insert_ne.
    + intros x Hx. destruct (Hsub x Hx). unfold fld. simpl.
      by rewrite lookup_delete_ne, lookup_insert_ne.
    + apply (hands_in_frame c2); [reflexivity..|apply (st_hands _ _ S2)].
  - (* counters *)
    intros t. destruct (C t) as [Cs Cc]. split.
    + rewrite Hsz, Cs, (zsum_perm _ _ _ Hperm). simpl.
      rewrite (weight_lookup t c e ee He).
      rewrite (zsum_ext (weight t c3) (weight t c)); [lia|].
      intros. by apply weight_cargo, Hcargo.
    + rewrite Hcn, Cc, (zsum_perm _ _ _ Hperm). simpl.
      rewrite (unit_lookup t c e ee He).
      rewrite (zsum_ext (unit_of t c3) (unit_of t c)); [lia|].
      intros. by apply unit_cargo, Hcargo.
  - (* cargo *)
    intros p ep' Hp Hep. destruct (Hent p ep' Hp Hep) as (ep & Hep0 & Hcg).
    destruct (Hsub p Hp) as [Hpl _].
    injection Hcg as Hv Hs Ht _. rewrite Hv, Hs, Ht. by apply (T p ep).
  - (* values *)
    destruct V as [V1 V2]. split.
    + intros p ep' w Hp Hep Hw.
      destruct (Hent p ep' Hp Hep) as (ep & Hep0 & Hcg).
      destruct (Hsub p Hp) as [Hpl _]. injection Hcg as Hv _ _ _.
      rewrite Hvals. apply (V1 p ep); [done|done|congruence].
    + intros p q ep' eq' w Hp Hq Hep Heq Hwp Hwq.
      destruct (Hent p ep' Hp Hep) as (ep & Hep0 & Hcg).
      destruct (Hent q eq' Hq Heq) as (eq & Heq0 & Hcg').
      destruct (Hsub p Hp) as [Hpl _]. destruct (Hsub q Hq) as [Hql _].
      injection Hcg as Hv _ _ _. injection Hcg' as Hv' _ _ _.
      apply (V2 p q ep eq w); auto; congruence.
  - unfold CT, targetSize in *. by rewrite Hct, Hmax, Hres.
  - (* frame *)
    intros x Hx. rewrite Hpt.
    assert (x <> e) by (by intros ->).
    rewrite decide_False by done.
    destruct (mem_entries c !! x) as [ex|]; [|done]. simpl. f_equal.
    apply metaDel_entry_outside; try done; by intros ->.
  - intros. by rewrite Hvals.
  - intros k Hk. subst c3 c2. simpl. rewrite lookup_delete.
    case_decide; [done|].
    unfold lower. by destruct (e_ptype ee).
  - intros p ep' w Hp Hep Hw.
    destruct (Hent p ep' Hp Hep) as (ep & Hep0 & Hcg).
    injection Hcg as Hv _ _ _. exists ep. split; [done|congruence].
  - intros p Hp. by apply Hsub.
  - intros p Hp. destruct (Hsub p Hp). apply Hfld; [done|].
    intros. apply metaDel_entry_key.
  - intros w x'. rewrite Hvals. eauto.
  - intros w x'. rewrite Hvals. eauto.
  - split; [done|]. split.
    { subst c3 c2. simpl. unfold lower. by destruct (e_ptype ee). }
    split; [done|]. split; [done|]. split; [done|]. split.
    { by rewrite Hpt, decide_True. }
    split; [done|]. split.
    { intros x Hx. destruct (Hsub x Hx). apply Hfld; [done|].
      intros. apply metaDel_entry_key. }
    split.
    { subst c3 c2. simpl. unfold lower. by destruct (e_ptype ee). }
    exists h'. split; [done|]. split.
    { intros x. by rewrite Hh, Hh1. }
    fold c2. clearbody c2. subst c3. unfold setE.
    cbn [mem_entries set_entries].
    rewrite Hc2, delete_insert_eq. reflexivity.
Qed.

(** [Inv] reads the arena, the maps, the hands, the counters and the
    target only. *)
Lemma Inv_ext c c' l :
  Inv c l ->
  mem_entries c' = mem_entries c -> mem_values c' = mem_values c ->
  blocks c' = blocks c -> files c' = files c ->
  handHot c' = handHot c -> handCold c' = handCold c ->
  handTest c' = handTest c ->
  (forall t, sizeOf t c' = sizeOf t c) ->
  (forall t, countOf t c' = countOf t c) ->
  CT c' ->
  Inv c' l.
Proof.
  intros [S C T V K] Hh Hv Hb Hf Hhh Hhc Hht Hs Hc K'.
  split; try done.
  - apply (Struct_frame c c'); auto; try (intros; unfold fld; by rewrite Hh).
    by apply (hands_in_frame c c'), (st_hands _ _ S).
  - intros t. destruct (C t) as [Cs Cc]. split.
    + rewrite (zsum_ext (weight t c') (weight t c)).
      * by rewrite Hs.
      * intros. apply weight_same. by rewrite Hh.
    + rewrite (zsum_ext (unit_of t c') (unit_of t c)).
      * by rewrite Hc.
      * intros. apply unit_same. by rewrite Hh.
  - intros p e. rewrite Hh. apply T.
  - destruct V as [V1 V2]. split.
    + intros p e v. rewrite Hh, Hv. apply V1.
    + intros p q ep eq v. rewrite Hh. apply V2.
Qed.

Lemma Frame_ext l c c' :
  mem_entries c' = mem_entries c -> mem_values c' = mem_values c ->
  blocks c' = blocks c ->
  maxSize c' = maxSize c -> reservedSize c' = reservedSize c ->
  hits c' = hits c -> misses c' = misses c ->
  Frame l c c' l.
Proof.
  intros Hh Hv Hb ? ? ? ?. split; try done.
  - intros. by rewrite Hh.
  - intros. by rewrite Hv.
  - intros. by rewrite Hb.
  - intros p ep' w ?. rewrite Hh. eauto.
  - intros. unfold fld. by rewrite Hh.
  - intros w x'. rewrite Hv. eauto.
  - intros w x'. rewrite Hv. eauto.
Qed.

Lemma testVisit_spec c l e :
  Inv c l -> handTest c = Some e ->
  exists c' l', testVisit c = Ok c' /\ Inv c' l' /\ Frame l c c' l'.
Proof.
  intros I Hhand.
  assert (e ∈ l) as Hin by (by apply (Inv_hand_in c l I)).
  destruct (Struct_alloc c l e (inv_struct _ _ I) Hin) as [ee He].
  unfold testVisit. rewrite Hhand. unfold getE. rewrite He. cbn [bind].
  case_decide as Hty; cycle 1.
  { exists c, l. split; [done|]. split; [done|apply Frame_refl]. }
  assert (e_val ee = None) as Hval by (by apply (inv_typed _ _ I e ee)).
  assert (0 <= e_size ee) as Hsz by (by apply (inv_typed _ _ I e ee)).
  set (ct := if coldTarget c - e_size ee <? 0 then 0
             else coldTarget c - e_size ee).
  set (c0 := set_coldTarget ct c).
  assert (Inv c0 l) as I0.
  { apply (Inv_ext c); try done.
    pose proof (inv_ct _ _ I) as K. unfold CT in *.
    change (targetSize c0) with (targetSize c).
    change (coldTarget c0) with ct. subst ct.
    destruct (coldTarget c - e_size ee <? 0) eqn:E; lia. }
  destruct (metaEvict_spec c0 l e I0 Hin)
    as (ee' & c' & l' & He' & Hrun & Hperm & I' & F' & _).
  change (mem_entries c0) with (mem_entries c) in He'.
  rewrite He in He'. injection He' as <-.
  exists c', l'.
  split; [|split; [done|]].
  - unfold metaEvict in Hrun. unfold getE in Hrun.
    change (mem_entries c0) with (mem_entries c) in Hrun.
    rewrite He in Hrun. cbn [bind] in Hrun. rewrite Hty in Hrun.
    match goal with
    | |- context [metaDel e ?s] =>
        replace s with (add_test (- e_size ee) (-1) c0)
    end.
    + destruct (metaDel e _) as [[v c2]| |]; cbn [bind fst snd] in *; try done.
      destruct (free e c2) as [c3| |] eqn:Hfree; cbn [bind] in *; try done.
      injection Hrun as -> ->. rewrite Hval. cbn [release bind].
      by rewrite Hfree.
    + subst c0 ct. simpl.
      destruct (coldTarget c - e_size ee <? 0); reflexivity.
  - eapply Frame_trans; [|exact F']. by apply Frame_ext.
Qed.

Lemma hotTail_spec c l c' :
  Inv c l -> hotTail c = Ok c' -> Inv c' l /\ Frame l c c' l.
Proof.
  intros I Hrun. unfold hotTail in Hrun.
  apply bind_Ok in Hrun as (c1 & H1 & H2).
  destruct (hotVisit_spec c l c1 I H1) as [I1 F1].
  destruct (advanceHot_spec c1 l c' I1 H2) as [I2 F2].
  split; [done|]. eapply Frame_trans; eauto.
Qed.

Lemma testTail_spec c l c' :
  Inv c l -> testTail c = Ok c' ->
  exists l', Inv c' l' /\ Frame l c c' l'.
Proof.
  intros I Hrun. unfold testTail in Hrun.
  destruct (handTest c) as [e|] eqn:Hhand;
    [|unfold testVisit in Hrun; by rewrite Hhand in Hrun].
  destruct (testVisit_spec c l e I Hhand) as (c1 & l1 & H1 & I1 & F1).
  rewrite H1 in Hrun. cbn [bind] in Hrun.
  destruct (advanceTest_spec c1 l1 c' I1 Hrun) as [I2 F2].
  exists l1. split; [done|]. eapply Frame_trans; eauto.
Qed.

(** ** The sweep preserves the invariant *)

Definition preserves (f : shard -> res shard) : Prop :=
  forall c l c', Inv c l -> f c = Ok c' ->
    exists l', Inv c' l' /\ Frame l c c' l'.

Lemma preserves_seq (f g : shard -> res shard) :
  preserves f -> preserves g -> preserves (fun c => do c <- f c; g c).
Proof.
  intros Hf Hg c l c' I Hrun.
  apply bind_Ok in Hrun as (c1 & H1 & H2).
  destruct (Hf c l c1 I H1) as (l1 & I1 & F1).
  destruct (Hg c1 l1 c' I1 H2) as (l2 & I2 & F2).
  exists l2. split; [done|]. eapply Frame_trans; eauto.
Qed.

Lemma preserves_Ok : preserves Ok.
Proof.
  intros c l c' I [= <-]. exists l. split; [done|apply Frame_refl].
Qed.

Lemma preserves_hotTail : preserves hotTail.
Proof. intros c l c' I H. exists l. by apply hotTail_spec. Qed.

Lemma preserves_testTail : preserves testTail.
Proof. intros c l c' I H. by apply (testTail_spec c l c'). Qed.

Lemma preserves_advanceCold : preserves advanceCold.
Proof. intros c l c' I H. exists l. by apply advanceCold_spec. Qed.

Lemma hands_preserve n :
  preserves (runHandCold n) /\ preserves (testLoop n) /\
  preserves (hotLoop n) /\ preserves (runHandHot n) /\
  preserves (runHandTest n).
Proof.
  induction n as [|n (IHcold & IHtl & IHhl & IHhot & IHtest)].
  { repeat split; intros c l c' _ H; discriminate H. }
  split; [|split; [|split; [|split]]].
  - (* runHandCold *)
    intros c l c' I Hrun. simpl in Hrun.
    destruct (handCold c) as [e|] eqn:Hhand; [|done].
    assert (e ∈ l) as Hin.
    { destruct (Inv_hand_in c l I) as (_ & Hc & _). by apply Hc. }
    apply bind_Ok in Hrun as (ee & He%getE_Ok & Hrun).
    apply bind_Ok in Hrun as (c1 & Hb & Hrun).
    assert (exists l1, Inv c1 l1 /\ Frame l c c1 l1) as (l1 & I1 & F1).
    { case_decide as Hty; [destruct (e_referenced ee)|].
      - exists l. by apply (coldHit_spec c l e ee).
      - apply bind_Ok in Hb as (cm & Hm & Htl).
        destruct (coldMiss_spec c l e ee I Hin He Hty) as (cm' & Hm' & Im & Fm).
        assert (cm' = cm) as -> by congruence.
        destruct (IHtl cm l c1 Im Htl) as (l1 & I1 & F1).
        exists l1. split; [done|]. eapply Frame_trans; eauto.
      - injection Hb as <-. exists l. split; [done|apply Frame_refl]. }
    apply bind_Ok in Hrun as (c2 & Ha & Hl).
    destruct (advanceCold_spec c1 l1 c2 I1 Ha) as [I2 F2].
    destruct (IHhl c2 l1 c' I2 Hl) as (l3 & I3 & F3).
    exists l3. split; [done|].
    eapply Frame_trans; [exact F1|]. eapply Frame_trans; eauto.
  - (* testLoop *)
    intros c l c' I Hrun. simpl in Hrun.
    destruct (testCond c); [|by apply preserves_Ok].
    revert c l c' I Hrun. by apply preserves_seq.
  - (* hotLoop *)
    intros c l c' I Hrun. simpl in Hrun.
    destruct (hotCond c); [|by apply preserves_Ok].
    revert c l c' I Hrun. by apply preserves_seq.
  - (* runHandHot *)
    intros c l c' I Hrun. simpl in Hrun.
    destruct (_ && _); [|by apply preserves_hotTail].
    apply bind_Ok in Hrun as (c1 & H1 & H2).
    destruct (IHtest c l c1 I H1) as (l1 & I1 & F1).
    destruct (notNil (handHot c1)).
    + destruct (hotTail_spec c1 l1 c' I1 H2) as [I2 F2].
      exists l1. split; [done|]. eapply Frame_trans; eauto.
    + injection H2 as <-. by exists l1.
  - (* runHandTest *)
    intros c l c' I Hrun. simpl in Hrun.
    destruct (_ && _); [|by apply preserves_testTail].
    destruct (countCold c =? 0); [done|].
    apply bind_Ok in Hrun as (c1 & H1 & H2).
    destruct (IHcold c l c1 I H1) as (l1 & I1 & F1).
    destruct (notNil (handTest c1)).
    + destruct (testTail_spec c1 l1 c' I1 H2) as (l2 & I2 & F2).
      exists l2. split; [done|]. eapply Frame_trans; eauto.
    + injection H2 as <-. by exists l1.
Qed.

Lemma evict_preserves n : preserves (evict n).
Proof.
  induction n as [|n IH]; intros c l c' I Hrun; [done|].
  simpl in Hrun. destruct (evictCond c); [|by apply preserves_Ok].
  revert c l c' I Hrun. apply preserves_seq; [|done].
  apply hands_preserve.
Qed.

(** When the sweep returns, the resident size is below the target or the
    ring is empty. *)
Lemma evict_done n c c' :
  evict n c = Ok c' -> evictCond c' = false.
Proof.
  revert c. induction n as [|n IH]; intros c Hrun; [done|].
  simpl in Hrun. destruct (evictCond c) eqn:E.
  - apply bind_Ok in Hrun as (c1 & _ & H2). by apply (IH c1).
  - by injection Hrun as <-.
Qed.

(** ** Consequences of the invariant for the counters *)

(** [Inv] reads the arena on the ring only. *)
Lemma Inv_outside c c' l :
  Inv c l ->
  (forall x, x ∈ l -> mem_entries c' !! x = mem_entries c !! x) ->
  (forall p e w, p ∈ l -> mem_entries c !! p = Some e -> e_val e = Some w ->
     mem_values c' !! w = mem_values c !! w) ->
  blocks c' = blocks c -> files c' = files c ->
  handHot c' = handHot c -> handCold c' = handCold c ->
  handTest c' = handTest c ->
  (forall t, sizeOf t c' = sizeOf t c) ->
  (forall t, countOf t c' = countOf t c) ->
  CT c' ->
  Inv c' l.
Proof.
  intros [S C T V K] Hh Hv Hb Hf Hhh Hhc Hht Hs Hc K'.
  split; try done.
  - apply (Struct_frame c c'); auto;
      try (intros x Hx; unfold fld; by rewrite (Hh x Hx)).
    by apply (hands_in_frame c c'), (st_hands _ _ S).
  - intros t. destruct (C t) as [Cs Cc]. split.
    + rewrite (zsum_ext (weight t c') (weight t c)).
      * by rewrite Hs.
      * intros. apply weight_same. by apply Hh.
    + rewrite (zsum_ext (unit_of t c') (unit_of t c)).
      * by rewrite Hc.
      * intros. apply unit_same. by apply Hh.
  - intros p e Hp. rewrite (Hh p Hp). by apply T.
  - destruct V as [V1 V2]. split.
    + intros p e v Hp. rewrite (Hh p Hp). intros He Hval.
      rewrite (Hv p e v Hp He Hval). by apply (V1 p e).
    + intros p q ep eq v Hp Hq. rewrite (Hh p Hp), (Hh q Hq). by apply V2.
Qed.

Lemma weight_nonneg c l t p : Typed c l -> p ∈ l -> 0 <= weight t c p.
Proof.
  intros T Hp. unfold weight.
  destruct (mem_entries c !! p) as [e|] eqn:He; [|done].
  case_decide; [|done]. by apply (T p e).
Qed.

Lemma unit_nonneg c t p : 0 <= unit_of t c p.
Proof.
  unfold unit_of. destruct (mem_entries c !! p); [|done]. by case_decide.
Qed.

Lemma weight_pos_unit c t p : 0 < weight t c p -> unit_of t c p = 1.
Proof.
  unfold weight, unit_of. destruct (mem_entries c !! p); [|lia].
  case_decide; [done|lia].
Qed.

Lemma zsum_ge f l p :
  (forall q, q ∈ l -> 0 <= f q) -> p ∈ l -> f p <= zsum f l.
Proof.
  intros Hf Hp. apply list_elem_of_split in Hp as (l1 & l2 & ->).
  rewrite (zsum_perm f _ (p :: l1 ++ l2)) by (by rewrite Permutation_middle).
  simpl. assert (0 <= zsum f (l1 ++ l2)); [|lia].
  apply zsum_nonneg. intros q Hq. apply Hf. set_solver.
Qed.

(** What [checkConsistency] asserts holds under the invariant. *)
Lemma Inv_counters c l t :
  Inv c l ->
  0 <= sizeOf t c /\ 0 <= countOf t c /\ (0 < sizeOf t c -> 0 < countOf t c).
Proof.
  intros I. destruct (inv_counts _ _ I t) as [-> ->].
  split; [|split].
  - apply zsum_nonneg. intros. apply (weight_nonneg c l); [apply I|done].
  - apply zsum_nonneg. intros. apply unit_nonneg.
  - intros (p & Hp & Hw)%zsum_pos_inv.
    pose proof (zsum_ge (unit_of t c) l p (fun q _ => unit_nonneg c t q) Hp).
    rewrite (weight_pos_unit c t p Hw) in H. lia.
Qed.

Lemma checkConsistency_ok c l : Inv c l -> checkConsistency c = Ok tt.
Proof.
  intros I.
  destruct (Inv_counters c l etHot I) as (H1 & H2 & H3).
  destruct (Inv_counters c l etCold I) as (C1 & C2 & C3).
  destruct (Inv_counters c l etTest I) as (T1 & T2 & T3).
  simpl in *. unfold checkConsistency.
  repeat match goal with
    | |- context [?a <? ?b] => destruct (Z.ltb_spec a b); try lia
    | |- context [?a =? ?b] => destruct (Z.eqb_spec a b); try lia
    end; simpl; try done; lia.
Qed.

Lemma Inv_empty c t : Inv c [] -> sizeOf t c = 0 /\ countOf t c = 0.
Proof. intros I. by destruct (inv_counts _ _ I t) as [-> ->]. Qed.

Lemma evictCond_false c l :
  Inv c l -> evictCond c = false ->
  sizeHot c + sizeCold c < targetSize c.
Proof.
  intros I Hc. unfold evictCond in Hc.
  apply andb_false_iff in Hc as [Hc|Hc].
  - apply Z.leb_gt in Hc. lia.
  - destruct (handCold c) eqn:Hh; [done|].
    destruct (hands_nil _ _ (st_hands _ _ (inv_struct _ _ I))) as (_ & Hn & _).
    rewrite (Hn Hh) in I.
    destruct (Inv_empty c etHot I) as [H1 _].
    destruct (Inv_empty c etCold I) as [H2 _]. simpl in *.
    unfold targetSize. destruct (_ <? 1) eqn:E; [lia|].
    apply Z.ltb_ge in E. lia.
Qed.

(** ** Reserve *)

Lemma Reserve_spec fuel n c l c' :
  Inv c l -> Reserve fuel n c = Ok c' ->
  (exists l', Inv c' l') /\
  reservedSize c' = wrap64 (reservedSize c + n) /\ maxSize c' = maxSize c /\
  sizeHot c' + sizeCold c' < targetSize c'.
Proof.
  intros I Hrun. unfold Reserve in Hrun.
  set (c1 := set_reservedSize (wrap64 (reservedSize c + n)) c) in Hrun.
  set (c2 := if targetSize c1 <? coldTarget c1
             then set_coldTarget (targetSize c1) c1 else c1) in Hrun.
  assert (Inv c2 l) as I2.
  { pose proof (inv_ct _ _ I) as K. unfold CT in K.
    assert (1 <= targetSize c1)
      by (unfold targetSize; destruct (_ <? 1) eqn:E; [lia|];
          apply Z.ltb_ge in E; lia).
    apply (Inv_ext c); try done; subst c2;
      try (destruct (targetSize c1 <? coldTarget c1); reflexivity);
      try (intros t; destruct (targetSize c1 <? coldTarget c1), t; reflexivity).
    unfold CT. destruct (targetSize c1 <? coldTarget c1) eqn:E.
    - change (coldTarget (set_coldTarget (targetSize c1) c1)) with (targetSize c1).
      change (targetSize (set_coldTarget (targetSize c1) c1)) with (targetSize c1).
      lia.
    - apply Z.ltb_ge in E. change (coldTarget c1) with (coldTarget c) in *. lia. }
  apply bind_Ok in Hrun as (c3 & Hev & Hrun).
  apply bind_Ok in Hrun as (_ & _ & [= <-]).
  destruct (evict_preserves fuel c2 l c3 I2 Hev) as (l3 & I3 & F3).
  split; [by exists l3|].
  rewrite (fr_reserved _ _ _ _ F3), (fr_max _ _ _ _ F3).
  split; [|split].
  - subst c2. by destruct (targetSize c1 <? coldTarget c1).
  - subst c2. by destruct (targetSize c1 <? coldTarget c1).
  - apply (evictCond_false c3 l3 I3). by apply (evict_done fuel c2).
Qed.

(** ** Get *)

Definition Get_hit (e : ptr) (ee : entry) (v : vptr) (x : Value) (c : shard) : shard :=
  set_hits (hits c + 1)
    (setE e (set_referenced true ee)
       (set_values (<[v := mkValue (v_buf x) (v_refs x + 1)]> (mem_values c)) c)).

Lemma Get_hit_eq k c e ee v x :
  blocks c !! k = Some e -> mem_entries c !! e = Some ee ->
  e_val ee = Some v -> mem_values c !! v = Some x ->
  Get k c = Ok (Some v, Get_hit e ee v x c).
Proof.
  intros Hb He Hv Hx. unfold Get, acquireValue, acquire, getE, getV.
  rewrite Hb, He. cbn [bind]. rewrite Hv, Hx. cbn [bind fst snd].
  rewrite (modE_lookup _ _ _ ee) by done. reflexivity.
Qed.

Lemma Get_ghost_eq k c e ee :
  blocks c !! k = Some e -> mem_entries c !! e = Some ee -> e_val ee = None ->
  Get k c = Ok (None, set_misses (misses c + 1) c).
Proof.
  intros Hb He Hv. unfold Get, acquireValue, getE.
  rewrite Hb, He. cbn [bind]. rewrite Hv. reflexivity.
Qed.

Lemma Get_absent_eq k c :
  blocks c !! k = None -> Get k c = Ok (None, set_misses (misses c + 1) c).
Proof. intros Hb. unfold Get. by rewrite Hb. Qed.

Lemma Get_hit_Inv c l e ee v x :
  Inv c l -> e ∈ l -> mem_entries c !! e = Some ee ->
  e_val ee = Some v -> mem_values c !! v = Some x ->
  Inv (Get_hit e ee v x c) l.
Proof.
  intros [S C T V K] Hin He Hv Hx.
  set (c' := Get_hit e ee v x c).
  assert (mem_entries c' = <[e := set_referenced true ee]> (mem_entries c))
    as Hh by done.
  split.
  - by eapply (Struct_update c c' l e ee (set_referenced true ee)).
  - eapply (Counts_update c c' l e ee (set_referenced true ee)); eauto.
    + apply (st_nodup _ _ S).
    + intros t. unfold weight_of. simpl. destruct t; simpl; lia.
    + intros t. unfold unit_for. simpl. destruct t; simpl; lia.
  - eapply Typed_update; eauto; simpl; by apply (T e ee).
  - destruct V as [V1 V2].
    assert (forall p ep', mem_entries c' !! p = Some ep' ->
              exists ep, mem_entries c !! p = Some ep /\ e_val ep = e_val ep')
      as Hsame.
    { intros p ep'. rewrite Hh, lookup_insert. case_decide; subst.
      - intros [= <-]. eauto.
      - eauto. }
    split.
    + intros p ep' w Hp Hep Hw.
      destruct (Hsame p ep' Hep) as (ep & Hep0 & Hveq).
      destruct (V1 p ep w Hp Hep0) as (y & Hy & Hrefs); [congruence|].
      change (mem_values c') with
        (<[v := mkValue (v_buf x) (v_refs x + 1)]> (mem_values c)).
      rewrite lookup_insert. case_decide; subst.
      * eexists. split; [done|]. simpl.
        assert (y = x) as -> by congruence. lia.
      * by exists y.
    + intros p q ep' eq' w Hp Hq Hep Heq Hwp Hwq.
      destruct (Hsame p ep' Hep) as (ep & Hep0 & Hveq).
      destruct (Hsame q eq' Heq) as (eq & Heq0 & Hveq').
      apply (V2 p q ep eq w); auto; congruence.
  - done.
Qed.

Lemma Get_spec k c l :
  Inv c l ->
  exists h c', Get k c = Ok (h, c') /\ Inv c' l.
Proof.
  intros I.
  destruct (blocks c !! k) as [e|] eqn:Hb.
  - apply (st_blocks _ _ (inv_struct _ _ I)) in Hb as Hin.
    destruct Hin as [Hin _].
    destruct (Struct_alloc c l e (inv_struct _ _ I) Hin) as [ee He].
    destruct (e_val ee) as [v|] eqn:Hv.
    + destruct (proj1 (inv_vals _ _ I) e ee v Hin He Hv) as (x & Hx & _).
      eexists _, _. split; [by apply (Get_hit_eq k c e ee v x)|].
      by apply Get_hit_Inv.
    + eexists _, _. split; [by apply (Get_ghost_eq k c e ee)|].
      apply (Inv_ext c); try done. apply (inv_ct _ _ I).
  - eexists _, _. split; [by apply Get_absent_eq|].
    apply (Inv_ext c); try done. apply (inv_ct _ _ I).
Qed.

(** ** Releasing a Value that the ring no longer holds *)

Definition unheld (c : shard) (l : list ptr) (w : vptr) : Prop :=
  forall p e, p ∈ l -> mem_entries c !! p = Some e -> e_val e <> Some w.

Lemma release_spec c l ov :
  Inv c l ->
  (forall w, ov = Some w ->
     (exists x, mem_values c !! w = Some x /\ 2 <= v_refs x) /\ unheld c l w) ->
  exists vs,
    release ov c = Ok (set_values vs c) /\ Inv (set_values vs c) l /\
    (forall w', ov <> Some w' -> vs !! w' = mem_values c !! w') /\
    (forall w x, ov = Some w -> mem_values c !! w = Some x ->
       vs !! w = Some (mkValue (v_buf x) (v_refs x - 1))).
Proof.
  intros I Hov. destruct ov as [w|]; cycle 1.
  { exists (mem_values c). split; [|split; [|done]].
    - simpl. destruct c; reflexivity.
    - apply (Inv_ext c); try done. apply (inv_ct _ _ I). }
  destruct (Hov w eq_refl) as ((x & Hx & Hrefs) & Hun).
  unfold release, getV. rewrite Hx. cbn [bind].
  destruct (v_refs x - 1 <? 0) eqn:E1; [lia|].
  destruct (v_refs x - 1 =? 0) eqn:E2; [lia|].
  eexists. split; [done|]. split; [|split].
  - apply (Inv_outside c); try done.
    + intros p e w' Hp He Hw'. simpl. rewrite lookup_insert_ne; [done|].
      intros ->. by apply (Hun p e).
    + apply (inv_ct _ _ I).
  - intros w' Hne. rewrite lookup_insert_ne; [done|]. congruence.
  - intros w' x' [= <-] Hx'. rewrite lookup_insert_eq. congruence.
Qed.

(** ** Delete *)

Lemma Delete_absent k c : blocks c !! k = None -> Delete k c = Ok c.
Proof. intros H. unfold Delete. by rewrite H. Qed.

Lemma Delete_spec k c l :
  Inv c l ->
  exists c' l',
    Delete k c = Ok c' /\ Inv c' l' /\
    targetSize c' = targetSize c /\
    sizeHot c' + sizeCold c' <= sizeHot c + sizeCold c.
Proof.
  intros I. unfold Delete.
  destruct (blocks c !! k) as [e|] eqn:Hb.
  - apply (st_blocks _ _ (inv_struct _ _ I)) in Hb as [Hin _].
    destruct (metaEvict_spec c l e I Hin)
      as (ee & c1 & l1 & He & Hrun & Hperm & I1 & F1 & Hv1 & _ & _ & Hs & _).
    rewrite Hrun. cbn [bind fst snd].
    rewrite (checkConsistency_ok c1 l1 I1). cbn [bind].
    destruct (release_spec c1 l1 (e_val ee) I1) as (vs & Hrel & I2 & _).
    { intros w Hw. split.
      - rewrite Hv1. by apply (proj1 (inv_vals _ _ I) e ee).
      - intros p ep Hp Hep Hpw.
        destruct (fr_held _ _ _ _ F1 p ep w Hp Hep Hpw) as (ep0 & Hep0 & Hw0).
        assert (p = e).
        { apply (proj2 (inv_vals _ _ I) p e ep0 ee w); auto.
          by apply (fr_sub _ _ _ _ F1). }
        subst p. pose proof (st_nodup _ _ (inv_struct _ _ I)) as Hnd.
        rewrite Hperm in Hnd. by apply NoDup_cons in Hnd as [? _]. }
    exists (set_values vs c1), l1. split; [done|]. split; [done|].
    split.
    + change (targetSize (set_values vs c1)) with (targetSize c1).
      by apply (Frame_targetSize l c c1 l1).
    + change (sizeHot (set_values vs c1)) with (sizeOf etHot c1).
      change (sizeCold (set_values vs c1)) with (sizeOf etCold c1).
      rewrite !Hs. simpl.
      assert (0 <= e_size ee) by (by apply (inv_typed _ _ I e ee)).
      unfold weight_of. repeat case_decide; lia.
  - exists c, l. split; [done|]. split; [done|]. split; [done|lia].
Qed.

(** ** Inserting an entry: the second half of [metaAdd] *)

(** The counters of the entry's category are raised after [metaAdd]
    succeeded. *)
Definition raise (E : entry) (c : shard) : shard :=
  match e_ptype E with
  | etHot => add_hot (e_size E) 1 c
  | etCold => add_cold (e_size E) 1 c
  | etTest => add_test (e_size E) 1 c
  end.

Lemma raise_sizeOf E c t : sizeOf t (raise E c) = sizeOf t c + weight_of t E.
Proof.
  unfold raise, weight_of.
  destruct (e_ptype E), t; simpl; repeat case_decide; try congruence; lia.
Qed.

Lemma raise_countOf E c t : countOf t (raise E c) = countOf t c + unit_for t E.
Proof.
  unfold raise, unit_for.
  destruct (e_ptype E), t; simpl; repeat case_decide; try congruence; lia.
Qed.

Lemma raise_same E c :
  mem_entries (raise E c) = mem_entries c /\
  mem_values (raise E c) = mem_values c /\
  blocks (raise E c) = blocks c /\ files (raise E c) = files c /\
  handHot (raise E c) = handHot c /\ handCold (raise E c) = handCold c /\
  handTest (raise E c) = handTest c /\
  coldTarget (raise E c) = coldTarget c /\
  maxSize (raise E c) = maxSize c /\ reservedSize (raise E c) = reservedSize c /\
  hits (raise E c) = hits c /\ misses (raise E c) = misses c.
Proof. unfold raise. by destruct (e_ptype E). Qed.

Lemma insert_Inv c l e E v x :
  Inv c l -> e ∉ l -> mem_entries c !! e = Some E ->
  blinks E = (e, e) -> flinks E = (e, e) -> blocks c !! e_key E = None ->
  0 <= e_size E -> e_ptype E <> etTest -> e_val E = Some v ->
  mem_values c !! v = Some x -> 2 <= v_refs x -> unheld c l v ->
  exists c1 c2 l',
    insertRing (e_key E) e c = Ok c1 /\ insertFile (e_key E) e c1 = Ok c2 /\
    l' ≡ₚ e :: l /\ Inv (raise E c2) l' /\
    scalars c2 = scalars c /\ mem_values c2 = mem_values c /\
    (forall y, fld cargo c2 y = fld cargo c y) /\
    (forall y, fld e_key c2 y = fld e_key c y).
Proof.
  intros [S C T V K] Hel He Hbl Hfl Hnone Hsz Hty Hval Hx Hrefs Hun.
  destruct (insertRing_spec (e_key E) e c l E S Hel He eq_refl Hbl Hnone)
    as (c1 & l1 & Hrun1 & Hperm & Hnd1 & Hring1 & Hhands1 & Hblocks1 & Hfiles1
        & Hsc1 & Hv1 & Hk1 & Hf1 & Hc1).
  assert (exists E1, mem_entries c1 !! e = Some E1 /\ e_key E1 = e_key E
                     /\ flinks E1 = flinks E) as (E1 & He1 & Hk & Hf).
  { pose proof (Hk1 e) as Hke. pose proof (Hf1 e) as Hfe.
    unfold fld in Hke, Hfe. rewrite He in Hke, Hfe.
    destruct (mem_entries c1 !! e) as [E1|]; [|done].
    simpl in *. exists E1. split; [done|]. split; congruence. }
  destruct (insertFile_spec (e_key E) e c1 l E1) as
    (c2 & Hrun2 & Hfiles2 & Hb2 & Hhh2 & Hhc2 & Hht2 & Hsc2 & Hv2 & Hk2 & Hbl2 & Hc2);
    try done.
  { intros fk. destruct (st_files _ _ S fk) as (lf & Hlf). exists lf.
    apply (file_ring_frame c c1); auto. by rewrite Hfiles1. }
  { congruence. }
  exists c1, c2, l1. split; [done|]. split; [done|]. split; [done|].
  destruct (raise_same E c2)
    as (Rh & Rv & Rb & Rf & Rhh & Rhc & Rht & Rct & Rmax & Rres & _ & _).
  assert (forall A (f : entry -> A) y, fld f (raise E c2) y = fld f c2 y) as Rfld
    by (intros; unfold fld; by rewrite Rh).
  assert (forall y, fld cargo c2 y = fld cargo c y) as Hcargo
    by (intros; by rewrite Hc2, Hc1).
  assert (forall y, fld e_key c2 y = fld e_key c y) as Hkeys
    by (intros; by rewrite Hk2, Hk1).
  assert (forall y ey, mem_entries (raise E c2) !! y = Some ey ->
            exists ey0, mem_entries c !! y = Some ey0 /\ cargo ey = cargo ey0)
    as Hent.
  { intros y ey. rewrite Rh. intros Hy. pose proof (Hcargo y) as Hcy.
    unfold fld in Hcy. rewrite Hy in Hcy.
    destruct (mem_entries c !! y) as [ey0|]; [|done].
    simpl in Hcy. exists ey0. split; [done|congruence]. }
  split; [split|].
  - (* structure *)
    split.
    + done.
    + eapply ring_frame; [|exact Hring1].
      intros y _. rewrite !Rfld. by apply fld_blinks.
    + apply (hands_in_frame c1); [congruence..|done].
    + intros k p. rewrite Rb, Rfld, Hb2, Hk2. apply Hblocks1.
    + intros fk. destruct (Hfiles2 fk) as (lf & Hlf). exists lf.
      apply (file_ring_perm _ (e :: l)); [done|].
      apply (file_ring_frame c2); auto; try (intros; by rewrite Rfld).
      by rewrite Rf.
  - (* counters *)
    intros t. destruct (C t) as [Cs Cc].
    injection Hsc1 as ? ? ? ? ? Hsh1 Hsc1 Hst1 Hch1 Hcc1 Hcx1.
    injection Hsc2 as ? ? ? ? ? Hsh2 Hsc2 Hst2 Hch2 Hcc2 Hcx2.
    assert (forall y, weight t (raise E c2) y = weight t c y) as Hw
      by (intros; apply weight_cargo; by rewrite Rfld).
    assert (forall y, unit_of t (raise E c2) y = unit_of t c y) as Hu
      by (intros; apply unit_cargo; by rewrite Rfld).
    split.
    + rewrite raise_sizeOf, (zsum_perm _ _ _ Hperm). simpl.
      rewrite (zsum_ext _ (weight t c) l) by (intros; apply Hw).
      rewrite Hw, (weight_lookup t c e E He), <-Cs.
      destruct t; simpl; lia.
    + rewrite raise_countOf, (zsum_perm _ _ _ Hperm). simpl.
      rewrite (zsum_ext _ (unit_of t c) l) by (intros; apply Hu).
      rewrite Hu, (unit_lookup t c e E He), <-Cc.
      destruct t; simpl; lia.
  - (* cargo *)
    intros p ep Hp Hep. destruct (Hent p ep Hep) as (ep0 & Hep0 & Hcg).
    injection Hcg as Hv' Hs' Ht' _. rewrite Hv', Hs', Ht'.
    rewrite Hperm in Hp. apply elem_of_cons in Hp as [->|Hp].
    + assert (ep0 = E) as -> by congruence.
      split; [done|]. split; [done|congruence].
    + by apply (T p ep0).
  - (* values *)
    destruct V as [V1 V2]. split.
    + intros p ep w Hp Hep Hw. destruct (Hent p ep Hep) as (ep0 & Hep0 & Hcg).
      injection Hcg as Hv' _ _ _. rewrite Rv, Hv2, Hv1.
      rewrite Hperm in Hp. apply elem_of_cons in Hp as [->|Hp].
      * assert (ep0 = E) as -> by congruence.
        assert (w = v) as -> by congruence. by exists x.
      * apply (V1 p ep0); [done|done|congruence].
    + intros p q ep eq w Hp Hq Hep Heq Hwp Hwq.
      destruct (Hent p ep Hep) as (ep0 & Hep0 & Hcg).
      destruct (Hent q eq Heq) as (eq0 & Heq0 & Hcg').
      injection Hcg as Hv' _ _ _. injection Hcg' as Hv'' _ _ _.
      rewrite Hperm in Hp, Hq.
      apply elem_of_cons in Hp as [->|Hp];
        apply elem_of_cons in Hq as [->|Hq]; try done.
      * exfalso. apply (Hun q eq0 Hq Heq0). congruence.
      * exfalso. apply (Hun p ep0 Hp Hep0). congruence.
      * apply (V2 p q ep0 eq0 w); auto; congruence.
  - (* cold target *)
    injection Hsc1 as ? ? Hr1 Hm1 Hct1 _ _ _ _ _ _.
    injection Hsc2 as ? ? Hr2 Hm2 Hct2 _ _ _ _ _ _.
    unfold CT, targetSize in *. rewrite Rct, Rmax, Rres.
    by rewrite Hct2, Hm2, Hr2, Hct1, Hm1, Hr1.
  - split; [congruence|]. split; [congruence|]. done.
Qed.

Lemma unheld_frame l c c' l' w :
  Frame l c c' l' -> unheld c l w -> unheld c' l' w.
Proof.
  intros F Hun p ep Hp Hep Hw.
  destruct (fr_held _ _ _ _ F p ep w Hp Hep Hw) as (ep0 & Hep0 & Hw0).
  apply (Hun p ep0); [by apply (fr_sub _ _ _ _ F)|done|done].
Qed.

Lemma metaAdd_spec fuel c l e E v x r :
  Inv c l -> e ∉ l -> mem_entries c !! e = Some E ->
  blinks E = (e, e) -> flinks E = (e, e) -> blocks c !! e_key E = None ->
  0 <= e_size E -> e_ptype E <> etTest -> e_val E = Some v ->
  mem_values c !! v = Some x -> 2 <= v_refs x -> unheld c l v ->
  metaAdd fuel (e_key E) e c = Ok r ->
  exists c3 l3,
    evict fuel c = Ok c3 /\ Inv c3 l3 /\ Frame l c c3 l3 /\
    mem_entries c3 !! e = Some E /\ mem_values c3 !! v = Some x /\
    unheld c3 l3 v /\ (e ∉ l3) /\ blocks c3 !! e_key E = None /\
    sizeHot c3 + sizeCold c3 < targetSize c3 /\
    ((r = (false, c3) /\ targetSize c3 < e_size E) \/
     (exists c5 l5,
        r = (true, c5) /\ e_size E <= targetSize c3 /\ l5 ≡ₚ e :: l3 /\
        Inv (raise E c5) l5 /\ scalars c5 = scalars c3 /\
        mem_values c5 = mem_values c3 /\
        (forall y, fld cargo c5 y = fld cargo c3 y) /\
        (forall y, fld e_key c5 y = fld e_key c3 y))).
Proof.
  intros I Hel He Hbl Hfl Hnone Hsz Hty Hval Hx Hrefs Hun Hrun.
  rewrite metaAdd_eq in Hrun.
  apply bind_Ok in Hrun as (c3 & Hev & Hrun).
  destruct (evict_preserves fuel c l c3 I Hev) as (l3 & I3 & F3).
  assert (mem_entries c3 !! e = Some E) as He3
    by (by rewrite (fr_outside _ _ _ _ F3)).
  assert (mem_values c3 !! v = Some x) as Hx3
    by (by rewrite (fr_values _ _ _ _ F3)).
  assert (e ∉ l3) as Hel3 by (intros Hin; by apply (fr_sub _ _ _ _ F3) in Hin).
  pose proof (unheld_frame _ _ _ _ v F3 Hun) as Hun3.
  pose proof (fr_blocks _ _ _ _ F3 _ Hnone) as Hnone3.
  exists c3, l3. repeat (split; [done|]).
  split; [by apply (evictCond_false c3 l3 I3), (evict_done fuel c)|].
  unfold getE in Hrun. rewrite He3 in Hrun. cbn [bind] in Hrun.
  destruct (targetSize c3 <? e_size E) eqn:Efit.
  - left. injection Hrun as <-. split; [done|]. by apply Z.ltb_lt.
  - right. apply Z.ltb_ge in Efit.
    destruct (insert_Inv c3 l3 e E v x I3 Hel3 He3 Hbl Hfl Hnone3 Hsz Hty
                Hval Hx3 Hrefs Hun3)
      as (c4 & c5 & l5 & Hr1 & Hr2 & Hperm & I5 & Hrest).
    rewrite Hr1 in Hrun. cbn [bind] in Hrun. rewrite Hr2 in Hrun.
    cbn [bind] in Hrun. injection Hrun as <-.
    exists c5, l5. by repeat (split; [done|]).
Qed.

(** Freeing an entry that is outside the ring and holds [v]. *)
Lemma free_outside c l e E v x :
  Inv c l -> e ∉ l -> mem_entries c !! e = Some E -> e_val E = Some v ->
  mem_values c !! v = Some x -> 2 <= v_refs x -> unheld c l v ->
  exists c',
    free e c = Ok c' /\ Inv c' l /\
    mem_entries c' = delete e (mem_entries c) /\
    mem_values c' = <[v := mkValue (v_buf x) (v_refs x - 1)]> (mem_values c) /\
    blocks c' = blocks c /\ scalars c' = scalars c.
Proof.
  intros I Hel He Hval Hx Hrefs Hun.
  unfold free, setValue. cbn [bind]. unfold getE. rewrite He. cbn [bind].
  rewrite (modE_lookup _ _ _ E He). cbn [bind]. rewrite Hval.
  unfold release, getV. cbn [mem_values setE set_entries]. rewrite Hx.
  cbn [bind].
  destruct (v_refs x - 1 <? 0) eqn:E1; [lia|].
  destruct (v_refs x - 1 =? 0) eqn:E2; [lia|].
  cbn [bind].
  eexists. split; [done|]. split; [|split; [|done]].
  - apply (Inv_outside c); try done.
    + intros y Hy. cbn. rewrite lookup_delete_ne, lookup_insert_ne;
        [done|by intros ->|by intros ->].
    + intros p ep w Hp Hep Hw. cbn. rewrite lookup_insert_ne; [done|].
      intros ->. by apply (Hun p ep).
    + apply (inv_ct _ _ I).
  - cbn. by rewrite delete_insert_eq.
Qed.

(** ** Set *)

Lemma unheld_fresh c l v x :
  Inv c l -> mem_values c !! v = Some x -> v_refs x = 1 -> unheld c l v.
Proof.
  intros I Hx Hr p ep Hp Hep Hv.
  destruct (proj1 (inv_vals _ _ I) p ep v Hp Hep Hv) as (y & Hy & Hrefs).
  assert (y = x) as -> by congruence. lia.
Qed.

Lemma ring_allocated c l p : Inv c l -> p ∈ l -> p ∈ dom (mem_entries c).
Proof.
  intros I Hp. apply elem_of_dom.
  apply (Struct_alloc c l); [apply I|done].
Qed.

(** The state in which [Set] calls [metaAdd] for a key that is absent: the
    new entry is allocated outside the ring and owns the Value. *)
Definition fresh_entry (k : key) (len : Z) (v : vptr) (c : shard) : entry :=
  let e := fresh (dom (mem_entries c)) in
  mkEntry k (Some v) e e e e len etCold false.

Definition Set_absent_pre (k : key) (v : vptr) (x : Value) (c : shard) : shard :=
  let e := fresh (dom (mem_entries c)) in
  set_entries
    (<[e := fresh_entry k (Z.of_nat (length (v_buf x))) v c]> (mem_entries c))
    (set_values (<[v := mkValue (v_buf x) 2]> (mem_values c)) c).

Lemma Set_absent_pre_eq k v x c :
  mem_values c !! v = Some x -> v_refs x = 1 ->
  let ec := newEntry k (Z.of_nat (length (v_buf x))) c in
  ec.1 = fresh (dom (mem_entries c)) /\
  setValue ec.1 (Some v) ec.2 = Ok (Set_absent_pre k v x c).
Proof.
  intros Hx Hr. split; [done|].
  unfold newEntry, setValue, acquire, getV. cbn [fst snd].
  cbn [mem_values setE set_entries]. rewrite Hx. cbn [bind].
  unfold getE. cbn [mem_entries setE set_entries set_values].
  rewrite lookup_insert_eq. cbn [bind].
  rewrite (modE_lookup _ _ _ (mkEntry k None _ _ _ _ _ etCold false))
    by (cbn; apply lookup_insert_eq).
  cbn [bind e_val release]. unfold Set_absent_pre, fresh_entry, setE.
  cbn [mem_entries set_entries set_values]. rewrite insert_insert_eq.
  rewrite Hr. reflexivity.
Qed.

Lemma Set_absent_pre_Inv k v x c l :
  Inv c l -> mem_values c !! v = Some x -> v_refs x = 1 ->
  blocks c !! k = None ->
  let e := fresh (dom (mem_entries c)) in
  let c2 := Set_absent_pre k v x c in
  Inv c2 l /\ (e ∉ l) /\
  mem_entries c2 !! e = Some (fresh_entry k (Z.of_nat (length (v_buf x))) v c) /\
  mem_values c2 !! v = Some (mkValue (v_buf x) 2) /\
  unheld c2 l v /\ blocks c2 !! k = None.
Proof.
  intros I Hx Hr Hnone e c2.
  pose proof (unheld_fresh c l v x I Hx Hr) as Hun.
  assert (e ∉ l) as Hel.
  { intros Hin. apply (ring_allocated c l e I) in Hin.
    by apply is_fresh in Hin. }
  assert (forall y, y ∈ l -> mem_entries c2 !! y = mem_entries c !! y) as Hh.
  { intros y Hy. subst c2. unfold Set_absent_pre. cbn.
    rewrite lookup_insert_ne; [done|]. by intros <-. }
  split; [|split; [done|split; [|split; [|split; [|done]]]]].
  - apply (Inv_outside c); try done.
    + intros p ep w Hp Hep Hw. subst c2. unfold Set_absent_pre. cbn.
      rewrite lookup_insert_ne; [done|]. intros ->. by apply (Hun p ep).
    + apply (inv_ct _ _ I).
  - subst c2. unfold Set_absent_pre. cbn. apply lookup_insert_eq.
  - subst c2. unfold Set_absent_pre. cbn. apply lookup_insert_eq.
  - intros p ep Hp. rewrite (Hh p Hp). by apply Hun.
Qed.

(** What every successful [Set] guarantees. *)
Definition Set_post (k : key) (v : vptr) (x : Value) (c : shard)
    (h : Handle) (c' : shard) : Prop :=
  h = Some v /\
  (exists l', Inv c' l') /\
  targetSize c' = targetSize c /\
  sizeHot c' + sizeCold c' < 2 * targetSize c' /\
  (forall p ep w, blocks c' !! k = Some p -> mem_entries c' !! p = Some ep ->
     e_val ep = Some w -> w = v) /\
  (exists x', mem_values c' !! v = Some x' /\ v_buf x' = v_buf x).

Lemma targetSize_pos c : 1 <= targetSize c.
Proof.
  unfold targetSize. destruct (_ <? 1) eqn:E; [lia|]. by apply Z.ltb_ge in E.
Qed.

Lemma scalars_targetSize c c' : scalars c' = scalars c -> targetSize c' = targetSize c.
Proof. intros [= _ _ Hr Hm _ _ _ _ _ _ _]. unfold targetSize. by rewrite Hr, Hm. Qed.

Lemma Set_absent_spec fuel k v x c l h c' :
  Inv c l -> mem_values c !! v = Some x -> v_refs x = 1 ->
  blocks c !! k = None ->
  Set_ fuel k v c = Ok (h, c') ->
  Set_post k v x c h c' /\
  (targetSize c < Z.of_nat (length (v_buf x)) ->
   blocks c' !! k = None /\ mem_values c' !! v = Some x /\
   exists l', Inv c' l' /\ forall p, p ∈ l' -> p ∈ l).
Proof.
  intros I Hx Hr Hnone Hrun.
  unfold Set_ in Hrun. unfold getV in Hrun. rewrite Hx in Hrun.
  cbn [bind] in Hrun. rewrite Hr in Hrun. cbn [negb Z.eqb Pos.eqb] in Hrun.
  rewrite Hnone in Hrun.
  destruct (Set_absent_pre_eq k v x c Hx Hr) as [He Hpre].
  cbv zeta in Hpre. rewrite Hpre in Hrun. cbn [bind] in Hrun. rewrite He in Hrun.
  destruct (Set_absent_pre_Inv k v x c l I Hx Hr Hnone)
    as (I2 & Hel & He2 & Hv2 & Hun2 & Hnone2).
  set (e := fresh (dom (mem_entries c))) in *.
  set (E := fresh_entry k (Z.of_nat (length (v_buf x))) v c) in *.
  set (c2 := Set_absent_pre k v x c) in *.
  apply bind_Ok in Hrun as (c6 & Hrun & Hfin).
  apply bind_Ok in Hrun as (r & Hadd & Hrun).
  assert (targetSize c2 = targetSize c) as HT2 by done.
  destruct (metaAdd_spec fuel c2 l e E v (mkValue (v_buf x) 2) r)
    as (c3 & l3 & Hev & I3 & F3 & He3 & Hv3 & Hun3 & Hel3 & Hnone3 & Hlt & Hcase);
    try done; try (simpl; lia).
  pose proof (Frame_targetSize _ _ _ _ F3) as HT3.
  pose proof (targetSize_pos c) as Hpos.
  change (e_key E) with k in Hnone3.
  destruct Hcase as [[-> Hbig]|(c5 & l5 & -> & Hfit & Hperm & I5 & Hsc5 & Hv5 & Hcg5 & Hk5)].
  - (* declined *)
    cbn [fst snd] in Hrun.
    destruct (free_outside c3 l3 e E v (mkValue (v_buf x) 2))
      as (c4 & Hfree & I4 & Hh4 & Hvals4 & Hb4 & Hsc4); try done; try (simpl; lia).
    rewrite Hfree in Hrun. injection Hrun as <-.
    rewrite (checkConsistency_ok c4 l3 I4) in Hfin. cbn [bind] in Hfin.
    injection Hfin as <- <-.
    pose proof (scalars_targetSize _ _ Hsc4) as HT4.
    injection Hsc4 as _ _ _ _ _ Hsh Hsc _ _ _ _.
    assert (mem_values c4 !! v = Some x) as Hv4.
    { rewrite Hvals4, lookup_insert_eq. simpl. destruct x as [b n].
      simpl in *. by subst n. }
    split.
    + split; [done|]. split; [by exists l3|]. split; [congruence|].
      split; [rewrite Hsh, Hsc, HT4, HT3, HT2; lia|].
      split; [intros p ep w Hp; rewrite Hb4, Hnone3 in Hp; done|].
      by exists x.
    + intros _. split; [by rewrite Hb4|]. split; [done|].
      exists l3. split; [done|]. apply (fr_sub _ _ _ _ F3).
  - (* added as a cold entry *)
    cbn [fst snd] in Hrun.
    assert (exists E5, mem_entries c5 !! e = Some E5 /\ cargo E5 = cargo E
                       /\ e_key E5 = k) as (E5 & He5 & Hcargo & Hkey).
    { pose proof (Hcg5 e) as Hc. pose proof (Hk5 e) as Hke.
      unfold fld in Hc, Hke. rewrite He3 in Hc, Hke.
      destruct (mem_entries c5 !! e) as [E5|]; [|done].
      simpl in *. exists E5. split; [done|]. split; congruence. }
    unfold getE in Hrun. rewrite He5 in Hrun. cbn [bind] in Hrun.
    injection Hrun as <-.
    injection Hcargo as Hval5 Hsz5 _ _.
    rewrite Hsz5 in *.
    change (add_cold (Z.of_nat (length (v_buf x))) 1 c5) with (raise E c5) in *.
    rewrite (checkConsistency_ok _ l5 I5) in Hfin. cbn [bind] in Hfin.
    injection Hfin as <- <-.
    destruct (raise_same E c5)
      as (Rh & Rv & Rb & _ & _ & _ & _ & _ & Rmax & Rres & _ & _).
    pose proof (scalars_targetSize _ _ Hsc5) as HT5.
    assert (targetSize (raise E c5) = targetSize c5) as HTr
      by (unfold targetSize; by rewrite Rmax, Rres).
    split.
    + split; [done|]. split; [by exists l5|]. split; [congruence|].
      split.
      { change (sizeHot (raise E c5)) with (sizeOf etHot (raise E c5)).
        change (sizeCold (raise E c5)) with (sizeOf etCold (raise E c5)).
        rewrite !raise_sizeOf. injection Hsc5 as _ _ _ _ _ Hsh Hsc _ _ _ _.
        simpl. rewrite Hsh, Hsc, HTr, HT5. unfold weight_of. simpl.
        change (e_size E) with (Z.of_nat (length (v_buf x))) in Hfit. lia. }
      split.
      { intros p ep w Hp Hep Hw.
        apply (st_blocks _ _ (inv_struct _ _ I5)) in Hp as [Hp Hpk].
        assert (p = e) as ->.
        { apply (Struct_key_inj (raise E c5) l5 p e k); auto.
          - apply I5.
          - rewrite Hperm. set_solver.
          - unfold fld. rewrite Rh, He5. simpl. by rewrite Hkey. }
        rewrite Rh, He5 in Hep. injection Hep as <-.
        rewrite Hval5 in Hw. simpl in Hw. congruence. }
      exists (mkValue (v_buf x) 2). split; [|done]. by rewrite Rv, Hv5.
    + intros Hbig. change (e_size E) with (Z.of_nat (length (v_buf x))) in Hfit.
      lia.
Qed.

(** The state in which [Set] starts the sweep for a key that is resident:
    the Value is replaced, the reference bit is set and the size counter of
    the entry's category is moved by the size delta. *)
Definition Set_resident_entry (v : vptr) (len : Z) (ee : entry) : entry :=
  set_size len (set_referenced true (set_val (Some v) ee)).

Definition Set_resident_pre (e : ptr) (ee : entry) (v : vptr) (x : Value)
    (old : vptr) (xo : Value) (c : shard) : shard :=
  let len := Z.of_nat (length (v_buf x)) in
  let c1 :=
    set_entries (<[e := Set_resident_entry v len ee]> (mem_entries c))
      (set_values
         (<[old := mkValue (v_buf xo) (v_refs xo - 1)]>
            (<[v := mkValue (v_buf x) (v_refs x + 1)]> (mem_values c))) c) in
  if decide (e_ptype ee = etHot) then add_hot (len - e_size ee) 0 c1
  else add_cold (len - e_size ee) 0 c1.

Lemma Set_resident_pre_eq e ee v x old xo c :
  mem_entries c !! e = Some ee -> e_val ee = Some old ->
  mem_values c !! v = Some x -> mem_values c !! old = Some xo ->
  old <> v -> 2 <= v_refs xo ->
  let len := Z.of_nat (length (v_buf x)) in
  (do c <- setValue e (Some v) c;
   do c <- modE e (set_referenced true) c;
   do ee <- getE e c;
   let delta := len - e_size ee in
   do c <- modE e (set_size len) c;
   Ok (if decide (e_ptype ee = etHot)
       then add_hot delta 0 c else add_cold delta 0 c))
  = Ok (Set_resident_pre e ee v x old xo c).
Proof.
  intros He Hval Hx Hxo Hne Hrefs len.
  unfold setValue, acquire, getV. rewrite Hx. cbn [bind].
  unfold getE. cbn [mem_entries set_values]. rewrite He. cbn [bind].
  rewrite (modE_lookup _ _ _ ee) by done. cbn [bind]. rewrite Hval.
  unfold release, getV. cbn [mem_values setE set_entries set_values].
  rewrite lookup_insert_ne by done. rewrite Hxo. cbn [bind].
  destruct (v_refs xo - 1 <? 0) eqn:E1; [lia|].
  destruct (v_refs xo - 1 =? 0) eqn:E2; [lia|].
  cbn [bind].
  rewrite (modE_lookup _ _ _ (set_val (Some v) ee))
    by (cbn; apply lookup_insert_eq).
  cbn [bind]. unfold getE. cbn [mem_entries setE set_entries set_values].
  rewrite lookup_insert_eq. cbn [bind].
  rewrite (modE_lookup _ _ _ (set_referenced true (set_val (Some v) ee)))
    by (cbn; apply lookup_insert_eq).
  cbn [bind]. unfold Set_resident_pre, Set_resident_entry, setE.
  cbn [mem_entries set_entries set_values e_ptype e_size set_referenced set_val].
  rewrite !insert_insert_eq. reflexivity.
Qed.

Lemma Set_resident_pre_Inv e ee v x old xo c l :
  Inv c l -> e ∈ l ->
  mem_entries c !! e = Some ee -> e_val ee = Some old ->
  mem_values c !! v = Some x -> v_refs x = 1 ->
  mem_values c !! old = Some xo ->
  Inv (Set_resident_pre e ee v x old xo c) l.
Proof.
  intros I Hin He Hval Hx Hr Hxo.
  pose proof (unheld_fresh c l v x I Hx Hr) as Hun.
  destruct I as [S C T V K]. destruct V as [V1 V2].
  set (len := Z.of_nat (length (v_buf x))).
  set (E' := Set_resident_entry v len ee).
  set (c' := Set_resident_pre e ee v x old xo c).
  assert (e_ptype ee <> etTest) as Hty.
  { intros Hx'. apply (T e ee Hin He) in Hx'. congruence. }
  assert (mem_entries c' = <[e := E']> (mem_entries c)) as Hh
    by (subst c'; unfold Set_resident_pre; by case_decide).
  assert (mem_values c' = <[old := mkValue (v_buf xo) (v_refs xo - 1)]>
            (<[v := mkValue (v_buf x) (v_refs x + 1)]> (mem_values c))) as Hv
    by (subst c'; unfold Set_resident_pre; by case_decide).
  assert (old <> v) as Hne by (intros ->; by apply (Hun e ee)).
  assert (forall p ep', p <> e -> mem_entries c' !! p = Some ep' ->
            mem_entries c !! p = Some ep') as Hother
    by (intros p ep' Hp; by rewrite Hh, lookup_insert_ne).
  split.
  - eapply (Struct_update c c' l e ee E'); eauto;
      subst c'; unfold Set_resident_pre; by case_decide.
  - eapply (Counts_update c c' l e ee E'); eauto.
    + apply (st_nodup _ _ S).
    + intros t. subst c' E'. unfold Set_resident_pre, weight_of. simpl.
      destruct (e_ptype ee) eqn:Ety; [done| |];
        destruct t; simpl; repeat case_decide; try congruence; lia.
    + intros t. subst c' E'. unfold Set_resident_pre, unit_for. simpl.
      destruct (e_ptype ee) eqn:Ety; [done| |];
        destruct t; simpl; repeat case_decide; try congruence; lia.
  - eapply Typed_update; eauto; subst E'; simpl; [lia|].
    split; [done|]. intros Hx'. done.
  - split.
    + intros p ep' w Hp Hep Hw. rewrite Hv.
      destruct (decide (p = e)) as [->|Hpe].
      * rewrite Hh, lookup_insert_eq in Hep. injection Hep as <-.
        simpl in Hw. injection Hw as <-.
        rewrite lookup_insert_ne, lookup_insert_eq by done.
        eexists. split; [done|]. simpl. lia.
      * pose proof (Hother p ep' Hpe Hep) as Hep0.
        assert (w <> old).
        { intros ->. apply Hpe. by apply (V2 p e ep' ee old). }
        assert (w <> v) by (intros ->; by apply (Hun p ep')).
        rewrite !lookup_insert_ne by done. by apply (V1 p ep').
    + intros p q ep' eq' w Hp Hq Hep Heq Hwp Hwq.
      destruct (decide (p = e)) as [->|Hpe];
        destruct (decide (q = e)) as [->|Hqe]; try done.
      * rewrite Hh, lookup_insert_eq in Hep. injection Hep as <-.
        simpl in Hwp. injection Hwp as <-.
        exfalso. apply (Hun q eq'); auto.
      * rewrite Hh, lookup_insert_eq in Heq. injection Heq as <-.
        simpl in Hwq. injection Hwq as <-.
        exfalso. apply (Hun p ep'); auto.
      * apply (V2 p q ep' eq' w); auto.
  - unfold CT in *. subst c'. unfold Set_resident_pre. by case_decide.
Qed.

Lemma Set_resident_spec fuel k v x c l e ee old h c' :
  Inv c l -> mem_values c !! v = Some x -> v_refs x = 1 ->
  blocks c !! k = Some e -> mem_entries c !! e = Some ee ->
  e_val ee = Some old ->
  Set_ fuel k v c = Ok (h, c') ->
  Set_post k v x c h c' /\ sizeHot c' + sizeCold c' < targetSize c'.
Proof.
  intros I Hx Hr Hb He Hval Hrun.
  apply (st_blocks _ _ (inv_struct _ _ I)) in Hb as Hin.
  destruct Hin as [Hin Hkey].
  pose proof (unheld_fresh c l v x I Hx Hr) as Hun.
  destruct (proj1 (inv_vals _ _ I) e ee old Hin He Hval) as (xo & Hxo & Hrefs).
  assert (old <> v) as Hne by (intros ->; by apply (Hun e ee)).
  unfold Set_ in Hrun. unfold getV in Hrun. rewrite Hx in Hrun.
  cbn [bind] in Hrun. rewrite Hr in Hrun. cbn [negb Z.eqb Pos.eqb] in Hrun.
  rewrite Hb in Hrun. unfold peekValue, getE in Hrun. rewrite He in Hrun.
  cbn [bind] in Hrun. rewrite Hval in Hrun.
  apply bind_Ok in Hrun as (c5 & Hrun & Hfin).
  pose proof (Set_resident_pre_eq e ee v x old xo c He Hval Hx Hxo Hne Hrefs)
    as Hpre. cbv zeta in Hpre.
  set (c4 := Set_resident_pre e ee v x old xo c) in *.
  assert (evict fuel c4 = Ok c5) as Hev.
  { revert Hrun Hpre. clear.
    destruct (setValue e (Some v) c) as [c1| |]; cbn [bind]; try done.
    destruct (modE e (set_referenced true) c1) as [c2| |]; cbn [bind]; try done.
    unfold getE.
    destruct (mem_entries c2 !! e) as [e2|]; cbn [bind]; try done.
    destruct (modE e (set_size _) c2) as [c3| |]; cbn [bind]; try done.
    intros H1 H2. injection H2 as H2. by rewrite H2 in H1. }
  pose proof (Set_resident_pre_Inv e ee v x old xo c l I Hin He Hval Hx Hr Hxo)
    as I4. fold c4 in I4.
  destruct (evict_preserves fuel c4 l c5 I4 Hev) as (l5 & I5 & F5).
  rewrite (checkConsistency_ok c5 l5 I5) in Hfin. cbn [bind] in Hfin.
  injection Hfin as <- <-.
  assert (targetSize c4 = targetSize c) as HT4
    by (subst c4; unfold Set_resident_pre; by case_decide).
  assert (mem_entries c4 !! e
          = Some (Set_resident_entry v (Z.of_nat (length (v_buf x))) ee))
    as He4.
  { subst c4. unfold Set_resident_pre. case_decide; cbn; apply lookup_insert_eq. }
  assert (blocks c4 = blocks c) as Hb4
    by (subst c4; unfold Set_resident_pre; by case_decide).
  assert (sizeHot c5 + sizeCold c5 < targetSize c5) as Hlt
    by (by apply (evictCond_false c5 l5 I5), (evict_done fuel c4)).
  pose proof (targetSize_pos c5).
  split; [|done].
  split; [done|]. split; [by exists l5|].
  split; [by rewrite (Frame_targetSize _ _ _ _ F5)|].
  split; [lia|]. split.
  - intros p ep w Hp Hep Hw.
    apply (st_blocks _ _ (inv_struct _ _ I5)) in Hp as [Hp Hpk].
    rewrite (fr_key _ _ _ _ F5 p Hp) in Hpk.
    assert (blocks c4 !! k = Some p) as Hbp.
    { apply (st_blocks _ _ (inv_struct _ _ I4)).
      split; [by apply (fr_sub _ _ _ _ F5)|done]. }
    assert (p = e) as -> by congruence.
    destruct (fr_held _ _ _ _ F5 e ep w Hp Hep Hw) as (ep0 & Hep0 & Hw0).
    rewrite He4 in Hep0. injection Hep0 as <-. simpl in Hw0. congruence.
  - assert (mem_values c4 !! v = Some (mkValue (v_buf x) (v_refs x + 1)))
      as Hv4.
    { subst c4. unfold Set_resident_pre. case_decide; cbn;
        by rewrite lookup_insert_ne, lookup_insert_eq. }
    destruct (fr_alive _ _ _ _ F5 v _ Hv4) as (x' & Hx' & Hbuf).
    by exists x'.
Qed.

(** The state in which [Set] calls [metaAdd] for a key that is present as a
    test entry: the ghost has left the test category, the maps and both
    rings; it has the new size, a cleared reference bit, the new Value and
    the type hot; and the cold target has grown by the new size, clamped. *)
Definition Set_test_entry (e : ptr) (ee : entry) (v : vptr) (len : Z) : entry :=
  set_ptype etHot
    (set_val (Some v)
       (set_referenced false (set_size len (metaDel_entry e ee e ee)))).

Definition grow_coldTarget (len : Z) (c : shard) : shard :=
  let c := set_coldTarget (coldTarget c + len) c in
  if targetSize c <? coldTarget c then set_coldTarget (targetSize c) c else c.

Definition Set_test_pre (e : ptr) (ee : entry) (v : vptr) (x : Value)
    (h' : gmap ptr entry) (c : shard) : shard :=
  let len := Z.of_nat (length (v_buf x)) in
  set_entries (<[e := Set_test_entry e ee v len]> h')
    (set_values (<[v := mkValue (v_buf x) (v_refs x + 1)]> (mem_values c))
       (grow_coldTarget len (metaDel_state e ee h' (add_test (- e_size ee) (-1) c)))).

Lemma grow_coldTarget_same len c :
  mem_entries (grow_coldTarget len c) = mem_entries c /\
  mem_values (grow_coldTarget len c) = mem_values c /\
  blocks (grow_coldTarget len c) = blocks c /\
  files (grow_coldTarget len c) = files c /\
  handHot (grow_coldTarget len c) = handHot c /\
  handCold (grow_coldTarget len c) = handCold c /\
  handTest (grow_coldTarget len c) = handTest c /\
  (forall t, sizeOf t (grow_coldTarget len c) = sizeOf t c) /\
  (forall t, countOf t (grow_coldTarget len c) = countOf t c) /\
  targetSize (grow_coldTarget len c) = targetSize c /\
  coldTarget (grow_coldTarget len c)
  = Z.min (coldTarget c + len) (targetSize c).
Proof.
  unfold grow_coldTarget. cbv zeta.
  change (targetSize (set_coldTarget (coldTarget c + len) c)) with (targetSize c).
  change (coldTarget (set_coldTarget (coldTarget c + len) c))
    with (coldTarget c + len).
  destruct (targetSize c <? coldTarget c + len) eqn:E.
  - apply Z.ltb_lt in E.
    repeat split; try (intros t; by destruct t). cbn. lia.
  - apply Z.ltb_ge in E.
    repeat split; try (intros t; by destruct t). cbn. lia.
Qed.

Lemma Set_test_pre_eq e ee v x h' c2 c :
  c2 = metaDel_state e ee h' (add_test (- e_size ee) (-1) c) ->
  h' !! e = Some (metaDel_entry e ee e ee) ->
  mem_values c !! v = Some x ->
  let len := Z.of_nat (length (v_buf x)) in
  (do c <- modE e (set_size len) c2;
   let c := set_coldTarget (coldTarget c + len) c in
   let c := if targetSize c <? coldTarget c
            then set_coldTarget (targetSize c) c else c in
   do c <- modE e (set_referenced false) c;
   do c <- setValue e (Some v) c;
   modE e (set_ptype etHot) c)
  = Ok (Set_test_pre e ee v x h' c).
Proof.
  intros Hc2 He Hx len.
  assert (mem_entries c2 = h') as Hh by (by subst c2).
  assert (mem_values c2 = mem_values c) as Hv by (by subst c2).
  unfold Set_test_pre. fold len. rewrite <-Hc2. clear Hc2.
  rewrite (modE_lookup _ _ _ (metaDel_entry e ee e ee)) by (by rewrite Hh).
  cbn [bind]. cbv zeta.
  set (D1 := set_size len (metaDel_entry e ee e ee)).
  assert (forall d : shard, mem_entries d = <[e := D1]> h' ->
            mem_values d = mem_values c ->
            (do c0 <- modE e (set_referenced false) d;
             do c1 <- setValue e (Some v) c0; modE e (set_ptype etHot) c1)
            = Ok (set_entries (<[e := Set_test_entry e ee v len]> h')
                    (set_values
                       (<[v := mkValue (v_buf x) (v_refs x + 1)]> (mem_values c))
                       d))) as Hgen.
  { intros d Hd Hdv.
    rewrite (modE_lookup _ _ _ D1) by (rewrite Hd; apply lookup_insert_eq).
    cbn [bind]. unfold setValue, acquire, getV.
    cbn [mem_values setE set_entries]. rewrite Hdv, Hx. cbn [bind].
    unfold getE. cbn [mem_entries setE set_entries set_values].
    rewrite lookup_insert_eq. cbn [bind].
    rewrite (modE_lookup _ _ _ (set_referenced false D1))
      by (cbn; apply lookup_insert_eq).
    cbn [bind]. subst D1.
    assert (e_val (set_referenced false (set_size len (metaDel_entry e ee e ee)))
            = None) as ->.
    { change (e_val (metaDel_entry e ee e ee) = None).
      rewrite metaDel_entry_val. by rewrite decide_True. }
    cbn [release bind].
    rewrite (modE_lookup _ _ _ (set_val (Some v) (set_referenced false
               (set_size len (metaDel_entry e ee e ee)))))
      by (cbn; apply lookup_insert_eq).
    unfold setE. cbn [mem_entries set_entries set_values].
    rewrite Hd, !insert_insert_eq. reflexivity. }
  unfold grow_coldTarget. cbv zeta.
  set (b := targetSize c2 <? coldTarget c2 + len).
  repeat match goal with
    | |- context [if ?b1 then _ else _] =>
        lazymatch b1 with
        | b => fail
        | _ => change b1 with b
        end
    end.
  destruct b.
  - rewrite Hgen; [|cbn; by rewrite Hh|cbn; by rewrite Hv].
    clearbody D1. clear. reflexivity.
  - rewrite Hgen; [|cbn; by rewrite Hh|cbn; by rewrite Hv].
    clearbody D1. clear. reflexivity.
Qed.

(** [Set] on a test entry, up to the call of [metaAdd]. *)
Lemma Set_test_steps fuel k v x c l e ee :
  Inv c l -> mem_values c !! v = Some x -> v_refs x = 1 ->
  blocks c !! k = Some e -> mem_entries c !! e = Some ee ->
  e_val ee = None ->
  exists h' l',
    l ≡ₚ e :: l' /\
    Inv (Set_test_pre e ee v x h' c) l' /\
    unheld (Set_test_pre e ee v x h' c) l' v /\
    h' !! e = Some (metaDel_entry e ee e ee) /\
    Set_ fuel k v c =
    (do r <- metaAdd fuel k e (Set_test_pre e ee v x h' c);
     do c <- (if r.1
              then do ee <- getE e r.2; Ok (add_hot (e_size ee) 1 r.2)
              else free e r.2);
     do _ <- checkConsistency c;
     Ok (Some v, c)).
Proof.
  intros I Hx Hr Hb He Hval.
  apply (st_blocks _ _ (inv_struct _ _ I)) in Hb as Hin.
  destruct Hin as [Hin Hkey].
  assert (e_ptype ee = etTest) as Hty by (by apply (inv_typed _ _ I e ee)).
  assert (0 <= e_size ee) as Hsz by (by apply (inv_typed _ _ I e ee)).
  pose proof (unheld_fresh c l v x I Hx Hr) as Hun.
  destruct (metaEvict_spec c l e I Hin)
    as (ee1 & cev & l' & He1 & _ & Hperm & Iev & Fev & Hvev & Hbev & Hctev
        & Hsev & Hcev & _ & _ & _ & Hfev & h' & Hdel & Hh' & Hcev_eq).
  rewrite He in He1. injection He1 as <-.
  assert (lower ee c = add_test (- e_size ee) (-1) c) as Hlow
    by (unfold lower; by rewrite Hty).
  rewrite Hlow in Hdel, Hcev_eq.
  assert (h' !! e = Some (metaDel_entry e ee e ee)) as He2
    by (by rewrite Hh', He).
  set (len := Z.of_nat (length (v_buf x))).
  remember (metaDel_state e ee h' (add_test (- e_size ee) (-1) c)) as c2
    eqn:Hc2.
  pose proof (Set_test_pre_eq e ee v x h' c2 c Hc2 He2 Hx) as Hpre.
  cbv zeta in Hpre. fold len in Hpre.
  assert (Set_test_pre e ee v x h' c
          = set_entries (<[e := Set_test_entry e ee v len]> h')
              (set_values
                 (<[v := mkValue (v_buf x) (v_refs x + 1)]> (mem_values c))
                 (grow_coldTarget len c2))) as Hc3
    by (subst c2; reflexivity).
  assert (targetSize c2 = targetSize c) as Hc2T by (by subst c2).
  assert (coldTarget c2 = coldTarget c) as Hc2ct by (by subst c2).
  clear Hc2.
  exists h', l'. rewrite Hc3. rewrite Hc3 in Hpre.
  set (c3 := set_entries (<[e := Set_test_entry e ee v len]> h') _) in *.
  pose proof (st_nodup _ _ (inv_struct _ _ I)) as Hnd. rewrite Hperm in Hnd.
  apply NoDup_cons in Hnd as [Hel' _].
  destruct (grow_coldTarget_same len c2)
    as (Gh & Gv & Gb & Gf & Ghh & Ghc & Ght & Gs & Gc & GT & Gct).
  assert (forall y, y <> e -> mem_entries c3 !! y = mem_entries cev !! y) as Hhy.
  { intros y Hy. rewrite Hcev_eq. subst c3. cbn [mem_entries set_entries].
    by rewrite lookup_insert_ne, lookup_delete_ne. }
  assert (unheld cev l' v) as Hunev by (by apply (unheld_frame _ _ _ _ v Fev)).
  assert (Inv c3 l') as I3.
  { apply (Inv_outside cev); try done.
    - intros y Hy. apply Hhy. by intros ->.
    - intros p ep w Hp Hep Hw. subst c3.
      cbn [mem_values set_entries set_values].
      rewrite Hvev. rewrite lookup_insert_ne; [done|].
      intros <-. by apply (Hunev p ep).
    - rewrite Hcev_eq. subst c3. cbn [blocks set_entries set_values].
      by rewrite Gb.
    - rewrite Hcev_eq. subst c3. cbn [files set_entries set_values].
      by rewrite Gf.
    - rewrite Hcev_eq. subst c3. cbn [handHot set_entries set_values].
      by rewrite Ghh.
    - rewrite Hcev_eq. subst c3. cbn [handCold set_entries set_values].
      by rewrite Ghc.
    - rewrite Hcev_eq. subst c3. cbn [handTest set_entries set_values].
      by rewrite Ght.
    - intros t. rewrite Hcev_eq. subst c3.
      transitivity (sizeOf t (grow_coldTarget len c2)); [by destruct t|].
      rewrite Gs. by destruct t.
    - intros t. rewrite Hcev_eq. subst c3.
      transitivity (countOf t (grow_coldTarget len c2)); [by destruct t|].
      rewrite Gc. by destruct t.
    - pose proof (inv_ct _ _ I) as K. unfold CT in *.
      assert (targetSize c3 = targetSize c) as ->.
      { transitivity (targetSize (grow_coldTarget len c2)); [done|].
        by rewrite GT. }
      assert (coldTarget c3 = Z.min (coldTarget c + len) (targetSize c)) as ->.
      { transitivity (coldTarget (grow_coldTarget len c2)); [done|].
        by rewrite Gct, Hc2ct, Hc2T. }
      subst len. lia. }
  assert (unheld c3 l' v) as Hun3.
  { intros p ep Hp Hep.
    assert (p <> e) as Hpe by (by intros ->).
    rewrite (Hhy p Hpe) in Hep. by apply (Hunev p ep). }
  repeat (split; [done|]).
  unfold Set_. unfold getV. rewrite Hx. cbn [bind].
  rewrite Hr. cbn [negb Z.eqb Pos.eqb]. rewrite Hb.
  unfold peekValue. unfold getE at 1. rewrite He. cbn [bind]. rewrite Hval.
  unfold getE at 1. rewrite He. cbn [bind]. cbv zeta.
  rewrite Hdel. cbn [bind fst snd]. rewrite Hval. cbn [release bind].
  fold len. revert Hpre. clearbody c3. clear.
  destruct (modE e (set_size len) c2) as [d1| |]; cbn [bind]; try done.
  destruct (modE e (set_referenced false) _) as [d2| |]; cbn [bind]; try done.
  destruct (setValue e (Some v) d2) as [d3| |]; cbn [bind]; try done.
  intros ->. cbn [bind].
  by destruct (metaAdd fuel k e c3) as [r| |].
Qed.

Lemma Set_test_pre_proj e ee v x h' c :
  let len := Z.of_nat (length (v_buf x)) in
  let c3 := Set_test_pre e ee v x h' c in
  mem_entries c3 = <[e := Set_test_entry e ee v len]> h' /\
  mem_values c3 = <[v := mkValue (v_buf x) (v_refs x + 1)]> (mem_values c) /\
  blocks c3 = delete (e_key ee) (blocks c) /\
  files c3 = metaDel_files e ee (files c) /\
  targetSize c3 = targetSize c /\
  coldTarget c3 = Z.min (coldTarget c + len) (targetSize c) /\
  sizeHot c3 = sizeHot c /\ sizeCold c3 = sizeCold c /\
  sizeTest c3 = sizeTest c - e_size ee /\
  countHot c3 = countHot c /\ countCold c3 = countCold c /\
  countTest c3 = countTest c - 1 /\
  hits c3 = hits c /\ misses c3 = misses c.
Proof.
  intros len c3.
  remember (metaDel_state e ee h' (add_test (- e_size ee) (-1) c)) as c2
    eqn:Hc2.
  assert (c3 = set_entries (<[e := Set_test_entry e ee v len]> h')
                 (set_values
                    (<[v := mkValue (v_buf x) (v_refs x + 1)]> (mem_values c))
                    (grow_coldTarget len c2))) as ->
    by (subst c2; reflexivity).
  destruct (grow_coldTarget_same len c2)
    as (Gh & Gv & Gb & Gf & Ghh & Ghc & Ght & Gs & Gc & GT & Gct).
  pose proof (Gs etHot) as Gs1. pose proof (Gs etCold) as Gs2.
  pose proof (Gs etTest) as Gs3. pose proof (Gc etHot) as Gc1.
  pose proof (Gc etCold) as Gc2. pose proof (Gc etTest) as Gc3.
  assert (hits (grow_coldTarget len c2) = hits c2 /\
          misses (grow_coldTarget len c2) = misses c2) as [Ghi Gmi].
  { unfold grow_coldTarget. cbv zeta. by destruct (_ <? _). }
  cbn [sizeOf countOf] in *.
  cbn [mem_entries mem_values blocks files sizeHot sizeCold sizeTest countHot
         countCold countTest hits misses set_entries set_values].
  change (targetSize (set_entries (<[e := Set_test_entry e ee v len]> h')
                 (set_values
                    (<[v := mkValue (v_buf x) (v_refs x + 1)]> (mem_values c))
                    (grow_coldTarget len c2))))
    with (targetSize (grow_coldTarget len c2)).
  change (coldTarget (set_entries (<[e := Set_test_entry e ee v len]> h')
                 (set_values
                    (<[v := mkValue (v_buf x) (v_refs x + 1)]> (mem_values c))
                    (grow_coldTarget len c2))))
    with (coldTarget (grow_coldTarget len c2)).
  rewrite Gb, Gf, GT, Gct, Gs1, Gs2, Gs3, Gc1, Gc2, Gc3, Ghi, Gmi.
  subst c2. cbn. repeat split; try done; lia.
Qed.

Lemma Set_test_entry_fields e ee v len :
  let E := Set_test_entry e ee v len in
  e_key E = e_key ee /\ blinks E = (e, e) /\ flinks E = (e, e) /\
  e_size E = len /\ e_ptype E = etHot /\ e_val E = Some v /\
  e_referenced E = false.
Proof.
  cbv zeta. unfold Set_test_entry, blinks, flinks. cbn.
  rewrite metaDel_entry_key, metaDel_entry_blockNext, metaDel_entry_blockPrev,
    metaDel_entry_fileNext, metaDel_entry_filePrev.
  by rewrite !decide_True.
Qed.

Lemma Set_test_spec fuel k v x c l e ee h c' :
  Inv c l -> mem_values c !! v = Some x -> v_refs x = 1 ->
  blocks c !! k = Some e -> mem_entries c !! e = Some ee ->
  e_val ee = None ->
  Set_ fuel k v c = Ok (h, c') ->
  Set_post k v x c h c'.
Proof.
  intros I Hx Hr Hb He Hval Hrun.
  apply (st_blocks _ _ (inv_struct _ _ I)) in Hb as Hin.
  destruct Hin as [Hin Hkey].
  assert (e_key ee = k) as Hk.
  { unfold fld in Hkey. rewrite He in Hkey. simpl in Hkey. congruence. }
  destruct (Set_test_steps fuel k v x c l e ee I Hx Hr Hb He Hval)
    as (h' & l' & Hperm & I3 & Hun3 & He2 & Heq).
  rewrite Heq in Hrun. clear Heq.
  set (len := Z.of_nat (length (v_buf x))) in *.
  destruct (Set_test_pre_proj e ee v x h' c)
    as (Ph & Pv & Pb & Pf & PT & Pct & Psh & Psc & Pst & _).
  cbv zeta in Ph, Pv, Pb, Pf, PT, Pct, Psh, Psc, Pst. fold len in Ph.
  destruct (Set_test_entry_fields e ee v len)
    as (Ek & Ebl & Efl & Esz & Ety & Eval & _).
  cbv zeta in Ek, Ebl, Efl, Esz, Ety, Eval.
  remember (Set_test_pre e ee v x h' c) as c3 eqn:Hc3 in *. clear Hc3.
  remember (Set_test_entry e ee v len) as E eqn:HE in *. clear HE.
  pose proof (st_nodup _ _ (inv_struct _ _ I)) as Hnd. rewrite Hperm in Hnd.
  apply NoDup_cons in Hnd as [Hel' _].
  apply bind_Ok in Hrun as (r & Hadd & Hrun).
  apply bind_Ok in Hrun as (c6 & Hrun & Hfin).
  rewrite <-Hk, <-Ek in Hadd.
  destruct (metaAdd_spec fuel c3 l' e E v (mkValue (v_buf x) 2) r)
    as (c4 & l4 & Hev & I4 & F4 & He4 & Hv4 & Hun4 & Hel4 & Hnone4 & Hlt & Hcase);
    try done.
  { rewrite Ph. apply lookup_insert_eq. }
  { rewrite Pb, Ek. apply lookup_delete_eq. }
  { rewrite Esz. subst len. lia. }
  { by rewrite Ety. }
  { rewrite Pv, lookup_insert_eq, Hr. done. }
  pose proof (Frame_targetSize _ _ _ _ F4) as HT4.
  pose proof (targetSize_pos c) as Hpos.
  rewrite Ek, Hk in Hnone4.
  destruct Hcase as [[-> Hbig]|(c5 & l5 & -> & Hfit & Hperm5 & I5 & Hsc5 & Hv5 & Hcg5 & Hk5)].
  - (* declined *)
    cbn [fst snd] in Hrun.
    destruct (free_outside c4 l4 e E v (mkValue (v_buf x) 2))
      as (c7 & Hfree & I7 & Hh7 & Hvals7 & Hb7 & Hsc7); try done; try (simpl; lia).
    rewrite Hfree in Hrun. injection Hrun as <-.
    rewrite (checkConsistency_ok c7 l4 I7) in Hfin. cbn [bind] in Hfin.
    injection Hfin as <- <-.
    pose proof (scalars_targetSize _ _ Hsc7) as HT7.
    injection Hsc7 as _ _ _ _ _ Hsh Hsc _ _ _ _.
    split; [done|]. split; [by exists l4|]. split; [congruence|].
    split; [rewrite Hsh, Hsc, HT7, HT4, PT; lia|].
    split; [intros p ep w Hp; rewrite Hb7, Hnone4 in Hp; done|].
    exists (mkValue (v_buf x) 1). split; [|done].
    by rewrite Hvals7, lookup_insert_eq.
  - (* added as a hot entry *)
    cbn [fst snd] in Hrun.
    assert (exists E5, mem_entries c5 !! e = Some E5 /\ cargo E5 = cargo E
                       /\ e_key E5 = k) as (E5 & He5 & Hcargo & Hkey5).
    { pose proof (Hcg5 e) as Hc. pose proof (Hk5 e) as Hke.
      unfold fld in Hc, Hke. rewrite He4 in Hc, Hke.
      destruct (mem_entries c5 !! e) as [E5|]; [|done].
      simpl in *. exists E5. split; [done|]. split; congruence. }
    unfold getE in Hrun. rewrite He5 in Hrun. cbn [bind] in Hrun.
    injection Hrun as <-.
    injection Hcargo as Hval5 Hsz5 _ _.
    rewrite Hsz5 in *.
    assert (add_hot (e_size E) 1 c5 = raise E c5) as Hraise
      by (unfold raise; by rewrite Ety).
    rewrite Hraise in Hfin.
    rewrite (checkConsistency_ok _ l5 I5) in Hfin. cbn [bind] in Hfin.
    injection Hfin as <- <-.
    destruct (raise_same E c5)
      as (Rh & Rv & Rb & _ & _ & _ & _ & _ & Rmax & Rres & _ & _).
    pose proof (scalars_targetSize _ _ Hsc5) as HT5.
    assert (targetSize (raise E c5) = targetSize c5) as HTr
      by (unfold targetSize; by rewrite Rmax, Rres).
    split; [done|]. split; [by exists l5|]. split; [congruence|].
    split.
    { change (sizeHot (raise E c5)) with (sizeOf etHot (raise E c5)).
      change (sizeCold (raise E c5)) with (sizeOf etCold (raise E c5)).
      rewrite !raise_sizeOf. injection Hsc5 as _ _ _ _ _ Hsh Hsc _ _ _ _.
      simpl. rewrite Hsh, Hsc, HTr, HT5. unfold weight_of. rewrite Ety.
      simpl. lia. }
    split.
    { intros p ep w Hp Hep Hw.
      apply (st_blocks _ _ (inv_struct _ _ I5)) in Hp as [Hp Hpk].
      assert (p = e) as ->.
      { apply (Struct_key_inj (raise E c5) l5 p e k); auto.
        - apply I5.
        - rewrite Hperm5. set_solver.
        - unfold fld. rewrite Rh, He5. simpl. by rewrite Hkey5. }
      rewrite Rh, He5 in Hep. injection Hep as <-.
      congruence. }
    exists (mkValue (v_buf x) 2). split; [|done]. by rewrite Rv, Hv5.
Qed.

(** [Set] in all three cases: whenever it returns, the caller's Value was a
    fresh one (reference count 1), and the postcondition [Set_post] holds. *)
Lemma Set_spec fuel k v c l h c' :
  Inv c l -> Set_ fuel k v c = Ok (h, c') ->
  exists x, mem_values c !! v = Some x /\ v_refs x = 1 /\
            Set_post k v x c h c'.
Proof.
  intros I Hrun.
  destruct (mem_values c !! v) as [x|] eqn:Hx;
    [|by unfold Set_, getV in Hrun; rewrite Hx in Hrun].
  destruct (Z.eq_dec (v_refs x) 1) as [Hr|Hr].
  2:{ unfold Set_, getV in Hrun. rewrite Hx in Hrun. cbn [bind] in Hrun.
      apply Z.eqb_neq in Hr. by rewrite Hr in Hrun. }
  exists x. split; [done|]. split; [done|].
  destruct (blocks c !! k) as [e|] eqn:Hb.
  - apply (st_blocks _ _ (inv_struct _ _ I)) in Hb as Hin.
    destruct Hin as [Hin _].
    destruct (Struct_alloc c l e (inv_struct _ _ I) Hin) as [ee He].
    destruct (e_val ee) as [old|] eqn:Hv.
    + by apply (Set_resident_spec fuel k v x c l e ee old h c').
    + by apply (Set_test_spec fuel k v x c l e ee h c').
  - by apply (Set_absent_spec fuel k v x c l h c').
Qed.

(** ** EvictFile *)

(** The Values collected by [evictFileRun] for release after the loop: each
    is live, no slot of the ring holds it any more, and none occurs twice. *)
Definition pending (c : shard) (l : list ptr) (obs : list (option vptr)) : Prop :=
  NoDup (omap id obs) /\
  forall w, Some w ∈ obs ->
    (exists x, mem_values c !! w = Some x /\ 2 <= v_refs x) /\ unheld c l w.

(** What evicting entries of the file [fk] does to the ring [l]: only
    entries of [fk] leave, the others keep their key and cargo; the keys and
    the file heads of the other files are as before; no resident size
    grows. *)
Record Evicted (fk : key) (l : list ptr) (c c' : shard) (l' : list ptr)
  : Prop := {
  ev_sub : forall p, p ∈ l' -> p ∈ l;
  ev_gone : forall p, p ∈ l -> p ∉ l' -> fld fileOf c p = Some fk;
  ev_cargo : forall p, p ∈ l' -> fld cargo c' p = fld cargo c p;
  ev_key : forall p, p ∈ l' -> fld e_key c' p = fld e_key c p;
  ev_blocks : forall k, file k <> fk -> blocks c' !! k = blocks c !! k;
  ev_files : forall fk', fk' <> fk -> files c' !! fk' = files c !! fk';
  ev_target : targetSize c' = targetSize c;
  ev_cold : coldTarget c' = coldTarget c;
  ev_hits : hits c' = hits c;
  ev_misses : misses c' = misses c;
  ev_size : forall t, sizeOf t c' <= sizeOf t c;
  ev_len : (length l' <= length l)%nat
}.

Lemma Evicted_refl fk l c : Evicted fk l c c l.
Proof. split; try done; lia. Qed.

Lemma Evicted_trans fk l0 c0 l1 c1 l2 c2 :
  Evicted fk l0 c0 c1 l1 -> Evicted fk l1 c1 c2 l2 -> Evicted fk l0 c0 c2 l2.
Proof.
  intros E1 E2. split.
  - intros p Hp. by apply (ev_sub _ _ _ _ _ E1), (ev_sub _ _ _ _ _ E2).
  - intros p Hp Hn. destruct (decide (p ∈ l1)) as [H1|H1].
    + rewrite <-(fld_key_fileOf c0 c1 p (ev_key _ _ _ _ _ E1 p H1)).
      by apply (ev_gone _ _ _ _ _ E2).
    + by apply (ev_gone _ _ _ _ _ E1).
  - intros p Hp. rewrite (ev_cargo _ _ _ _ _ E2 p Hp).
    by apply (ev_cargo _ _ _ _ _ E1), (ev_sub _ _ _ _ _ E2).
  - intros p Hp. rewrite (ev_key _ _ _ _ _ E2 p Hp).
    by apply (ev_key _ _ _ _ _ E1), (ev_sub _ _ _ _ _ E2).
  - intros k Hk. rewrite (ev_blocks _ _ _ _ _ E2 k Hk).
    by apply (ev_blocks _ _ _ _ _ E1).
  - intros k Hk. rewrite (ev_files _ _ _ _ _ E2 k Hk).
    by apply (ev_files _ _ _ _ _ E1).
  - rewrite (ev_target _ _ _ _ _ E2). apply (ev_target _ _ _ _ _ E1).
  - rewrite (ev_cold _ _ _ _ _ E2). apply (ev_cold _ _ _ _ _ E1).
  - rewrite (ev_hits _ _ _ _ _ E2). apply (ev_hits _ _ _ _ _ E1).
  - rewrite (ev_misses _ _ _ _ _ E2). apply (ev_misses _ _ _ _ _ E1).
  - intros t. pose proof (ev_size _ _ _ _ _ E1 t).
    pose proof (ev_size _ _ _ _ _ E2 t). lia.
  - pose proof (ev_len _ _ _ _ _ E1). pose proof (ev_len _ _ _ _ _ E2). lia.
Qed.

Lemma set_values_twice vs vs' c :
  set_values vs' (set_values vs c) = set_values vs' c.
Proof. by destruct c. Qed.

Lemma releaseAll_spec obs : forall c l,
  Inv c l -> pending c l obs ->
  exists vs,
    releaseAll obs c = Ok (set_values vs c) /\ Inv (set_values vs c) l.
Proof.
  induction obs as [|ov obs IH]; intros c l I [Hnd Hp].
  { exists (mem_values c). simpl. split.
    - by destruct c.
    - apply (Inv_ext c); try done. apply (inv_ct _ _ I). }
  destruct (release_spec c l ov I) as (vs & Hrel & I1 & Hother & _).
  { intros w ->. apply Hp. set_solver. }
  destruct (IH (set_values vs c) l I1) as (vs' & Hrun & I2).
  { split.
    - destruct ov; simpl in Hnd; [by apply NoDup_cons in Hnd as [_ ?]|done].
    - intros w Hw. destruct (Hp w) as ((x & Hx & Hr) & Hun); [set_solver|].
      split; [|done]. exists x. split; [|done].
      simpl. rewrite Hother; [done|].
      intros ->. simpl in Hnd. apply NoDup_cons in Hnd as [Hnot _].
      apply Hnot. apply list_elem_of_omap. exists (Some w). split; [set_solver|done]. }
  exists vs'. simpl. rewrite Hrel. cbn [bind]. rewrite Hrun.
  by rewrite set_values_twice in *.
Qed.

(** One turn of the loop of [evictFileRun] on a block [b] of the file. *)
Lemma evictFile_step fk c l b obs :
  Inv c l -> b ∈ l -> fld fileOf c b = Some fk -> pending c l obs ->
  exists eb c' l',
    mem_entries c !! b = Some eb /\
    metaEvict b c = Ok (e_val eb, c') /\
    Inv c' l' /\ Evicted fk l c c' l' /\
    pending c' l' (obs ++ [e_val eb]) /\
    (length l' < length l)%nat /\
    (b <> e_fileNext eb ->
       e_fileNext eb ∈ l' /\ fld fileOf c' (e_fileNext eb) = Some fk) /\
    (b = e_fileNext eb -> forall p, p ∈ l' -> fld fileOf c' p <> Some fk).
Proof.
  intros I Hin Hfile [Hnd Hp].
  destruct (metaEvict_spec c l b I Hin)
    as (eb & c' & l' & He & Hrun & Hperm & I' & F & Hv & Hb & Hct & Hs & _ & _
        & Hcargo & Hkey & Hf & _).
  assert (fileOf eb = fk) as Hfk.
  { unfold fld in Hfile. rewrite He in Hfile. simpl in Hfile. congruence. }
  pose proof (st_nodup _ _ (inv_struct _ _ I)) as Hndl.
  rewrite Hperm in Hndl. apply NoDup_cons in Hndl as [Hbl' Hndl'].
  exists eb, c', l'. split; [done|]. split; [done|]. split; [done|].
  assert (forall p, p ∈ l' -> p ∈ l) as Hsub by (intros p; rewrite Hperm; set_solver).
  split; [|split; [|split; [|split]]].
  - split; try done.
    + intros p Hpl Hpn. rewrite Hperm in Hpl.
      apply elem_of_cons in Hpl as [->|?]; done.
    + intros k Hk. rewrite Hb. apply lookup_delete_ne.
      intros <-. by apply Hk.
    + intros fk' Hne. rewrite Hf. unfold metaDel_files.
      fold (fileOf eb). rewrite Hfk.
      case_decide; [by apply lookup_delete_ne|by apply lookup_insert_ne].
    + by apply (Frame_targetSize l c c' l').
    + apply (fr_hits _ _ _ _ F).
    + apply (fr_misses _ _ _ _ F).
    + intros t. rewrite Hs. unfold weight_of.
      destruct (inv_typed _ _ I b eb Hin He) as [? _]. case_decide; lia.
    + rewrite Hperm. simpl. lia.
  - split.
    + rewrite omap_app. apply NoDup_app. split; [done|]. split.
      * intros w Hw Hw'. destruct (e_val eb) as [w'|] eqn:Hval; [|set_solver].
        simpl in Hw'. apply list_elem_of_singleton in Hw'. subst w'.
        apply list_elem_of_omap in Hw as ([w''|] & Hw & Heq); [|done].
        simpl in Heq. injection Heq as ->.
        destruct (Hp w Hw) as [_ Hun]. by apply (Hun b eb).
      * destruct (e_val eb); simpl; [apply NoDup_singleton|apply NoDup_nil_2].
    + intros w Hw. apply elem_of_app in Hw as [Hw|Hw].
      * destruct (Hp w Hw) as ((x & Hx & Hr) & Hun). split.
        -- exists x. by rewrite Hv.
        -- by apply (unheld_frame l c c' l').
      * apply list_elem_of_singleton in Hw. split.
        -- rewrite Hv. by apply (proj1 (inv_vals _ _ I) b eb).
        -- intros p ep Hpl Hep Hpw.
           destruct (fr_held _ _ _ _ F p ep w Hpl Hep Hpw) as (ep0 & Hep0 & Hw0).
           assert (p = b); [|by subst p].
           apply (proj2 (inv_vals _ _ I) p b ep0 eb w); auto.
  - rewrite Hperm. simpl. lia.
  - intros Hne.
    destruct (Struct_file_links_in c l b eb (inv_struct _ _ I) Hin He) as [Hn _].
    assert (e_fileNext eb ∈ l') as Hn'.
    { rewrite Hperm in Hn. apply elem_of_cons in Hn as [Heq|?]; [|done].
      by destruct Hne. }
    split; [done|].
    rewrite (fld_key_fileOf c c' _ (Hkey _ Hn')).
    destruct (st_files _ _ (inv_struct _ _ I) fk) as (lf & _ & Hr & Hmem & _).
    assert (b ∈ lf) as Hblf by (by apply Hmem).
    destruct (ring_next_in _ _ _ _ Hr Hblf) as (q & Hq & Hql).
    unfold fld in Hq at 1. rewrite He in Hq. simpl in Hq. injection Hq as <-.
    by apply Hmem in Hql as [_ ?].
  - intros Heq p Hpl Hpf.
    rewrite (fld_key_fileOf c c' _ (Hkey _ Hpl)) in Hpf.
    destruct (st_files _ _ (inv_struct _ _ I) fk) as (lf & Hndf & Hr & Hmem & _).
    assert (b ∈ lf) as Hblf by (by apply Hmem).
    assert (lf = [b]) as ->.
    { apply (ring_self_next _ _ lf b Hndf Hr Hblf).
      unfold fld. rewrite He. simpl. by rewrite <-Heq. }
    assert (p ∈ [b]) as Hpb by (apply Hmem; auto).
    apply list_elem_of_singleton in Hpb. by subst p.
Qed.

Lemma evictFileLoop_spec fk room : forall b obs c l,
  Inv c l -> b ∈ l -> fld fileOf c b = Some fk -> pending c l obs ->
  exists more obs' c' l',
    evictFileLoop room b obs c = Ok (more, obs', c') /\
    Inv c' l' /\ Evicted fk l c c' l' /\ pending c' l' obs' /\
    (room <> O -> (length l' < length l)%nat) /\
    (more = false -> forall p, p ∈ l' -> fld fileOf c' p <> Some fk).
Proof.
  induction room as [|room IH]; intros b obs c l I Hin Hfile Hpend.
  { exists true, obs, c, l. simpl. split; [done|]. split; [done|].
    split; [apply Evicted_refl|]. split; [done|]. split; done. }
  destruct (evictFile_step fk c l b obs I Hin Hfile Hpend)
    as (eb & c1 & l1 & He & Hrun & I1 & E1 & P1 & Hlen & Hnext & Hlast).
  simpl. unfold getE at 1. rewrite He. cbn [bind]. rewrite Hrun.
  cbn [bind fst snd].
  destruct (decide (b = e_fileNext eb)) as [Heq|Hne].
  - rewrite (checkConsistency_ok c1 l1 I1). cbn [bind].
    exists false, (obs ++ [e_val eb]), c1, l1.
    repeat (split; [done|]). intros _. by apply Hlast.
  - destruct (Hnext Hne) as [Hn Hnf].
    destruct (IH (e_fileNext eb) (obs ++ [e_val eb]) c1 l1 I1 Hn Hnf P1)
      as (more & obs' & c2 & l2 & Hrun2 & I2 & E2 & P2 & Hlen2 & Hdone).
    exists more, obs', c2, l2. split; [done|]. split; [done|].
    split; [by apply (Evicted_trans fk l c l1 c1)|]. split; [done|].
    split; [|done]. intros _. pose proof (ev_len _ _ _ _ _ E2). lia.
Qed.

Lemma Evicted_values fk l c c' l' vs :
  Evicted fk l c c' l' -> Evicted fk l c (set_values vs c') l'.
Proof. intros []. by split. Qed.

(** One call of [evictFileRun]: it returns, and reports that blocks remain
    only after evicting at least one. *)
Lemma evictFileRun_spec fk c l :
  Inv c l ->
  exists more c' l',
    evictFileRun fk c = Ok (more, c') /\
    Inv c' l' /\ Evicted fk l c c' l' /\
    (more = true -> (length l' < length l)%nat) /\
    (more = false -> forall p, p ∈ l' -> fld fileOf c' p <> Some fk).
Proof.
  intros I. unfold evictFileRun.
  destruct (st_files _ _ (inv_struct _ _ I) fk) as (lf & _ & _ & Hmem & Hhead).
  destruct (files c !! fk) as [b|] eqn:Hf.
  - apply Hmem in Hhead as [Hin Hfile].
    destruct (evictFileLoop_spec fk blocksPerMutexAcquisition b [] c l I Hin Hfile)
      as (more & obs & c1 & l1 & Hrun & I1 & E1 & P1 & Hlen & Hdone).
    { split; [apply NoDup_nil_2|]. intros w Hw. by apply elem_of_nil in Hw. }
    destruct (releaseAll_spec obs c1 l1 I1 P1) as (vs & Hrel & I2).
    rewrite Hrun. cbn [bind fst snd]. rewrite Hrel. cbn [bind].
    exists more, (set_values vs c1), l1.
    split; [done|]. split; [done|].
    split; [by apply Evicted_values|]. split; [intros _; by apply Hlen|].
    intros Hm p Hp. by apply (Hdone Hm p Hp).
  - subst lf. exists false, c, l. split; [done|]. split; [done|].
    split; [apply Evicted_refl|]. split; [done|].
    intros _ p Hp Hpf.
    assert (p ∈ @nil ptr) as Hnil by (by apply Hmem).
    by apply elem_of_nil in Hnil.
Qed.

(** [EvictFile] returns when its fuel exceeds the length of the ring, and
    leaves no entry of the file. *)
Lemma EvictFile_spec id fileNum fuel : forall c l,
  Inv c l -> (length l < fuel)%nat ->
  exists c' l',
    EvictFile fuel id fileNum c = Ok c' /\
    Inv c' l' /\ Evicted (Key id fileNum 0) l c c' l' /\
    forall p, p ∈ l' -> fld fileOf c' p <> Some (Key id fileNum 0).
Proof.
  induction fuel as [|fuel IH]; intros c l I Hlen; [lia|].
  destruct (evictFileRun_spec (Key id fileNum 0) c l I)
    as (more & c1 & l1 & Hrun & I1 & E1 & Hless & Hdone).
  simpl. rewrite Hrun. cbn [bind fst snd].
  destruct more.
  - destruct (IH c1 l1 I1) as (c2 & l2 & Hrun2 & I2 & E2 & Hdone2);
      [specialize (Hless eq_refl); lia|].
    exists c2, l2. split; [done|]. split; [done|].
    split; [by apply (Evicted_trans _ l c l1 c1)|done].
  - exists c1, l1. repeat (split; [done|]). by apply Hdone.
Qed.

(** Whatever the fuel, a result of [EvictFile] is as [EvictFile_spec] says. *)
Lemma EvictFile_post id fileNum fuel : forall c l c',
  Inv c l -> EvictFile fuel id fileNum c = Ok c' ->
  exists l',
    Inv c' l' /\ Evicted (Key id fileNum 0) l c c' l' /\
    forall p, p ∈ l' -> fld fileOf c' p <> Some (Key id fileNum 0).
Proof.
  induction fuel as [|fuel IH]; intros c l c' I Hrun; [done|].
  destruct (evictFileRun_spec (Key id fileNum 0) c l I)
    as (more & c1 & l1 & Hrun1 & I1 & E1 & _ & Hdone).
  simpl in Hrun. rewrite Hrun1 in Hrun. cbn [bind fst snd] in Hrun.
  destruct more.
  - destruct (IH c1 l1 c' I1 Hrun) as (l2 & I2 & E2 & Hdone2).
    exists l2. split; [done|].
    split; [by apply (Evicted_trans _ l c l1 c1)|done].
  - injection Hrun as <-. exists l1. repeat (split; [done|]). by apply Hdone.
Qed.

Lemma Inv_new size : 0 <= size < 2 ^ 63 -> Inv (newShard size) [].
Proof.
  intros Hs. split.
  - split; try done.
    + apply NoDup_nil_2.
    + intros k p. split; [done|]. intros [Hp _]. by apply elem_of_nil in Hp.
    + intros fk. exists []. split; [apply NoDup_nil_2|]. split; [done|].
      split; [|done]. intros p. split; [intros Hp|intros [Hp _]];
        by apply elem_of_nil in Hp.
  - intros t. by destruct t.
  - intros p e Hp. by apply elem_of_nil in Hp.
  - split; intros p; intros; by apply elem_of_nil in H.
  - unfold CT, targetSize, newShard. cbn [maxSize reservedSize coldTarget].
    rewrite Z.sub_0_r, (wrap64_id size) by lia.
    destruct (size <? 1) eqn:E; lia.
Qed.

Lemma Alloc_Inv b c l : Inv c l -> Inv (Alloc b c).2 l.
Proof.
  intros I. apply (Inv_outside c); try done; [|apply (inv_ct _ _ I)].
  intros p e w Hp He Hw. simpl.
  destruct (proj1 (inv_vals _ _ I) p e w Hp He Hw) as (x & Hx & _).
  apply lookup_insert_ne. intros <-.
  assert (fresh (dom (mem_values c)) ∈ dom (mem_values c)) as Hin
    by (apply elem_of_dom; eauto).
  by apply is_fresh in Hin.
Qed.

(** What [Get] leaves alone. *)
Lemma Get_frame k c l h c' :
  Inv c l -> Get k c = Ok (h, c') ->
  Inv c' l /\
  handHot c' = handHot c /\ handCold c' = handCold c /\
  handTest c' = handTest c /\
  (forall t, sizeOf t c' = sizeOf t c /\ countOf t c' = countOf t c) /\
  coldTarget c' = coldTarget c /\ targetSize c' = targetSize c /\
  blocks c' = blocks c /\ files c' = files c /\
  (forall p, fld e_ptype c' p = fld e_ptype c p /\
             fld blinks c' p = fld blinks c p /\
             fld flinks c' p = fld flinks c p /\
             fld e_size c' p = fld e_size c p /\
             fld e_key c' p = fld e_key c p /\
             fld e_val c' p = fld e_val c p).
Proof.
  intros I Hrun.
  destruct (blocks c !! k) as [e|] eqn:Hb.
  - apply (st_blocks _ _ (inv_struct _ _ I)) in Hb as Hin.
    destruct Hin as [Hin _].
    destruct (Struct_alloc c l e (inv_struct _ _ I) Hin) as [ee He].
    destruct (e_val ee) as [v|] eqn:Hv.
    + destruct (proj1 (inv_vals _ _ I) e ee v Hin He Hv) as (x & Hx & _).
      rewrite (Get_hit_eq k c e ee v x Hb He Hv Hx) in Hrun.
      injection Hrun as <- <-.
      split; [by apply Get_hit_Inv|].
      repeat (split; [by try destruct t|]).
      intros p. unfold fld, Get_hit. simpl.
      rewrite lookup_insert. case_decide; [|done]. subst p.
      by rewrite He.
    + rewrite (Get_ghost_eq k c e ee Hb He Hv) in Hrun.
      injection Hrun as <- <-.
      split; [apply (Inv_ext c); try done; apply (inv_ct _ _ I)|].
      repeat (split; [by try destruct t|]). done.
  - rewrite (Get_absent_eq k c Hb) in Hrun. injection Hrun as <- <-.
    split; [apply (Inv_ext c); try done; apply (inv_ct _ _ I)|].
    repeat (split; [by try destruct t|]). done.
Qed.

(** On every reachable state the invariant holds, and the resident size is
    below twice the target size. *)
Lemma reachable_Inv c :
  reachable c ->
  exists l, Inv c l /\ sizeHot c + sizeCold c < 2 * targetSize c.
Proof.
  induction 1 as [size Hs|b c _ (l & I & Hlt)|k c h c' _ (l & I & Hlt) Hrun
                  |fuel k v c h c' _ (l & I & Hlt) Hrun
                  |k c c' _ (l & I & Hlt) Hrun
                  |fuel id fileNum c c' _ (l & I & Hlt) Hrun
                  |fuel n c c' _ (l & I & Hlt) Hrun].
  - exists []. split; [by apply Inv_new|].
    pose proof (targetSize_pos (newShard size)). simpl. lia.
  - exists l. split; [by apply Alloc_Inv|done].
  - destruct (Get_frame k c l h c' I Hrun)
      as (I' & _ & _ & _ & Hs & _ & HT & _).
    exists l. split; [done|].
    destruct (Hs etHot) as [Hh _]. destruct (Hs etCold) as [Hc _].
    simpl in Hh, Hc. lia.
  - destruct (Set_spec fuel k v c l h c' I Hrun)
      as (x & _ & _ & _ & (l' & I') & _ & Hb & _).
    by exists l'.
  - destruct (Delete_spec k c l I) as (c1 & l1 & Hrun1 & I1 & HT & Hle).
    assert (c1 = c') as -> by congruence.
    exists l1. split; [done|]. lia.
  - destruct (EvictFile_post id fileNum fuel c l c' I Hrun)
      as (l1 & I1 & E1 & _).
    exists l1. split; [done|].
    pose proof (ev_size _ _ _ _ _ E1 etHot) as Hh.
    pose proof (ev_size _ _ _ _ _ E1 etCold) as Hc.
    pose proof (ev_target _ _ _ _ _ E1). simpl in Hh, Hc. lia.
  - destruct (Reserve_spec fuel n c l c' I Hrun) as ((l' & I') & _ & _ & Hb).
    exists l'. split; [done|]. pose proof (targetSize_pos c'). lia.
Qed.

(** ** The test hand on one entry *)

(** The test hand on a test entry: the entry leaves the maps, the ring and
    the arena, and [coldTarget] shrinks by its size, not below 0. *)
Lemma testVisit_evicts c l e ee :
  Inv c l -> handTest c = Some e -> mem_entries c !! e = Some ee ->
  e_ptype ee = etTest ->
  exists c' l',
    testVisit c = Ok c' /\ l ≡ₚ e :: l' /\ Inv c' l' /\
    blocks c' = delete (e_key ee) (blocks c) /\
    mem_entries c' !! e = None /\
    coldTarget c' = Z.max 0 (coldTarget c - e_size ee) /\
    (forall t, sizeOf t c' = sizeOf t c - weight_of t ee) /\
    (forall t, countOf t c' = countOf t c - unit_for t ee).
Proof.
  intros I Hhand He Hty.
  assert (e ∈ l) as Hin by (by apply (Inv_hand_in c l I)).
  unfold testVisit. rewrite Hhand. unfold getE. rewrite He. cbn [bind].
  rewrite decide_True by done.
  assert (e_val ee = None) as Hval by (by apply (inv_typed _ _ I e ee)).
  set (ct := if coldTarget c - e_size ee <? 0 then 0
             else coldTarget c - e_size ee).
  set (c0 := set_coldTarget ct c).
  assert (Inv c0 l) as I0.
  { apply (Inv_ext c); try done.
    pose proof (inv_ct _ _ I) as K. unfold CT in *.
    change (targetSize c0) with (targetSize c).
    change (coldTarget c0) with ct. subst ct.
    assert (0 <= e_size ee) as Hsz by (by apply (inv_typed _ _ I e ee)).
    destruct (coldTarget c - e_size ee <? 0) eqn:E; lia. }
  destruct (metaEvict_spec c0 l e I0 Hin)
    as (ee' & c' & l' & He' & Hrun & Hperm & I' & _ & _ & Hb & Hct & Hs & Hc
        & Hnone & _).
  change (mem_entries c0) with (mem_entries c) in He'.
  rewrite He in He'. injection He' as <-.
  exists c', l'.
  split; [|split; [done|split; [done|split; [done|split; [done|split]]]]].
  - unfold metaEvict in Hrun. unfold getE in Hrun.
    change (mem_entries c0) with (mem_entries c) in Hrun.
    rewrite He in Hrun. cbn [bind] in Hrun. rewrite Hty in Hrun.
    match goal with
    | |- context [metaDel e ?s] =>
        replace s with (add_test (- e_size ee) (-1) c0)
    end.
    + destruct (metaDel e _) as [[v c2]| |]; cbn [bind fst snd] in *; try done.
      destruct (free e c2) as [c3| |] eqn:Hfree; cbn [bind] in *; try done.
      injection Hrun as -> ->. rewrite Hval. cbn [release bind].
      by rewrite Hfree.
    + subst c0 ct. simpl.
      destruct (coldTarget c - e_size ee <? 0); reflexivity.
  - rewrite Hct. change (coldTarget c0) with ct. subst ct.
    destruct (coldTarget c - e_size ee <? 0) eqn:E; lia.
  - split; intros t; [rewrite Hs|rewrite Hc]; by destruct t.
Qed.

(** Advancing the test hand does not fail on a well-formed ring, and moves
    the hand only. *)
Lemma advanceTest_total c l :
  Inv c l -> exists n, advanceTest c = Ok (set_handTest n c).
Proof.
  intros I. unfold advanceTest, next.
  destruct (handTest c) as [d|] eqn:Hd; [|by exists None].
  assert (d ∈ l) as Hin by (by apply (Inv_hand_in c l I)).
  destruct (Struct_alloc c l d (inv_struct _ _ I) Hin) as [ed Hed].
  unfold getE. rewrite Hed. cbn [bind]. by eexists.
Qed.

(** The test hand on an entry that is not a test entry: the hand moves on
    and nothing else changes. *)
Lemma testTail_other c e ee :
  handTest c = Some e -> mem_entries c !! e = Some ee ->
  e_ptype ee <> etTest ->
  testTail c = Ok (set_handTest (Some (e_blockNext ee)) c).
Proof.
  intros Hhand He Hty. unfold testTail, testVisit.
  rewrite Hhand. unfold getE. rewrite He. cbn [bind].
  rewrite decide_False by done. cbn [bind].
  unfold advanceTest, next. rewrite Hhand. unfold getE. by rewrite He.
Qed.

Lemma testTail_evicts c l e ee :
  Inv c l -> handTest c = Some e -> mem_entries c !! e = Some ee ->
  e_ptype ee = etTest ->
  exists c' l',
    testTail c = Ok c' /\ l ≡ₚ e :: l' /\ Inv c' l' /\
    blocks c' = delete (e_key ee) (blocks c) /\
    mem_entries c' !! e = None /\
    coldTarget c' = Z.max 0 (coldTarget c - e_size ee) /\
    sizeTest c' = sizeTest c - e_size ee /\
    countTest c' = countTest c - 1 /\
    sizeHot c' = sizeHot c /\ sizeCold c' = sizeCold c.
Proof.
  intros I Hhand He Hty.
  destruct (testVisit_evicts c l e ee I Hhand He Hty)
    as (c1 & l1 & Hrun & Hperm & I1 & Hb & Hnone & Hct & Hs & Hc).
  destruct (advanceTest_total c1 l1 I1) as [n Hadv].
  pose proof (Hs etTest) as Hst. pose proof (Hc etTest) as Hcn.
  pose proof (Hs etHot) as Hsh. pose proof (Hs etCold) as Hsc.
  unfold weight_of in Hst, Hsh, Hsc. unfold unit_for in Hcn.
  rewrite Hty in Hst, Hcn, Hsh, Hsc. simpl in Hst, Hcn, Hsh, Hsc.
  exists (set_handTest n c1), l1. unfold testTail. rewrite Hrun. cbn [bind].
  split; [done|]. split; [done|].
  split; [by destruct (advanceTest_spec c1 l1 _ I1 Hadv)|].
  repeat split; try done; simpl; lia.
Qed.

(** ** A declined insertion when no sweep is due *)


(** ** Concrete runs

    Short runs from the empty shard, used to evaluate the operations on
    concrete states. A run step that does not return leaves the state as it
    was, so every run ends in a reachable state. *)

Definition bytes (n : nat) : list Byte.byte := replicate n Byte.x00.

Definition run_Set (k : key) (n : nat) (c : shard) : shard :=
  let vc := Alloc (bytes n) c in
  match Set_ 64 k vc.1 vc.2 with
  | Ok r => r.2
  | _ => c
  end.

Definition run_Reserve (n : Z) (c : shard) : shard :=
  match Reserve 64 n c with
  | Ok c' => c'
  | _ => c
  end.

Definition kA : key := Key 1 1 0.
Definition kB : key := Key 1 1 10.
Definition kC : key := Key 1 2 0.

(** Two blocks of 6 bytes in a shard of 10 bytes. *)
Definition ex_pair : shard := run_Set kB 6 (run_Set kA 6 (newShard 10)).

(** Two blocks of 6 bytes in a shard of 100 bytes. *)
Definition ex_wide : shard := run_Set kB 6 (run_Set kA 6 (newShard 100)).

(** One block with an empty buffer. *)
Definition ex_zero : shard := run_Set kA 0 (newShard 10).

(** Three blocks of 3 bytes, two of one file and one of another. *)
Definition ex_files : shard :=
  run_Set kC 3 (run_Set kB 3 (run_Set kA 3 (newShard 10))).

(** A shard of 20 bytes whose [coldTarget] was lowered to 2 by a
    reservation that was given back, then three blocks of 12 bytes: the
    third [Set] turns the block of [kB] into a test entry. *)
Definition ex_ghost : shard :=
  run_Set kC 12 (run_Set kB 12 (run_Set kA 12
    (run_Reserve (-18) (run_Reserve 18 (newShard 20))))).

Lemma run_Set_reachable k n c : reachable c -> reachable (run_Set k n c).
Proof.
  intros R. unfold run_Set. cbv zeta.
  destruct (Set_ 64 k (Alloc (bytes n) c).1 (Alloc (bytes n) c).2)
    as [[h c']| |] eqn:E; try done.
  apply (reach_Set 64 k (Alloc (bytes n) c).1 (Alloc (bytes n) c).2 h c');
    [by apply reach_Alloc|done].
Qed.

Lemma run_Reserve_reachable n c : reachable c -> reachable (run_Reserve n c).
Proof.
  intros R. unfold run_Reserve.
  destruct (Reserve 64 n c) as [c'| |] eqn:E; try done.
  by apply (reach_Reserve 64 n c c').
Qed.

Lemma ex_pair_reachable : reachable ex_pair.
Proof. do 2 apply run_Set_reachable. apply reach_new; lia. Qed.

Lemma ex_wide_reachable : reachable ex_wide.
Proof. do 2 apply run_Set_reachable. apply reach_new; lia. Qed.

Lemma ex_zero_reachable : reachable ex_zero.
Proof. apply run_Set_reachable. apply reach_new; lia. Qed.

Lemma ex_files_reachable : reachable ex_files.
Proof. do 3 apply run_Set_reachable. apply reach_new; lia. Qed.

Lemma ex_ghost_reachable : reachable ex_ghost.
Proof.
  do 3 apply run_Set_reachable. do 2 apply run_Reserve_reachable.
  apply reach_new; lia.
Qed.

(** * The claims *)

(** C1, as stated: on every reachable state [sizeHot + sizeCold] is at most
    [targetSize]. It fails after two [Set]s of 6 bytes in a shard of 10
    bytes: [metaAdd] sweeps before it links the new entry, so the second
    block is admitted on top of the first. *)
Lemma C1_resident_size_counterexample :
  reachable ex_pair /\ targetSize ex_pair = 10 /\
  sizeHot ex_pair + sizeCold ex_pair = 12.
Proof. split; [apply ex_pair_reachable|]. by vm_compute. Qed.

(** C1, amended: on every reachable state [sizeHot + sizeCold] is below
    twice [targetSize]; it is below [targetSize] itself right after the
    operations that end with the sweep, that is after [Reserve] and after a
    [Set] that replaces the Value of a resident (hot or cold) entry. *)
Theorem C1_resident_size_bound c :
  reachable c ->
  sizeHot c + sizeCold c < 2 * targetSize c /\
  (forall fuel n c', Reserve fuel n c = Ok c' ->
     sizeHot c' + sizeCold c' < targetSize c') /\
  (forall fuel k v h c' e ee old,
     blocks c !! k = Some e -> mem_entries c !! e = Some ee ->
     e_val ee = Some old -> Set_ fuel k v c = Ok (h, c') ->
     sizeHot c' + sizeCold c' < targetSize c').
Proof.
  intros R. destruct (reachable_Inv c R) as (l & I & Hlt).
  split; [done|]. split.
  - intros fuel n c' Hrun.
    by destruct (Reserve_spec fuel n c l c' I Hrun) as (_ & _ & _ & ?).
  - intros fuel k v h c' e ee old Hb He Hold Hrun.
    destruct (Set_spec fuel k v c l h c' I Hrun) as (x & Hx & Hr & _).
    by destruct (Set_resident_spec fuel k v x c l e ee old h c'
                   I Hx Hr Hb He Hold Hrun) as [_ ?].
Qed.

Lemma C1_resident_size_bound_witness :
  reachable ex_pair /\ sizeHot ex_pair + sizeCold ex_pair < 2 * targetSize ex_pair.
Proof.
  split; [apply ex_pair_reachable|].
  exact (proj1 (C1_resident_size_bound ex_pair ex_pair_reachable)).
Defined.

(** C2, as stated: for each category, size > 0 if and only if count > 0.
    The direction from count to size fails after [Set] of a Value with an
    empty buffer: the cold category then counts one entry of total size
    0. *)
Lemma C2_size_count_counterexample :
  reachable ex_zero /\ countCold ex_zero = 1 /\ sizeCold ex_zero = 0.
Proof. split; [apply ex_zero_reachable|]. by vm_compute. Qed.

(** C2, amended: on every reachable state and for each category (hot, cold,
    test), size and count are not negative, and a positive size implies a
    positive count. This is what [checkConsistency] asserts. *)
Theorem C2_size_count c t :
  reachable c ->
  0 <= sizeOf t c /\ 0 <= countOf t c /\ (0 < sizeOf t c -> 0 < countOf t c).
Proof.
  intros R. destruct (reachable_Inv c R) as (l & I & _).
  by apply (Inv_counters c l t).
Qed.

Lemma C2_size_count_witness :
  reachable ex_zero /\
  (0 <= sizeOf etCold ex_zero /\ 0 <= countOf etCold ex_zero /\
   (0 < sizeOf etCold ex_zero -> 0 < countOf etCold ex_zero)).
Proof.
  split; [apply ex_zero_reachable|].
  apply (C2_size_count ex_zero etCold ex_zero_reachable).
Defined.




(** C4, as stated: a test-hand step evicts the entry under the test hand
    whatever its type. In [ex_wide] the test hand is on the cold entry of
    [kA]; the step leaves the entry where it is and only moves the hand:
    [runHandTest] evicts under [if e.ptype == etTest] only. *)
Lemma C4_test_hand_counterexample :
  reachable ex_wide /\
  handTest ex_wide = Some 1%positive /\
  fld e_ptype ex_wide 1%positive = Some etCold /\
  runHandTest 5 ex_wide = Ok (set_handTest (Some 2%positive) ex_wide).
Proof. split; [apply ex_wide_reachable|]. by vm_compute. Qed.

(** C4, amended: let the test hand be on the entry [e] of a well-formed
    shard. When the cold hand is elsewhere or the cold category is empty,
    [runHandTest] is the step [testTail] on [e] (otherwise it first runs the
    cold hand). If [e] is not a test entry, the step only moves the test
    hand to the next entry. If [e] is a test entry, the step removes it from
    the map, the ring and the arena, takes its size and one count from the
    test category, and lowers [coldTarget] by its size, not below 0. *)
Theorem C4_test_hand_step c l e ee :
  Inv c l -> handTest c = Some e -> mem_entries c !! e = Some ee ->
  (forall fuel,
     (0 <? sizeCold c) && bool_decide (handTest c = handCold c) = false ->
     runHandTest (S fuel) c = testTail c) /\
  (e_ptype ee <> etTest ->
     testTail c = Ok (set_handTest (Some (e_blockNext ee)) c)) /\
  (e_ptype ee = etTest ->
     exists c' l',
       testTail c = Ok c' /\ l ≡ₚ e :: l' /\ Inv c' l' /\
       blocks c' = delete (e_key ee) (blocks c) /\
       mem_entries c' !! e = None /\
       coldTarget c' = Z.max 0 (coldTarget c - e_size ee) /\
       sizeTest c' = sizeTest c - e_size ee /\
       countTest c' = countTest c - 1 /\
       sizeHot c' = sizeHot c /\ sizeCold c' = sizeCold c).
Proof.
  intros I Hhand He. split; [|split].
  - intros fuel Hcond. simpl. by rewrite Hcond.
  - intros Hty. by apply (testTail_other c e ee).
  - intros Hty. by apply (testTail_evicts c l e ee).
Qed.

Lemma C4_test_hand_step_witness :
  runHandTest 5 ex_wide = testTail ex_wide /\
  testTail ex_wide = Ok (set_handTest (Some 2%positive) ex_wide).
Proof.
  destruct (reachable_Inv ex_wide ex_wide_reachable) as (l & I & _).
  destruct (C4_test_hand_step ex_wide l 1%positive
              (mkEntry kA (Some 1%positive) 2%positive 2%positive
                 2%positive 2%positive 6 etCold false) I)
    as (H1 & H2 & _); [by vm_compute|by vm_compute|].
  split; [by apply (H1 4%nat)|by apply H2].
Defined.




(** C6: if [Set] of the Value [v] for the key [k] returns and leaves [k]
    mapped to an entry that is not a test entry (the entry was admitted and
    the sweep did not evict or demote it), then [Get] of [k] in that state
    returns a valid Handle, the one of [v], and the buffer behind it is the
    buffer that was passed to [Set]. *)
Theorem C6_set_then_get fuel k v x c h c' p ep :
  reachable c -> mem_values c !! v = Some x ->
  Set_ fuel k v c = Ok (h, c') ->
  blocks c' !! k = Some p -> mem_entries c' !! p = Some ep ->
  e_ptype ep <> etTest ->
  exists c'' x',
    Get k c' = Ok (Some v, c'') /\ Valid (Some v) = true /\
    mem_values c'' !! v = Some x' /\ v_buf x' = v_buf x.
Proof.
  intros R Hx Hrun Hb Hep Hty.
  destruct (reachable_Inv c R) as (l & I & _).
  destruct (Set_spec fuel k v c l h c' I Hrun)
    as (x0 & Hx0 & _ & _ & (l' & I') & _ & _ & Hheld & (x1 & Hx1 & Hbuf)).
  assert (x0 = x) as -> by congruence.
  apply (st_blocks _ _ (inv_struct _ _ I')) in Hb as Hin.
  destruct Hin as [Hin _].
  destruct (e_val ep) as [w|] eqn:Hw; cycle 1.
  { destruct Hty. by apply (inv_typed _ _ I' p ep). }
  assert (w = v) as -> by (by apply (Hheld p ep)).
  exists (Get_hit p ep v x1 c'), (mkValue (v_buf x1) (v_refs x1 + 1)).
  split; [by apply Get_hit_eq|]. split; [done|]. split; [|done].
  unfold Get_hit. simpl. apply lookup_insert_eq.
Qed.

Lemma C6_set_then_get_witness :
  exists c'' x',
    Get kA (run_Set kA 6 (newShard 10)) = Ok (Some 1%positive, c'') /\
    Valid (Some 1%positive) = true /\
    mem_values c'' !! 1%positive = Some x' /\ v_buf x' = bytes 6.
Proof.
  apply (C6_set_then_get 64 kA 1%positive (mkValue (bytes 6) 1)
           (Alloc (bytes 6) (newShard 10)).2 (Some 1%positive)
           (run_Set kA 6 (newShard 10)) 1%positive
           (mkEntry kA (Some 1%positive) 1%positive 1%positive 1%positive
              1%positive 6 etCold false)).
  - apply reach_Alloc. apply reach_new; lia.
  - by vm_compute.
  - by vm_compute.
  - by vm_compute.
  - by vm_compute.
  - discriminate.
Defined.

(** C7: [Delete] of a key that is absent from the blocks map returns the
    shard as it was: the maps, the rings, the hands, the counters and the
    Values (so also their reference counts) are all unchanged. *)
Theorem C7_delete_absent k c :
  blocks c !! k = None -> Delete k c = Ok c.
Proof. apply Delete_absent. Qed.

Lemma C7_delete_absent_witness : Delete kC ex_pair = Ok ex_pair.
Proof. apply (C7_delete_absent kC ex_pair). by vm_compute. Defined.

(** C8: on a reachable state [EvictFile] returns once its fuel exceeds the
    length of the ring. Afterwards the keys of the file are absent and the
    file has no ring; every other key maps to the entry it mapped to; the
    ring consists of the former entries of the other files, each with its
    key, type, size, reference bit and Value unchanged; and the rings of
    the other files have the members and the head they had. *)
Theorem C8_evict_file id fileNum c :
  reachable c ->
  exists l, Inv c l /\
  forall fuel, (length l < fuel)%nat ->
  exists c' l',
    EvictFile fuel id fileNum c = Ok c' /\ Inv c' l' /\
    (forall k, blocks c' !! k
               = if decide (file k = Key id fileNum 0) then None
                 else blocks c !! k) /\
    (forall p, p ∈ l' <->
               p ∈ l /\ fld fileOf c p <> Some (Key id fileNum 0)) /\
    (forall p, p ∈ l' ->
       fld cargo c' p = fld cargo c p /\ fld e_key c' p = fld e_key c p) /\
    files c' !! Key id fileNum 0 = None /\
    (forall fk lf lf', fk <> Key id fileNum 0 ->
       files c' !! fk = files c !! fk /\
       (file_ring c l fk lf -> file_ring c' l' fk lf' ->
        forall p, p ∈ lf' <-> p ∈ lf)).
Proof.
  intros R. destruct (reachable_Inv c R) as (l & I & _).
  exists l. split; [done|]. intros fuel Hfuel.
  destruct (EvictFile_spec id fileNum fuel c l I Hfuel)
    as (c' & l' & Hrun & I' & E & Hnone).
  set (fk := Key id fileNum 0) in *.
  assert (forall p, p ∈ l' <-> p ∈ l /\ fld fileOf c p <> Some fk) as Hmem.
  { intros p. split.
    - intros Hp. split; [by apply (ev_sub _ _ _ _ _ E)|].
      rewrite <-(fld_key_fileOf c c' p (ev_key _ _ _ _ _ E p Hp)).
      by apply Hnone.
    - intros [Hp Hf]. destruct (decide (p ∈ l')) as [|Hn]; [done|].
      destruct Hf. by apply (ev_gone _ _ _ _ _ E). }
  exists c', l'. split; [done|]. split; [done|].
  split; [|split; [done|split; [|split]]].
  - intros k. case_decide as Hk; [|by apply (ev_blocks _ _ _ _ _ E)].
    destruct (blocks c' !! k) as [p|] eqn:Hb; [|done].
    apply (st_blocks _ _ (inv_struct _ _ I')) in Hb as [Hp Hkey].
    destruct (Hnone p Hp). unfold fld in *.
    destruct (mem_entries c' !! p) as [ep|]; [|done]. simpl in *.
    injection Hkey as <-. by rewrite <-Hk.
  - intros p Hp.
    split; [by apply (ev_cargo _ _ _ _ _ E)|by apply (ev_key _ _ _ _ _ E)].
  - destruct (st_files _ _ (inv_struct _ _ I') fk) as (lf & _ & _ & Hm & Hhead).
    destruct (files c' !! fk) as [b|]; [|done].
    apply Hm in Hhead as [Hb Hbf]. by destruct (Hnone b Hb).
  - intros fk' lf lf' Hne. split; [by apply (ev_files _ _ _ _ _ E)|].
    intros (_ & _ & Hm & _) (_ & _ & Hm' & _) p.
    rewrite Hm, Hm'. split.
    + intros [Hp' Hf'].
      pose proof (fld_key_fileOf c c' p (ev_key _ _ _ _ _ E p Hp')) as Hsame.
      apply Hmem in Hp' as [Hp _]. split; [done|]. by rewrite <-Hsame.
    + intros [Hp Hf].
      assert (p ∈ l') as Hp'.
      { apply Hmem. split; [done|]. rewrite Hf. intros [= Heq].
        by apply Hne. }
      split; [done|].
      by rewrite (fld_key_fileOf c c' p (ev_key _ _ _ _ _ E p Hp')).
Qed.

Lemma C8_evict_file_witness :
  (exists l, Inv ex_files l /\
   forall fuel, (length l < fuel)%nat ->
   exists c' l',
     EvictFile fuel 1 1 ex_files = Ok c' /\ Inv c' l' /\
     (forall k, blocks c' !! k
                = if decide (file k = Key 1 1 0) then None
                  else blocks ex_files !! k) /\
     (forall p, p ∈ l' <->
                p ∈ l /\ fld fileOf ex_files p <> Some (Key 1 1 0)) /\
     (forall p, p ∈ l' ->
        fld cargo c' p = fld cargo ex_files p /\
        fld e_key c' p = fld e_key ex_files p) /\
     files c' !! Key 1 1 0 = None /\
     (forall fk lf lf', fk <> Key 1 1 0 ->
        files c' !! fk = files ex_files !! fk /\
        (file_ring ex_files l fk lf -> file_ring c' l' fk lf' ->
         forall p, p ∈ lf' <-> p ∈ lf))) /\
  (exists c', EvictFile 4 1 1 ex_files = Ok c' /\
              blocks ex_files !! kA = Some 1%positive /\
              blocks c' !! kA = None /\ blocks c' !! kB = None /\
              blocks c' !! kC = Some 3%positive).
Proof.
  split; [apply (C8_evict_file 1 1 ex_files ex_files_reachable)|].
  eexists. split; [by vm_compute|]. by vm_compute.
Defined.

(** C9: on a reachable state [Get] returns, and leaves the three hands,
    the counters, [coldTarget], the maps, and the type, ring links, size,
    key and Value of every entry as they were. If the key maps to an entry
    that is not a test entry, the Handle is valid, it is the Handle of the
    entry's Value, the entry's reference bit is set and [hits] grows by
    one. If the key is absent or maps to a test entry, the Handle is not
    valid, [misses] grows by one and no entry changes. *)
Theorem C9_get k c :
  reachable c ->
  exists h c',
    Get k c = Ok (h, c') /\
    handHot c' = handHot c /\ handCold c' = handCold c /\
    handTest c' = handTest c /\
    (forall t, sizeOf t c' = sizeOf t c /\ countOf t c' = countOf t c) /\
    coldTarget c' = coldTarget c /\ targetSize c' = targetSize c /\
    blocks c' = blocks c /\ files c' = files c /\
    (forall p, fld e_ptype c' p = fld e_ptype c p /\
               fld blinks c' p = fld blinks c p /\
               fld flinks c' p = fld flinks c p /\
               fld e_size c' p = fld e_size c p /\
               fld e_key c' p = fld e_key c p /\
               fld e_val c' p = fld e_val c p) /\
    (forall e ee,
       blocks c !! k = Some e -> mem_entries c !! e = Some ee ->
       e_ptype ee <> etTest ->
       Valid h = true /\ h = e_val ee /\
       fld e_referenced c' e = Some true /\
       hits c' = hits c + 1 /\ misses c' = misses c) /\
    (blocks c !! k = None \/
     (exists e ee, blocks c !! k = Some e /\ mem_entries c !! e = Some ee /\
                   e_ptype ee = etTest) ->
     Valid h = false /\ misses c' = misses c + 1 /\ hits c' = hits c /\
     mem_entries c' = mem_entries c /\ mem_values c' = mem_values c).
Proof.
  intros R. destruct (reachable_Inv c R) as (l & I & _).
  destruct (Get_spec k c l I) as (h & c' & Hrun & _).
  destruct (Get_frame k c l h c' I Hrun)
    as (_ & Hh & Hc & Ht & Hs & Hct & HT & Hb & Hf & Hfld).
  exists h, c'. do 10 (split; [done|]).
  destruct (blocks c !! k) as [e|] eqn:Hbk.
  - apply (st_blocks _ _ (inv_struct _ _ I)) in Hbk as Hin.
    destruct Hin as [Hin _].
    destruct (Struct_alloc c l e (inv_struct _ _ I) Hin) as [ee He].
    pose proof (inv_typed _ _ I e ee Hin He) as [_ Hty].
    destruct (e_val ee) as [v|] eqn:Hv.
    + destruct (proj1 (inv_vals _ _ I) e ee v Hin He Hv) as (x & Hx & _).
      rewrite (Get_hit_eq k c e ee v x Hbk He Hv Hx) in Hrun.
      injection Hrun as <- <-. split.
      * intros e0 ee0 [= <-] He0 _. rewrite He in He0. injection He0 as <-.
        split; [done|]. split; [done|]. split; [|done].
        unfold fld, Get_hit. simpl. by rewrite lookup_insert_eq.
      * intros [?|(e0 & ee0 & [= <-] & He0 & Hty0)]; [done|].
        rewrite He in He0. injection He0 as <-.
        apply Hty in Hty0. done.
    + rewrite (Get_ghost_eq k c e ee Hbk He Hv) in Hrun.
      injection Hrun as <- <-. split; [|done].
      intros e0 ee0 [= <-] He0 Hne. rewrite He in He0. injection He0 as <-.
      destruct Hne. by apply Hty.
  - rewrite (Get_absent_eq k c Hbk) in Hrun. injection Hrun as <- <-.
    split; [done|]. done.
Qed.

Lemma C9_get_witness :
  exists h c',
    Get kA ex_pair = Ok (h, c') /\
    handHot c' = handHot ex_pair /\ handCold c' = handCold ex_pair /\
    handTest c' = handTest ex_pair /\
    (forall t, sizeOf t c' = sizeOf t ex_pair /\
               countOf t c' = countOf t ex_pair) /\
    coldTarget c' = coldTarget ex_pair /\
    targetSize c' = targetSize ex_pair /\
    blocks c' = blocks ex_pair /\ files c' = files ex_pair /\
    (forall p, fld e_ptype c' p = fld e_ptype ex_pair p /\
               fld blinks c' p = fld blinks ex_pair p /\
               fld flinks c' p = fld flinks ex_pair p /\
               fld e_size c' p = fld e_size ex_pair p /\
               fld e_key c' p = fld e_key ex_pair p /\
               fld e_val c' p = fld e_val ex_pair p) /\
    (forall e ee,
       blocks ex_pair !! kA = Some e -> mem_entries ex_pair !! e = Some ee ->
       e_ptype ee <> etTest ->
       Valid h = true /\ h = e_val ee /\
       fld e_referenced c' e = Some true /\
       hits c' = hits ex_pair + 1 /\ misses c' = misses ex_pair) /\
    (blocks ex_pair !! kA = None \/
     (exists e ee, blocks ex_pair !! kA = Some e /\
                   mem_entries ex_pair !! e = Some ee /\
                   e_ptype ee = etTest) ->
     Valid h = false /\ misses c' = misses ex_pair + 1 /\
     hits c' = hits ex_pair /\
     mem_entries c' = mem_entries ex_pair /\
     mem_values c' = mem_values ex_pair).
Proof. apply (C9_get kA ex_pair ex_pair_reachable). Defined.

(** * Counting the entries *)

(** The entries that the blocks map points to. *)
Definition cached (c : shard) : list ptr := (map_to_list (blocks c)).*2.

Lemma cached_perm c l : Struct c l -> cached c ≡ₚ l.
Proof.
  intros S. apply NoDup_Permutation.
  - unfold cached. apply NoDup_fmap_2_strong; [|apply NoDup_map_to_list].
    intros [k1 p1] [k2 p2] H1 H2 Heq. simpl in Heq. subst p2.
    apply elem_of_map_to_list in H1, H2.
    apply (st_blocks _ _ S) in H1 as [_ H1]. apply (st_blocks _ _ S) in H2 as [_ H2].
    congruence.
  - apply (st_nodup _ _ S).
  - intros p. unfold cached. rewrite list_elem_of_fmap. split.
    + intros ([k p'] & -> & Hkp). apply elem_of_map_to_list in Hkp.
      by apply (st_blocks _ _ S) in Hkp as [? _].
    + intros Hp. destruct (Struct_alloc c l p S Hp) as [e He].
      exists (e_key e, p). split; [done|]. apply elem_of_map_to_list.
      apply (st_blocks _ _ S). split; [done|]. unfold fld. by rewrite He.
Qed.

Lemma zsum_add f g l : zsum (fun p => f p + g p) l = zsum f l + zsum g l.
Proof. induction l as [|a l IH]; simpl; lia. Qed.

Lemma zsum_const l : zsum (fun _ => 1) l = Z.of_nat (length l).
Proof. induction l as [|a l IH]; simpl length; simpl zsum; lia. Qed.

(** The bytes that the entry at [p] adds to [Size]: its size when it holds
    a Value. *)
Definition held_bytes (c : shard) (p : ptr) : Z :=
  match mem_entries c !! p with
  | Some e => match e_val e with Some _ => e_size e | None => 0 end
  | None => 0
  end.

Lemma count_total c l :
  Inv c l -> countHot c + countCold c + countTest c = Z.of_nat (length l).
Proof.
  intros I. pose proof (inv_counts _ _ I) as C.
  destruct (C etHot) as [_ Hh]. destruct (C etCold) as [_ Hc].
  destruct (C etTest) as [_ Ht]. simpl in Hh, Hc, Ht.
  rewrite Hh, Hc, Ht, <-!zsum_add, <-zsum_const.
  apply zsum_ext. intros p Hp.
  destruct (Struct_alloc c l p (inv_struct _ _ I) Hp) as [e He].
  unfold unit_of. rewrite He. destruct (e_ptype e); simpl; repeat case_decide; try done; lia.
Qed.

Lemma size_resident c l :
  Inv c l -> sizeHot c + sizeCold c = zsum (held_bytes c) l.
Proof.
  intros I. pose proof (inv_counts _ _ I) as C.
  destruct (C etHot) as [Hh _]. destruct (C etCold) as [Hc _].
  simpl in Hh, Hc. rewrite Hh, Hc, <-zsum_add.
  apply zsum_ext. intros p Hp.
  destruct (Struct_alloc c l p (inv_struct _ _ I) Hp) as [e He].
  destruct (inv_typed _ _ I p e Hp He) as [_ Hty].
  unfold weight, held_bytes. rewrite He.
  destruct (e_val e) as [v|] eqn:Hv.
  - assert (e_ptype e <> etTest) as Hne by (intros Hx; by apply Hty in Hx).
    destruct (e_ptype e); repeat case_decide; try done; lia.
  - assert (e_ptype e = etTest) as -> by (by apply Hty).
    repeat case_decide; try done.
Qed.

(** ** Termination of the sweep

    Every visit of a hand either leaves the entries as they are and moves
    the hand, or lowers the rank of the entry it visits: a referenced cold
    entry becomes an unreferenced hot one, a referenced hot entry loses its
    reference bit, an unreferenced hot entry becomes cold, an unreferenced
    cold entry becomes a test entry, and a test entry leaves the ring. *)

Definition rank_of (e : entry) : Z :=
  match e_ptype e with
  | etTest => 1
  | etCold => if e_referenced e then 5 else 2
  | etHot => if e_referenced e then 4 else 3
  end.

Definition rank (c : shard) (p : ptr) : Z :=
  match mem_entries c !! p with
  | Some e => rank_of e
  | None => 0
  end.

(** The sum of the ranks of the entries of the blocks map. *)
Definition potential (c : shard) : Z := zsum (rank c) (cached c).

(** The bytes of all three categories. *)
Definition total (c : shard) : Z := sizeHot c + sizeCold c + sizeTest c.

(** The sweep is entered with a positive resident size; from then on
    either some entry of the ring has a positive size, or an entry of
    positive size has left the ring and lowered [coldTarget]. *)
Definition live (c : shard) : Prop :=
  coldTarget c < targetSize c \/ 0 < total c.

(** [f] returns [c'] from [c] whenever the fuel is large enough. *)
Definition returns (f : nat -> shard -> res shard) (c c' : shard) : Prop :=
  exists n, forall m, (n <= m)%nat -> f m c = Ok c'.

Definition nxt (c : shard) (p : ptr) : ptr :=
  match mem_entries c !! p with
  | Some e => e_blockNext e
  | None => p
  end.

Definition ptype_at (c : shard) (p : ptr) : option entryType :=
  fld e_ptype c p.

(** The state differs from [c] in the hands only. *)
Definition moved (c c' : shard) : Prop :=
  mem_entries c' = mem_entries c /\ mem_values c' = mem_values c /\
  blocks c' = blocks c /\ files c' = files c /\ scalars c' = scalars c.

Definition same_budget (c c' : shard) : Prop :=
  total c' = total c /\ coldTarget c' = coldTarget c /\
  targetSize c' = targetSize c.

Definition same_hands (c c' : shard) : Prop :=
  handHot c' = handHot c /\ handCold c' = handCold c /\
  handTest c' = handTest c.

Lemma rank_of_pos e : 1 <= rank_of e.
Proof. unfold rank_of. destruct (e_ptype e), (e_referenced e); lia. Qed.

Lemma rank_nonneg c p : 0 <= rank c p.
Proof.
  unfold rank. destruct (mem_entries c !! p) as [e|]; [|done].
  pose proof (rank_of_pos e). lia.
Qed.

Lemma potential_ring c l : Struct c l -> potential c = zsum (rank c) l.
Proof. intros S. unfold potential. apply zsum_perm. by apply cached_perm. Qed.

Lemma potential_nonneg c : 0 <= potential c.
Proof. apply zsum_nonneg. intros p _. apply rank_nonneg. Qed.

Lemma same_budget_live c c' : same_budget c c' -> live c -> live c'.
Proof. intros (Ht & Hc & HT) [H|H]; [left|right]; lia. Qed.

Lemma moved_refl c : moved c c.
Proof. by repeat split. Qed.

Lemma moved_trans c1 c2 c3 : moved c1 c2 -> moved c2 c3 -> moved c1 c3.
Proof.
  intros (? & ? & ? & ? & ?) (? & ? & ? & ? & ?). repeat split; congruence.
Qed.

Lemma moved_budget c c' : moved c c' -> same_budget c c'.
Proof.
  intros (_ & _ & _ & _ & Hs).
  pose proof (scalars_targetSize _ _ Hs) as HT.
  injection Hs as _ _ _ _ Hct Hsh Hsc Hst _ _ _.
  unfold same_budget, total. repeat split; try done. lia.
Qed.

Lemma moved_potential c c' : moved c c' -> potential c' = potential c.
Proof.
  intros (Hh & _ & Hb & _). unfold potential, cached. rewrite Hb.
  apply zsum_ext. intros p _. unfold rank. by rewrite Hh.
Qed.

Lemma moved_nxt c c' p : moved c c' -> nxt c' p = nxt c p.
Proof. intros (Hh & _). unfold nxt. by rewrite Hh. Qed.

Lemma moved_ptype c c' p : moved c c' -> ptype_at c' p = ptype_at c p.
Proof. intros (Hh & _). unfold ptype_at, fld. by rewrite Hh. Qed.

Lemma moved_Inv c c' l :
  moved c c' -> Inv c l -> hands_in c' l -> Inv c' l.
Proof.
  intros (Hh & Hv & Hb & Hf & Hs) I Hhands.
  by destruct (Inv_hands c c' l I Hh Hv Hb Hf Hs Hhands).
Qed.

Lemma nxt_in c l p : Inv c l -> p ∈ l -> nxt c p ∈ l.
Proof.
  intros I Hp. destruct (Struct_alloc c l p (inv_struct _ _ I) Hp) as [e He].
  unfold nxt. rewrite He.
  by destruct (Struct_links c l p e (inv_struct _ _ I) Hp He) as (? & _).
Qed.

(** A change of one entry of the ring changes the potential by the
    difference of the ranks. *)
Lemma retag_potential c c' l e ee ee' :
  Struct c l -> Struct c' l -> e ∈ l -> mem_entries c !! e = Some ee ->
  mem_entries c' = <[e := ee']> (mem_entries c) ->
  potential c' = potential c - rank_of ee + rank_of ee'.
Proof.
  intros S S' Hin He Hh.
  rewrite (potential_ring c l S), (potential_ring c' l S').
  rewrite (zsum_update (rank c) (rank c') l e (st_nodup _ _ S) Hin).
  - unfold rank. by rewrite He, Hh, lookup_insert_eq.
  - intros p _ Hp. unfold rank. by rewrite Hh, lookup_insert_ne.
Qed.

(** The potential after an entry has left the ring. *)
Lemma evict_potential c c' l l' e ee :
  Struct c l -> Struct c' l' -> l ≡ₚ e :: l' ->
  mem_entries c !! e = Some ee ->
  (forall x, x ∈ l' -> fld cargo c' x = fld cargo c x) ->
  potential c' = potential c - rank_of ee.
Proof.
  intros S S' Hperm He Hcargo.
  rewrite (potential_ring c l S), (potential_ring c' l' S').
  rewrite (zsum_perm _ _ _ Hperm). simpl.
  unfold rank at 2. rewrite He.
  rewrite (zsum_ext (rank c') (rank c) l'); [lia|].
  intros p Hp. specialize (Hcargo p Hp). unfold fld, rank in *.
  destruct (mem_entries c' !! p) as [e1|], (mem_entries c !! p) as [e2|];
    simpl in Hcargo; try done.
  injection Hcargo as _ _ Hty Href. unfold rank_of. by rewrite Hty, Href.
Qed.

(** *** The ring is one cycle of [next] links *)

Lemma path_reach c a t q :
  path (fld e_blockNext c) (fld e_blockPrev c) a t -> q ∈ a :: t ->
  exists k, Nat.iter k (nxt c) a = q.
Proof.
  revert a. induction t as [|b t IH]; intros a Hp Hq.
  - apply list_elem_of_singleton in Hq. subst q. by exists O.
  - apply elem_of_cons in Hq as [->|Hq]; [by exists O|].
    destruct Hp as [[Hn _] Hp].
    destruct (IH b Hp Hq) as [k Hk]. exists (S k).
    rewrite Nat.iter_succ_r.
    assert (nxt c a = b) as ->; [|done].
    unfold fld in Hn. unfold nxt.
    destruct (mem_entries c !! a) as [e|]; simpl in Hn; congruence.
Qed.

Lemma walk_reach c l h q :
  Inv c l -> h ∈ l -> q ∈ l -> exists k, Nat.iter k (nxt c) h = q.
Proof.
  intros I Hh Hq.
  destruct (ring_rotate_to _ _ l h (st_ring _ _ (inv_struct _ _ I)) Hh)
    as (t & [Hp _] & Hperm).
  apply (path_reach c h t q Hp). by rewrite <-Hperm.
Qed.

(** *** The visits *)

Lemma same_budget_refl c : same_budget c c.
Proof. by repeat split. Qed.

Lemma same_budget_trans c1 c2 c3 :
  same_budget c1 c2 -> same_budget c2 c3 -> same_budget c1 c3.
Proof. intros (? & ? & ?) (? & ? & ?). repeat split; congruence. Qed.

Lemma same_hands_refl c : same_hands c c.
Proof. by repeat split. Qed.

Lemma handHot_in c l h : Inv c l -> handHot c = Some h -> h ∈ l.
Proof. intros I. by destruct (Inv_hand_in c l I) as (H & _ & _); apply H. Qed.

Lemma handCold_in c l h : Inv c l -> handCold c = Some h -> h ∈ l.
Proof. intros I. by destruct (Inv_hand_in c l I) as (_ & H & _); apply H. Qed.

Lemma handTest_in c l h : Inv c l -> handTest c = Some h -> h ∈ l.
Proof. intros I. by destruct (Inv_hand_in c l I) as (_ & _ & H); apply H. Qed.

Lemma coldHit_total c l e ee :
  Inv c l -> e ∈ l -> mem_entries c !! e = Some ee ->
  e_ptype ee = etCold -> e_referenced ee = true ->
  exists c', coldHit e c = Ok c' /\ Inv c' l /\
             potential c' < potential c /\
             same_budget c c' /\ same_hands c c'.
Proof.
  intros I Hin He Hty Href.
  assert (exists c', coldHit e c = Ok c' /\
            mem_entries c'
            = <[e := set_ptype etHot (set_referenced false ee)]> (mem_entries c) /\
            same_budget c c' /\ same_hands c c') as (c' & Hrun & Hh & Hb & Hs).
  { unfold coldHit. rewrite (modE_lookup _ _ _ _ He). cbn [bind].
    rewrite (modE_lookup _ _ _ (set_referenced false ee))
      by apply lookup_insert_eq.
    cbn [bind]. unfold getE. cbn [mem_entries setE set_entries].
    rewrite lookup_insert_eq. cbn [bind].
    eexists. split; [done|]. split; [|split; [|done]].
    - cbn. by rewrite insert_insert_eq.
    - unfold same_budget, total, targetSize. cbn. repeat split; lia. }
  exists c'. split; [done|].
  destruct (coldHit_spec c l e ee c' I Hin He Hty Hrun) as [I' _].
  split; [done|]. split; [|done].
  rewrite (retag_potential c c' l e ee _ (inv_struct _ _ I) (inv_struct _ _ I')
             Hin He Hh).
  unfold rank_of. cbn. rewrite Hty, Href. lia.
Qed.

Lemma coldMiss_total c l e ee :
  Inv c l -> e ∈ l -> mem_entries c !! e = Some ee ->
  e_ptype ee = etCold -> e_referenced ee = false ->
  exists c', coldMiss e c = Ok c' /\ Inv c' l /\
             potential c' < potential c /\
             same_budget c c' /\ same_hands c c'.
Proof.
  intros I Hin He Hty Href.
  destruct (coldMiss_spec c l e ee I Hin He Hty) as (c' & Hrun & I' & _).
  exists c'. split; [done|]. split; [done|].
  assert (mem_entries c'
          = <[e := set_ptype etTest (set_val None ee)]> (mem_entries c) /\
          same_budget c c' /\ same_hands c c') as (Hh & Hb & Hs).
  { destruct (e_val ee) as [v|] eqn:Hval; cycle 1.
    { apply (inv_typed _ _ I e ee Hin He) in Hval. congruence. }
    destruct (proj1 (inv_vals _ _ I) e ee v Hin He Hval) as (x & Hx & Hrefs).
    revert Hrun. unfold coldMiss, setValue. cbn [bind]. unfold getE at 1.
    rewrite He. cbn [bind]. rewrite (modE_lookup _ _ _ _ He). cbn [bind].
    rewrite Hval. unfold release, getV. cbn [mem_values setE set_entries].
    rewrite Hx. cbn [bind].
    destruct (v_refs x - 1 <? 0) eqn:E1; [lia|].
    destruct (v_refs x - 1 =? 0) eqn:E2; [lia|].
    cbn [bind].
    rewrite (modE_lookup _ _ _ (set_val None ee)) by apply lookup_insert_eq.
    cbn [bind]. unfold getE. cbn [mem_entries setE set_entries set_values].
    rewrite lookup_insert_eq. cbn [bind]. intros [= <-].
    split; [|split; [|done]].
    - cbn. by rewrite insert_insert_eq.
    - unfold same_budget, total, targetSize. cbn. repeat split; lia. }
  split; [|done].
  rewrite (retag_potential c c' l e ee _ (inv_struct _ _ I) (inv_struct _ _ I')
             Hin He Hh).
  unfold rank_of. cbn. rewrite Hty, Href. lia.
Qed.

Lemma ptype_at_lookup c p e :
  mem_entries c !! p = Some e -> ptype_at c p = Some (e_ptype e).
Proof. intros H. unfold ptype_at, fld. by rewrite H. Qed.

Lemma hotVisit_total c l h :
  Inv c l -> handHot c = Some h ->
  exists c', hotVisit c = Ok c' /\ Inv c' l /\
             same_budget c c' /\ same_hands c c' /\
             ((ptype_at c h = Some etHot /\ potential c' < potential c) \/
              (ptype_at c h <> Some etHot /\ c' = c)).
Proof.
  intros I Hhand.
  assert (h ∈ l) as Hin by (by apply (handHot_in c l)).
  destruct (Struct_alloc c l h (inv_struct _ _ I) Hin) as [ee He].
  rewrite (ptype_at_lookup c h ee He).
  assert (exists c', hotVisit c = Ok c' /\ same_budget c c' /\ same_hands c c' /\
            ((e_ptype ee = etHot /\
              exists ee', mem_entries c' = <[h := ee']> (mem_entries c) /\
                          rank_of ee' < rank_of ee) \/
             (e_ptype ee <> etHot /\ c' = c)))
    as (c' & Hrun & Hb & Hs & Hcase).
  { unfold hotVisit. rewrite Hhand. unfold getE. rewrite He. cbn [bind].
    case_decide as Hty; cycle 1.
    { exists c. split; [done|]. split; [apply same_budget_refl|].
      split; [done|]. by right. }
    destruct (e_referenced ee) eqn:Href.
    - rewrite (modE_lookup _ _ _ _ He). eexists. split; [done|].
      split; [by repeat split|]. split; [done|]. left. split; [done|].
      eexists. split; [done|]. unfold rank_of. cbn. rewrite Hty, Href. lia.
    - rewrite (modE_lookup _ _ _ _ He). cbn [bind]. eexists. split; [done|].
      split; [unfold same_budget, total, targetSize; cbn; repeat split; lia|].
      split; [done|]. left. split; [done|].
      eexists. split; [done|]. unfold rank_of. cbn. rewrite Hty, Href. lia. }
  exists c'. split; [done|].
  destruct (hotVisit_spec c l c' I Hrun) as [I' _].
  split; [done|]. split; [done|]. split; [done|].
  destruct Hcase as [(Hty & ee' & Hh & Hlt)|(Hty & ->)].
  - left. split; [by rewrite Hty|].
    rewrite (retag_potential c c' l h ee ee' (inv_struct _ _ I)
               (inv_struct _ _ I') Hin He Hh). lia.
  - right. split; [congruence|done].
Qed.

Lemma testVisit_total c l t :
  Inv c l -> live c -> handTest c = Some t ->
  exists c' l', testVisit c = Ok c' /\ Inv c' l' /\ live c' /\
    ((ptype_at c t = Some etTest /\ potential c' < potential c) \/
     (ptype_at c t <> Some etTest /\ c' = c /\ l' = l)).
Proof.
  intros I L Hhand.
  assert (t ∈ l) as Hin by (by apply (handTest_in c l)).
  destruct (Struct_alloc c l t (inv_struct _ _ I) Hin) as [ee He].
  rewrite (ptype_at_lookup c t ee He).
  destruct (decide (e_ptype ee = etTest)) as [Hty|Hty]; cycle 1.
  { exists c, l. unfold testVisit. rewrite Hhand. unfold getE. rewrite He.
    cbn [bind]. rewrite decide_False by done.
    split; [done|]. split; [done|]. split; [done|]. right.
    split; [congruence|done]. }
  assert (e_val ee = None) as Hval by (by apply (inv_typed _ _ I t ee)).
  assert (0 <= e_size ee) as Hsz by (by apply (inv_typed _ _ I t ee)).
  set (ct := if coldTarget c - e_size ee <? 0 then 0
             else coldTarget c - e_size ee).
  set (c0 := set_coldTarget ct c).
  pose proof (inv_ct _ _ I) as K. unfold CT in K.
  assert (Inv c0 l) as I0.
  { apply (Inv_ext c); try done. unfold CT.
    change (targetSize c0) with (targetSize c).
    change (coldTarget c0) with ct. subst ct.
    destruct (coldTarget c - e_size ee <? 0) eqn:E; lia. }
  destruct (metaEvict_spec c0 l t I0 Hin)
    as (ee' & c' & l' & He' & Hrun & Hperm & I' & F' & _ & _ & Hct & Hs & _
        & _ & Hcargo & _).
  change (mem_entries c0) with (mem_entries c) in He'.
  rewrite He in He'. injection He' as <-.
  exists c', l'.
  split; [|split; [done|split]].
  - unfold testVisit. rewrite Hhand. unfold getE. rewrite He. cbn [bind].
    rewrite decide_True by done.
    unfold metaEvict in Hrun. unfold getE in Hrun.
    change (mem_entries c0) with (mem_entries c) in Hrun.
    rewrite He in Hrun. cbn [bind] in Hrun. rewrite Hty in Hrun.
    match goal with
    | |- context [metaDel t ?s] =>
        replace s with (add_test (- e_size ee) (-1) c0)
    end.
    + destruct (metaDel t _) as [[v c2]| |]; cbn [bind fst snd] in *; try done.
      destruct (free t c2) as [c3| |] eqn:Hfree; cbn [bind] in *; try done.
      injection Hrun as -> ->. rewrite Hval. cbn [release bind].
      by rewrite Hfree.
    + subst c0 ct. simpl.
      destruct (coldTarget c - e_size ee <? 0); reflexivity.
  - pose proof (Frame_targetSize _ _ _ _ F') as HT.
    change (targetSize c0) with (targetSize c) in HT.
    change (coldTarget c0) with ct in Hct.
    pose proof (Hs etHot) as Hh. pose proof (Hs etCold) as Hc.
    pose proof (Hs etTest) as Ht.
    unfold weight_of in Hh, Hc, Ht. rewrite Hty in Hh, Hc, Ht.
    simpl in Hh, Hc, Ht.
    pose proof (targetSize_pos c).
    unfold live, total in *. rewrite HT, Hct. subst ct.
    destruct (coldTarget c - e_size ee <? 0) eqn:E;
      [apply Z.ltb_lt in E|apply Z.ltb_ge in E];
      destruct (decide (e_size ee = 0)); destruct L; lia.
  - left. split; [by rewrite Hty|].
    rewrite (evict_potential c0 c' l l' t ee (inv_struct _ _ I0)
               (inv_struct _ _ I') Hperm He Hcargo).
    change (potential c0) with (potential c).
    pose proof (rank_of_pos ee). lia.
Qed.

(** *** Moving a hand *)

Lemma advanceHot_total c l :
  Inv c l ->
  exists c', advanceHot c = Ok c' /\ Inv c' l /\ moved c c' /\
             handCold c' = handCold c /\ handTest c' = handTest c /\
             handHot c' = nxt c <$> handHot c.
Proof.
  intros I. unfold advanceHot, next.
  destruct (handHot c) as [h|] eqn:Hh.
  - assert (h ∈ l) as Hin by (by apply (handHot_in c l)).
    destruct (Struct_alloc c l h (inv_struct _ _ I) Hin) as [ee He].
    unfold getE. rewrite He. cbn [bind]. eexists. split; [done|].
    assert (advanceHot c = Ok (set_handHot (Some (e_blockNext ee)) c)) as Hrun
      by (unfold advanceHot, next, getE; by rewrite Hh, He).
    destruct (advanceHot_spec c l _ I Hrun) as [I' _].
    split; [done|]. split; [by repeat split|].
    split; [done|]. split; [done|]. simpl. unfold nxt. by rewrite He.
  - cbn [bind]. eexists. split; [done|].
    assert (advanceHot c = Ok (set_handHot None c)) as Hrun
      by (unfold advanceHot, next; by rewrite Hh).
    destruct (advanceHot_spec c l _ I Hrun) as [I' _].
    split; [done|]. split; [by repeat split|]. done.
Qed.

Lemma advanceCold_total c l :
  Inv c l ->
  exists c', advanceCold c = Ok c' /\ Inv c' l /\ moved c c' /\
             handHot c' = handHot c /\ handTest c' = handTest c /\
             handCold c' = nxt c <$> handCold c.
Proof.
  intros I. unfold advanceCold, next.
  destruct (handCold c) as [h|] eqn:Hh.
  - assert (h ∈ l) as Hin by (by apply (handCold_in c l)).
    destruct (Struct_alloc c l h (inv_struct _ _ I) Hin) as [ee He].
    unfold getE. rewrite He. cbn [bind]. eexists. split; [done|].
    assert (advanceCold c = Ok (set_handCold (Some (e_blockNext ee)) c)) as Hrun
      by (unfold advanceCold, next, getE; by rewrite Hh, He).
    destruct (advanceCold_spec c l _ I Hrun) as [I' _].
    split; [done|]. split; [by repeat split|].
    split; [done|]. split; [done|]. simpl. unfold nxt. by rewrite He.
  - cbn [bind]. eexists. split; [done|].
    assert (advanceCold c = Ok (set_handCold None c)) as Hrun
      by (unfold advanceCold, next; by rewrite Hh).
    destruct (advanceCold_spec c l _ I Hrun) as [I' _].
    split; [done|]. split; [by repeat split|]. done.
Qed.

Lemma advanceTest_moved c l :
  Inv c l ->
  exists c', advanceTest c = Ok c' /\ Inv c' l /\ moved c c' /\
             handHot c' = handHot c /\ handCold c' = handCold c /\
             handTest c' = nxt c <$> handTest c.
Proof.
  intros I. unfold advanceTest, next.
  destruct (handTest c) as [h|] eqn:Hh.
  - assert (h ∈ l) as Hin by (by apply (handTest_in c l)).
    destruct (Struct_alloc c l h (inv_struct _ _ I) Hin) as [ee He].
    unfold getE. rewrite He. cbn [bind]. eexists. split; [done|].
    assert (advanceTest c = Ok (set_handTest (Some (e_blockNext ee)) c)) as Hrun
      by (unfold advanceTest, next, getE; by rewrite Hh, He).
    destruct (advanceTest_spec c l _ I Hrun) as [I' _].
    split; [done|]. split; [by repeat split|].
    split; [done|]. split; [done|]. simpl. unfold nxt. by rewrite He.
  - cbn [bind]. eexists. split; [done|].
    assert (advanceTest c = Ok (set_handTest None c)) as Hrun
      by (unfold advanceTest, next; by rewrite Hh).
    destruct (advanceTest_spec c l _ I Hrun) as [I' _].
    split; [done|]. split; [by repeat split|]. done.
Qed.

Lemma hotTail_total c l h :
  Inv c l -> live c -> handHot c = Some h ->
  exists c', hotTail c = Ok c' /\ Inv c' l /\ live c' /\
    potential c' <= potential c /\
    ((ptype_at c h = Some etHot /\ potential c' < potential c) \/
     (ptype_at c h <> Some etHot /\ moved c c' /\
      handHot c' = Some (nxt c h) /\ handCold c' = handCold c /\
      handTest c' = handTest c)).
Proof.
  intros I L Hhand.
  destruct (hotVisit_total c l h I Hhand)
    as (c1 & Hrun1 & I1 & Hb1 & (Hh1 & Hc1 & Ht1) & Hcase).
  destruct (advanceHot_total c1 l I1)
    as (c2 & Hrun2 & I2 & Hm2 & Hc2 & Ht2 & Hh2).
  exists c2. unfold hotTail. rewrite Hrun1. cbn [bind].
  split; [done|]. split; [done|].
  split.
  { apply (same_budget_live c1); [by apply moved_budget|].
    by apply (same_budget_live c). }
  pose proof (moved_potential c1 c2 Hm2) as Hp.
  destruct Hcase as [[Hty Hlt]|[Hty ->]].
  - split; [lia|]. left. split; [done|lia].
  - split; [lia|]. right. split; [done|]. split; [done|].
    rewrite Hh2, Hhand. done.
Qed.

Lemma testTail_total c l t :
  Inv c l -> live c -> handTest c = Some t ->
  exists c' l', testTail c = Ok c' /\ Inv c' l' /\ live c' /\
    potential c' <= potential c /\
    ((ptype_at c t = Some etTest /\ potential c' < potential c) \/
     (ptype_at c t <> Some etTest /\ l' = l /\ moved c c' /\
      handTest c' = Some (nxt c t) /\ handHot c' = handHot c /\
      handCold c' = handCold c)).
Proof.
  intros I L Hhand.
  destruct (testVisit_total c l t I L Hhand)
    as (c1 & l1 & Hrun1 & I1 & L1 & Hcase).
  destruct (advanceTest_moved c1 l1 I1)
    as (c2 & Hrun2 & I2 & Hm2 & Hh2 & Hc2 & Ht2).
  exists c2, l1. unfold testTail. rewrite Hrun1. cbn [bind].
  split; [done|]. split; [done|].
  split; [by apply (same_budget_live c1); [apply moved_budget|]|].
  pose proof (moved_potential c1 c2 Hm2) as Hp.
  destruct Hcase as [[Hty Hlt]|(Hty & -> & ->)].
  - split; [lia|]. left. split; [done|lia].
  - split; [lia|]. right. split; [done|]. split; [done|]. split; [done|].
    rewrite Ht2, Hhand. done.
Qed.

(** *** What a returned hand step has done *)

Definition nested (c : shard) : bool :=
  (0 <? sizeCold c) && bool_decide (handTest c = handCold c)
  && notNil (handCold c).

Definition lockstep (c : shard) : bool :=
  bool_decide (handHot c = handTest c) && notNil (handTest c).

(** The cold hand has passed an entry that is not cold, and the hot loop
    had nothing to do. *)
Definition IdleCold (c c' : shard) : Prop :=
  moved c c' /\ handHot c' = handHot c /\ handTest c' = handTest c /\
  exists e, handCold c = Some e /\ handCold c' = Some (nxt c e) /\
            ptype_at c e <> Some etCold /\ hotCond c' = false.

Definition IdleLoop (cond : shard -> bool) (c c' : shard) : Prop :=
  c' = c /\ cond c = false.

(** The test hand has passed an entry that is not a test entry. *)
Definition IdleTest (c c' : shard) : Prop :=
  moved c c' /\ handHot c' = handHot c /\
  exists t, handTest c = Some t /\ handTest c' = Some (nxt c t) /\
            ptype_at c t <> Some etTest /\
            ((nested c = false /\ handCold c' = handCold c) \/
             (nested c = true /\ ptype_at c t <> Some etCold)).

(** The hot hand has passed an entry that is not hot. *)
Definition IdleHot (c c' : shard) : Prop :=
  moved c c' /\ handCold c' = handCold c /\
  exists h, handHot c = Some h /\ handHot c' = Some (nxt c h) /\
            ptype_at c h <> Some etHot /\
            ((lockstep c = false /\ handTest c' = handTest c) \/
             (lockstep c = true /\ nested c = false /\
              ptype_at c h <> Some etTest /\
              handTest c' = Some (nxt c h))).

Definition outcome (idle : shard -> shard -> Prop)
    (f : shard -> res shard) : Prop :=
  forall c l c', Inv c l -> live c -> f c = Ok c' ->
    (exists l', Inv c' l') /\ live c' /\
    (potential c' < potential c \/ idle c c').

Lemma ptype_at_is_Some c l p : Inv c l -> p ∈ l -> is_Some (ptype_at c p).
Proof.
  intros I Hp. destruct (Struct_alloc c l p (inv_struct _ _ I) Hp) as [e He].
  rewrite (ptype_at_lookup c p e He). eauto.
Qed.

Lemma moved_testCond c c' :
  moved c c' -> notNil (handTest c') = true -> testCond c = true ->
  testCond c' = true.
Proof.
  intros (_ & _ & _ & _ & Hs) Hn Hc.
  pose proof (scalars_targetSize _ _ Hs) as HT.
  injection Hs as _ _ _ _ _ _ _ Hst _ _ _.
  unfold testCond in *. rewrite HT, Hst, Hn.
  apply andb_true_iff in Hc as [-> _]. done.
Qed.

Lemma moved_hotCond c c' :
  moved c c' -> notNil (handHot c') = true -> hotCond c = true ->
  hotCond c' = true.
Proof.
  intros (_ & _ & _ & _ & Hs) Hn Hc.
  pose proof (scalars_targetSize _ _ Hs) as HT.
  injection Hs as _ _ _ _ Hct Hsh _ _ _ _ _.
  unfold hotCond in *. rewrite HT, Hct, Hsh, Hn.
  apply andb_true_iff in Hc as [-> _]. done.
Qed.

Lemma lockstep_true c :
  lockstep c = true -> exists t, handHot c = Some t /\ handTest c = Some t.
Proof.
  unfold lockstep. intros [Heq Hn]%andb_true_iff.
  apply bool_decide_eq_true in Heq.
  destruct (handTest c) as [t|]; [|done]. by exists t.
Qed.

Lemma nested_true c :
  nested c = true ->
  0 < sizeCold c /\ exists t, handTest c = Some t /\ handCold c = Some t.
Proof.
  unfold nested. intros [[Hs Heq]%andb_true_iff Hn]%andb_true_iff.
  apply bool_decide_eq_true in Heq. apply Z.ltb_lt in Hs.
  split; [done|]. destruct (handCold c) as [t|]; [|done]. by exists t.
Qed.

Lemma classify n :
  outcome IdleCold (runHandCold n) /\
  outcome (IdleLoop testCond) (testLoop n) /\
  outcome (IdleLoop hotCond) (hotLoop n) /\
  outcome IdleHot (runHandHot n) /\
  outcome IdleTest (runHandTest n).
Proof.
  induction n as [|n (IHcold & IHtl & IHhl & IHhot & IHtest)].
  { split; [|split; [|split; [|split]]]; intros c l c' _ _ H;
      discriminate H. }
  split; [|split; [|split; [|split]]].
  - (* runHandCold *)
    intros c l c' I L Hrun. simpl in Hrun.
    destruct (handCold c) as [e|] eqn:Hhand; [|done].
    assert (e ∈ l) as Hin by (by apply (handCold_in c l)).
    apply bind_Ok in Hrun as (ee & He%getE_Ok & Hrun).
    apply bind_Ok in Hrun as (c1 & Hb & Hrun).
    apply bind_Ok in Hrun as (c2 & Ha & Hl).
    assert (exists l1, Inv c1 l1 /\ live c1 /\
              (potential c1 < potential c \/
               (e_ptype ee <> etCold /\ c1 = c /\ l1 = l)))
      as (l1 & I1 & L1 & Hcase1).
    { case_decide as Hty; [destruct (e_referenced ee) eqn:Href|].
      - destruct (coldHit_total c l e ee I Hin He Hty Href)
          as (c1' & Hr & I1 & Hlt & Hbud & _).
        assert (c1' = c1) as -> by congruence.
        exists l. split; [done|]. split; [by apply (same_budget_live c)|].
        by left.
      - apply bind_Ok in Hb as (cm & Hm & Htl).
        destruct (coldMiss_total c l e ee I Hin He Hty Href)
          as (cm' & Hr & Im & Hlt & Hbud & _).
        assert (cm' = cm) as -> by congruence.
        destruct (IHtl cm l c1 Im (same_budget_live _ _ Hbud L) Htl)
          as ((l1 & I1) & L1 & Hc).
        exists l1. split; [done|]. split; [done|]. left.
        destruct Hc as [?|[-> _]]; lia.
      - injection Hb as <-. exists l. split; [done|]. split; [done|].
        by right. }
    destruct (advanceCold_total c1 l1 I1)
      as (c2' & Hr2 & I2 & Hm2 & Hh2 & Ht2 & Hc2).
    assert (c2' = c2) as -> by congruence.
    pose proof (moved_potential c1 c2 Hm2) as Hp2.
    destruct (IHhl c2 l1 c' I2 (same_budget_live _ _ (moved_budget _ _ Hm2) L1) Hl)
      as (Hinv & L' & Hc).
    split; [done|]. split; [done|].
    destruct Hcase1 as [Hlt|(Hty & -> & ->)].
    + left. destruct Hc as [?|[-> _]]; lia.
    + destruct Hc as [?|[-> Hcond]]; [left; lia|].
      right. split; [done|]. split; [done|]. split; [done|].
      exists e. split; [done|]. split; [by rewrite Hc2, Hhand|].
      split; [|done]. rewrite (ptype_at_lookup c e ee He). congruence.
  - (* testLoop *)
    intros c l c' I L Hrun. simpl in Hrun.
    destruct (testCond c) eqn:Hcond; cycle 1.
    { injection Hrun as <-. split; [by exists l|]. split; [done|]. by right. }
    apply bind_Ok in Hrun as (c1 & H1 & H2).
    destruct (IHtest c l c1 I L H1) as ((l1 & I1) & L1 & Hc1).
    destruct (IHtl c1 l1 c' I1 L1 H2) as (Hinv & L' & Hc2).
    split; [done|]. split; [done|]. left.
    destruct Hc1 as [Hlt|(Hm & _ & t & _ & Ht' & _)].
    + destruct Hc2 as [?|[-> _]]; lia.
    + pose proof (moved_potential _ _ Hm).
      destruct Hc2 as [?|[-> Hfalse]]; [lia|].
      rewrite (moved_testCond c c1 Hm) in Hfalse; [done| |done].
      by rewrite Ht'.
  - (* hotLoop *)
    intros c l c' I L Hrun. simpl in Hrun.
    destruct (hotCond c) eqn:Hcond; cycle 1.
    { injection Hrun as <-. split; [by exists l|]. split; [done|]. by right. }
    apply bind_Ok in Hrun as (c1 & H1 & H2).
    destruct (IHhot c l c1 I L H1) as ((l1 & I1) & L1 & Hc1).
    destruct (IHhl c1 l1 c' I1 L1 H2) as (Hinv & L' & Hc2).
    split; [done|]. split; [done|]. left.
    destruct Hc1 as [Hlt|(Hm & _ & h & _ & Hh' & _)].
    + destruct Hc2 as [?|[-> _]]; lia.
    + pose proof (moved_potential _ _ Hm).
      destruct Hc2 as [?|[-> Hfalse]]; [lia|].
      rewrite (moved_hotCond c c1 Hm) in Hfalse; [done| |done].
      by rewrite Hh'.
  - (* runHandHot *)
    intros c l c' I L Hrun. simpl in Hrun.
    fold (lockstep c) in Hrun.
    destruct (lockstep c) eqn:Hlock.
    + destruct (lockstep_true c Hlock) as (t & Hhot & Htest).
      apply bind_Ok in Hrun as (c1 & H1 & H2).
      destruct (IHtest c l c1 I L H1) as ((l1 & I1) & L1 & Hc1).
      destruct (handHot c1) as [h1|] eqn:Hh1; simpl in H2; cycle 1.
      { injection H2 as <-. split; [by exists l1|]. split; [done|].
        destruct Hc1 as [?|(_ & Hh & _)]; [by left|]. congruence. }
      destruct (hotTail_total c1 l1 h1 I1 L1 Hh1)
        as (c2 & Hr2 & I2 & L2 & Hle & Hcase).
      assert (c2 = c') as -> by congruence.
      split; [by exists l1|]. split; [done|].
      destruct Hc1 as [Hlt|(Hm & Hh & t' & Ht & Ht' & Hnt & Hnest)];
        [left; lia|].
      pose proof (moved_potential _ _ Hm) as Hp.
      assert (t' = t) as -> by congruence.
      assert (h1 = t) as -> by congruence.
      destruct Hcase as [[_ Hlt]|(Hnh & Hm2 & Hh2 & Hc2 & Ht2)]; [left; lia|].
      rewrite (moved_ptype c c1 t Hm) in Hnh.
      rewrite (moved_nxt c c1 t Hm) in Hh2.
      destruct Hnest as [[Hn Hcold]|[Hn Hnc]].
      * right. split; [by apply (moved_trans c c1)|].
        split; [congruence|]. exists t. split; [done|]. split; [done|].
        split; [done|]. right. split; [done|]. split; [done|].
        split; [done|]. congruence.
      * assert (t ∈ l) as Hin by (by apply (handHot_in c l)).
        destruct (ptype_at_is_Some c l t I Hin) as [ty Hty].
        rewrite Hty in Hnh, Hnt, Hnc. destruct ty; congruence.
    + destruct (handHot c) as [h|] eqn:Hhot; cycle 1.
      { unfold hotTail, hotVisit in Hrun. by rewrite Hhot in Hrun. }
      destruct (hotTail_total c l h I L Hhot)
        as (c2 & Hr2 & I2 & L2 & Hle & Hcase).
      assert (c2 = c') as -> by congruence.
      split; [by exists l|]. split; [done|].
      destruct Hcase as [[_ Hlt]|(Hnh & Hm2 & Hh2 & Hc2 & Ht2)]; [by left|].
      right. split; [done|]. split; [done|]. exists h.
      split; [done|]. split; [done|]. split; [done|]. by left.
  - (* runHandTest *)
    intros c l c' I L Hrun. simpl in Hrun.
    fold (nested c) in Hrun.
    destruct (nested c) eqn:Hnest.
    + destruct (nested_true c Hnest) as (Hpos & t & Htest & Hcold).
      destruct (countCold c =? 0); [done|].
      apply bind_Ok in Hrun as (c1 & H1 & H2).
      destruct (IHcold c l c1 I L H1) as ((l1 & I1) & L1 & Hc1).
      destruct (handTest c1) as [t1|] eqn:Ht1; simpl in H2; cycle 1.
      { injection H2 as <-. split; [by exists l1|]. split; [done|].
        destruct Hc1 as [?|(_ & _ & Ht & _)]; [by left|]. congruence. }
      destruct (testTail_total c1 l1 t1 I1 L1 Ht1)
        as (c2 & l2 & Hr2 & I2 & L2 & Hle & Hcase).
      assert (c2 = c') as -> by congruence.
      split; [by exists l2|]. split; [done|].
      destruct Hc1 as [Hlt|(Hm & Hh & Ht & e & He & He' & Hnc & _)];
        [left; lia|].
      pose proof (moved_potential _ _ Hm) as Hp.
      assert (e = t) as -> by congruence.
      assert (t1 = t) as -> by congruence.
      destruct Hcase as [[_ Hlt]|(Hnt & _ & Hm2 & Ht2 & Hh2 & Hc2)];
        [left; lia|].
      rewrite (moved_ptype c c1 t Hm) in Hnt.
      rewrite (moved_nxt c c1 t Hm) in Ht2.
      right. split; [by apply (moved_trans c c1)|].
      split; [congruence|]. exists t. split; [done|]. split; [done|].
      split; [done|]. by right.
    + destruct (handTest c) as [t|] eqn:Htest; cycle 1.
      { unfold testTail, testVisit in Hrun. by rewrite Htest in Hrun. }
      destruct (testTail_total c l t I L Htest)
        as (c2 & l2 & Hr2 & I2 & L2 & Hle & Hcase).
      assert (c2 = c') as -> by congruence.
      split; [by exists l2|]. split; [done|].
      destruct Hcase as [[_ Hlt]|(Hnt & _ & Hm2 & Ht2 & Hh2 & Hc2)];
        [by left|].
      right. split; [done|]. split; [done|]. exists t.
      split; [done|]. split; [done|]. split; [done|]. by left.
Qed.

(** *** Composing runs *)

Lemma returns_run f c c' : returns f c c' -> exists n, f n c = Ok c'.
Proof. intros [n H]. exists n. by apply H. Qed.

Lemma hotLoop_stop c : hotCond c = false -> returns hotLoop c c.
Proof. intros H. exists 1%nat. intros [|m] Hm; [lia|]. simpl. by rewrite H. Qed.

Lemma testLoop_stop c : testCond c = false -> returns testLoop c c.
Proof. intros H. exists 1%nat. intros [|m] Hm; [lia|]. simpl. by rewrite H. Qed.

Lemma hotLoop_step c c1 c' :
  hotCond c = true -> returns runHandHot c c1 -> returns hotLoop c1 c' ->
  returns hotLoop c c'.
Proof.
  intros H [n1 H1] [n2 H2]. exists (S (n1 `max` n2)).
  intros [|m] Hm; [lia|]. simpl. rewrite H, H1 by lia. cbn [bind].
  apply H2. lia.
Qed.

Lemma testLoop_step c c1 c' :
  testCond c = true -> returns runHandTest c c1 -> returns testLoop c1 c' ->
  returns testLoop c c'.
Proof.
  intros H [n1 H1] [n2 H2]. exists (S (n1 `max` n2)).
  intros [|m] Hm; [lia|]. simpl. rewrite H, H1 by lia. cbn [bind].
  apply H2. lia.
Qed.

Lemma runHandHot_plain c c' :
  lockstep c = false -> hotTail c = Ok c' -> returns runHandHot c c'.
Proof.
  intros H H1. exists 1%nat. intros [|m] Hm; [lia|]. simpl.
  fold (lockstep c). by rewrite H.
Qed.

Lemma runHandHot_lock c c1 c' :
  lockstep c = true -> returns runHandTest c c1 ->
  (if notNil (handHot c1) then hotTail c1 else Ok c1) = Ok c' ->
  returns runHandHot c c'.
Proof.
  intros H [n1 H1] H2. exists (S n1). intros [|m] Hm; [lia|]. simpl.
  fold (lockstep c). rewrite H, H1 by lia. done.
Qed.

Lemma runHandTest_plain c c' :
  nested c = false -> testTail c = Ok c' -> returns runHandTest c c'.
Proof.
  intros H H1. exists 1%nat. intros [|m] Hm; [lia|]. simpl.
  fold (nested c). by rewrite H.
Qed.

Lemma runHandTest_nested c c1 c' :
  nested c = true -> countCold c <> 0 -> returns runHandCold c c1 ->
  (if notNil (handTest c1) then testTail c1 else Ok c1) = Ok c' ->
  returns runHandTest c c'.
Proof.
  intros H Hc [n1 H1] H2. exists (S n1). intros [|m] Hm; [lia|]. simpl.
  fold (nested c). rewrite H. apply Z.eqb_neq in Hc. rewrite Hc.
  rewrite H1 by lia. done.
Qed.

Lemma runHandCold_hit c e ee c1 c2 c' :
  handCold c = Some e -> mem_entries c !! e = Some ee ->
  e_ptype ee = etCold -> e_referenced ee = true ->
  coldHit e c = Ok c1 -> advanceCold c1 = Ok c2 -> returns hotLoop c2 c' ->
  returns runHandCold c c'.
Proof.
  intros Hh He Hty Href H1 H2 [n3 H3]. exists (S n3).
  intros [|m] Hm; [lia|]. simpl. rewrite Hh. unfold getE. rewrite He.
  cbn [bind]. rewrite decide_True by done. rewrite Href, H1. cbn [bind].
  rewrite H2. cbn [bind]. apply H3. lia.
Qed.

Lemma runHandCold_miss c e ee cm c1 c2 c' :
  handCold c = Some e -> mem_entries c !! e = Some ee ->
  e_ptype ee = etCold -> e_referenced ee = false ->
  coldMiss e c = Ok cm -> returns testLoop cm c1 ->
  advanceCold c1 = Ok c2 -> returns hotLoop c2 c' ->
  returns runHandCold c c'.
Proof.
  intros Hh He Hty Href H1 [n2 H2] H3 [n4 H4]. exists (S (n2 `max` n4)).
  intros [|m] Hm; [lia|]. simpl. rewrite Hh. unfold getE. rewrite He.
  cbn [bind]. rewrite decide_True by done. rewrite Href, H1. cbn [bind].
  rewrite H2 by lia. cbn [bind]. rewrite H3. cbn [bind]. apply H4. lia.
Qed.

Lemma runHandCold_pass c e ee c2 c' :
  handCold c = Some e -> mem_entries c !! e = Some ee ->
  e_ptype ee <> etCold ->
  advanceCold c = Ok c2 -> returns hotLoop c2 c' ->
  returns runHandCold c c'.
Proof.
  intros Hh He Hty H2 [n3 H3]. exists (S n3).
  intros [|m] Hm; [lia|]. simpl. rewrite Hh. unfold getE. rewrite He.
  cbn [bind]. rewrite decide_False by done. cbn [bind].
  rewrite H2. cbn [bind]. apply H3. lia.
Qed.

(** *** All hands return *)

Definition AllReturn (c : shard) : Prop :=
  (is_Some (handCold c) -> exists c', returns runHandCold c c') /\
  (exists c', returns testLoop c c') /\
  (exists c', returns hotLoop c c') /\
  (is_Some (handHot c) -> exists c', returns runHandHot c c') /\
  (is_Some (handTest c) -> exists c', returns runHandTest c c').

Definition Below (P : Z) : Prop :=
  forall c l, Inv c l -> live c -> potential c < P -> AllReturn c.

Lemma Below_hotLoop P c l :
  Below P -> Inv c l -> live c -> potential c < P ->
  exists c', returns hotLoop c c'.
Proof. intros HB I L Hlt. by destruct (HB c l I L Hlt) as (_ & _ & ? & _). Qed.

Lemma Below_testLoop P c l :
  Below P -> Inv c l -> live c -> potential c < P ->
  exists c', returns testLoop c c'.
Proof. intros HB I L Hlt. by destruct (HB c l I L Hlt) as (_ & ? & _). Qed.

Lemma iter_nxt_moved c c' k p :
  moved c c' -> Nat.iter k (nxt c') p = Nat.iter k (nxt c) p.
Proof.
  intros Hm. induction k as [|k IH]; [done|]. simpl.
  by rewrite IH, (moved_nxt c c').
Qed.

Lemma ptype_cases c l p :
  Inv c l -> p ∈ l ->
  ptype_at c p = Some etHot \/ ptype_at c p = Some etCold \/
  ptype_at c p = Some etTest.
Proof.
  intros I Hp. destruct (ptype_at_is_Some c l p I Hp) as [[] ->]; auto.
Qed.

Lemma hotCond_hand c : hotCond c = true -> is_Some (handHot c).
Proof.
  unfold hotCond. intros [_ H]%andb_true_iff.
  destruct (handHot c); [eauto|done].
Qed.

Lemma testCond_hand c : testCond c = true -> is_Some (handTest c).
Proof.
  unfold testCond. intros [_ H]%andb_true_iff.
  destruct (handTest c); [eauto|done].
Qed.

(** Finishing a hot loop after a step that lowered the potential. *)
Lemma hotLoop_after P c c1 l1 :
  Below P -> hotCond c = true -> returns runHandHot c c1 ->
  Inv c1 l1 -> live c1 -> potential c1 < P ->
  exists c', returns hotLoop c c'.
Proof.
  intros HB Hc Hr I1 L1 Hlt.
  destruct (Below_hotLoop P c1 l1 HB I1 L1 Hlt) as [c' Hr'].
  exists c'. by apply (hotLoop_step c c1).
Qed.

(** One step of the hot hand while the test hand waits on an entry that is
    not cold and the cold hand is elsewhere. *)
Lemma parked_step c l t h :
  Inv c l -> live c ->
  handTest c = Some t -> handCold c <> Some t ->
  ptype_at c t <> Some etCold -> handHot c = Some h ->
  exists c1 l1,
    returns runHandHot c c1 /\ Inv c1 l1 /\ live c1 /\
    (potential c1 < potential c \/
     (h <> t /\ l1 = l /\ moved c c1 /\ handHot c1 = Some (nxt c h) /\
      handTest c1 = handTest c /\ handCold c1 = handCold c)).
Proof.
  intros I L Ht Hc Hnc Hh.
  destruct (decide (h = t)) as [->|Hne].
  - (* the hot hand has reached the test hand *)
    assert (nested c = false) as Hnest.
    { unfold nested. rewrite Ht.
      destruct (handCold c) as [b|]; [|by rewrite andb_false_r].
      rewrite bool_decide_eq_false_2 by congruence.
      by rewrite andb_false_r. }
    assert (lockstep c = true) as Hlock
      by (unfold lockstep; rewrite Hh, Ht; by rewrite bool_decide_eq_true_2).
    destruct (testTail_total c l t I L Ht)
      as (c1 & l1 & Hr1 & I1 & L1 & Hle1 & Hcase1).
    pose proof (runHandTest_plain c c1 Hnest Hr1) as Hret1.
    destruct (handHot c1) as [h1|] eqn:Hh1; cycle 1.
    { exists c1, l1. split; [|split; [done|split; [done|]]].
      - apply (runHandHot_lock c c1); [done|done|by rewrite Hh1].
      - destruct Hcase1 as [[_ ?]|(_ & _ & _ & _ & Hx & _)]; [by left|].
        congruence. }
    destruct (hotTail_total c1 l1 h1 I1 L1 Hh1)
      as (c2 & Hr2 & I2 & L2 & Hle2 & Hcase2).
    exists c2, l1. split; [|split; [done|split; [done|]]].
    { apply (runHandHot_lock c c1); [done|done|by rewrite Hh1]. }
    left. destruct Hcase1 as [[_ Hlt]|(Hnt & -> & Hm & Ht1 & Hx & Hc1)]; [lia|].
    pose proof (moved_potential _ _ Hm) as Hp.
    assert (h1 = t) as -> by congruence.
    destruct Hcase2 as [[_ Hlt]|(Hnh & _)]; [lia|].
    rewrite (moved_ptype c c1 t Hm) in Hnh.
    assert (t ∈ l) as Hin by (by apply (handTest_in c l)).
    destruct (ptype_cases c l t I Hin) as [?|[?|?]]; congruence.
  - assert (lockstep c = false) as Hlock.
    { unfold lockstep. rewrite Hh, Ht.
      by rewrite bool_decide_eq_false_2 by congruence. }
    destruct (hotTail_total c l h I L Hh)
      as (c2 & Hr2 & I2 & L2 & Hle2 & Hcase2).
    exists c2, l. split; [by apply runHandHot_plain|].
    split; [done|]. split; [done|].
    destruct Hcase2 as [[_ Hlt]|(Hnh & Hm & Hh2 & Hc2 & Ht2)]; [by left|].
    right. done.
Qed.

(** The hot loop while the test hand waits on an entry that is not cold and
    the cold hand is elsewhere: the hot hand walks up to the test hand. *)
Lemma hotLoop_parked P : Below P -> forall k c l t,
  Inv c l -> live c -> potential c <= P ->
  handTest c = Some t -> handCold c <> Some t ->
  ptype_at c t <> Some etCold ->
  (forall h, handHot c = Some h -> Nat.iter k (nxt c) h = t) ->
  exists c', returns hotLoop c c'.
Proof.
  intros HB. induction k as [|k IH]; intros c l t I L HP Ht Hc Hnc Hk.
  all: destruct (hotCond c) eqn:Hcond; [|exists c; by apply hotLoop_stop].
  all: destruct (hotCond_hand c Hcond) as [h Hh].
  all: destruct (parked_step c l t h I L Ht Hc Hnc Hh)
         as (c1 & l1 & Hret & I1 & L1 & [Hlt|(Hne & -> & Hm & Hh1 & Ht1 & Hc1)]);
       [destruct (hotLoop_after P c c1 l1 HB Hcond Hret I1 L1) as [c' ?];
        [lia|by exists c']|].
  - destruct Hne. by apply Hk.
  - destruct (IH c1 l t I1 L1) as [c' Hret'].
    + rewrite (moved_potential c c1 Hm). lia.
    + congruence.
    + congruence.
    + by rewrite (moved_ptype c c1 t Hm).
    + intros h' Hh'. rewrite Hh1 in Hh'. injection Hh' as <-.
      rewrite (iter_nxt_moved c c1 k _ Hm), <-Nat.iter_succ_r. by apply Hk.
    + exists c'. by apply (hotLoop_step c c1).
Qed.

Lemma returns_cold c l c' :
  Inv c l -> live c -> returns runHandCold c c' ->
  (exists l', Inv c' l') /\ live c' /\
  (potential c' < potential c \/ IdleCold c c').
Proof.
  intros I L [n Hr]%returns_run.
  destruct (classify n) as (H & _). by apply (H c l c').
Qed.

Lemma returns_testLoop c l c' :
  Inv c l -> live c -> returns testLoop c c' ->
  (exists l', Inv c' l') /\ live c' /\ potential c' <= potential c.
Proof.
  intros I L [n Hr]%returns_run.
  destruct (classify n) as (_ & H & _).
  destruct (H c l c' I L Hr) as (? & ? & [?|[-> _]]); repeat split; try done; lia.
Qed.

Lemma returns_hot c l c' :
  Inv c l -> live c -> returns runHandHot c c' ->
  (exists l', Inv c' l') /\ live c' /\
  (potential c' < potential c \/ IdleHot c c').
Proof.
  intros I L [n Hr]%returns_run.
  destruct (classify n) as (_ & _ & _ & H & _). by apply (H c l c').
Qed.

Lemma returns_test c l c' :
  Inv c l -> live c -> returns runHandTest c c' ->
  (exists l', Inv c' l') /\ live c' /\
  (potential c' < potential c \/ IdleTest c c').
Proof.
  intros I L [n Hr]%returns_run.
  destruct (classify n) as (_ & _ & _ & _ & H). by apply (H c l c').
Qed.

Lemma nxt_self_single c l t : Inv c l -> t ∈ l -> nxt c t = t -> l = [t].
Proof.
  intros I Hin Hself.
  destruct (Struct_alloc c l t (inv_struct _ _ I) Hin) as [e He].
  apply (ring_self_next (fld e_blockNext c) (fld e_blockPrev c) l t).
  - apply (st_nodup _ _ (inv_struct _ _ I)).
  - apply (st_ring _ _ (inv_struct _ _ I)).
  - done.
  - unfold fld. unfold nxt in Hself. rewrite He in *. simpl. by rewrite Hself.
Qed.

(** The cold hand returns, given that the hot loop returns after the hand
    has passed an entry that is not cold. *)
Lemma runHandCold_common P c l e :
  Below P -> Inv c l -> live c -> potential c <= P ->
  handCold c = Some e ->
  (forall c2, ptype_at c e <> Some etCold -> Inv c2 l -> moved c c2 ->
     handHot c2 = handHot c -> handTest c2 = handTest c ->
     handCold c2 = Some (nxt c e) -> exists c', returns hotLoop c2 c') ->
  exists c', returns runHandCold c c'.
Proof.
  intros HB I L HP Hhand Hpass.
  assert (e ∈ l) as Hin by (by apply (handCold_in c l)).
  destruct (Struct_alloc c l e (inv_struct _ _ I) Hin) as [ee He].
  destruct (decide (e_ptype ee = etCold)) as [Hty|Hty];
    [destruct (e_referenced ee) eqn:Href|].
  - destruct (coldHit_total c l e ee I Hin He Hty Href)
      as (c1 & Hr1 & I1 & Hlt & Hbud & _).
    pose proof (same_budget_live _ _ Hbud L) as L1.
    destruct (advanceCold_total c1 l I1) as (c2 & Hr2 & I2 & Hm2 & _).
    destruct (Below_hotLoop P c2 l HB I2) as [c' Hr3].
    { by apply (same_budget_live c1); [apply moved_budget|]. }
    { rewrite (moved_potential c1 c2 Hm2). lia. }
    exists c'. by apply (runHandCold_hit c e ee c1 c2).
  - destruct (coldMiss_total c l e ee I Hin He Hty Href)
      as (cm & Hr1 & Im & Hlt & Hbud & _).
    pose proof (same_budget_live _ _ Hbud L) as Lm.
    destruct (Below_testLoop P cm l HB Im Lm) as [c1 Hrt]; [lia|].
    destruct (returns_testLoop cm l c1 Im Lm Hrt) as ((l1 & I1) & L1 & Hle).
    destruct (advanceCold_total c1 l1 I1) as (c2 & Hr2 & I2 & Hm2 & _).
    destruct (Below_hotLoop P c2 l1 HB I2) as [c' Hr3].
    { by apply (same_budget_live c1); [apply moved_budget|]. }
    { rewrite (moved_potential c1 c2 Hm2). lia. }
    exists c'. by apply (runHandCold_miss c e ee cm c1 c2).
  - destruct (advanceCold_total c l I) as (c2 & Hr2 & I2 & Hm2 & Hh2 & Ht2 & Hc2).
    destruct (Hpass c2) as [c' Hr3]; try done.
    { rewrite (ptype_at_lookup c e ee He). congruence. }
    { by rewrite Hc2, Hhand. }
    exists c'. by apply (runHandCold_pass c e ee c2).
Qed.

Lemma weight_cold_single c t :
  ptype_at c t <> Some etCold -> weight etCold c t = 0.
Proof.
  unfold ptype_at, fld, weight. destruct (mem_entries c !! t) as [e|]; [|done].
  simpl. intros H. case_decide; [|done]. congruence.
Qed.

(** The test hand returns. *)
Lemma runHandTest_returns P c l :
  Below P -> Inv c l -> live c -> potential c <= P ->
  is_Some (handTest c) -> exists c', returns runHandTest c c'.
Proof.
  intros HB I L HP [t Ht].
  destruct (nested c) eqn:Hnest; cycle 1.
  { destruct (testTail_total c l t I L Ht) as (c1 & l1 & Hr1 & _).
    exists c1. by apply runHandTest_plain. }
  destruct (nested_true c Hnest) as (Hpos & t' & Ht' & Hcold).
  assert (t' = t) as -> by congruence.
  assert (t ∈ l) as Hin by (by apply (handTest_in c l)).
  assert (countCold c <> 0) as Hcnt.
  { destruct (Inv_counters c l etCold I) as (_ & _ & H). simpl in H. lia. }
  destruct (runHandCold_common P c l t HB I L HP Hcold) as [c1 Hr1].
  { intros c2 Hnc I2 Hm2 Hh2 Ht2 Hc2.
    assert (handHot c2 <> None) as Hsome.
    { rewrite Hh2. destruct (hands_elim _ _ (st_hands _ _ (inv_struct _ _ I)))
        as [(-> & _)|(a & b & d & -> & _)]; [by apply elem_of_nil in Hin|done]. }
    destruct (handHot c2) as [h|] eqn:Hh; [|done].
    assert (h ∈ l) as Hhl by (by apply (handHot_in c2 l)).
    destruct (walk_reach c l h t I Hhl Hin) as [k Hk].
    apply (hotLoop_parked P HB k c2 l t); try done.
    - by apply (same_budget_live c); [apply moved_budget|].
    - rewrite (moved_potential c c2 Hm2). lia.
    - congruence.
    - rewrite Hc2. intros [= Hself].
      pose proof (nxt_self_single c l t I Hin Hself) as ->.
      destruct (inv_counts _ _ I etCold) as [Hs _]. simpl in Hs.
      rewrite (weight_cold_single c t Hnc) in Hs. lia.
    - by rewrite (moved_ptype c c2 t Hm2).
    - intros h' Heq. assert (h' = h) as -> by congruence.
      by rewrite (iter_nxt_moved c c2 k _ Hm2). }
  destruct (returns_cold c l c1 I L Hr1) as ((l1 & I1) & L1 & _).
  destruct (handTest c1) as [t1|] eqn:Ht1.
  - destruct (testTail_total c1 l1 t1 I1 L1 Ht1) as (c2 & l2 & Hr2 & _).
    exists c2. apply (runHandTest_nested c c1); try done. by rewrite Ht1.
  - exists c1. apply (runHandTest_nested c c1); try done. by rewrite Ht1.
Qed.

(** The hot hand returns. *)
Lemma runHandHot_returns P c l :
  Below P -> Inv c l -> live c -> potential c <= P ->
  is_Some (handHot c) -> exists c', returns runHandHot c c'.
Proof.
  intros HB I L HP [h Hh].
  destruct (lockstep c) eqn:Hlock; cycle 1.
  { destruct (hotTail_total c l h I L Hh) as (c1 & Hr1 & _).
    exists c1. by apply runHandHot_plain. }
  destruct (lockstep_true c Hlock) as (t & _ & Ht).
  destruct (runHandTest_returns P c l HB I L HP) as [c1 Hr1]; [eauto|].
  destruct (returns_test c l c1 I L Hr1) as ((l1 & I1) & L1 & _).
  destruct (handHot c1) as [h1|] eqn:Hh1.
  - destruct (hotTail_total c1 l1 h1 I1 L1 Hh1) as (c2 & Hr2 & _).
    exists c2. apply (runHandHot_lock c c1); try done. by rewrite Hh1.
  - exists c1. apply (runHandHot_lock c c1); try done. by rewrite Hh1.
Qed.

(** One iteration of the hot loop. *)
Lemma hot_step P c l :
  Below P -> Inv c l -> live c -> potential c <= P -> hotCond c = true ->
  exists c1 l1, returns runHandHot c c1 /\ Inv c1 l1 /\ live c1 /\
                (potential c1 < potential c \/ IdleHot c c1).
Proof.
  intros HB I L HP Hcond.
  destruct (runHandHot_returns P c l HB I L HP (hotCond_hand c Hcond))
    as [c1 Hr1].
  destruct (returns_hot c l c1 I L Hr1) as ((l1 & I1) & L1 & Hcase).
  by exists c1, l1.
Qed.

(** An entry at which the hot hand and the test hand, moving together, do
    more than pass. *)
Definition stop (c : shard) (q : ptr) : Prop :=
  ptype_at c q = Some etTest \/ ptype_at c q = Some etHot \/
  (handCold c = Some q /\ 0 < sizeCold c).

Lemma moved_sizeCold c c' : moved c c' -> sizeCold c' = sizeCold c.
Proof. intros (_ & _ & _ & _ & Hs). by injection Hs. Qed.

Lemma stop_moved c c' q :
  moved c c' -> handCold c' = handCold c -> stop c q -> stop c' q.
Proof.
  intros Hm Hc. unfold stop.
  rewrite (moved_ptype c c' q Hm), Hc, (moved_sizeCold c c' Hm). done.
Qed.

Lemma hotLoop_lockstep P : Below P -> forall k c l t,
  Inv c l -> live c -> potential c <= P ->
  handHot c = Some t -> handTest c = Some t ->
  stop c (Nat.iter k (nxt c) t) ->
  exists c', returns hotLoop c c'.
Proof.
  intros HB. induction k as [|k IH]; intros c l t I L HP Hh Ht Hstop.
  all: destruct (hotCond c) eqn:Hcond; [|exists c; by apply hotLoop_stop].
  all: assert (lockstep c = true) as Hlock
         by (unfold lockstep; rewrite Hh, Ht; by rewrite bool_decide_eq_true_2).
  all: destruct (hot_step P c l HB I L HP Hcond)
         as (c1 & l1 & Hret & I1 & L1 & [Hlt|Hidle]);
       [destruct (hotLoop_after P c c1 l1 HB Hcond Hret I1 L1) as [c' ?];
        [lia|by exists c']|].
  all: destruct Hidle
         as (Hm & Hc1 & h & Hh' & Hh1 & Hnh & [[Hl _]|(_ & Hnest & Hnt & Ht1)]);
       [congruence|].
  all: assert (h = t) as -> by congruence.
  - simpl in Hstop. destruct Hstop as [?|[?|[Hc Hpos]]]; try done.
    unfold nested in Hnest. rewrite Ht, Hc in Hnest.
    apply Z.ltb_lt in Hpos. rewrite Hpos in Hnest.
    by rewrite bool_decide_eq_true_2 in Hnest.
  - destruct (IH c1 l1 (nxt c t) I1 L1) as [c' Hret']; try done.
    + rewrite (moved_potential c c1 Hm). lia.
    + rewrite (iter_nxt_moved c c1 k _ Hm), <-Nat.iter_succ_r.
      by apply (stop_moved c c1).
    + exists c'. by apply (hotLoop_step c c1).
Qed.

Lemma hotLoop_chase P : Below P -> forall k c l h t,
  Inv c l -> live c -> potential c <= P ->
  handHot c = Some h -> handTest c = Some t ->
  Nat.iter k (nxt c) h = t ->
  (exists k2, stop c (Nat.iter k2 (nxt c) t)) ->
  exists c', returns hotLoop c c'.
Proof.
  intros HB. induction k as [|k IH]; intros c l h t I L HP Hh Ht Hk Hstop.
  all: destruct (decide (h = t)) as [->|Hne];
       [destruct Hstop as [k2 Hstop];
        by apply (hotLoop_lockstep P HB k2 c l t)|].
  { by destruct Hne. }
  destruct (hotCond c) eqn:Hcond; [|exists c; by apply hotLoop_stop].
  assert (lockstep c = false) as Hlock.
  { unfold lockstep. rewrite Hh, Ht.
    by rewrite bool_decide_eq_false_2 by congruence. }
  destruct (hot_step P c l HB I L HP Hcond)
    as (c1 & l1 & Hret & I1 & L1 & [Hlt|Hidle]);
    [destruct (hotLoop_after P c c1 l1 HB Hcond Hret I1 L1) as [c' ?];
     [lia|by exists c']|].
  destruct Hidle
    as (Hm & Hc1 & h' & Hh' & Hh1 & Hnh & [[_ Ht1]|(Hl & _)]);
    [|congruence].
  assert (h' = h) as -> by congruence.
  destruct (IH c1 l1 (nxt c h) t I1 L1) as [c' Hret']; try done.
  - rewrite (moved_potential c c1 Hm). lia.
  - congruence.
  - by rewrite (iter_nxt_moved c c1 k _ Hm), <-Nat.iter_succ_r.
  - destruct Hstop as [k2 Hstop]. exists k2.
    rewrite (iter_nxt_moved c c1 k2 _ Hm). by apply (stop_moved c c1).
  - exists c'. by apply (hotLoop_step c c1).
Qed.

Lemma weight_pos_ptype t c p : 0 < weight t c p -> ptype_at c p = Some t.
Proof.
  unfold weight, ptype_at, fld. destruct (mem_entries c !! p) as [e|]; [|lia].
  simpl. case_decide; [by intros _; f_equal|lia].
Qed.

Lemma hands_all c l h :
  Inv c l -> handHot c = Some h ->
  exists b t, handCold c = Some b /\ handTest c = Some t /\
              h ∈ l /\ b ∈ l /\ t ∈ l.
Proof.
  intros I Hh.
  destruct (hands_elim _ _ (st_hands _ _ (inv_struct _ _ I)))
    as [(_ & Hx & _)|(a & b & d & Ha & Hb & Hd & Hal & Hbl & Hdl)];
    [congruence|].
  exists b, d. assert (a = h) as -> by congruence. done.
Qed.

(** The hot loop returns. *)
Lemma hotLoop_returns P c l :
  Below P -> Inv c l -> live c -> potential c <= P ->
  exists c', returns hotLoop c c'.
Proof.
  intros HB I L HP.
  destruct (hotCond c) eqn:Hcond; [|exists c; by apply hotLoop_stop].
  destruct (hotCond_hand c Hcond) as [h Hh].
  destruct (hands_all c l h I Hh) as (b & t & Hb & Ht & Hhl & Hbl & Htl).
  assert (exists q, q ∈ l /\ stop c q) as (q & Hq & Hstop).
  { unfold hotCond in Hcond. apply andb_true_iff in Hcond as [Hle _].
    apply Z.leb_le in Hle.
    destruct (inv_counts _ _ I etHot) as [Hsh _].
    destruct (inv_counts _ _ I etTest) as [Hst _]. simpl in Hsh, Hst.
    destruct (decide (0 < sizeHot c)) as [Hpos|Hzero].
    - rewrite Hsh in Hpos. apply zsum_pos_inv in Hpos as (p & Hp & Hw).
      exists p. split; [done|]. right. left. by apply weight_pos_ptype.
    - pose proof (inv_ct _ _ I) as K. unfold CT in K.
      destruct L as [?|Htot]; [lia|]. unfold total in Htot.
      destruct (decide (0 < sizeCold c)) as [Hc|Hc].
      + exists b. split; [done|]. right. by right.
      + assert (0 < sizeTest c) as Hpos by lia.
        rewrite Hst in Hpos. apply zsum_pos_inv in Hpos as (p & Hp & Hw).
        exists p. split; [done|]. left. by apply weight_pos_ptype. }
  destruct (walk_reach c l h t I Hhl Htl) as [k Hk].
  destruct (walk_reach c l t q I Htl Hq) as [k2 Hk2].
  apply (hotLoop_chase P HB k c l h t); try done.
  exists k2. by rewrite Hk2.
Qed.

(** The cold hand returns. *)
Lemma runHandCold_returns P c l :
  Below P -> Inv c l -> live c -> potential c <= P ->
  is_Some (handCold c) -> exists c', returns runHandCold c c'.
Proof.
  intros HB I L HP [e He].
  apply (runHandCold_common P c l e); try done.
  intros c2 _ I2 Hm2 _ _ _.
  apply (hotLoop_returns P c2 l); try done.
  - by apply (same_budget_live c); [apply moved_budget|].
  - rewrite (moved_potential c c2 Hm2). lia.
Qed.

(** The test loop returns: the test category has a positive size, so the
    test hand meets a test entry. *)
Lemma testLoop_walk P : Below P -> forall k c l t,
  Inv c l -> live c -> potential c <= P ->
  handTest c = Some t ->
  ptype_at c (Nat.iter k (nxt c) t) = Some etTest ->
  exists c', returns testLoop c c'.
Proof.
  intros HB. induction k as [|k IH]; intros c l t I L HP Ht Hk.
  all: destruct (testCond c) eqn:Hcond; [|exists c; by apply testLoop_stop].
  all: destruct (runHandTest_returns P c l HB I L HP) as [c1 Hret]; [eauto|].
  all: destruct (returns_test c l c1 I L Hret) as ((l1 & I1) & L1 & Hcase).
  all: destruct Hcase as [Hlt|(Hm & _ & t' & Ht' & Ht1 & Hnt & _)];
       [destruct (Below_testLoop P c1 l1 HB I1 L1) as [c' Hret']; [lia|];
        exists c'; by apply (testLoop_step c c1)|].
  all: assert (t' = t) as -> by congruence.
  - done.
  - destruct (IH c1 l1 (nxt c t) I1 L1) as [c' Hret']; try done.
    + rewrite (moved_potential c c1 Hm). lia.
    + rewrite (iter_nxt_moved c c1 k _ Hm), (moved_ptype c c1 _ Hm).
      by rewrite <-Nat.iter_succ_r.
    + exists c'. by apply (testLoop_step c c1).
Qed.

Lemma testLoop_returns P c l :
  Below P -> Inv c l -> live c -> potential c <= P ->
  exists c', returns testLoop c c'.
Proof.
  intros HB I L HP.
  destruct (testCond c) eqn:Hcond; [|exists c; by apply testLoop_stop].
  destruct (testCond_hand c Hcond) as [t Ht].
  assert (t ∈ l) as Htl by (by apply (handTest_in c l)).
  unfold testCond in Hcond. apply andb_true_iff in Hcond as [Hlt _].
  apply Z.ltb_lt in Hlt. pose proof (targetSize_pos c).
  destruct (inv_counts _ _ I etTest) as [Hst _]. simpl in Hst.
  assert (0 < zsum (weight etTest c) l) as Hpos by lia.
  apply zsum_pos_inv in Hpos as (p & Hp & Hw).
  destruct (walk_reach c l t p I Htl Hp) as [k Hk].
  apply (testLoop_walk P HB k c l t); try done.
  rewrite Hk. by apply weight_pos_ptype.
Qed.

(** All hands return on every well-formed state. *)
Lemma all_return n : forall c l,
  Inv c l -> live c -> potential c < Z.of_nat n -> AllReturn c.
Proof.
  induction n as [|n IH]; intros c l I L Hlt.
  { pose proof (potential_nonneg c). lia. }
  assert (Below (Z.of_nat n)) as HB by exact IH.
  assert (potential c <= Z.of_nat n) as HP by lia.
  split; [|split; [|split; [|split]]].
  - by apply (runHandCold_returns (Z.of_nat n) c l).
  - by apply (testLoop_returns (Z.of_nat n) c l).
  - by apply (hotLoop_returns (Z.of_nat n) c l).
  - by apply (runHandHot_returns (Z.of_nat n) c l).
  - by apply (runHandTest_returns (Z.of_nat n) c l).
Qed.

Lemma hands_return c l : Inv c l -> live c -> AllReturn c.
Proof.
  intros I L. apply (all_return (S (Z.to_nat (potential c))) c l I L).
  pose proof (potential_nonneg c). lia.
Qed.

(** *** The sweep returns *)

Lemma evict_stop c : evictCond c = false -> returns evict c c.
Proof. intros H. exists 1%nat. intros [|m] Hm; [lia|]. simpl. by rewrite H. Qed.

Lemma evict_step c c1 c' :
  evictCond c = true -> returns runHandCold c c1 -> returns evict c1 c' ->
  returns evict c c'.
Proof.
  intros H [n1 H1] [n2 H2]. exists (S (n1 `max` n2)).
  intros [|m] Hm; [lia|]. simpl. rewrite H, H1 by lia. cbn [bind].
  apply H2. lia.
Qed.

Lemma evictCond_live c l :
  Inv c l -> evictCond c = true -> live c /\ is_Some (handCold c).
Proof.
  intros I [Hle Hn]%andb_true_iff. apply Z.leb_le in Hle.
  split.
  - right. unfold total. pose proof (targetSize_pos c).
    destruct (Inv_counters c l etTest I) as [? _]. simpl in *. lia.
  - destruct (handCold c); [eauto|done].
Qed.

(** One turn of the loop of [evict]. *)
Lemma evict_turn c l :
  Inv c l -> evictCond c = true ->
  exists c1 l1, returns runHandCold c c1 /\ Inv c1 l1 /\
                (potential c1 < potential c \/ IdleCold c c1).
Proof.
  intros I Hcond. destruct (evictCond_live c l I Hcond) as [L Hhand].
  destruct (hands_return c l I L) as (Hcold & _).
  destruct (Hcold Hhand) as [c1 Hret].
  destruct (returns_cold c l c1 I L Hret) as ((l1 & I1) & _ & Hcase).
  by exists c1, l1.
Qed.

Definition Ends (P : Z) : Prop :=
  forall c l, Inv c l -> potential c < P -> exists c', returns evict c c'.

Lemma evict_walk P : Ends P -> forall k c l e,
  Inv c l -> potential c <= P -> handCold c = Some e ->
  ptype_at c (Nat.iter k (nxt c) e) = Some etCold ->
  exists c', returns evict c c'.
Proof.
  intros HE. induction k as [|k IH]; intros c l e I HP He Hk.
  all: destruct (evictCond c) eqn:Hcond; [|exists c; by apply evict_stop].
  all: destruct (evict_turn c l I Hcond) as (c1 & l1 & Hret & I1 & Hcase).
  all: destruct Hcase as [Hlt|(Hm & _ & _ & e' & He' & He1 & Hnc & _)];
       [destruct (HE c1 l1 I1) as [c' Hret']; [lia|];
        exists c'; by apply (evict_step c c1)|].
  all: assert (e' = e) as -> by congruence.
  - done.
  - destruct (IH c1 l1 (nxt c e) I1) as [c' Hret']; try done.
    + rewrite (moved_potential c c1 Hm). lia.
    + rewrite (iter_nxt_moved c c1 k _ Hm), (moved_ptype c c1 _ Hm).
      by rewrite <-Nat.iter_succ_r.
    + exists c'. by apply (evict_step c c1).
Qed.

Lemma evict_ends n : Ends (Z.of_nat n).
Proof.
  induction n as [|n IH]; intros c l I Hlt.
  { pose proof (potential_nonneg c). lia. }
  destruct (evictCond c) eqn:Hcond; [|exists c; by apply evict_stop].
  destruct (evictCond_live c l I Hcond) as [L [e He]].
  assert (e ∈ l) as Hel by (by apply (handCold_in c l)).
  destruct (decide (0 < sizeCold c)) as [Hpos|Hzero].
  - destruct (inv_counts _ _ I etCold) as [Hs _]. simpl in Hs.
    rewrite Hs in Hpos. apply zsum_pos_inv in Hpos as (p & Hp & Hw).
    destruct (walk_reach c l e p I Hel Hp) as [k Hk].
    apply (evict_walk (Z.of_nat n) IH k c l e); try done; [lia|].
    rewrite Hk. by apply weight_pos_ptype.
  - destruct (evict_turn c l I Hcond) as (c1 & l1 & Hret & I1 & Hcase).
    destruct Hcase as [Hlt1|(Hm & Hh1 & _ & _ & _ & _ & _ & Hhot)].
    + destruct (IH c1 l1 I1) as [c' Hret']; [lia|].
      exists c'. by apply (evict_step c c1).
    + (* the hot loop cannot have been idle *)
      exfalso.
      destruct (hands_elim _ _ (st_hands _ _ (inv_struct _ _ I)))
        as [(-> & _)|(a & b & d & Ha & _)]; [by apply elem_of_nil in Hel|].
      destruct Hm as (_ & _ & _ & _ & Hs).
      pose proof (scalars_targetSize _ _ Hs) as HT.
      injection Hs as _ _ _ _ Hct Hsh _ _ _ _ _.
      unfold hotCond in Hhot. rewrite Hh1, Ha, HT, Hct, Hsh in Hhot.
      rewrite andb_true_r in Hhot. apply Z.leb_gt in Hhot.
      apply andb_true_iff in Hcond as [Hle _]. apply Z.leb_le in Hle.
      pose proof (inv_ct _ _ I) as K. unfold CT in K. lia.
Qed.

(** On a well-formed shard the sweep returns; afterwards the resident size
    is below the target size. *)
Lemma evict_returns c l :
  Inv c l ->
  exists c' l',
    returns evict c c' /\ Inv c' l' /\ Frame l c c' l' /\
    evictCond c' = false /\ sizeHot c' + sizeCold c' < targetSize c'.
Proof.
  intros I.
  destruct (evict_ends (S (Z.to_nat (potential c))) c l I) as [c' Hret].
  { pose proof (potential_nonneg c). lia. }
  destruct (returns_run _ _ _ Hret) as [n Hrun].
  destruct (evict_preserves n c l c' I Hrun) as (l' & I' & F').
  pose proof (evict_done n c c' Hrun) as Hdone.
  exists c', l'. repeat (split; [done|]).
  by apply (evictCond_false c' l').
Qed.

(** ** Counters that do not match the ring

    A shard of 10 bytes whose ring is one referenced cold entry of size 0,
    while [sizeHot] claims 10 bytes of one hot entry. The counters pass
    [checkConsistency]. *)
Definition ex_stale_entry (t : entryType) (r : bool) : entry :=
  mkEntry kA (Some 1%positive) 1%positive 1%positive 1%positive 1%positive
    0 t r.

Definition ex_stale_with (t : entryType) (r : bool) (nh nc : Z) : shard :=
  mkShard 0 0 0 10 10 {[kA := 1%positive]} {[file kA := 1%positive]}
    (Some 1%positive) (Some 1%positive) (Some 1%positive)
    10 0 0 nh nc 0
    {[1%positive := ex_stale_entry t r]} {[1%positive := mkValue [] 2]}.

Definition ex_stale : shard := ex_stale_with etCold true 1 1.

Lemma ex_stale_consistent : checkConsistency ex_stale = Ok tt.
Proof. reflexivity. Qed.

(** The cold hand promotes the entry and the hot hand demotes it again;
    from then on the hot hand finds a cold entry and [sizeHot] stays
    where it was. *)
Lemma ex_stale_hot n :
  runHandHot n (ex_stale_with etCold false 1 1) = OutOfFuel \/
  runHandHot n (ex_stale_with etCold false 1 1)
  = Ok (ex_stale_with etCold false 1 1).
Proof.
  destruct n as [|[|n]]; [by left|by left|right].
  vm_compute. reflexivity.
Qed.

Lemma ex_stale_hotLoop n :
  hotLoop n (ex_stale_with etCold false 1 1) = OutOfFuel.
Proof.
  induction n as [|n IH]; [done|].
  change (hotLoop (S n) (ex_stale_with etCold false 1 1))
    with (do c <- runHandHot n (ex_stale_with etCold false 1 1); hotLoop n c).
  destruct (ex_stale_hot n) as [->| ->]; [done|]. exact IH.
Qed.

Lemma ex_stale_promoted n :
  hotLoop n (ex_stale_with etHot false 2 0) = OutOfFuel.
Proof.
  destruct n as [|n]; [done|].
  change (hotLoop (S n) (ex_stale_with etHot false 2 0))
    with (do c <- runHandHot n (ex_stale_with etHot false 2 0); hotLoop n c).
  assert (runHandHot n (ex_stale_with etHot false 2 0) = OutOfFuel \/
          runHandHot n (ex_stale_with etHot false 2 0)
          = Ok (ex_stale_with etCold false 1 1)) as [->| ->].
  { destruct n as [|[|n]]; [by left|by left|right].
    vm_compute. reflexivity. }
  - done.
  - apply ex_stale_hotLoop.
Qed.

Lemma ex_stale_cold n : runHandCold n ex_stale = OutOfFuel.
Proof.
  destruct n as [|n]; [done|].
  change (runHandCold (S n) ex_stale)
    with (hotLoop n (ex_stale_with etHot false 2 0)).
  apply ex_stale_promoted.
Qed.

(** The sweep does not return on [ex_stale], whatever the fuel. *)
Lemma ex_stale_evict n : evict n ex_stale = OutOfFuel.
Proof.
  destruct n as [|n]; [done|].
  change (evict (S n) ex_stale)
    with (do c <- runHandCold n ex_stale; evict n c).
  by rewrite ex_stale_cold.
Qed.

(** ** The operations return *)

(** [f] returns [r] whenever the fuel is large enough. *)
Definition returnsA {A : Type} (f : nat -> res A) (r : A) : Prop :=
  exists n, forall m, (n <= m)%nat -> f m = Ok r.

Lemma returnsA_run {A} (f : nat -> res A) r :
  returnsA f r -> exists n, f n = Ok r.
Proof. intros [n H]. exists n. by apply H. Qed.

(** The state in which [Reserve] starts the sweep. *)
Definition Reserve_pre (n : Z) (c : shard) : shard :=
  let c := set_reservedSize (wrap64 (reservedSize c + n)) c in
  if targetSize c <? coldTarget c then set_coldTarget (targetSize c) c else c.

Lemma Reserve_pre_Inv n c l : Inv c l -> Inv (Reserve_pre n c) l.
Proof.
  intros I. unfold Reserve_pre. cbv zeta.
  set (c1 := set_reservedSize (wrap64 (reservedSize c + n)) c).
  pose proof (inv_ct _ _ I) as K. unfold CT in K.
  pose proof (targetSize_pos c1).
  apply (Inv_ext c); try done;
    try (destruct (targetSize c1 <? coldTarget c1); reflexivity);
    try (intros t; destruct (targetSize c1 <? coldTarget c1), t; reflexivity).
  unfold CT. destruct (targetSize c1 <? coldTarget c1) eqn:E.
  - change (coldTarget (set_coldTarget (targetSize c1) c1)) with (targetSize c1).
    change (targetSize (set_coldTarget (targetSize c1) c1)) with (targetSize c1).
    lia.
  - apply Z.ltb_ge in E. change (coldTarget c1) with (coldTarget c) in *. lia.
Qed.

(** [Reserve] returns on a well-formed shard. *)
Lemma Reserve_total n c l :
  Inv c l ->
  exists c' l',
    returnsA (fun fuel => Reserve fuel n c) c' /\ Inv c' l' /\
    Frame l (Reserve_pre n c) c' l' /\
    reservedSize c' = wrap64 (reservedSize c + n) /\ maxSize c' = maxSize c /\
    sizeHot c' + sizeCold c' < targetSize c'.
Proof.
  intros I. pose proof (Reserve_pre_Inv n c l I) as I2.
  destruct (evict_returns (Reserve_pre n c) l I2)
    as (c' & l' & [n0 Hret] & I' & F' & _ & Hlt).
  exists c', l'. split; [|split; [done|split; [done|]]].
  { exists n0. intros m Hm. unfold Reserve. fold (Reserve_pre n c).
    rewrite (Hret m Hm). cbn [bind].
    by rewrite (checkConsistency_ok c' l' I'). }
  assert (reservedSize (Reserve_pre n c) = wrap64 (reservedSize c + n)) as Hres
    by (unfold Reserve_pre; cbv zeta; by destruct (_ <? _)).
  assert (maxSize (Reserve_pre n c) = maxSize c) as Hmax
    by (unfold Reserve_pre; cbv zeta; by destruct (_ <? _)).
  rewrite (fr_reserved _ _ _ _ F'), (fr_max _ _ _ _ F').
  done.
Qed.

(** [metaAdd] returns for an entry that is ready to be inserted. *)
Lemma metaAdd_total c l e E v x :
  Inv c l -> e ∉ l -> mem_entries c !! e = Some E ->
  blinks E = (e, e) -> flinks E = (e, e) -> blocks c !! e_key E = None ->
  0 <= e_size E -> e_ptype E <> etTest -> e_val E = Some v ->
  mem_values c !! v = Some x -> 2 <= v_refs x -> unheld c l v ->
  exists r, returnsA (fun fuel => metaAdd fuel (e_key E) e c) r.
Proof.
  intros I Hel He Hbl Hfl Hnone Hsz Hty Hval Hx Hrefs Hun.
  destruct (evict_returns c l I) as (c3 & l3 & [n0 Hret] & I3 & F3 & _).
  assert (mem_entries c3 !! e = Some E) as He3
    by (by rewrite (fr_outside _ _ _ _ F3)).
  assert (mem_values c3 !! v = Some x) as Hx3
    by (by rewrite (fr_values _ _ _ _ F3)).
  assert (e ∉ l3) as Hel3 by (intros Hin; by apply (fr_sub _ _ _ _ F3) in Hin).
  pose proof (unheld_frame _ _ _ _ v F3 Hun) as Hun3.
  pose proof (fr_blocks _ _ _ _ F3 _ Hnone) as Hnone3.
  destruct (targetSize c3 <? e_size E) eqn:Efit.
  - exists (false, c3), n0. intros m Hm. rewrite metaAdd_eq, (Hret m Hm).
    cbn [bind]. unfold getE. rewrite He3. cbn [bind]. by rewrite Efit.
  - destruct (insert_Inv c3 l3 e E v x I3 Hel3 He3 Hbl Hfl Hnone3 Hsz Hty
                Hval Hx3 Hrefs Hun3)
      as (c4 & c5 & l5 & Hr1 & Hr2 & _).
    exists (true, c5), n0. intros m Hm. rewrite metaAdd_eq, (Hret m Hm).
    cbn [bind]. unfold getE. rewrite He3. cbn [bind]. rewrite Efit, Hr1.
    cbn [bind]. by rewrite Hr2.
Qed.

(** What [Set] does with the answer of [metaAdd]. *)
Lemma after_metaAdd fuel c l e E v x r
    (add : Z -> Z -> shard -> shard) :
  Inv c l -> e ∉ l -> mem_entries c !! e = Some E ->
  blinks E = (e, e) -> flinks E = (e, e) -> blocks c !! e_key E = None ->
  0 <= e_size E -> e_ptype E <> etTest -> e_val E = Some v ->
  mem_values c !! v = Some x -> 2 <= v_refs x -> unheld c l v ->
  (forall c5, add (e_size E) 1 c5 = raise E c5) ->
  metaAdd fuel (e_key E) e c = Ok r ->
  exists c',
    (do c <- (if r.1
              then do ee <- getE e r.2; Ok (add (e_size ee) 1 r.2)
              else free e r.2);
     do _ <- checkConsistency c;
     Ok (Some v, c)) = Ok (Some v, c').
Proof.
  intros I Hel He Hbl Hfl Hnone Hsz Hty Hval Hx Hrefs Hun Hadd Hrun.
  destruct (metaAdd_spec fuel c l e E v x r)
    as (c3 & l3 & Hev & I3 & F3 & He3 & Hv3 & Hun3 & Hel3 & Hnone3 & Hlt & Hcase);
    try done.
  destruct Hcase as [[-> Hbig]|(c5 & l5 & -> & Hfit & Hperm & I5 & Hsc5 & Hv5
                                & Hcg5 & Hk5)].
  - cbn [fst snd].
    destruct (free_outside c3 l3 e E v x)
      as (c4 & Hfree & I4 & _); try done.
    exists c4. rewrite Hfree. cbn [bind].
    by rewrite (checkConsistency_ok c4 l3 I4).
  - cbn [fst snd].
    assert (exists E5, mem_entries c5 !! e = Some E5 /\ e_size E5 = e_size E)
      as (E5 & He5 & Hsz5).
    { pose proof (Hcg5 e) as Hc. unfold fld in Hc. rewrite He3 in Hc.
      destruct (mem_entries c5 !! e) as [E5|]; [|done].
      simpl in Hc. exists E5. split; [done|]. by injection Hc. }
    exists (raise E c5). unfold getE. rewrite He5. cbn [bind].
    rewrite Hsz5, Hadd. by rewrite (checkConsistency_ok _ l5 I5).
Qed.

Lemma Set_absent_total k v x c l :
  Inv c l -> mem_values c !! v = Some x -> v_refs x = 1 ->
  blocks c !! k = None ->
  exists c', returnsA (fun fuel => Set_ fuel k v c) (Some v, c').
Proof.
  intros I Hx Hr Hnone.
  destruct (Set_absent_pre_eq k v x c Hx Hr) as [He Hpre].
  cbv zeta in Hpre.
  destruct (Set_absent_pre_Inv k v x c l I Hx Hr Hnone)
    as (I2 & Hel & He2 & Hv2 & Hun2 & Hnone2).
  cbv zeta in I2, Hel, He2, Hv2, Hun2, Hnone2.
  set (e := fresh (dom (mem_entries c))) in *.
  set (E := fresh_entry k (Z.of_nat (length (v_buf x))) v c) in *.
  remember (Set_absent_pre k v x c) as c2 eqn:Hc2. clear Hc2.
  assert (e_key E = k) as Hk by done.
  assert (0 <= e_size E) as Hsz by (simpl; lia).
  destruct (metaAdd_total c2 l e E v (mkValue (v_buf x) 2))
    as (r & n0 & Hret); try done.
  destruct (after_metaAdd n0 c2 l e E v (mkValue (v_buf x) 2) r add_cold)
    as (c' & Hfin); try done.
  { by apply Hret. }
  exists c', n0. intros m Hm.
  unfold Set_, getV. rewrite Hx. cbn [bind]. rewrite Hr.
  cbn [negb Z.eqb Pos.eqb]. rewrite Hnone. cbv zeta.
  rewrite Hpre. cbn [bind]. rewrite He. fold e.
  rewrite <-Hk at 1. rewrite (Hret m Hm). cbn [bind]. exact Hfin.
Qed.

Lemma Set_resident_total k v x c l e ee old :
  Inv c l -> mem_values c !! v = Some x -> v_refs x = 1 ->
  blocks c !! k = Some e -> mem_entries c !! e = Some ee ->
  e_val ee = Some old ->
  exists c', returnsA (fun fuel => Set_ fuel k v c) (Some v, c').
Proof.
  intros I Hx Hr Hb He Hval.
  apply (st_blocks _ _ (inv_struct _ _ I)) in Hb as Hin.
  destruct Hin as [Hin Hkey].
  pose proof (unheld_fresh c l v x I Hx Hr) as Hun.
  destruct (proj1 (inv_vals _ _ I) e ee old Hin He Hval) as (xo & Hxo & Hrefs).
  assert (old <> v) as Hne by (intros ->; by apply (Hun e ee)).
  pose proof (Set_resident_pre_eq e ee v x old xo c He Hval Hx Hxo Hne Hrefs)
    as Hpre. cbv zeta in Hpre.
  pose proof (Set_resident_pre_Inv e ee v x old xo c l I Hin He Hval Hx Hr Hxo)
    as I4.
  remember (Set_resident_pre e ee v x old xo c) as c4 eqn:Hc4. clear Hc4.
  destruct (evict_returns c4 l I4) as (c5 & l5 & [n0 Hret] & I5 & _).
  exists c5, n0. intros m Hm.
  unfold Set_, getV. rewrite Hx. cbn [bind]. rewrite Hr.
  cbn [negb Z.eqb Pos.eqb]. rewrite Hb. unfold peekValue, getE at 1.
  rewrite He. cbn [bind]. rewrite Hval.
  pose proof (Hret m Hm) as Hev.
  pose proof (checkConsistency_ok c5 l5 I5) as Hchk.
  revert Hpre Hev Hchk. clear.
  destruct (setValue e (Some v) c) as [c1| |]; cbn [bind]; try done.
  destruct (modE e (set_referenced true) c1) as [c2| |]; cbn [bind]; try done.
  unfold getE.
  destruct (mem_entries c2 !! e) as [e2|]; cbn [bind]; try done.
  destruct (modE e (set_size _) c2) as [c3| |]; cbn [bind]; try done.
  intros [= ->] -> Hchk. cbn [bind]. by rewrite Hchk.
Qed.

(** The steps of [Set] on a test entry up to [metaAdd], for every fuel. *)
Lemma Set_test_steps_all k v x c l e ee :
  Inv c l -> mem_values c !! v = Some x -> v_refs x = 1 ->
  blocks c !! k = Some e -> mem_entries c !! e = Some ee ->
  e_val ee = None ->
  exists h' l',
    l ≡ₚ e :: l' /\
    Inv (Set_test_pre e ee v x h' c) l' /\
    unheld (Set_test_pre e ee v x h' c) l' v /\
    (forall w, unheld c l w -> unheld (Set_test_pre e ee v x h' c) l' w) /\
    h' !! e = Some (metaDel_entry e ee e ee) /\
    forall fuel, Set_ fuel k v c =
    (do r <- metaAdd fuel k e (Set_test_pre e ee v x h' c);
     do c <- (if r.1
              then do ee <- getE e r.2; Ok (add_hot (e_size ee) 1 r.2)
              else free e r.2);
     do _ <- checkConsistency c;
     Ok (Some v, c)).
Proof.
  intros I Hx Hr Hb He Hval.
  apply (st_blocks _ _ (inv_struct _ _ I)) in Hb as Hin.
  destruct Hin as [Hin Hkey].
  assert (e_ptype ee = etTest) as Hty by (by apply (inv_typed _ _ I e ee)).
  assert (0 <= e_size ee) as Hsz by (by apply (inv_typed _ _ I e ee)).
  pose proof (unheld_fresh c l v x I Hx Hr) as Hun.
  destruct (metaEvict_spec c l e I Hin)
    as (ee1 & cev & l' & He1 & _ & Hperm & Iev & Fev & Hvev & Hbev & Hctev
        & Hsev & Hcev & _ & _ & _ & Hfev & h' & Hdel & Hh' & Hcev_eq).
  rewrite He in He1. injection He1 as <-.
  assert (lower ee c = add_test (- e_size ee) (-1) c) as Hlow
    by (unfold lower; by rewrite Hty).
  rewrite Hlow in Hdel, Hcev_eq.
  assert (h' !! e = Some (metaDel_entry e ee e ee)) as He2
    by (by rewrite Hh', He).
  set (len := Z.of_nat (length (v_buf x))).
  remember (metaDel_state e ee h' (add_test (- e_size ee) (-1) c)) as c2
    eqn:Hc2.
  pose proof (Set_test_pre_eq e ee v x h' c2 c Hc2 He2 Hx) as Hpre.
  cbv zeta in Hpre. fold len in Hpre.
  assert (Set_test_pre e ee v x h' c
          = set_entries (<[e := Set_test_entry e ee v len]> h')
              (set_values
                 (<[v := mkValue (v_buf x) (v_refs x + 1)]> (mem_values c))
                 (grow_coldTarget len c2))) as Hc3
    by (subst c2; reflexivity).
  assert (targetSize c2 = targetSize c) as Hc2T by (by subst c2).
  assert (coldTarget c2 = coldTarget c) as Hc2ct by (by subst c2).
  clear Hc2.
  exists h', l'. rewrite Hc3. rewrite Hc3 in Hpre.
  set (c3 := set_entries (<[e := Set_test_entry e ee v len]> h') _) in *.
  pose proof (st_nodup _ _ (inv_struct _ _ I)) as Hnd. rewrite Hperm in Hnd.
  apply NoDup_cons in Hnd as [Hel' _].
  destruct (grow_coldTarget_same len c2)
    as (Gh & Gv & Gb & Gf & Ghh & Ghc & Ght & Gs & Gc & GT & Gct).
  assert (forall y, y <> e -> mem_entries c3 !! y = mem_entries cev !! y) as Hhy.
  { intros y Hy. rewrite Hcev_eq. subst c3. cbn [mem_entries set_entries].
    by rewrite lookup_insert_ne, lookup_delete_ne. }
  assert (unheld cev l' v) as Hunev by (by apply (unheld_frame _ _ _ _ v Fev)).
  assert (Inv c3 l') as I3.
  { apply (Inv_outside cev); try done.
    - intros y Hy. apply Hhy. by intros ->.
    - intros p ep w Hp Hep Hw. subst c3.
      cbn [mem_values set_entries set_values].
      rewrite Hvev. rewrite lookup_insert_ne; [done|].
      intros <-. by apply (Hunev p ep).
    - rewrite Hcev_eq. subst c3. cbn [blocks set_entries set_values].
      by rewrite Gb.
    - rewrite Hcev_eq. subst c3. cbn [files set_entries set_values].
      by rewrite Gf.
    - rewrite Hcev_eq. subst c3. cbn [handHot set_entries set_values].
      by rewrite Ghh.
    - rewrite Hcev_eq. subst c3. cbn [handCold set_entries set_values].
      by rewrite Ghc.
    - rewrite Hcev_eq. subst c3. cbn [handTest set_entries set_values].
      by rewrite Ght.
    - intros t. rewrite Hcev_eq. subst c3.
      transitivity (sizeOf t (grow_coldTarget len c2)); [by destruct t|].
      rewrite Gs. by destruct t.
    - intros t. rewrite Hcev_eq. subst c3.
      transitivity (countOf t (grow_coldTarget len c2)); [by destruct t|].
      rewrite Gc. by destruct t.
    - pose proof (inv_ct _ _ I) as K. unfold CT in *.
      assert (targetSize c3 = targetSize c) as ->.
      { transitivity (targetSize (grow_coldTarget len c2)); [done|].
        by rewrite GT. }
      assert (coldTarget c3 = Z.min (coldTarget c + len) (targetSize c)) as ->.
      { transitivity (coldTarget (grow_coldTarget len c2)); [done|].
        by rewrite Gct, Hc2ct, Hc2T. }
      subst len. lia. }
  assert (unheld c3 l' v) as Hun3.
  { intros p ep Hp Hep.
    assert (p <> e) as Hpe by (by intros ->).
    rewrite (Hhy p Hpe) in Hep. by apply (Hunev p ep). }
  assert (forall w, unheld c l w -> unheld c3 l' w) as Hun3'.
  { intros w Hw p ep Hp Hep.
    assert (p <> e) as Hpe by (by intros ->).
    rewrite (Hhy p Hpe) in Hep.
    by apply (unheld_frame _ _ _ _ w Fev Hw p ep). }
  repeat (split; [done|]). intros fuel.
  unfold Set_. unfold getV. rewrite Hx. cbn [bind].
  rewrite Hr. cbn [negb Z.eqb Pos.eqb]. rewrite Hb.
  unfold peekValue. unfold getE at 1. rewrite He. cbn [bind]. rewrite Hval.
  unfold getE at 1. rewrite He. cbn [bind]. cbv zeta.
  rewrite Hdel. cbn [bind fst snd]. rewrite Hval. cbn [release bind].
  fold len. revert Hpre. clearbody c3. clear.
  destruct (modE e (set_size len) c2) as [d1| |]; cbn [bind]; try done.
  destruct (modE e (set_referenced false) _) as [d2| |]; cbn [bind]; try done.
  destruct (setValue e (Some v) d2) as [d3| |]; cbn [bind]; try done.
  intros ->. cbn [bind].
  by destruct (metaAdd fuel k e c3) as [r| |].
Qed.

Lemma Set_test_total k v x c l e ee :
  Inv c l -> mem_values c !! v = Some x -> v_refs x = 1 ->
  blocks c !! k = Some e -> mem_entries c !! e = Some ee ->
  e_val ee = None ->
  exists c', returnsA (fun fuel => Set_ fuel k v c) (Some v, c').
Proof.
  intros I Hx Hr Hb He Hval.
  apply (st_blocks _ _ (inv_struct _ _ I)) in Hb as Hin.
  destruct Hin as [Hin Hkey].
  assert (e_key ee = k) as Hk.
  { unfold fld in Hkey. rewrite He in Hkey. simpl in Hkey. congruence. }
  destruct (Set_test_steps_all k v x c l e ee I Hx Hr Hb He Hval)
    as (h' & l' & Hperm & I3 & Hun3 & _ & He2 & Heq).
  set (len := Z.of_nat (length (v_buf x))) in *.
  destruct (Set_test_pre_proj e ee v x h' c)
    as (Ph & Pv & Pb & _).
  cbv zeta in Ph, Pv, Pb. fold len in Ph.
  destruct (Set_test_entry_fields e ee v len)
    as (Ek & Ebl & Efl & Esz & Ety & Eval & _).
  cbv zeta in Ek, Ebl, Efl, Esz, Ety, Eval.
  remember (Set_test_pre e ee v x h' c) as c3 eqn:Hc3 in *. clear Hc3.
  remember (Set_test_entry e ee v len) as E eqn:HE in *. clear HE.
  pose proof (st_nodup _ _ (inv_struct _ _ I)) as Hnd. rewrite Hperm in Hnd.
  apply NoDup_cons in Hnd as [Hel' _].
  assert (e_key E = k) as HkE by congruence.
  assert (mem_entries c3 !! e = Some E) as He3
    by (rewrite Ph; apply lookup_insert_eq).
  assert (blocks c3 !! e_key E = None) as Hnone3
    by (rewrite Pb, Ek; apply lookup_delete_eq).
  assert (0 <= e_size E) as Hsz by (rewrite Esz; subst len; lia).
  assert (e_ptype E <> etTest) as Hty by (by rewrite Ety).
  assert (mem_values c3 !! v = Some (mkValue (v_buf x) 2)) as Hv3
    by (rewrite Pv, lookup_insert_eq, Hr; done).
  assert (forall c5, add_hot (e_size E) 1 c5 = raise E c5) as Hraise
    by (intros c5; unfold raise; by rewrite Ety).
  destruct (metaAdd_total c3 l' e E v (mkValue (v_buf x) 2))
    as (r & n0 & Hret); try done.
  destruct (after_metaAdd n0 c3 l' e E v (mkValue (v_buf x) 2) r add_hot)
    as (c' & Hfin); try done.
  { by apply Hret. }
  exists c', n0. intros m Hm. rewrite Heq, <-HkE, (Hret m Hm). exact Hfin.
Qed.

(** [Set] returns on a well-formed shard when it is passed a Value that has
    one reference. *)
Lemma Set_total k v x c l :
  Inv c l -> mem_values c !! v = Some x -> v_refs x = 1 ->
  exists c',
    returnsA (fun fuel => Set_ fuel k v c) (Some v, c') /\
    Set_post k v x c (Some v) c'.
Proof.
  intros I Hx Hr.
  assert (exists c', returnsA (fun fuel => Set_ fuel k v c) (Some v, c'))
    as [c' Hret].
  { destruct (blocks c !! k) as [e|] eqn:Hb.
    - apply (st_blocks _ _ (inv_struct _ _ I)) in Hb as Hin.
      destruct Hin as [Hin _].
      destruct (Struct_alloc c l e (inv_struct _ _ I) Hin) as [ee He].
      destruct (e_val ee) as [old|] eqn:Hv.
      + by apply (Set_resident_total k v x c l e ee old).
      + by apply (Set_test_total k v x c l e ee).
    - by apply (Set_absent_total k v x c l). }
  exists c'. split; [done|].
  destruct (returnsA_run _ _ Hret) as [n Hrun].
  destruct (Set_spec n k v c l (Some v) c' I Hrun) as (x' & Hx' & _ & Hpost).
  assert (x' = x) as -> by congruence. done.
Qed.

(** * More about the shard *)

(** ** Admission of a new key *)

(** A run of [Set] on an absent key whose Value fits the target size
    stores the Value in a new cold entry. *)
Lemma Set_absent_admits fuel k v x c l h c' :
  Inv c l -> mem_values c !! v = Some x -> v_refs x = 1 ->
  blocks c !! k = None ->
  Z.of_nat (length (v_buf x)) <= targetSize c ->
  Set_ fuel k v c = Ok (h, c') ->
  exists e ee,
    e = fresh (dom (mem_entries c)) /\
    blocks c' !! k = Some e /\ mem_entries c' !! e = Some ee /\
    e_key ee = k /\
    cargo ee = (Some v, Z.of_nat (length (v_buf x)), etCold, false) /\
    mem_values c' !! v = Some (mkValue (v_buf x) 2) /\
    sizeHot c' + sizeCold c' < targetSize c + Z.of_nat (length (v_buf x)).
Proof.
  intros I Hx Hr Hnone Hfits Hrun.
  unfold Set_ in Hrun. unfold getV in Hrun. rewrite Hx in Hrun.
  cbn [bind] in Hrun. rewrite Hr in Hrun. cbn [negb Z.eqb Pos.eqb] in Hrun.
  rewrite Hnone in Hrun.
  destruct (Set_absent_pre_eq k v x c Hx Hr) as [He Hpre].
  cbv zeta in Hpre. rewrite Hpre in Hrun. cbn [bind] in Hrun. rewrite He in Hrun.
  destruct (Set_absent_pre_Inv k v x c l I Hx Hr Hnone)
    as (I2 & Hel & He2 & Hv2 & Hun2 & Hnone2).
  set (e := fresh (dom (mem_entries c))) in *.
  set (E := fresh_entry k (Z.of_nat (length (v_buf x))) v c) in *.
  set (c2 := Set_absent_pre k v x c) in *.
  apply bind_Ok in Hrun as (c6 & Hrun & Hfin).
  apply bind_Ok in Hrun as (r & Hadd & Hrun).
  assert (targetSize c2 = targetSize c) as HT2 by done.
  destruct (metaAdd_spec fuel c2 l e E v (mkValue (v_buf x) 2) r)
    as (c3 & l3 & Hev & I3 & F3 & He3 & Hv3 & Hun3 & Hel3 & Hnone3 & Hlt & Hcase);
    try done; try (simpl; lia).
  pose proof (Frame_targetSize _ _ _ _ F3) as HT3.
  change (e_key E) with k in Hnone3.
  destruct Hcase as [[-> Hbig]|(c5 & l5 & -> & Hfit & Hperm & I5 & Hsc5 & Hv5 & Hcg5 & Hk5)].
  { change (e_size E) with (Z.of_nat (length (v_buf x))) in Hbig. lia. }
  cbn [fst snd] in Hrun.
  assert (exists E5, mem_entries c5 !! e = Some E5 /\ cargo E5 = cargo E
                     /\ e_key E5 = k) as (E5 & He5 & Hcargo & Hkey).
  { pose proof (Hcg5 e) as Hc. pose proof (Hk5 e) as Hke.
    unfold fld in Hc, Hke. rewrite He3 in Hc, Hke.
    destruct (mem_entries c5 !! e) as [E5|]; [|done].
    simpl in *. exists E5. split; [done|]. split; congruence. }
  unfold getE in Hrun. rewrite He5 in Hrun. cbn [bind] in Hrun.
  injection Hrun as <-.
  pose proof Hcargo as Hcargo'.
  injection Hcargo as Hval5 Hsz5 _ _.
  rewrite Hsz5 in *.
  change (add_cold (Z.of_nat (length (v_buf x))) 1 c5) with (raise E c5) in *.
  rewrite (checkConsistency_ok _ l5 I5) in Hfin. cbn [bind] in Hfin.
  injection Hfin as <- <-.
  destruct (raise_same E c5)
    as (Rh & Rv & Rb & _ & _ & _ & _ & _ & Rmax & Rres & _ & _).
  pose proof (scalars_targetSize _ _ Hsc5) as HT5.
  exists e, E5. split; [done|]. split.
  { apply (st_blocks _ _ (inv_struct _ _ I5)). split.
    - rewrite Hperm. set_solver.
    - unfold fld. rewrite Rh, He5. simpl. by rewrite Hkey. }
  split; [by rewrite Rh|]. split; [done|]. split; [done|].
  split; [by rewrite Rv, Hv5|].
  change (sizeHot (raise E c5)) with (sizeOf etHot (raise E c5)).
  change (sizeCold (raise E c5)) with (sizeOf etCold (raise E c5)).
  rewrite !raise_sizeOf. injection Hsc5 as _ _ _ _ _ Hsh Hsc _ _ _ _.
  simpl. rewrite Hsh, Hsc. unfold weight_of. simpl. lia.
Qed.

(** ** Freeing a shard *)

(** Every Value that the ring holds is live and is held by one slot
    only. *)
Definition Owned (c : shard) (l : list ptr) : Prop :=
  (forall p e v, p ∈ l -> mem_entries c !! p = Some e -> e_val e = Some v ->
     exists x, mem_values c !! v = Some x /\ 1 <= v_refs x) /\
  (forall p q ep eq v, p ∈ l -> q ∈ l ->
     mem_entries c !! p = Some ep -> mem_entries c !! q = Some eq ->
     e_val ep = Some v -> e_val eq = Some v -> p = q).

(** A Value after the release of one reference. *)
Definition dropped (x : Value) : option Value :=
  if v_refs x - 1 =? 0 then None else Some (mkValue (v_buf x) (v_refs x - 1)).

Lemma Inv_Owned c l : Inv c l -> Owned c l.
Proof.
  intros I. destruct (inv_vals _ _ I) as [V1 V2]. split; [|done].
  intros p e v Hp He Hv. destruct (V1 p e v Hp He Hv) as (x & Hx & Hr).
  exists x. split; [done|lia].
Qed.

Lemma release_dropped c w x :
  mem_values c !! w = Some x -> 1 <= v_refs x ->
  exists vs,
    release (Some w) c = Ok (set_values vs c) /\
    vs !! w = dropped x /\
    (forall w', w' <> w -> vs !! w' = mem_values c !! w').
Proof.
  intros Hx Hr. unfold release, getV, dropped. rewrite Hx. cbn [bind].
  destruct (v_refs x - 1 <? 0) eqn:E1; [apply Z.ltb_lt in E1; lia|].
  destruct (v_refs x - 1 =? 0) eqn:E2.
  - exists (delete w (mem_values c)). split; [done|].
    split; [apply lookup_delete_eq|]. intros w' Hw'. by apply lookup_delete_ne.
  - exists (<[w := mkValue (v_buf x) (v_refs x - 1)]> (mem_values c)).
    split; [done|]. split; [apply lookup_insert_eq|].
    intros w' Hw'. by apply lookup_insert_ne.
Qed.

Lemma freeHead_spec c l e :
  Struct c l -> Owned c l -> e ∈ l ->
  exists ee c' l',
    mem_entries c !! e = Some ee /\
    freeHead e c = Ok c' /\ l ≡ₚ e :: l' /\
    Struct c' l' /\ Owned c' l' /\
    mem_entries c' !! e = None /\
    (forall x, x ∉ l -> mem_entries c' !! x = mem_entries c !! x) /\
    (forall x, x ∈ l' -> fld cargo c' x = fld cargo c x) /\
    (forall w, e_val ee <> Some w -> mem_values c' !! w = mem_values c !! w) /\
    (forall w x, e_val ee = Some w -> mem_values c !! w = Some x ->
       mem_values c' !! w = dropped x) /\
    scalars c' = scalars c.
Proof.
  intros S [O1 O2] Hin.
  destruct (metaDel_Struct c l e S Hin)
    as (ee & h' & l' & He & Hrun & Hh & Hperm & S2).
  destruct (Struct_links c l e ee S Hin He) as (Hbn & Hbp & _).
  destruct (Struct_file_links_in c l e ee S Hin He) as (Hfn & Hfp).
  exists ee. unfold freeHead. rewrite Hrun. cbn [bind fst snd].
  set (c2 := metaDel_state e ee h' c) in *.
  assert (mem_entries c2 = h') as Hc2 by done.
  assert (mem_values c2 = mem_values c) as Hv2 by done.
  assert (h' !! e = Some (metaDel_entry e ee e ee)) as He2
    by (by rewrite Hh, He).
  assert (exists vs,
            release (e_val ee) c2 = Ok (set_values vs c2) /\
            (forall w, e_val ee <> Some w -> vs !! w = mem_values c !! w) /\
            (forall w x, e_val ee = Some w -> mem_values c !! w = Some x ->
               vs !! w = dropped x)) as (vs & Hrel & Hoth & Hdrop).
  { destruct (e_val ee) as [w|] eqn:Hw.
    - destruct (O1 e ee w Hin He Hw) as (x & Hx & Hr).
      destruct (release_dropped c2 w x) as (vs & Hrel & Hd & Ho);
        [by rewrite Hv2|done|].
      exists vs. split; [done|]. split.
      + intros w' Hw'. rewrite Ho; [by rewrite Hv2|congruence].
      + intros w' x' [= <-] Hx'. congruence.
    - exists (mem_values c). split; [|done].
      simpl. by destruct c. }
  rewrite Hrel. cbn [bind].
  set (c2' := set_values vs c2).
  unfold free, setValue. cbn [bind]. unfold getE.
  change (mem_entries c2') with h'. rewrite He2. cbn [bind].
  rewrite (modE_lookup _ _ _ (metaDel_entry e ee e ee)) by done.
  cbn [bind]. rewrite metaDel_entry_val, decide_True by done.
  cbn [release bind].
  set (c3 := set_entries _ _).
  assert (forall x, mem_entries c3 !! x =
            if decide (x = e) then None
            else metaDel_entry e ee x <$> mem_entries c !! x) as Hpt.
  { intros x. subst c3. cbn [mem_entries set_entries setE].
    destruct (decide (x = e)) as [->|Hne].
    - by rewrite lookup_delete_eq.
    - rewrite lookup_delete_ne, lookup_insert_ne by done.
      change (mem_entries c2') with h'. by rewrite Hh. }
  pose proof (st_nodup _ _ S) as Hnd. rewrite Hperm in Hnd.
  apply NoDup_cons in Hnd as [Hel' Hnd'].
  assert (forall x, x ∈ l' -> x ∈ l /\ x <> e) as Hsub.
  { intros x Hx. split; [rewrite Hperm; set_solver|]. by intros ->. }
  assert (forall A (f : entry -> A) x, x <> e ->
            (forall ex, f (metaDel_entry e ee x ex) = f ex) ->
            fld f c3 x = fld f c x) as Hfld.
  { intros A f x Hx Hf. unfold fld. rewrite Hpt, decide_False by done.
    destruct (mem_entries c !! x); simpl; [by rewrite Hf|done]. }
  assert (forall x, x ∈ l' -> fld cargo c3 x = fld cargo c x) as Hcargo.
  { intros x Hx. destruct (Hsub x Hx). apply Hfld; [done|].
    intros. by apply metaDel_entry_cargo. }
  assert (forall x ex', x ∈ l' -> mem_entries c3 !! x = Some ex' ->
            exists ex, mem_entries c !! x = Some ex /\ cargo ex' = cargo ex)
    as Hent.
  { intros x ex' Hx Hex. destruct (Hsub x Hx) as [_ Hne].
    rewrite Hpt, decide_False in Hex by done.
    destruct (mem_entries c !! x) as [ex|]; [|done].
    injection Hex as <-. exists ex. split; [done|].
    by apply metaDel_entry_cargo. }
  assert (mem_values c3 = vs) as Hv3 by done.
  exists c3, l'. split; [done|]. split; [done|]. split; [done|].
  split; [|split; [|split; [|split; [|split; [|split; [|split]]]]]].
  - apply (Struct_frame c2); try done.
    + intros x Hx. destruct (Hsub x Hx). unfold fld. simpl.
      by rewrite lookup_delete_ne, lookup_insert_ne.
    + intros x Hx. destruct (Hsub x Hx). unfold fld. simpl.
      by rewrite lookup_delete_ne, lookup_insert_ne.
    + intros x Hx. destruct (Hsub x Hx). unfold fld. simpl.
      by rewrite lookup_delete_ne, lookup_insert_ne.
    + apply (hands_in_frame c2); [reflexivity..|apply (st_hands _ _ S2)].
  - split.
    + intros p ep' w Hp Hep Hw.
      destruct (Hent p ep' Hp Hep) as (ep & Hep0 & Hcg).
      destruct (Hsub p Hp) as [Hpl Hne]. injection Hcg as Hv _ _ _.
      rewrite Hv3, Hoth.
      * apply (O1 p ep); [done|done|congruence].
      * intros Hx. apply Hne. apply (O2 p e ep ee w); auto; congruence.
    + intros p q ep' eq' w Hp Hq Hep Heq Hwp Hwq.
      destruct (Hent p ep' Hp Hep) as (ep & Hep0 & Hcg).
      destruct (Hent q eq' Hq Heq) as (eq & Heq0 & Hcg').
      destruct (Hsub p Hp) as [Hpl _]. destruct (Hsub q Hq) as [Hql _].
      injection Hcg as Hv _ _ _. injection Hcg' as Hv' _ _ _.
      apply (O2 p q ep eq w); auto; congruence.
  - by rewrite Hpt, decide_True.
  - intros x Hx. rewrite Hpt.
    assert (x <> e) by (by intros ->).
    rewrite decide_False by done.
    destruct (mem_entries c !! x) as [ex|]; [|done]. simpl. f_equal.
    apply metaDel_entry_outside; try done; by intros ->.
  - done.
  - intros w Hw. rewrite Hv3. by apply Hoth.
  - intros w x Hw Hx. rewrite Hv3. by apply (Hdrop w x).
  - done.
Qed.

Lemma Struct_nil c :
  Struct c [] ->
  blocks c = ∅ /\ files c = ∅ /\
  handHot c = None /\ handCold c = None /\ handTest c = None.
Proof.
  intros S. split; [|split].
  - apply map_empty. intros k. destruct (blocks c !! k) as [p|] eqn:Hb; [|done].
    apply (st_blocks _ _ S) in Hb as [Hp _]. by apply elem_of_nil in Hp.
  - apply map_empty. intros fk. destruct (st_files _ _ S fk) as (lf & _ & _ & Hlf & Hm).
    destruct (files c !! fk) as [p|]; [|done].
    apply Hlf in Hm as [Hm _]. by apply elem_of_nil in Hm.
  - apply (st_hands _ _ S).
Qed.

Lemma cargo_val c c' p :
  fld cargo c' p = fld cargo c p ->
  forall ep', mem_entries c' !! p = Some ep' ->
  exists ep, mem_entries c !! p = Some ep /\ e_val ep = e_val ep'.
Proof.
  unfold fld. intros H ep' Hep'. rewrite Hep' in H.
  destruct (mem_entries c !! p) as [ep|]; [|done].
  simpl in H. injection H as H _ _ _. by exists ep.
Qed.

Lemma freeLoop_spec n : forall c l,
  length l = n -> Struct c l -> Owned c l ->
  exists c',
    (forall fuel, (n < fuel)%nat -> freeLoop fuel c = Ok c') /\
    Struct c' [] /\
    (forall x, x ∈ l -> mem_entries c' !! x = None) /\
    (forall x, x ∉ l -> mem_entries c' !! x = mem_entries c !! x) /\
    (forall w, unheld c l w -> mem_values c' !! w = mem_values c !! w) /\
    (forall p ep w x, p ∈ l -> mem_entries c !! p = Some ep ->
       e_val ep = Some w -> mem_values c !! w = Some x ->
       mem_values c' !! w = dropped x) /\
    scalars c' = scalars c.
Proof.
  induction n as [|n IH]; intros c l Hlen S O.
  - destruct l; [|done]. exists c.
    destruct (Struct_nil c S) as (_ & _ & Hh & _).
    split; [|split; [done|]].
    { intros [|fuel] Hf; [lia|]. simpl. by rewrite Hh. }
    split; [intros x Hx; by apply elem_of_nil in Hx|]. repeat split; try done.
    intros p ep w x Hp. by apply elem_of_nil in Hp.
  - destruct (hands_elim _ _ (st_hands _ _ S))
      as [(-> & _)|(a & b & d & Ha & _ & _ & Hal & _)]; [done|].
    destruct (freeHead_spec c l a S O Hal)
      as (ee & c1 & l' & He & Hrun & Hperm & S1 & O1 & Hnone & Hout & Hcargo
          & Hoth & Hdrop & Hsc).
    assert (length l' = n) as Hlen'.
    { apply Permutation_length in Hperm. simpl in Hperm. lia. }
    pose proof (st_nodup _ _ S) as Hnd. rewrite Hperm in Hnd.
    apply NoDup_cons in Hnd as [Hal' _].
    destruct (IH c1 l' Hlen' S1 O1)
      as (c' & Hret & S' & Hin' & Hout' & Hun' & Hheld' & Hsc').
    assert (forall w, unheld c l w -> unheld c1 l' w) as Hunheld.
    { intros w Hw p ep' Hp Hep' Hv.
      destruct (cargo_val c c1 p (Hcargo p Hp) ep' Hep') as (ep & Hep & Hval).
      apply (Hw p ep); [rewrite Hperm; set_solver|done|congruence]. }
    exists c'. split; [|split; [done|]].
    { intros [|fuel] Hf; [lia|]. simpl. rewrite Ha, Hrun. cbn [bind].
      apply Hret. lia. }
    split; [|split; [|split; [|split]]].
    + intros x Hx. rewrite Hperm in Hx. apply elem_of_cons in Hx as [->|Hx].
      * by rewrite Hout'.
      * by apply Hin'.
    + intros x Hx. rewrite Hout'; [apply Hout; done|].
      intros Hx'. apply Hx. rewrite Hperm. set_solver.
    + intros w Hw. rewrite Hun' by (by apply Hunheld). apply Hoth.
      by apply (Hw a ee).
    + intros p ep w x Hp Hep Hv Hx.
      rewrite Hperm in Hp. apply elem_of_cons in Hp as [->|Hp].
      * assert (ep = ee) as -> by congruence.
        rewrite Hun'; [by apply (Hdrop w x)|].
        intros q eq' Hq Heq' Hvq.
        destruct (cargo_val c c1 q (Hcargo q Hq) eq' Heq') as (eq & Heq & Hval).
        apply Hal'. destruct O as [_ O2].
        rewrite <-(O2 q a eq ee w); auto; try congruence.
        rewrite Hperm. set_solver.
      * assert (p <> a) as Hne by (by intros ->).
        assert (e_val ee <> Some w) as Hnw.
        { intros Hx'. apply Hne. destruct O as [_ O2].
          apply (O2 p a ep ee w); auto. rewrite Hperm. set_solver. }
        pose proof (Hcargo p Hp) as Hc. unfold fld in Hc. rewrite Hep in Hc.
        destruct (mem_entries c1 !! p) as [ep1|] eqn:Hep1; [|done].
        simpl in Hc. injection Hc as Hv1 _ _ _.
        apply (Hheld' p ep1 w x); [done|done|congruence|].
        by rewrite Hoth.
    + by rewrite Hsc'.
Qed.

(** [shard.Free] returns on a shard whose ring is well formed; the loop
    leaves both maps empty, so closing them changes nothing. *)
Lemma shard_Free_spec c l :
  Struct c l -> Owned c l ->
  exists c',
    (forall fuel, (length l < fuel)%nat ->
       freeLoop fuel c = Ok c' /\ shard_Free fuel c = Ok c') /\
    blocks c' = ∅ /\ files c' = ∅ /\
    handHot c' = None /\ handCold c' = None /\ handTest c' = None /\
    (forall x, x ∈ l -> mem_entries c' !! x = None) /\
    (forall x, x ∉ l -> mem_entries c' !! x = mem_entries c !! x) /\
    (forall w, unheld c l w -> mem_values c' !! w = mem_values c !! w) /\
    (forall p ep w x, p ∈ l -> mem_entries c !! p = Some ep ->
       e_val ep = Some w -> mem_values c !! w = Some x ->
       mem_values c' !! w = dropped x) /\
    scalars c' = scalars c.
Proof.
  intros S O.
  destruct (freeLoop_spec (length l) c l eq_refl S O)
    as (c1 & Hret & S1 & Hin & Hout & Hun & Hheld & Hsc).
  destruct (Struct_nil c1 S1) as (Hb & Hf & Hh & Hc & Ht).
  exists c1. split; [|by repeat (split; [done|])].
  intros fuel Hfuel. split; [by apply Hret|].
  unfold shard_Free. rewrite (Hret fuel Hfuel). cbn [bind]. f_equal.
  clear -Hb Hf. destruct c1. simpl in *. by subst.
Qed.

(** ** The check of the invariants build *)

Definition r_size (t : entryType) (r : recount) : Z :=
  match t with etHot => r_sizeHot r | etCold => r_sizeCold r | etTest => r_sizeTest r end.

Definition r_count (t : entryType) (r : recount) : Z :=
  match t with etHot => r_countHot r | etCold => r_countCold r | etTest => r_countTest r end.

Lemma tally_size t x r : r_size t (tally x r) = r_size t r + weight_of t x.
Proof.
  unfold tally, weight_of.
  destruct (e_ptype x), t; simpl; repeat case_decide; try congruence; lia.
Qed.

Lemma tally_count t x r : r_count t (tally x r) = r_count t r + unit_for t x.
Proof.
  unfold tally, unit_for.
  destruct (e_ptype x), t; simpl; repeat case_decide; try congruence; lia.
Qed.

Lemma diverges_false r c :
  diverges r c = false <->
  forall t, r_size t r = sizeOf t c /\ r_count t r = countOf t c.
Proof.
  unfold diverges. rewrite !orb_false_iff, !negb_false_iff, !Z.eqb_eq. split.
  - intros (((((? & ?) & ?) & ?) & ?) & ?). intros []; simpl; done.
  - intros H. destruct (H etHot), (H etCold), (H etTest). simpl in *. done.
Qed.

Lemma findByValue_false e m :
  findByValue e m = false <-> forall k, m !! k <> Some e.
Proof.
  unfold findByValue. rewrite bool_decide_eq_false, list_elem_of_fmap. split.
  - intros H k Hk. apply H. exists (k, e). split; [done|].
    by apply elem_of_map_to_list.
  - intros H ([k p] & -> & Hkp). apply elem_of_map_to_list in Hkp.
    by apply (H k).
Qed.

(** The nodes that the walk from [x] visits: a path that ends at the hot
    hand and does not meet it before. *)
Lemma metaCheckWalk_spec c e h : forall vis x r fuel,
  handHot c = Some h ->
  path (fld e_blockNext c) (fld e_blockPrev c) x vis ->
  last_of x vis = h -> h ∉ removelast (x :: vis) ->
  (forall p, p ∈ x :: vis -> is_Some (mem_entries c !! p)) ->
  (length vis < fuel)%nat ->
  metaCheckWalk fuel e x r c =
    if decide (e ∈ x :: vis) then Panic
    else Ok (mkRecount
               (r_countHot r + zsum (unit_of etHot c) (x :: vis))
               (r_countCold r + zsum (unit_of etCold c) (x :: vis))
               (r_countTest r + zsum (unit_of etTest c) (x :: vis))
               (r_sizeHot r + zsum (weight etHot c) (x :: vis))
               (r_sizeCold r + zsum (weight etCold c) (x :: vis))
               (r_sizeTest r + zsum (weight etTest c) (x :: vis))).
Proof.
  induction vis as [|b vis IH]; intros x r fuel Hh Hp Hlast Hnot Hall Hfuel.
  - destruct fuel as [|fuel]; [simpl in Hfuel; lia|]. simpl in Hlast. subst x.
    destruct (Hall h) as [eh Heh]; [set_solver|].
    cbn [metaCheckWalk]. unfold getE. rewrite Heh. cbn [bind].
    destruct (decide (e = h)) as [->|Hne].
    + rewrite (decide_True (P := h ∈ [h])) by set_solver. done.
    + rewrite (decide_False (P := e ∈ [h]))
        by (intros Hx; apply list_elem_of_singleton in Hx; done).
      rewrite decide_True by done. cbn [zsum].
      rewrite !(weight_lookup _ c h eh Heh), !(unit_lookup _ c h eh Heh).
      unfold tally, weight_of, unit_for.
      destruct (e_ptype eh); repeat case_decide; try congruence;
        f_equal; f_equal; lia.
  - destruct fuel as [|fuel]; [simpl in Hfuel; lia|].
    destruct (Hall x) as [ex Hex]; [set_solver|].
    destruct Hp as [[Hn _] Hp].
    assert (e_blockNext ex = b) as Hnx.
    { unfold fld in Hn. rewrite Hex in Hn. simpl in Hn. congruence. }
    assert (x <> h) as Hxh.
    { intros ->. apply Hnot. simpl. set_solver. }
    cbn [metaCheckWalk]. unfold getE. rewrite Hex. cbn [bind].
    destruct (decide (e = x)) as [->|Hne].
    + rewrite (decide_True (P := x ∈ x :: b :: vis)) by set_solver. done.
    + rewrite (decide_False (P := Some x = handHot c)) by congruence.
      rewrite Hnx.
      rewrite (IH b (tally ex r) fuel); try done.
      * destruct (decide (e ∈ b :: vis)) as [Hin|Hin].
        { rewrite (decide_True (P := e ∈ x :: b :: vis)) by set_solver. done. }
        rewrite (decide_False (P := e ∈ x :: b :: vis)) by set_solver.
        cbn [zsum].
        rewrite !(weight_lookup _ c x ex Hex), !(unit_lookup _ c x ex Hex).
        unfold tally, weight_of, unit_for.
        destruct (e_ptype ex); repeat case_decide; try congruence;
          cbn [r_countHot r_countCold r_countTest r_sizeHot r_sizeCold r_sizeTest];
          f_equal; f_equal; lia.
      * intros Hx. apply Hnot. simpl in *. destruct vis; set_solver.
      * intros p Hp'. apply Hall. set_solver.
      * simpl in Hfuel. lia.
Qed.

Lemma Struct_range c l e :
  Struct c l -> e ∉ l ->
  (forall k, blocks c !! k <> Some e) /\ (forall fk, files c !! fk <> Some e).
Proof.
  intros S Hel. split.
  - intros k Hk. apply (st_blocks _ _ S) in Hk as [? _]. done.
  - intros fk Hk. destruct (st_files _ _ S fk) as (lf & _ & _ & Hlf & Hm).
    rewrite Hk in Hm. apply Hlf in Hm as [? _]. done.
Qed.

Lemma recount_Counts c l r :
  (forall t, r_size t r = zsum (weight t c) l /\
             r_count t r = zsum (unit_of t c) l) ->
  diverges r c = false <-> Counts c l.
Proof.
  intros Hr. rewrite diverges_false. unfold Counts. split.
  - intros H t. destruct (H t), (Hr t). split; congruence.
  - intros H t. destruct (H t), (Hr t). split; congruence.
Qed.

(** The recount of [metaCheck] on a well-formed ring. *)
Lemma metaCheck_recount c l e fuel :
  Struct c l -> e ∉ l -> (length l <= fuel)%nat ->
  exists r,
    metaCheckCount fuel e c = Ok r /\
    forall t, r_size t r = zsum (weight t c) l /\
              r_count t r = zsum (unit_of t c) l.
Proof.
  intros S Hel Hfuel. unfold metaCheckCount.
  destruct (hands_elim _ _ (st_hands _ _ S))
    as [(-> & -> & _)|(h & b & d & Hh & _ & _ & Hhl & _)].
  { exists (mkRecount 0 0 0 0 0 0). split; [done|]. by intros []. }
  destruct (ring_rotate_to _ _ l h (st_ring _ _ S) Hhl) as (t & Hring & Hperm).
  pose proof (st_nodup _ _ S) as Hnd. rewrite Hperm in Hnd.
  apply NoDup_cons in Hnd as [Hht _].
  destruct Hring as [Hp Hl].
  assert (path (fld e_blockNext c) (fld e_blockPrev c) h (t ++ [h])) as Hpath.
  { apply path_app. split; [done|]. simpl. done. }
  destruct (t ++ [h]) as [|x vis] eqn:Hvis; [by destruct t|].
  destruct Hpath as [[Hn _] Hpath].
  destruct (Struct_alloc c l h S Hhl) as [eh Heh].
  assert (e_blockNext eh = x) as Hnx.
  { unfold fld in Hn. rewrite Heh in Hn. simpl in Hn. congruence. }
  assert (x :: vis ≡ₚ l) as Hperm'.
  { rewrite <-Hvis, Hperm. symmetry. apply Permutation_cons_append. }
  assert (length (x :: vis) = length l) as Hlen by (by rewrite Hperm').
  rewrite Hh. cbn [next]. unfold getE. rewrite Heh. cbn [bind]. rewrite Hnx.
  rewrite (metaCheckWalk_spec c e h vis x _ fuel); try done.
  - rewrite decide_False by (by rewrite Hperm').
    eexists. split; [reflexivity|].
    intros [];
      cbn [r_size r_count r_countHot r_countCold r_countTest
           r_sizeHot r_sizeCold r_sizeTest];
      rewrite !(zsum_perm _ _ _ Hperm'); split; lia.
  - change (last_of x vis) with (last_of h (x :: vis)).
    rewrite <-Hvis. apply last_of_app.
  - rewrite <-Hvis, removelast_last. done.
  - intros p Hp'. apply (Struct_alloc c l p S). by rewrite <-Hperm'.
  - simpl in Hlen. lia.
Qed.

(** [metaCheck] on a shard whose ring is well formed: it passes exactly
    when the entry is not in the ring and the six counters are the recount
    of the ring. *)
Lemma metaCheck_spec c l e fuel :
  Struct c l -> (length l <= fuel)%nat ->
  (e ∉ l -> Counts c l -> metaCheck fuel e c = Ok tt) /\
  (e ∈ l -> metaCheck fuel e c = Panic) /\
  (~ Counts c l -> metaCheck fuel e c = Panic).
Proof.
  intros S Hfuel.
  assert (e ∈ l -> metaCheck fuel e c = Panic) as Hin.
  { intros Hel. destruct (Struct_alloc c l e S Hel) as [ee He].
    assert (blocks c !! e_key ee = Some e) as Hb.
    { apply (st_blocks _ _ S). split; [done|]. unfold fld. by rewrite He. }
    unfold metaCheck.
    destruct (findByValue e (blocks c)) eqn:E; [done|].
    by destruct (proj1 (findByValue_false _ _) E (e_key ee)). }
  assert (e ∉ l ->
          (Counts c l -> metaCheck fuel e c = Ok tt) /\
          (~ Counts c l -> metaCheck fuel e c = Panic)) as Hout.
  { intros Hel. destruct (Struct_range c l e S Hel) as [Hb Hf].
    unfold metaCheck.
    rewrite (proj2 (findByValue_false e (blocks c)) Hb).
    rewrite (proj2 (findByValue_false e (files c)) Hf).
    destruct (metaCheck_recount c l e fuel S Hel Hfuel) as (r & -> & Hr).
    cbn [bind]. pose proof (recount_Counts c l r Hr) as Hiff.
    destruct (diverges r c); split; intros HC; try done.
    - apply Hiff in HC. done.
    - destruct HC. by apply Hiff. }
  split; [|split; [done|]].
  - intros Hel HC. by apply Hout.
  - intros HC. destruct (decide (e ∈ l)) as [Hel|Hel]; [by apply Hin|].
    by apply Hout.
Qed.

(** On a well-formed shard the check that [metaEvict] runs after
    [metaDel] passes, so the checked [metaEvict] is the unchecked one. *)
Lemma metaEvict_checked_eq c l e fuel :
  Inv c l -> e ∈ l -> (length l <= S fuel)%nat ->
  metaEvict_checked fuel e c = metaEvict e c.
Proof.
  intros I Hin Hfuel.
  destruct (metaEvict_spec c l e I Hin)
    as (ee & c' & l' & He & Hrun & Hperm & I' & _ & _ & _ & _ & _ & _ & _ & _
        & _ & _ & h' & Hdel & Hh & Hc').
  assert (length l' <= fuel)%nat as Hlen.
  { apply Permutation_length in Hperm. simpl in Hperm. lia. }
  pose proof (st_nodup _ _ (inv_struct _ _ I)) as Hnd. rewrite Hperm in Hnd.
  apply NoDup_cons in Hnd as [Hel' _].
  set (c2 := metaDel_state e ee h' (lower ee c)) in *.
  assert (forall x, x ∈ l' -> mem_entries c2 !! x = mem_entries c' !! x) as Hsame.
  { intros x Hx. rewrite Hc'. simpl. rewrite lookup_delete_ne; [done|].
    by intros ->. }
  assert (Struct c2 l') as S2.
  { apply (Struct_frame c'); try (by rewrite Hc');
      try (intros x Hx; unfold fld; by rewrite (Hsame x Hx)).
    - apply (hands_in_frame c'); try (by rewrite Hc').
      apply (st_hands _ _ (inv_struct _ _ I')).
    - apply (inv_struct _ _ I'). }
  assert (Counts c2 l') as C2.
  { intros t. destruct (inv_counts _ _ I' t) as [Hs Hc]. split.
    - rewrite (zsum_ext (weight t c2) (weight t c')).
      + rewrite <-Hs, Hc'. by destruct t.
      + intros p Hp. by apply weight_same, Hsame.
    - rewrite (zsum_ext (unit_of t c2) (unit_of t c')).
      + rewrite <-Hc, Hc'. by destruct t.
      + intros p Hp. by apply unit_same, Hsame. }
  destruct (metaCheck_spec c2 l' e fuel S2 Hlen) as (Hpass & _).
  unfold metaEvict_checked, metaEvict. unfold getE. rewrite He. cbn [bind].
  change (match e_ptype ee with
          | etTest => add_test (- e_size ee) (-1) c
          | etCold => add_cold (- e_size ee) (-1) c
          | etHot => add_hot (- e_size ee) (-1) c
          end) with (lower ee c).
  rewrite Hdel. cbn [bind fst snd]. fold c2.
  by rewrite (Hpass Hel' C2).
Qed.

(** * The cache *)

(** ** Values and the package function [Free] *)

Lemma set_values_same c : set_values (mem_values c) c = c.
Proof. by destruct c. Qed.



(** ** The number of shards *)

Lemma New_shards procs size :
  (0 < procs)%nat ->
  let m := length (cache_shards (New procs size)) in
  (m = 4%nat \/ (m = 4 * procs)%nat) /\
  ((4 < m)%nat -> minimumShardSize <= size ÷ Z.of_nat m) /\
  (forall s, s ∈ cache_shards (New procs size) ->
     s = newShard (size ÷ Z.of_nat m)) /\
  cache_refs (New procs size) = 1 /\ MaxSize (New procs size) = size /\
  cache_values (New procs size) = ∅.
Proof.
  intros Hp. unfold New. cbv zeta.
  destruct ((4 <? Z.of_nat (4 * procs)) &&
            (size ÷ Z.of_nat (4 * procs) <? minimumShardSize)) eqn:E;
    unfold newShards; cbn [cache_shards cache_refs MaxSize cache_maxSize cache_values];
    rewrite length_replicate.
  - split; [by left|]. split; [lia|]. split; [|done].
    intros s Hs. by apply elem_of_replicate in Hs as [-> _].
  - split; [by right|]. split; [|split; [|done]].
    + intros Hm. apply andb_false_iff in E as [E|E].
      * apply Z.ltb_ge in E. lia.
      * by apply Z.ltb_ge in E.
    + intros s Hs. by apply elem_of_replicate in Hs as [-> _].
Qed.

(** ** One key *)

Lemma getShard_leave id fileNum offset i s C :
  getShard id fileNum offset (leave i s C) = getShard id fileNum offset C.
Proof.
  unfold getShard. cbn [leave cache_shards]. rewrite length_insert.
  reflexivity.
Qed.

Lemma getShard_lt id fileNum offset C i :
  getShard id fileNum offset C = Ok i ->
  id <> 0%N /\ (i < length (cache_shards C))%nat.
Proof.
  unfold getShard. destruct (id =? 0)%N eqn:E; [done|].
  apply N.eqb_neq in E. cbv zeta.
  generalize (shardHash id fileNum offset). intros h.
  destruct (length (cache_shards C)) as [|n] eqn:Hlen; [done|].
  intros Heq. injection Heq as <-. split; [done|].
  pose proof (Z.mod_pos_bound h (Z.of_nat (S n))). lia.
Qed.

Lemma enter_leave i s C : enter (leave i s C) s = s.
Proof. unfold enter, leave. cbn [cache_values]. by destruct s. Qed.

(** [Cache.Set] of a new key that fits, then [Cache.Get] of the key. *)
Lemma Cache_Set_Get id fileNum offset v x C i s l :
  getShard id fileNum offset C = Ok i ->
  cache_shards C !! i = Some s ->
  Inv (enter C s) l ->
  cache_values C !! v = Some x -> v_refs x = 1 ->
  blocks s !! Key id fileNum offset = None ->
  Z.of_nat (length (v_buf x)) <= targetSize s ->
  exists C' C'',
    returnsA (fun fuel => Cache_Set fuel id fileNum offset v C) (Some v, C') /\
    Cache_Get id fileNum offset C' = Ok (Some v, C'') /\
    cache_values C' !! v = Some (mkValue (v_buf x) 2) /\
    cache_values C'' !! v = Some (mkValue (v_buf x) 3) /\
    (forall j, j <> i ->
       cache_shards C' !! j = cache_shards C !! j /\
       cache_shards C'' !! j = cache_shards C !! j).
Proof.
  intros Hi Hs I Hx Hr Hnone Hfit.
  destruct (getShard_lt _ _ _ _ _ Hi) as [_ Hlt].
  set (k := Key id fileNum offset) in *.
  destruct (Set_total k v x (enter C s) l I Hx Hr) as (c' & Hret & _).
  destruct (returnsA_run _ _ Hret) as [n0 Hrun].
  destruct (Set_absent_admits n0 k v x (enter C s) l (Some v) c' I Hx Hr Hnone Hfit Hrun)
    as (e & ee & _ & Hb & He & Hk & Hcargo & Hv & _).
  assert (e_val ee = Some v) as Hval by (by injection Hcargo).
  set (c'' := Get_hit e ee v (mkValue (v_buf x) 2) c').
  exists (leave i c' C), (leave i c'' (leave i c' C)).
  split; [|split; [|split; [done|split]]].
  - destruct Hret as [n Hn]. exists n. intros m Hm.
    unfold Cache_Set. rewrite Hi. cbn [bind]. unfold onShard. rewrite Hs.
    fold k. by rewrite (Hn m Hm).
  - unfold Cache_Get. rewrite getShard_leave, Hi. cbn [bind]. unfold onShard.
    cbn [leave cache_shards]. rewrite list_lookup_insert_eq by done.
    change (enter _ c') with (enter (leave i c' C) c'). rewrite enter_leave.
    fold k. by rewrite (Get_hit_eq k c' e ee v (mkValue (v_buf x) 2)).
  - cbn [leave cache_values]. subst c''. unfold Get_hit. simpl.
    by rewrite lookup_insert_eq.
  - intros j Hj. cbn [leave cache_shards].
    by rewrite !list_lookup_insert_ne.
Qed.

(** ** The reference count of the cache *)

Lemma Ref_Unref fuel C :
  1 <= cache_refs C ->
  exists C1, Ref C = Ok C1 /\ cache_refs C1 = cache_refs C + 1 /\
             Unref fuel C1 = Ok C.
Proof.
  intros Hr. exists (set_refs (cache_refs C + 1) C). unfold Ref, Unref.
  destruct (cache_refs C + 1 <=? 1) eqn:E; [apply Z.leb_le in E; lia|].
  split; [done|]. split; [done|]. cbn [set_refs cache_refs].
  replace (cache_refs C + 1 - 1) with (cache_refs C) by lia.
  destruct (cache_refs C <? 0) eqn:E1; [apply Z.ltb_lt in E1; lia|].
  destruct (cache_refs C =? 0) eqn:E2; [apply Z.eqb_eq in E2; lia|].
  by destruct C.
Qed.

(** ** Well-formed caches

    Every shard is well formed on the Values of the cache, and no Value is
    held by the rings of two shards. *)

(** Some slot of the ring holds the Value. *)
Definition holds (s : shard) (l : list ptr) (v : vptr) : Prop :=
  exists p e, p ∈ l /\ mem_entries s !! p = Some e /\ e_val e = Some v.

Definition apart (C : Cache) (ls : list (list ptr)) : Prop :=
  forall i j si sj li lj v, i <> j ->
    cache_shards C !! i = Some si -> cache_shards C !! j = Some sj ->
    ls !! i = Some li -> ls !! j = Some lj ->
    holds si li v -> holds sj lj v -> False.

(** The shards before index [n] satisfy [Q], the others are well formed. *)
Definition Mixed (Q : shard -> list ptr -> Prop) (n : nat) (C : Cache)
    (ls : list (list ptr)) : Prop :=
  length ls = length (cache_shards C) /\
  (forall i s l, cache_shards C !! i = Some s -> ls !! i = Some l ->
     if decide (i < n)%nat then Q (enter C s) l else Inv (enter C s) l) /\
  apart C ls.

Definition CInv (C : Cache) (ls : list (list ptr)) : Prop := Mixed Inv O C ls.

(** [Q] does not read the Values that the ring does not hold. *)
Definition Stable (Q : shard -> list ptr -> Prop) : Prop :=
  forall s l H, Q s l ->
    (forall w, holds s l w -> H !! w = mem_values s !! w) ->
    Q (set_values H s) l.

(** What the loop over the shards needs of the operation: it returns on a
    well-formed shard, and touches only the Values of its own ring. *)
Definition ShardStep (Q : shard -> list ptr -> Prop)
    (R : shard -> shard -> Prop) (opf : nat -> shard -> res shard) : Prop :=
  forall s l, Inv s l ->
    exists s' l',
      returnsA (fun fuel => opf fuel s) s' /\ Q s' l' /\
      (forall w, ~ holds s l w -> mem_values s' !! w = mem_values s !! w) /\
      (forall w, holds s' l' w -> holds s l w) /\
      R s s'.

Lemma holds_values H s l v : holds (set_values H s) l v <-> holds s l v.
Proof. done. Qed.

Lemma set_values_set_values H H' s :
  set_values H' (set_values H s) = set_values H' s.
Proof. by destruct s. Qed.

Lemma Stable_Inv : Stable Inv.
Proof.
  intros s l H I Hv. apply (Inv_outside s); try done.
  - intros p e w Hp He Hw. apply Hv. by exists p, e.
  - apply (inv_ct _ _ I).
Qed.

Lemma Mixed_Inv n C ls : Mixed Inv n C ls <-> CInv C ls.
Proof.
  unfold CInv, Mixed. split; intros (Hl & Hi & Ha); split; try done; split;
    try done; intros i s l Hs Hls; specialize (Hi i s l Hs Hls);
    by repeat case_decide.
Qed.

(** One shard runs and touches the Values [T] only, none of which another
    shard holds: the other shards keep what they had. *)
Lemma Mixed_step_gen Q n C ls s l s' l' (T : vptr -> Prop) :
  Stable Q ->
  Mixed Q n C ls ->
  cache_shards C !! n = Some s -> ls !! n = Some l ->
  Q s' l' ->
  (forall w, ~ T w -> mem_values s' !! w = cache_values C !! w) ->
  (forall w, holds s' l' w -> T w) ->
  (forall w j sj lj, T w -> j <> n -> cache_shards C !! j = Some sj ->
     ls !! j = Some lj -> ~ holds sj lj w) ->
  Mixed Q (S n) (leave n s' C) (<[n := l']> ls).
Proof.
  intros HQ (Hlen & Hall & Hap) Hs Hl HQ' Hvf Hsub HT.
  pose proof (lookup_lt_Some _ _ _ Hs) as Hn.
  pose proof (lookup_lt_Some _ _ _ Hl) as Hn'.
  split; [|split].
  - cbn [leave cache_shards]. by rewrite !length_insert.
  - intros i si li Hsi Hli. cbn [leave cache_shards] in Hsi.
    destruct (decide (i = n)) as [->|Hne].
    + rewrite list_lookup_insert_eq in Hsi by done.
      rewrite list_lookup_insert_eq in Hli by done.
      injection Hsi as <-. injection Hli as <-.
      rewrite decide_True by lia. by rewrite enter_leave.
    + rewrite list_lookup_insert_ne in Hsi by done.
      rewrite list_lookup_insert_ne in Hli by done.
      specialize (Hall i si li Hsi Hli).
      assert (forall w, holds si li w ->
                mem_values s' !! w = mem_values (enter C si) !! w) as Hsame.
      { intros w Hw. apply Hvf. intros Hw'.
        by apply (HT w i si li). }
      unfold enter in *. cbn [leave cache_values].
      rewrite <-(set_values_set_values (cache_values C) (mem_values s') si).
      destruct (decide (i < n)%nat).
      * rewrite decide_True by lia. apply HQ; [done|].
        intros w Hw. by apply Hsame.
      * destruct (decide (i < S n)%nat); [lia|].
        apply Stable_Inv; [done|]. intros w Hw. by apply Hsame.
  - intros i j si sj li lj v Hij Hsi Hsj Hli Hlj Hvi Hvj.
    cbn [leave cache_shards] in Hsi, Hsj.
    destruct (decide (i = n)) as [->|Hin];
      destruct (decide (j = n)) as [->|Hjn]; try done.
    + rewrite list_lookup_insert_eq in Hsi by done.
      rewrite list_lookup_insert_eq in Hli by done.
      rewrite list_lookup_insert_ne in Hsj by done.
      rewrite list_lookup_insert_ne in Hlj by done.
      injection Hsi as <-. injection Hli as <-.
      apply (HT v j sj lj); try done. by apply Hsub.
    + rewrite list_lookup_insert_eq in Hsj by done.
      rewrite list_lookup_insert_eq in Hlj by done.
      rewrite list_lookup_insert_ne in Hsi by done.
      rewrite list_lookup_insert_ne in Hli by done.
      injection Hsj as <-. injection Hlj as <-.
      apply (HT v i si li); try done. by apply Hsub.
    + rewrite list_lookup_insert_ne in Hsi by done.
      rewrite list_lookup_insert_ne in Hli by done.
      rewrite list_lookup_insert_ne in Hsj by done.
      rewrite list_lookup_insert_ne in Hlj by done.
      by apply (Hap i j si sj li lj v).
Qed.

Lemma Mixed_step Q n C ls s l s' l' :
  Stable Q ->
  Mixed Q n C ls ->
  cache_shards C !! n = Some s -> ls !! n = Some l ->
  Q s' l' ->
  (forall w, ~ holds s l w -> mem_values s' !! w = cache_values C !! w) ->
  (forall w, holds s' l' w -> holds s l w) ->
  Mixed Q (S n) (leave n s' C) (<[n := l']> ls).
Proof.
  intros HQ M Hs Hl HQ' Hvf Hsub.
  apply (Mixed_step_gen Q n C ls s l s' l' (holds s l)); try done.
  intros w j sj lj Hw Hj Hsj Hlj Hw'.
  destruct M as (_ & _ & Hap). by apply (Hap j n sj s lj l w).
Qed.

(** The loop over the shards. *)
Lemma eachShardFrom_spec Q R opf :
  Stable Q -> ShardStep Q R opf ->
  forall n i C ls,
    (i + n = length (cache_shards C))%nat -> Mixed Q i C ls ->
    exists C' ls',
      returnsA (fun fuel => eachShardFrom (opf fuel) n i C) C' /\
      Mixed Q (i + n) C' ls' /\
      cache_refs C' = cache_refs C /\ cache_maxSize C' = cache_maxSize C /\
      cache_idAlloc C' = cache_idAlloc C /\
      length (cache_shards C') = length (cache_shards C) /\
      (forall j, (j < i)%nat -> cache_shards C' !! j = cache_shards C !! j) /\
      (forall j s, (i <= j)%nat -> cache_shards C !! j = Some s ->
         exists H s', cache_shards C' !! j = Some s' /\ R (set_values H s) s') /\
      (forall w, (forall j s l, (i <= j)%nat -> cache_shards C !! j = Some s ->
                    ls !! j = Some l -> ~ holds s l w) ->
         cache_values C' !! w = cache_values C !! w).
Proof.
  intros HQ Hstep. induction n as [|n IH]; intros i C ls Hlen M.
  - exists C, ls. split; [by exists O|]. rewrite Nat.add_0_r.
    repeat (split; [done|]). split; [|done].
    intros j s Hj Hs. apply lookup_lt_Some in Hs. lia.
  - destruct (lookup_lt_is_Some_2 (cache_shards C) i) as [s Hs]; [lia|].
    destruct M as (Hl & Hall & Hap).
    destruct (lookup_lt_is_Some_2 ls i) as [l Hli]; [lia|].
    pose proof (Hall i s l Hs Hli) as I.
    rewrite decide_False in I by lia.
    destruct (Hstep (enter C s) l I)
      as (s' & l' & [n1 Hret1] & HQ' & Hvf & Hsub & HR).
    assert (Mixed Q (S i) (leave i s' C) (<[i := l']> ls)) as M1.
    { apply (Mixed_step Q i C ls s l s' l'); try done. }
    destruct (IH (S i) (leave i s' C) (<[i := l']> ls))
      as (C' & ls' & [n2 Hret2] & M' & Hr & Hm & Hid & Hlen' & Hold & HRs & Hvals);
      [cbn [leave cache_shards]; rewrite length_insert; lia|done|].
    exists C', ls'. split; [|split; [|split; [|split; [|split; [|split; [|split; [|split]]]]]]].
    + exists (n1 `max` n2)%nat. intros m Hm'. cbn [eachShardFrom].
      unfold onShard. rewrite Hs. rewrite (Hret1 m) by lia. cbn [bind fst snd].
      apply Hret2. lia.
    + by replace (i + S n)%nat with (S i + n)%nat by lia.
    + by rewrite Hr.
    + by rewrite Hm.
    + by rewrite Hid.
    + rewrite Hlen'. cbn [leave cache_shards]. by rewrite length_insert.
    + intros j Hj. rewrite Hold by lia. cbn [leave cache_shards].
      rewrite list_lookup_insert_ne by lia. done.
    + intros j sj Hj Hsj. destruct (decide (j = i)) as [->|Hne].
      * assert (sj = s) as -> by congruence.
        exists (cache_values C), s'. split; [|done].
        rewrite Hold by lia. cbn [leave cache_shards].
        apply list_lookup_insert_eq. by apply lookup_lt_Some in Hs.
      * apply HRs; [lia|]. cbn [leave cache_shards].
        by rewrite list_lookup_insert_ne.
    + intros w Hw. rewrite Hvals.
      * cbn [leave cache_values]. rewrite Hvf; [done|].
        by apply (Hw i s l).
      * intros j sj lj Hj Hsj Hlj. cbn [leave cache_shards] in Hsj.
        rewrite list_lookup_insert_ne in Hsj by lia.
        rewrite list_lookup_insert_ne in Hlj by lia.
        apply (Hw j sj lj); [lia|done|done].
Qed.

Lemma eachShard_spec Q R opf C ls :
  Stable Q -> ShardStep Q R opf -> CInv C ls ->
  exists C' ls',
    returnsA (fun fuel => eachShard (opf fuel) C) C' /\
    Mixed Q (length (cache_shards C)) C' ls' /\
    cache_refs C' = cache_refs C /\ cache_maxSize C' = cache_maxSize C /\
    cache_idAlloc C' = cache_idAlloc C /\
    length (cache_shards C') = length (cache_shards C) /\
    (forall j s, cache_shards C !! j = Some s ->
       exists H s', cache_shards C' !! j = Some s' /\ R (set_values H s) s') /\
    (forall w, (forall j s l, cache_shards C !! j = Some s ->
                  ls !! j = Some l -> ~ holds s l w) ->
       cache_values C' !! w = cache_values C !! w).
Proof.
  intros HQ Hstep M.
  destruct (eachShardFrom_spec Q R opf HQ Hstep (length (cache_shards C)) O C ls)
    as (C' & ls' & Hret & M' & Hr & Hm & Hid & Hlen & _ & HR & Hv); [done| |].
  { destruct M as (? & Hall & ?). split; [done|]. split; [|done].
    intros i s l Hs Hl. specialize (Hall i s l Hs Hl).
    by rewrite decide_False in * by lia. }
  exists C', ls'. repeat (split; [done|]). split.
  - intros j s Hs. apply (HR j s); [lia|done].
  - intros w Hw. apply Hv. intros j s l _. apply Hw.
Qed.

(** ** Reservations *)

Definition Reserved (n : Z) (s s' : shard) : Prop :=
  reservedSize s' = wrap64 (reservedSize s + n) /\ maxSize s' = maxSize s /\
  sizeHot s' + sizeCold s' < targetSize s'.

Lemma Frame_holds l c c' l' :
  Frame l c c' l' ->
  (forall w, ~ holds c l w -> mem_values c' !! w = mem_values c !! w) /\
  (forall w, holds c' l' w -> holds c l w).
Proof.
  intros F. split.
  - intros w Hw. apply (fr_values _ _ _ _ F). intros p ep Hp Hep Hv.
    apply Hw. by exists p, ep.
  - intros w (p & ep' & Hp & Hep' & Hv).
    destruct (fr_held _ _ _ _ F p ep' w Hp Hep' Hv) as (ep & Hep & Hv').
    exists p, ep. split; [by apply (fr_sub _ _ _ _ F)|done].
Qed.

Lemma Reserve_step n : ShardStep Inv (Reserved n) (fun fuel => Reserve fuel n).
Proof.
  intros s l I.
  destruct (Reserve_total n s l I) as (s' & l' & Hret & I' & F & Hres & Hmax & Hlt).
  destruct (Frame_holds _ _ _ _ F) as [Hvf Hsub].
  assert (mem_entries (Reserve_pre n s) = mem_entries s /\
          mem_values (Reserve_pre n s) = mem_values s) as [He Hv].
  { unfold Reserve_pre. cbv zeta. by destruct (_ <? _). }
  exists s', l'. split; [done|]. split; [done|]. split; [|split; [|done]].
  - intros w Hw. rewrite Hvf; [by rewrite Hv|].
    intros (p & ep & Hp & Hep & Hval). apply Hw. exists p, ep.
    by rewrite <-He.
  - intros w Hw. destruct (Hsub w Hw) as (p & ep & Hp & Hep & Hval).
    exists p, ep. by rewrite <-He.
Qed.

Lemma ceil_share n len :
  0 <= n -> 0 < len ->
  n <= len * ((n + len - 1) ÷ len) < n + len.
Proof.
  intros Hn Hlen. rewrite Z.quot_div_nonneg by lia.
  pose proof (Z.div_mod (n + len - 1) len ltac:(lia)).
  pose proof (Z.mod_pos_bound (n + len - 1) len Hlen). lia.
Qed.

(** Giving a reservation back restores the reserved size as a 64-bit
    integer, and with it the target size. *)
Lemma wrap64_back r n :
  wrap64 (wrap64 (r + n) + wrap64 (- n)) = wrap64 r.
Proof. rewrite wrap64_add_l, wrap64_add_r. f_equal. lia. Qed.

Lemma targetSize_wrap s s' :
  maxSize s' = maxSize s -> reservedSize s' = wrap64 (reservedSize s) ->
  targetSize s' = targetSize s.
Proof. intros Hm Hr. unfold targetSize. by rewrite Hm, Hr, wrap64_sub_r. Qed.

(** [Cache.Reserve] and the closure it returns. *)
Lemma Cache_Reserve_spec n C ls :
  CInv C ls -> cache_shards C <> [] ->
  let len := Z.of_nat (length (cache_shards C)) in
  let shardN := wrap64 (n + len - 1) ÷ len in
  exists C1 ls1,
    returnsA (fun fuel => Cache_Reserve fuel n C) (shardN, C1) /\
    CInv C1 ls1 /\
    (forall j s, cache_shards C !! j = Some s ->
       exists s1, cache_shards C1 !! j = Some s1 /\
         reservedSize s1 = wrap64 (reservedSize s + shardN) /\
         maxSize s1 = maxSize s /\
         sizeHot s1 + sizeCold s1 < targetSize s1) /\
    (0 <= n -> n + len - 1 < 2 ^ 63 -> n <= len * shardN < n + len) /\
    (shardN <> -1 ->
     exists C2 ls2,
       returnsA (fun fuel => Unreserve fuel shardN C1) (-1, C2) /\
       CInv C2 ls2 /\
       (forall j s, cache_shards C !! j = Some s ->
          exists s2, cache_shards C2 !! j = Some s2 /\
            reservedSize s2 = wrap64 (reservedSize s) /\
            maxSize s2 = maxSize s /\ targetSize s2 = targetSize s /\
            sizeHot s2 + sizeCold s2 < targetSize s2) /\
       forall fuel, Unreserve fuel (-1) C2 = Panic).
Proof.
  intros M Hne len shardN.
  assert (0 < len) as Hlen.
  { subst len. destruct (cache_shards C); [done|]. simpl length. lia. }
  destruct (eachShard_spec Inv (Reserved shardN) (fun fuel => Reserve fuel shardN)
              C ls Stable_Inv (Reserve_step shardN) M)
    as (C1 & ls1 & [n1 Hret1] & M1 & _ & _ & _ & Hlen1 & HR1 & _).
  apply Mixed_Inv in M1.
  exists C1, ls1. split; [|split; [done|split; [|split]]].
  - exists n1. intros m Hm. unfold Cache_Reserve.
    destruct (length (cache_shards C)) eqn:E; [subst len; lia|].
    fold len. fold shardN. by rewrite (Hret1 m Hm).
  - intros j s Hs. destruct (HR1 j s Hs) as (H & s1 & Hs1 & Hr & Hm & Hlt).
    exists s1. done.
  - intros Hn Hbig. subst shardN. rewrite wrap64_id by lia.
    by apply ceil_share.
  - intros Hn1.
    destruct (eachShard_spec Inv (Reserved (wrap64 (- shardN)))
                (fun fuel => Reserve fuel (wrap64 (- shardN))) C1 ls1
                Stable_Inv (Reserve_step (wrap64 (- shardN))) M1)
      as (C2 & ls2 & [n2 Hret2] & M2 & _ & _ & _ & Hlen2 & HR2 & _).
    apply Mixed_Inv in M2.
    exists C2, ls2. split; [|split; [done|split]].
    + exists n2. intros m Hm. unfold Unreserve.
      destruct (shardN =? -1) eqn:E; [apply Z.eqb_eq in E; lia|].
      by rewrite (Hret2 m Hm).
    + intros j s Hs. destruct (HR1 j s Hs) as (H & s1 & Hs1 & Hr & Hm & Hlt).
      destruct (HR2 j s1 Hs1) as (H' & s2 & Hs2 & Hr' & Hm' & Hlt').
      exists s2. split; [done|].
      cbn [reservedSize maxSize set_values] in Hr, Hm, Hr', Hm'.
      assert (reservedSize s2 = wrap64 (reservedSize s)) as Hback
        by (rewrite Hr', Hr; apply wrap64_back).
      assert (maxSize s2 = maxSize s) as Hmax by congruence.
      split; [done|]. split; [done|].
      split; [by apply targetSize_wrap|done].
    + done.
Qed.

(** ** The last reference *)

Definition Emptied (s : shard) (l : list ptr) : Prop :=
  l = [] /\ blocks s = ∅ /\ files s = ∅ /\
  handHot s = None /\ handCold s = None /\ handTest s = None.

Lemma Free_step :
  ShardStep Emptied (fun s s' => scalars s' = scalars s) shard_Free.
Proof.
  intros s l I.
  destruct (shard_Free_spec s l (inv_struct _ _ I) (Inv_Owned _ _ I))
    as (s' & Hret & Hb & Hf & Hh & Hc & Ht & _ & _ & Hun & _ & Hsc).
  exists s', []. split; [|split; [done|split; [|split; [|done]]]].
  - exists (S (length l)). intros m Hm. apply Hret. lia.
  - intros w Hw. apply Hun. intros p e Hp He Hv. apply Hw. by exists p, e.
  - intros w (p & _ & Hp & _). by apply elem_of_nil in Hp.
Qed.

Lemma Stable_Emptied : Stable Emptied.
Proof. intros s l H Hq _. done. Qed.

(** [Unref] of the last reference frees every shard. *)
Lemma Unref_last C ls :
  CInv C ls -> cache_refs C = 1 ->
  exists C',
    returnsA (fun fuel => Unref fuel C) C' /\ cache_refs C' = 0 /\
    length (cache_shards C') = length (cache_shards C) /\
    (forall j s', cache_shards C' !! j = Some s' ->
       blocks s' = ∅ /\ files s' = ∅ /\
       handHot s' = None /\ handCold s' = None /\ handTest s' = None) /\
    (forall j s, cache_shards C !! j = Some s ->
       exists s', cache_shards C' !! j = Some s' /\ scalars s' = scalars s) /\
    (forall w, (forall j s l, cache_shards C !! j = Some s ->
                  ls !! j = Some l -> ~ holds s l w) ->
       cache_values C' !! w = cache_values C !! w) /\
    Ref C' = Panic /\ (forall fuel, Unref fuel C' = Panic).
Proof.
  intros M Hr.
  assert (CInv (set_refs 0 C) ls) as M0 by done.
  destruct (eachShard_spec Emptied (fun s s' => scalars s' = scalars s)
              shard_Free (set_refs 0 C) ls Stable_Emptied Free_step M0)
    as (C' & ls' & [n Hret] & M' & Hr' & _ & _ & Hlen & HR & Hv).
  cbn [set_refs cache_refs cache_shards cache_values] in *.
  exists C'. split; [|split; [done|split; [done|split; [|split; [|split; [done|]]]]]].
  - exists n. intros m Hm. unfold Unref. rewrite Hr. cbn [Z.sub Z.add Z.opp Z.pos_sub Z.ltb Z.eqb Z.compare].
    by apply Hret.
  - intros j s' Hs'. destruct M' as (Hl' & Hall & _).
    destruct (lookup_lt_is_Some_2 ls' j) as [l' Hl'j].
    { rewrite Hl'. by apply lookup_lt_Some in Hs'. }
    specialize (Hall j s' l' Hs' Hl'j).
    rewrite decide_True in Hall
      by (apply lookup_lt_Some in Hs'; lia).
    by destruct Hall as (_ & ? & ? & ? & ? & ?).
  - intros j s Hs. destruct (HR j s Hs) as (H & s' & Hs' & Hsc).
    by exists s'.
  - split.
    + unfold Ref. by rewrite Hr'.
    + intros fuel. unfold Unref. by rewrite Hr'.
Qed.

(** ** The Values that [EvictFile] releases *)

Lemma release_frame ov c c' :
  release ov c = Ok c' ->
  forall w, ov <> Some w -> mem_values c' !! w = mem_values c !! w.
Proof.
  destruct ov as [v|]; cbn [release]; [|by intros [= <-]].
  unfold getV. destruct (mem_values c !! v) as [x|]; [|done]. cbn [bind].
  destruct (_ <? 0); [done|].
  destruct (_ =? 0); intros [= <-] w Hw; simpl.
  - rewrite lookup_delete_ne; [done|congruence].
  - rewrite lookup_insert_ne; [done|congruence].
Qed.

Lemma releaseAll_frame obs : forall c c',
  releaseAll obs c = Ok c' ->
  forall w, Some w ∉ obs -> mem_values c' !! w = mem_values c !! w.
Proof.
  induction obs as [|ov obs IH]; intros c c' Hrun w Hw.
  - simpl in Hrun. by injection Hrun as <-.
  - simpl in Hrun. apply bind_Ok in Hrun as (c1 & Hrel & Hrun).
    rewrite (IH c1 c' Hrun w) by set_solver.
    apply (release_frame ov c c1 Hrel). set_solver.
Qed.

Lemma Evicted_holds fk l c c' l' w :
  Evicted fk l c c' l' -> holds c' l' w -> holds c l w.
Proof.
  intros E (p & ep' & Hp & Hep' & Hv).
  pose proof (ev_cargo _ _ _ _ _ E p Hp) as Hc. unfold fld in Hc.
  rewrite Hep' in Hc. destruct (mem_entries c !! p) as [ep|] eqn:Hep; [|done].
  simpl in Hc. injection Hc as Hval _ _ _.
  exists p, ep. split; [by apply (ev_sub _ _ _ _ _ E)|]. split; [done|congruence].
Qed.

Lemma evictFileLoop_values fk room : forall b obs c l more obs' c',
  Inv c l -> b ∈ l -> fld fileOf c b = Some fk -> pending c l obs ->
  evictFileLoop room b obs c = Ok (more, obs', c') ->
  mem_values c' = mem_values c /\
  forall w, Some w ∈ obs' -> Some w ∈ obs \/ holds c l w.
Proof.
  induction room as [|room IH]; intros b obs c l more obs' c' I Hin Hfile Hpend Hrun.
  { simpl in Hrun. injection Hrun as <- <- <-. split; [done|]. by left. }
  destruct (evictFile_step fk c l b obs I Hin Hfile Hpend)
    as (eb & c1 & l1 & He & Hev & I1 & E1 & P1 & Hlen & Hnext & Hlast).
  destruct (metaEvict_spec c l b I Hin)
    as (eb' & c1' & l1' & He' & Hev' & _ & _ & _ & Hv1 & _).
  assert (eb' = eb) as -> by congruence.
  assert (c1' = c1) as -> by congruence.
  simpl in Hrun. unfold getE at 1 in Hrun. rewrite He in Hrun.
  cbn [bind] in Hrun. rewrite Hev in Hrun. cbn [bind fst snd] in Hrun.
  assert (forall w, Some w ∈ obs ++ [e_val eb] -> Some w ∈ obs \/ holds c l w)
    as Hstep.
  { intros w Hw. apply elem_of_app in Hw as [Hw|Hw]; [by left|].
    apply list_elem_of_singleton in Hw. right. by exists b, eb. }
  destruct (decide (b = e_fileNext eb)) as [Heq|Hne].
  - rewrite (checkConsistency_ok c1 l1 I1) in Hrun. cbn [bind] in Hrun.
    injection Hrun as <- <- <-. done.
  - destruct (Hnext Hne) as [Hn Hnf].
    destruct (IH (e_fileNext eb) (obs ++ [e_val eb]) c1 l1 more obs' c'
                I1 Hn Hnf P1 Hrun) as [Hv2 Hobs].
    split; [congruence|]. intros w Hw.
    destruct (Hobs w Hw) as [Hw'|Hw']; [by apply Hstep|].
    right. by apply (Evicted_holds fk l c c1 l1).
Qed.

Lemma evictFileRun_values fk c l more c' :
  Inv c l -> evictFileRun fk c = Ok (more, c') ->
  forall w, ~ holds c l w -> mem_values c' !! w = mem_values c !! w.
Proof.
  intros I Hrun w Hw. unfold evictFileRun in Hrun.
  destruct (st_files _ _ (inv_struct _ _ I) fk) as (lf & _ & _ & Hmem & Hhead).
  destruct (files c !! fk) as [b|] eqn:Hf; [|by injection Hrun as <- <-].
  apply Hmem in Hhead as [Hin Hfile].
  apply bind_Ok in Hrun as ([[more' obs] c1] & Hloop & Hrun).
  apply bind_Ok in Hrun as (c2 & Hrel & Hrun).
  injection Hrun as <- <-. cbn [fst snd] in *.
  destruct (evictFileLoop_values fk blocksPerMutexAcquisition b [] c l
              more' obs c1 I Hin Hfile)
    as [Hv Hobs]; [|done|].
  { split; [apply NoDup_nil_2|]. intros x Hx. by apply elem_of_nil in Hx. }
  rewrite (releaseAll_frame obs c1 c2 Hrel w), Hv; [done|].
  intros Hx. destruct (Hobs w Hx) as [Hx'|Hx']; [by apply elem_of_nil in Hx'|done].
Qed.

Lemma EvictFile_values id fileNum fuel : forall c l c',
  Inv c l -> EvictFile fuel id fileNum c = Ok c' ->
  forall w, ~ holds c l w -> mem_values c' !! w = mem_values c !! w.
Proof.
  induction fuel as [|fuel IH]; intros c l c' I Hrun w Hw; [done|].
  destruct (evictFileRun_spec (Key id fileNum 0) c l I)
    as (more & c1 & l1 & Hrun1 & I1 & E1 & _).
  simpl in Hrun. rewrite Hrun1 in Hrun. cbn [bind fst snd] in Hrun.
  pose proof (evictFileRun_values _ c l more c1 I Hrun1 w Hw) as Hv1.
  destruct more; [|by injection Hrun as <-].
  rewrite (IH c1 l1 c' I1 Hrun w); [done|].
  intros Hx. apply Hw.
  by apply (Evicted_holds (Key id fileNum 0) l c c1 l1).
Qed.

(** ** [Cache.EvictFile] *)

Definition FileGone (fk : key) (s s' : shard) : Prop :=
  forall k, blocks s' !! k = if decide (file k = fk) then None else blocks s !! k.

Lemma EvictFile_step id fileNum :
  ShardStep Inv (FileGone (Key id fileNum 0))
    (fun fuel => EvictFile fuel id fileNum).
Proof.
  intros s l I.
  destruct (EvictFile_spec id fileNum (S (length l)) s l I)
    as (s' & l' & Hrun & I' & E & Hnone); [lia|].
  exists s', l'. split; [|split; [done|split; [|split]]].
  - exists (S (length l)). intros m Hm.
    destruct (EvictFile_spec id fileNum m s l I) as (s2 & l2 & Hrun2 & _); [lia|].
    rewrite Hrun2. f_equal.
    clear -Hrun Hrun2 Hm. revert s s' s2 Hrun Hrun2 Hm.
    generalize (S (length l)). intros a. revert m.
    induction a as [|a IH]; intros m s s' s2 Ha Hm Hle; [done|].
    destruct m as [|m]; [lia|]. simpl in Ha, Hm.
    destruct (evictFileRun (Key id fileNum 0) s) as [[more c1]| |]; try done.
    cbn [bind fst snd] in *. destruct more; [|congruence].
    apply (IH m c1); [done|done|lia].
  - by apply (EvictFile_values id fileNum (S (length l)) s l s').
  - intros w. by apply (Evicted_holds (Key id fileNum 0) l s s' l').
  - intros k. destruct (decide (file k = Key id fileNum 0)) as [Hk|Hk].
    + destruct (blocks s' !! k) as [p|] eqn:Hb; [|done].
      apply (st_blocks _ _ (inv_struct _ _ I')) in Hb as [Hp Hkey].
      destruct (Hnone p Hp). unfold fld in *.
      destruct (mem_entries s' !! p) as [ep|]; [|done]. simpl in *.
      injection Hkey as Hkey. unfold fileOf. by rewrite Hkey, Hk.
    + by apply (ev_blocks _ _ _ _ _ E).
Qed.

(** [Cache.EvictFile] returns on a well-formed cache and leaves no key of
    the file in any shard. *)
Lemma Cache_EvictFile_spec id fileNum C ls :
  CInv C ls -> id <> 0%N ->
  exists C' ls',
    returnsA (fun fuel => Cache_EvictFile fuel id fileNum C) C' /\
    CInv C' ls' /\
    length (cache_shards C') = length (cache_shards C) /\
    (forall j s, cache_shards C !! j = Some s ->
       exists s', cache_shards C' !! j = Some s' /\
                  FileGone (Key id fileNum 0) s s') /\
    (forall offset, cache_shards C <> [] ->
       exists C'', Cache_Get id fileNum offset C' = Ok (None, C'')).
Proof.
  intros M Hid.
  destruct (eachShard_spec Inv (FileGone (Key id fileNum 0))
              (fun fuel => EvictFile fuel id fileNum) C ls
              Stable_Inv (EvictFile_step id fileNum) M)
    as (C' & ls' & [n Hret] & M' & _ & _ & _ & Hlen & HR & _).
  apply Mixed_Inv in M'.
  assert (forall j s, cache_shards C !! j = Some s ->
            exists s', cache_shards C' !! j = Some s' /\
                       FileGone (Key id fileNum 0) s s') as Hgone.
  { intros j s Hs. destruct (HR j s Hs) as (H & s' & Hs' & Hg). by exists s'. }
  exists C', ls'. split; [|split; [done|split; [done|split; [done|]]]].
  - exists n. intros m Hm. unfold Cache_EvictFile.
    destruct (id =? 0)%N eqn:E; [by apply N.eqb_eq in E|]. by apply Hret.
  - intros offset Hne. unfold Cache_Get.
    destruct (getShard id fileNum offset C') as [i| |] eqn:Hi.
    + destruct (getShard_lt _ _ _ _ _ Hi) as [_ Hlt].
      destruct (lookup_lt_is_Some_2 (cache_shards C) i) as [s Hs]; [lia|].
      destruct (Hgone i s Hs) as (s' & Hs' & Hg).
      cbn [bind]. unfold onShard. rewrite Hs'.
      rewrite (Get_absent_eq (Key id fileNum offset) (enter C' s')).
      * cbn [bind fst snd]. eauto.
      * unfold enter. cbn [blocks set_values]. rewrite (Hg (Key id fileNum offset)).
        by rewrite decide_True.
    + exfalso. unfold getShard in Hi.
      destruct (id =? 0)%N eqn:E; [by apply N.eqb_eq in E|].
      cbv zeta in Hi. rewrite Hlen in Hi.
      destruct (cache_shards C); [done|]. simpl length in Hi. done.
    + exfalso. unfold getShard in Hi.
      destruct (id =? 0)%N; [done|]. cbv zeta in Hi.
      by destruct (length (cache_shards C')).
Qed.

(** ** The Values that the operations of a shard touch *)

Lemma unheld_holds c l w : unheld c l w <-> ~ holds c l w.
Proof.
  split.
  - intros Hun (p & e & Hp & He & Hv). by apply (Hun p e).
  - intros Hn p e Hp He Hv. apply Hn. by exists p, e.
Qed.

(** What an operation leaves alone: the Values other than [v] that the
    ring does not hold stay as they are, and stay outside the ring. *)
Definition Untouched (v : option vptr) (c : shard) (l : list ptr)
    (c' : shard) (l' : list ptr) : Prop :=
  forall w, v <> Some w -> unheld c l w ->
    mem_values c' !! w = mem_values c !! w /\ unheld c' l' w.

Lemma Frame_Untouched v l c c' l' : Frame l c c' l' -> Untouched v c l c' l'.
Proof.
  intros F w _ Hun. split.
  - by apply (fr_values _ _ _ _ F).
  - by apply (unheld_frame _ _ _ _ w F).
Qed.

Lemma Untouched_trans v c0 l0 c1 l1 c2 l2 :
  Untouched v c0 l0 c1 l1 -> Untouched v c1 l1 c2 l2 ->
  Untouched v c0 l0 c2 l2.
Proof.
  intros U1 U2 w Hw Hun. destruct (U1 w Hw Hun) as [Hv1 Hun1].
  destruct (U2 w Hw Hun1) as [Hv2 Hun2]. split; [congruence|done].
Qed.

Lemma Get_Untouched k c l h c' :
  Inv c l -> Get k c = Ok (h, c') -> Inv c' l /\ Untouched None c l c' l.
Proof.
  intros I Hrun.
  destruct (Get_frame k c l h c' I Hrun)
    as (I' & _ & _ & _ & _ & _ & _ & _ & _ & Hfld).
  split; [done|]. intros w _ Hun. split.
  - destruct (blocks c !! k) as [e|] eqn:Hb.
    + apply (st_blocks _ _ (inv_struct _ _ I)) in Hb as Hin.
      destruct Hin as [Hin _].
      destruct (Struct_alloc c l e (inv_struct _ _ I) Hin) as [ee He].
      destruct (e_val ee) as [v|] eqn:Hv.
      * destruct (proj1 (inv_vals _ _ I) e ee v Hin He Hv) as (x & Hx & _).
        rewrite (Get_hit_eq k c e ee v x Hb He Hv Hx) in Hrun.
        injection Hrun as <- <-. unfold Get_hit. simpl.
        rewrite lookup_insert_ne; [done|]. intros <-. by apply (Hun e ee).
      * rewrite (Get_ghost_eq k c e ee Hb He Hv) in Hrun.
        by injection Hrun as <- <-.
    + rewrite (Get_absent_eq k c Hb) in Hrun. by injection Hrun as <- <-.
  - intros p ep' Hp Hep' Hv'.
    destruct (Hfld p) as (_ & _ & _ & _ & _ & Hval). unfold fld in Hval.
    rewrite Hep' in Hval. destruct (mem_entries c !! p) as [ep|] eqn:Hep; [|done].
    simpl in Hval. apply (Hun p ep); [done|done|congruence].
Qed.

Lemma Delete_Untouched k c l :
  Inv c l ->
  exists c' l', Delete k c = Ok c' /\ Inv c' l' /\ Untouched None c l c' l'.
Proof.
  intros I. unfold Delete.
  destruct (blocks c !! k) as [e|] eqn:Hb.
  - apply (st_blocks _ _ (inv_struct _ _ I)) in Hb as [Hin _].
    destruct (metaEvict_spec c l e I Hin)
      as (ee & c1 & l1 & He & Hrun & Hperm & I1 & F1 & Hv1 & _).
    rewrite Hrun. cbn [bind fst snd].
    rewrite (checkConsistency_ok c1 l1 I1). cbn [bind].
    destruct (release_spec c1 l1 (e_val ee) I1) as (vs & Hrel & I2 & Hoth & _).
    { intros w Hw. split.
      - rewrite Hv1. by apply (proj1 (inv_vals _ _ I) e ee).
      - intros p ep Hp Hep Hpw.
        destruct (fr_held _ _ _ _ F1 p ep w Hp Hep Hpw) as (ep0 & Hep0 & Hw0).
        assert (p = e).
        { apply (proj2 (inv_vals _ _ I) p e ep0 ee w); auto.
          by apply (fr_sub _ _ _ _ F1). }
        subst p. pose proof (st_nodup _ _ (inv_struct _ _ I)) as Hnd.
        rewrite Hperm in Hnd. apply NoDup_cons in Hnd as [Hnot _]. done. }
    exists (set_values vs c1), l1. split; [done|]. split; [done|].
    intros w _ Hun. split.
    + simpl. rewrite Hoth; [by rewrite Hv1|].
      intros Hx. by apply (Hun e ee).
    + intros p ep Hp Hep. simpl in Hep.
      by apply (unheld_frame _ _ _ _ w F1 Hun p ep).
  - exists c, l. split; [done|]. split; [done|]. by intros w _ Hun.
Qed.

(** The end of [Set] for an entry that is not in the ring: [metaAdd], then
    the counters or the release of the entry. *)
Lemma metaAdd_tail_Untouched fuel c l e E v x r
    (add : Z -> Z -> shard -> shard) c' :
  Inv c l -> e ∉ l -> mem_entries c !! e = Some E ->
  blinks E = (e, e) -> flinks E = (e, e) -> blocks c !! e_key E = None ->
  0 <= e_size E -> e_ptype E <> etTest -> e_val E = Some v ->
  mem_values c !! v = Some x -> 2 <= v_refs x -> unheld c l v ->
  (forall c5, add (e_size E) 1 c5 = raise E c5) ->
  metaAdd fuel (e_key E) e c = Ok r ->
  (do c <- (if r.1
            then do ee <- getE e r.2; Ok (add (e_size ee) 1 r.2)
            else free e r.2);
   do _ <- checkConsistency c;
   Ok (Some v, c)) = Ok (Some v, c') ->
  exists l', Inv c' l' /\ Untouched (Some v) c l c' l'.
Proof.
  intros I Hel He Hbl Hfl Hnone Hsz Hty Hval Hx Hrefs Hun Hadd Hrun Hfin.
  destruct (metaAdd_spec fuel c l e E v x r)
    as (c3 & l3 & Hev & I3 & F3 & He3 & Hv3 & Hun3 & Hel3 & Hnone3 & Hlt & Hcase);
    try done.
  destruct Hcase as [[-> Hbig]|(c5 & l5 & -> & Hfit & Hperm & I5 & Hsc5 & Hv5
                                & Hcg5 & Hk5)].
  - cbn [fst snd] in Hfin.
    destruct (free_outside c3 l3 e E v x)
      as (c4 & Hfree & I4 & Hh4 & Hvals4 & _); try done.
    rewrite Hfree in Hfin. cbn [bind] in Hfin.
    rewrite (checkConsistency_ok c4 l3 I4) in Hfin. cbn [bind] in Hfin.
    injection Hfin as <-.
    exists l3. split; [done|]. intros w Hw Hunw. split.
    + rewrite Hvals4, lookup_insert_ne by congruence.
      by apply (fr_values _ _ _ _ F3).
    + intros p ep Hp Hep. rewrite Hh4 in Hep.
      rewrite lookup_delete_ne in Hep by (by intros ->).
      by apply (unheld_frame _ _ _ _ w F3 Hunw p ep).
  - cbn [fst snd] in Hfin.
    assert (exists E5, mem_entries c5 !! e = Some E5 /\ cargo E5 = cargo E)
      as (E5 & He5 & Hcargo).
    { pose proof (Hcg5 e) as Hc. unfold fld in Hc. rewrite He3 in Hc.
      destruct (mem_entries c5 !! e) as [E5|]; [|done].
      exists E5. split; [done|].
      cbn [fmap option_fmap option_map] in Hc. congruence. }
    assert (e_size E5 = e_size E) as Hsz5
      by (unfold cargo in Hcargo; congruence).
    assert (e_val E5 = Some v) as Hval5
      by (unfold cargo in Hcargo; congruence).
    unfold getE in Hfin. rewrite He5 in Hfin. cbn [bind] in Hfin.
    rewrite Hsz5, Hadd in Hfin.
    rewrite (checkConsistency_ok _ l5 I5) in Hfin. cbn [bind] in Hfin.
    injection Hfin as <-.
    destruct (raise_same E c5) as (Rh & Rv & _).
    exists l5. split; [done|]. intros w Hw Hunw. split.
    + rewrite Rv, Hv5. by apply (fr_values _ _ _ _ F3).
    + intros p ep Hp Hep. rewrite Rh in Hep.
      rewrite Hperm in Hp. apply elem_of_cons in Hp as [->|Hp].
      * assert (ep = E5) as -> by congruence. congruence.
      * pose proof (Hcg5 p) as Hc. unfold fld in Hc. rewrite Hep in Hc.
        destruct (mem_entries c3 !! p) as [ep3|] eqn:Hep3; [|done].
        simpl in Hc. injection Hc as Hc _ _ _. rewrite Hc.
        by apply (unheld_frame _ _ _ _ w F3 Hunw p ep3).
Qed.

Lemma Set_absent_Untouched fuel k v x c l h c' :
  Inv c l -> mem_values c !! v = Some x -> v_refs x = 1 ->
  blocks c !! k = None ->
  Set_ fuel k v c = Ok (h, c') ->
  exists l', Inv c' l' /\ Untouched (Some v) c l c' l'.
Proof.
  intros I Hx Hr Hnone Hrun.
  destruct (Set_spec fuel k v c l h c' I Hrun) as (_ & _ & _ & -> & _).
  unfold Set_ in Hrun. unfold getV in Hrun. rewrite Hx in Hrun.
  cbn [bind] in Hrun. rewrite Hr in Hrun. cbn [negb Z.eqb Pos.eqb] in Hrun.
  rewrite Hnone in Hrun.
  destruct (Set_absent_pre_eq k v x c Hx Hr) as [He Hpre].
  cbv zeta in Hpre. rewrite Hpre in Hrun. cbn [bind] in Hrun. rewrite He in Hrun.
  destruct (Set_absent_pre_Inv k v x c l I Hx Hr Hnone)
    as (I2 & Hel & He2 & Hv2 & Hun2 & Hnone2).
  cbv zeta in I2, Hel, He2, Hv2, Hun2, Hnone2.
  assert (mem_entries (Set_absent_pre k v x c)
          = <[fresh (dom (mem_entries c)) :=
                fresh_entry k (Z.of_nat (length (v_buf x))) v c]> (mem_entries c))
    as Hh2 by done.
  assert (mem_values (Set_absent_pre k v x c)
          = <[v := mkValue (v_buf x) 2]> (mem_values c)) as Hvs2 by done.
  set (e := fresh (dom (mem_entries c))) in *.
  set (E := fresh_entry k (Z.of_nat (length (v_buf x))) v c) in *.
  remember (Set_absent_pre k v x c) as c2 eqn:Hc2. clear Hc2.
  assert (e_key E = k) as Hk by done.
  assert (0 <= e_size E) as Hsz by (simpl; lia).
  rewrite <-Hk in Hrun at 1.
  destruct (metaAdd fuel (e_key E) e c2) as [r| |] eqn:Hadd; try done.
  cbn [bind] in Hrun.
  destruct (metaAdd_tail_Untouched fuel c2 l e E v (mkValue (v_buf x) 2) r
              add_cold c') as (l' & I' & U); try done.
  exists l'. split; [done|]. intros w Hw Hunw.
  assert (unheld c2 l w) as Hun2w.
  { intros p ep Hp Hep. rewrite Hh2 in Hep.
    rewrite lookup_insert_ne in Hep by (by intros <-).
    by apply (Hunw p ep). }
  destruct (U w Hw Hun2w) as [HU1 HU2]. split; [|done].
  rewrite HU1, Hvs2. rewrite lookup_insert_ne; [done|congruence].
Qed.

Lemma Set_test_Untouched fuel k v x c l e ee h c' :
  Inv c l -> mem_values c !! v = Some x -> v_refs x = 1 ->
  blocks c !! k = Some e -> mem_entries c !! e = Some ee ->
  e_val ee = None ->
  Set_ fuel k v c = Ok (h, c') ->
  exists l', Inv c' l' /\ Untouched (Some v) c l c' l'.
Proof.
  intros I Hx Hr Hb He Hval Hrun.
  destruct (Set_spec fuel k v c l h c' I Hrun) as (_ & _ & _ & -> & _).
  apply (st_blocks _ _ (inv_struct _ _ I)) in Hb as Hin.
  destruct Hin as [Hin Hkey].
  assert (e_key ee = k) as Hk.
  { unfold fld in Hkey. rewrite He in Hkey. simpl in Hkey. congruence. }
  destruct (Set_test_steps_all k v x c l e ee I Hx Hr Hb He Hval)
    as (h' & l' & Hperm & I3 & Hun3 & HunAll & He2 & Heq).
  rewrite Heq in Hrun. clear Heq.
  set (len := Z.of_nat (length (v_buf x))) in *.
  destruct (Set_test_pre_proj e ee v x h' c)
    as (Ph & Pv & Pb & _).
  cbv zeta in Ph, Pv, Pb. fold len in Ph.
  destruct (Set_test_entry_fields e ee v len)
    as (Ek & Ebl & Efl & Esz & Ety & Eval & _).
  cbv zeta in Ek, Ebl, Efl, Esz, Ety, Eval.
  remember (Set_test_pre e ee v x h' c) as c3 eqn:Hc3 in *. clear Hc3.
  remember (Set_test_entry e ee v len) as E eqn:HE in *. clear HE.
  pose proof (st_nodup _ _ (inv_struct _ _ I)) as Hnd. rewrite Hperm in Hnd.
  apply NoDup_cons in Hnd as [Hel' _].
  assert (e_key E = k) as HkE by congruence.
  rewrite <-HkE in Hrun at 1.
  destruct (metaAdd fuel (e_key E) e c3) as [r| |] eqn:Hadd; try done.
  cbn [bind] in Hrun.
  destruct (metaAdd_tail_Untouched fuel c3 l' e E v (mkValue (v_buf x) 2) r
              add_hot c') as (l'' & I' & U); try done.
  { rewrite Ph. apply lookup_insert_eq. }
  { rewrite Pb, Ek. apply lookup_delete_eq. }
  { rewrite Esz. subst len. lia. }
  { by rewrite Ety. }
  { rewrite Pv, lookup_insert_eq, Hr. done. }
  { intros c5. unfold raise. by rewrite Ety. }
  exists l''. split; [done|]. intros w Hw Hunw.
  destruct (U w Hw (HunAll w Hunw)) as [HU1 HU2]. split; [|done].
  rewrite HU1, Pv. rewrite lookup_insert_ne; [done|congruence].
Qed.

Lemma Set_resident_Untouched fuel k v x c l e ee old h c' :
  Inv c l -> mem_values c !! v = Some x -> v_refs x = 1 ->
  blocks c !! k = Some e -> mem_entries c !! e = Some ee ->
  e_val ee = Some old ->
  Set_ fuel k v c = Ok (h, c') ->
  exists l', Inv c' l' /\ Untouched (Some v) c l c' l'.
Proof.
  intros I Hx Hr Hb He Hval Hrun.
  apply (st_blocks _ _ (inv_struct _ _ I)) in Hb as Hin.
  destruct Hin as [Hin Hkey].
  pose proof (unheld_fresh c l v x I Hx Hr) as Hun.
  destruct (proj1 (inv_vals _ _ I) e ee old Hin He Hval) as (xo & Hxo & Hrefs).
  assert (old <> v) as Hne by (intros ->; by apply (Hun e ee)).
  unfold Set_ in Hrun. unfold getV in Hrun. rewrite Hx in Hrun.
  cbn [bind] in Hrun. rewrite Hr in Hrun. cbn [negb Z.eqb Pos.eqb] in Hrun.
  rewrite Hb in Hrun. unfold peekValue, getE in Hrun. rewrite He in Hrun.
  cbn [bind] in Hrun. rewrite Hval in Hrun.
  apply bind_Ok in Hrun as (c5 & Hrun & Hfin).
  pose proof (Set_resident_pre_eq e ee v x old xo c He Hval Hx Hxo Hne Hrefs)
    as Hpre. cbv zeta in Hpre.
  set (c4 := Set_resident_pre e ee v x old xo c) in *.
  assert (evict fuel c4 = Ok c5) as Hev.
  { revert Hrun Hpre. clear.
    destruct (setValue e (Some v) c) as [c1| |]; cbn [bind]; try done.
    destruct (modE e (set_referenced true) c1) as [c2| |]; cbn [bind]; try done.
    unfold getE.
    destruct (mem_entries c2 !! e) as [e2|]; cbn [bind]; try done.
    destruct (modE e (set_size _) c2) as [c3| |]; cbn [bind]; try done.
    intros H1 H2. injection H2 as H2. by rewrite H2 in H1. }
  pose proof (Set_resident_pre_Inv e ee v x old xo c l I Hin He Hval Hx Hr Hxo)
    as I4. fold c4 in I4.
  destruct (evict_preserves fuel c4 l c5 I4 Hev) as (l5 & I5 & F5).
  rewrite (checkConsistency_ok c5 l5 I5) in Hfin. cbn [bind] in Hfin.
  injection Hfin as <- <-.
  assert (mem_entries c4
          = <[e := Set_resident_entry v (Z.of_nat (length (v_buf x))) ee]>
              (mem_entries c)) as Hh4
    by (subst c4; unfold Set_resident_pre; by case_decide).
  assert (mem_values c4 = <[old := mkValue (v_buf xo) (v_refs xo - 1)]>
            (<[v := mkValue (v_buf x) (v_refs x + 1)]> (mem_values c))) as Hv4
    by (subst c4; unfold Set_resident_pre; by case_decide).
  exists l5. split; [done|]. intros w Hw Hunw.
  assert (w <> old) as Hwo by (intros ->; by apply (Hunw e ee)).
  assert (unheld c4 l w) as Hun4.
  { intros p ep Hp Hep. rewrite Hh4 in Hep.
    destruct (decide (p = e)) as [->|Hpe].
    - rewrite lookup_insert_eq in Hep. injection Hep as <-. simpl. congruence.
    - rewrite lookup_insert_ne in Hep by done. by apply (Hunw p ep). }
  split.
  - rewrite (fr_values _ _ _ _ F5 w Hun4), Hv4.
    rewrite !lookup_insert_ne; [done|congruence|congruence].
  - by apply (unheld_frame _ _ _ _ w F5).
Qed.

(** [Set] touches the Value it is given and the Values of its ring. *)
Lemma Set_Untouched fuel k v c l h c' :
  Inv c l -> Set_ fuel k v c = Ok (h, c') ->
  exists l', Inv c' l' /\ Untouched (Some v) c l c' l'.
Proof.
  intros I Hrun.
  destruct (Set_spec fuel k v c l h c' I Hrun) as (x & Hx & Hr & _).
  destruct (blocks c !! k) as [e|] eqn:Hb.
  - apply (st_blocks _ _ (inv_struct _ _ I)) in Hb as Hin.
    destruct Hin as [Hin _].
    destruct (Struct_alloc c l e (inv_struct _ _ I) Hin) as [ee He].
    destruct (e_val ee) as [old|] eqn:Hv.
    + by apply (Set_resident_Untouched fuel k v x c l e ee old h c').
    + by apply (Set_test_Untouched fuel k v x c l e ee h c').
  - by apply (Set_absent_Untouched fuel k v x c l h c').
Qed.

(** ** Reachable caches are well formed *)

Lemma CInv_intro C ls :
  length ls = length (cache_shards C) ->
  (forall i s l, cache_shards C !! i = Some s -> ls !! i = Some l ->
     Inv (enter C s) l) ->
  apart C ls -> CInv C ls.
Proof.
  intros Hl Hall Hap. split; [done|]. split; [|done].
  intros i s l Hs Hli. destruct (decide (i < 0)%nat); [lia|]. by apply (Hall i).
Qed.

Lemma CInv_shard C ls i s l :
  CInv C ls -> cache_shards C !! i = Some s -> ls !! i = Some l ->
  Inv (enter C s) l.
Proof.
  intros (_ & Hall & _) Hs Hl. specialize (Hall i s l Hs Hl).
  by destruct (decide (i < 0)%nat); [lia|].
Qed.

Lemma CInv_ring C ls i s :
  CInv C ls -> cache_shards C !! i = Some s -> exists l, ls !! i = Some l.
Proof.
  intros (Hl & _) Hs. apply lookup_lt_is_Some_2. rewrite Hl.
  by apply lookup_lt_Some in Hs.
Qed.

(** A change of shard-independent fields keeps the cache well formed. *)
Lemma CInv_fields C C' ls :
  cache_shards C' = cache_shards C -> cache_values C' = cache_values C ->
  CInv C ls -> CInv C' ls.
Proof.
  intros Hs Hv (Hl & Hall & Hap). split; [by rewrite Hs|]. split.
  - intros i s l Hsi Hli. rewrite Hs in Hsi. unfold enter. rewrite Hv.
    by apply (Hall i).
  - intros i j si sj li lj v Hij Hsi Hsj. rewrite Hs in Hsi, Hsj.
    by apply Hap.
Qed.

(** One shard runs an operation that leaves the Values of the other
    shards alone. *)
Lemma CInv_step C ls i s l s' l' ov :
  CInv C ls -> cache_shards C !! i = Some s -> ls !! i = Some l ->
  Inv s' l' -> Untouched ov (enter C s) l s' l' ->
  (forall w j sj lj, ov = Some w -> j <> i -> cache_shards C !! j = Some sj ->
     ls !! j = Some lj -> unheld sj lj w) ->
  CInv (leave i s' C) (<[i := l']> ls).
Proof.
  intros M Hs Hl I' U Hov.
  pose proof M as (Hlen & _ & Hap).
  pose proof (lookup_lt_Some _ _ _ Hs) as Hn.
  pose proof (lookup_lt_Some _ _ _ Hl) as Hn'.
  assert (forall j sj lj w, j <> i -> cache_shards C !! j = Some sj ->
            ls !! j = Some lj -> holds sj lj w ->
            mem_values s' !! w = cache_values C !! w /\ unheld s' l' w) as Hkeep.
  { intros j sj lj w Hj Hsj Hlj Hw. apply (U w).
    - intros ->. apply unheld_holds in Hw; [done|]. by apply (Hov w j).
    - apply unheld_holds. intros Hw'. by apply (Hap j i sj s lj l w). }
  apply CInv_intro.
  - cbn [leave cache_shards]. by rewrite !length_insert.
  - intros j sj lj Hsj Hlj. cbn [leave cache_shards] in Hsj.
    destruct (decide (j = i)) as [->|Hne].
    + rewrite list_lookup_insert_eq in Hsj by done.
      rewrite list_lookup_insert_eq in Hlj by done.
      injection Hsj as <-. injection Hlj as <-. by rewrite enter_leave.
    + rewrite list_lookup_insert_ne in Hsj by done.
      rewrite list_lookup_insert_ne in Hlj by done.
      pose proof (CInv_shard C ls j sj lj M Hsj Hlj) as Ij.
      unfold enter in *. cbn [leave cache_values].
      rewrite <-(set_values_set_values (cache_values C) (mem_values s') sj).
      apply Stable_Inv; [done|]. intros w Hw.
      by destruct (Hkeep j sj lj w Hne Hsj Hlj Hw).
  - intros a b sa sb la lb v Hab Hsa Hsb Hla Hlb Hva Hvb.
    cbn [leave cache_shards] in Hsa, Hsb.
    destruct (decide (a = i)) as [->|Hai];
      destruct (decide (b = i)) as [->|Hbi]; try done.
    + rewrite list_lookup_insert_eq in Hsa by done.
      rewrite list_lookup_insert_eq in Hla by done.
      rewrite list_lookup_insert_ne in Hsb by done.
      rewrite list_lookup_insert_ne in Hlb by done.
      injection Hsa as <-. injection Hla as <-.
      destruct (Hkeep b sb lb v Hbi Hsb Hlb Hvb) as [_ Hun].
      by apply unheld_holds in Hun.
    + rewrite list_lookup_insert_eq in Hsb by done.
      rewrite list_lookup_insert_eq in Hlb by done.
      rewrite list_lookup_insert_ne in Hsa by done.
      rewrite list_lookup_insert_ne in Hla by done.
      injection Hsb as <-. injection Hlb as <-.
      destruct (Hkeep a sa la v Hai Hsa Hla Hva) as [_ Hun].
      by apply unheld_holds in Hun.
    + rewrite list_lookup_insert_ne in Hsa by done.
      rewrite list_lookup_insert_ne in Hla by done.
      rewrite list_lookup_insert_ne in Hsb by done.
      rewrite list_lookup_insert_ne in Hlb by done.
      by apply (Hap a b sa sb la lb v).
Qed.

(** A run of the loop over the shards. *)
Definition ShardPost (op : shard -> res shard) : Prop :=
  forall s l s', Inv s l -> op s = Ok s' ->
    exists l', Inv s' l' /\ Untouched None s l s' l'.

Lemma eachShardFrom_post op :
  ShardPost op ->
  forall n i C ls C',
    CInv C ls -> eachShardFrom op n i C = Ok C' -> exists ls', CInv C' ls'.
Proof.
  intros Hop. induction n as [|n IH]; intros i C ls C' M Hrun.
  - injection Hrun as <-. by exists ls.
  - cbn [eachShardFrom] in Hrun. unfold onShard in Hrun.
    destruct (cache_shards C !! i) as [s|] eqn:Hs; [|done].
    destruct (op (enter C s)) as [s'| |] eqn:Hrun1; try done.
    cbn [bind fst snd] in Hrun.
    destruct (CInv_ring C ls i s M Hs) as [l Hl].
    destruct (Hop (enter C s) l s' (CInv_shard C ls i s l M Hs Hl) Hrun1)
      as (l' & I' & U).
    apply (IH (S i) (leave i s' C) (<[i := l']> ls) C'); [|done].
    by apply (CInv_step C ls i s l s' l' None).
Qed.

Lemma Reserve_post fuel n : ShardPost (Reserve fuel n).
Proof.
  intros s l s' I Hrun. unfold Reserve in Hrun. fold (Reserve_pre n s) in Hrun.
  apply bind_Ok in Hrun as (c5 & Hev & Hfin).
  pose proof (Reserve_pre_Inv n s l I) as I2.
  destruct (evict_preserves fuel _ l c5 I2 Hev) as (l5 & I5 & F5).
  rewrite (checkConsistency_ok c5 l5 I5) in Hfin. cbn [bind] in Hfin.
  injection Hfin as <-.
  assert (mem_entries (Reserve_pre n s) = mem_entries s /\
          mem_values (Reserve_pre n s) = mem_values s) as [He Hv].
  { unfold Reserve_pre. cbv zeta. by destruct (_ <? _). }
  exists l5. split; [done|]. intros w _ Hun.
  assert (unheld (Reserve_pre n s) l w) as Hun2.
  { intros p ep Hp Hep. rewrite He in Hep. by apply (Hun p ep). }
  split.
  - by rewrite (fr_values _ _ _ _ F5 w Hun2), Hv.
  - by apply (unheld_frame _ _ _ _ w F5).
Qed.

Lemma EvictFile_ShardPost fuel id fileNum : ShardPost (EvictFile fuel id fileNum).
Proof.
  intros s l s' I Hrun.
  destruct (EvictFile_post id fileNum fuel s l s' I Hrun) as (l' & I' & E & _).
  exists l'. split; [done|]. intros w _ Hun. split.
  - apply (EvictFile_values id fileNum fuel s l s' I Hrun).
    by apply unheld_holds.
  - apply unheld_holds. intros Hw. apply unheld_holds in Hun. apply Hun.
    by apply (Evicted_holds (Key id fileNum 0) l s s' l').
Qed.

Lemma eachShardFrom_refs op : forall n i C C',
  eachShardFrom op n i C = Ok C' -> cache_refs C' = cache_refs C.
Proof.
  induction n as [|n IH]; intros i C C' Hrun.
  - by injection Hrun as <-.
  - cbn [eachShardFrom] in Hrun. unfold onShard in Hrun.
    destruct (cache_shards C !! i) as [s|]; [|done].
    destruct (op (enter C s)) as [s'| |]; try done.
    cbn [bind fst snd] in Hrun. by rewrite (IH _ _ _ Hrun).
Qed.

Lemma New_CInv procs size :
  (0 < procs)%nat -> 0 <= size < 2 ^ 63 ->
  CInv (New procs size)
    (replicate (length (cache_shards (New procs size))) []).
Proof.
  intros Hp Hs.
  destruct (New_shards procs size Hp) as (Hm & _ & Hall & _ & _ & Hv).
  cbv zeta in Hm, Hall.
  set (C := New procs size) in *.
  apply CInv_intro.
  - by rewrite length_replicate.
  - intros i s l Hsi Hli. apply lookup_replicate in Hli as [-> _].
    rewrite (Hall s) by (by apply list_elem_of_lookup_2 in Hsi).
    unfold enter. rewrite Hv.
    change (set_values ∅ (newShard ?x)) with (newShard x).
    apply Inv_new.
    assert (0 < Z.of_nat (length (cache_shards C))) by (destruct Hm; lia).
    split; [apply Z.quot_pos; lia|].
    rewrite Z.quot_div_nonneg by lia.
    apply Z.div_lt_upper_bound; [lia|nia].
  - intros i j si sj li lj v _ _ _ Hli _ (p & e & Hpin & _) _.
    apply lookup_replicate in Hli as [-> _]. by apply elem_of_nil in Hpin.
Qed.

Lemma Alloc_CInv b C ls : CInv C ls -> CInv (Cache_Alloc b C).2 ls.
Proof.
  intros M. pose proof M as (Hl & _ & Hap). apply CInv_intro; try done.
  intros i s l Hs Hli. cbn [Cache_Alloc snd cache_shards] in Hs.
  pose proof (CInv_shard C ls i s l M Hs Hli) as I.
  unfold enter in *. cbn [Cache_Alloc snd cache_values].
  rewrite <-(set_values_set_values (cache_values C)).
  apply Stable_Inv; [done|]. intros w (p & e & Hp & He & Hv).
  destruct (proj1 (inv_vals _ _ I) p e w Hp He Hv) as (x & Hx & _).
  cbn [mem_values set_values] in *.
  apply lookup_insert_ne. intros <-.
  assert (fresh (dom (cache_values C)) ∈ dom (cache_values C)) as Hin
    by (apply elem_of_dom; eauto).
  by apply is_fresh in Hin.
Qed.

(** Every reachable cache is well formed. *)
Lemma creachable_CInv C : creachable C -> exists ls, CInv C ls.
Proof.
  induction 1 as [procs size Hp Hs|b C _ [ls M]|id fn off C h C' _ [ls M] Hrun
                  |fuel id fn off v C h C' _ [ls M] Hrun
                  |id fn off C C' _ [ls M] Hrun
                  |fuel id fn C C' _ [ls M] Hrun
                  |fuel n C r C' _ [ls M] Hrun
                  |fuel shardN C r C' _ [ls M] Hrun
                  |C C' _ [ls M] Hrun
                  |fuel C C' _ [ls M] Hrun Hpos
                  |C _ [ls M]].
  - eexists. by apply New_CInv.
  - exists ls. by apply Alloc_CInv.
  - unfold Cache_Get in Hrun. apply bind_Ok in Hrun as (i & Hi & Hrun).
    unfold onShard in Hrun.
    destruct (cache_shards C !! i) as [s|] eqn:Hs; [|done].
    apply bind_Ok in Hrun as ([h' s'] & Hop & Hrun).
    injection Hrun as <- <-. cbn [fst snd].
    destruct (CInv_ring C ls i s M Hs) as [l Hl].
    destruct (Get_Untouched _ _ l h' s' (CInv_shard C ls i s l M Hs Hl) Hop)
      as [I' U].
    exists (<[i := l]> ls). by apply (CInv_step C ls i s l s' l None).
  - unfold Cache_Set in Hrun. apply bind_Ok in Hrun as (i & Hi & Hrun).
    unfold onShard in Hrun.
    destruct (cache_shards C !! i) as [s|] eqn:Hs; [|done].
    apply bind_Ok in Hrun as ([h' s'] & Hop & Hrun).
    injection Hrun as <- <-. cbn [fst snd].
    destruct (CInv_ring C ls i s M Hs) as [l Hl].
    pose proof (CInv_shard C ls i s l M Hs Hl) as I.
    destruct (Set_Untouched fuel _ v _ l h' s' I Hop) as (l' & I' & U).
    destruct (Set_spec fuel _ v _ l h' s' I Hop) as (x & Hx & Hr & _).
    exists (<[i := l']> ls).
    apply (CInv_step C ls i s l s' l' (Some v)); try done.
    intros w j sj lj [= <-] Hj Hsj Hlj.
    pose proof (CInv_shard C ls j sj lj M Hsj Hlj) as Ij.
    intros p e Hp He. by apply (unheld_fresh (enter C sj) lj v x Ij Hx Hr p e).
  - unfold Cache_Delete in Hrun. apply bind_Ok in Hrun as (i & Hi & Hrun).
    apply bind_Ok in Hrun as ([u C1] & Hrun & Hfin). injection Hfin as <-.
    unfold onShard in Hrun.
    destruct (cache_shards C !! i) as [s|] eqn:Hs; [|done].
    apply bind_Ok in Hrun as ([u' s'] & Hop & Hrun).
    injection Hrun as <- <-. cbn [fst snd].
    apply bind_Ok in Hop as (s'' & Hdel & Hop).
    injection Hop as _ Hss. subst s''.
    destruct (CInv_ring C ls i s M Hs) as [l Hl].
    destruct (Delete_Untouched (Key id fn off) _ l
                (CInv_shard C ls i s l M Hs Hl))
      as (c' & l' & Hdel' & I' & U).
    assert (c' = s') as -> by congruence.
    exists (<[i := l']> ls). by apply (CInv_step C ls i s l s' l' None).
  - unfold Cache_EvictFile in Hrun. destruct (id =? 0)%N; [done|].
    by apply (eachShardFrom_post _ (EvictFile_ShardPost fuel id fn)
                (length (cache_shards C)) O C ls C').
  - unfold Cache_Reserve in Hrun.
    destruct (length (cache_shards C)) eqn:E; [done|]. rewrite <-E in Hrun.
    apply bind_Ok in Hrun as (C1 & Hrun & Hfin). injection Hfin as _ <-.
    eapply eachShardFrom_post; [apply Reserve_post|exact M|exact Hrun].
  - unfold Unreserve in Hrun. destruct (shardN =? -1); [done|].
    apply bind_Ok in Hrun as (C1 & Hrun & Hfin). injection Hfin as _ <-.
    eapply eachShardFrom_post; [apply Reserve_post|exact M|exact Hrun].
  - unfold Ref in Hrun. destruct (_ <=? 1); [done|]. injection Hrun as <-.
    exists ls. by apply (CInv_fields C).
  - unfold Unref in Hrun. destruct (_ <? 0); [done|].
    destruct (cache_refs C - 1 =? 0) eqn:E.
    + apply Z.eqb_eq in E. apply eachShardFrom_refs in Hrun.
      cbn [set_refs cache_refs] in Hrun. lia.
    + injection Hrun as <-. exists ls. by apply (CInv_fields C).
  - exists ls. by apply (CInv_fields C).
Qed.

(** ** The operations of a reachable cache return *)

Lemma eachShardFrom_length op : forall n i C C',
  eachShardFrom op n i C = Ok C' ->
  length (cache_shards C') = length (cache_shards C).
Proof.
  induction n as [|n IH]; intros i C C' Hrun.
  - by injection Hrun as <-.
  - cbn [eachShardFrom] in Hrun. unfold onShard in Hrun.
    destruct (cache_shards C !! i) as [s|]; [|done].
    destruct (op (enter C s)) as [s'| |]; try done.
    cbn [bind fst snd] in Hrun. rewrite (IH _ _ _ Hrun).
    cbn [leave cache_shards]. by rewrite length_insert.
Qed.

Lemma onShard_length {A} i (op : shard -> res (A * shard)) C a C' :
  onShard i op C = Ok (a, C') ->
  length (cache_shards C') = length (cache_shards C).
Proof.
  unfold onShard. destruct (cache_shards C !! i) as [s|]; [|done].
  destruct (op (enter C s)) as [r| |]; try done. cbn [bind].
  intros [= _ <-]. cbn [leave cache_shards]. by rewrite length_insert.
Qed.

(** A reachable cache has at least four shards. *)
Lemma creachable_shards C :
  creachable C -> (4 <= length (cache_shards C))%nat.
Proof.
  induction 1 as [procs size Hp Hs|b C _ IH|id fn off C h C' _ IH Hrun
                  |fuel id fn off v C h C' _ IH Hrun
                  |id fn off C C' _ IH Hrun
                  |fuel id fn C C' _ IH Hrun
                  |fuel n C r C' _ IH Hrun
                  |fuel shardN C r C' _ IH Hrun
                  |C C' _ IH Hrun
                  |fuel C C' _ IH Hrun Hpos
                  |C _ IH]; try done.
  - destruct (New_shards procs size Hp) as ([Hm|Hm] & _). all: cbv zeta in Hm; lia.
  - unfold Cache_Get in Hrun. apply bind_Ok in Hrun as (i & _ & Hrun).
    by rewrite (onShard_length _ _ _ _ _ Hrun).
  - unfold Cache_Set in Hrun. apply bind_Ok in Hrun as (i & _ & Hrun).
    by rewrite (onShard_length _ _ _ _ _ Hrun).
  - unfold Cache_Delete in Hrun. apply bind_Ok in Hrun as (i & _ & Hrun).
    apply bind_Ok in Hrun as ([u C1] & Hrun & Hfin). injection Hfin as <-.
    by rewrite (onShard_length _ _ _ _ _ Hrun).
  - unfold Cache_EvictFile in Hrun. destruct (id =? 0)%N; [done|].
    by rewrite (eachShardFrom_length _ _ _ _ _ Hrun).
  - unfold Cache_Reserve in Hrun.
    destruct (length (cache_shards C)) eqn:E; [done|]. rewrite <-E in Hrun.
    apply bind_Ok in Hrun as (C1 & Hrun & Hfin). injection Hfin as _ <-.
    rewrite (eachShardFrom_length _ _ _ _ _ Hrun). lia.
  - unfold Unreserve in Hrun. destruct (shardN =? -1); [done|].
    apply bind_Ok in Hrun as (C1 & Hrun & Hfin). injection Hfin as _ <-.
    by rewrite (eachShardFrom_length _ _ _ _ _ Hrun).
  - unfold Ref in Hrun. destruct (_ <=? 1); [done|]. by injection Hrun as <-.
  - unfold Unref in Hrun. destruct (_ <? 0); [done|].
    destruct (cache_refs C - 1 =? 0).
    + by rewrite (eachShardFrom_length _ _ _ _ _ Hrun).
    + by injection Hrun as <-.
Qed.

Lemma getShard_total id fileNum offset C :
  id <> 0%N -> cache_shards C <> [] ->
  exists i s, getShard id fileNum offset C = Ok i /\
              cache_shards C !! i = Some s.
Proof.
  intros Hid Hne. unfold getShard.
  destruct (id =? 0)%N eqn:E; [by apply N.eqb_eq in E|]. cbv zeta.
  generalize (shardHash id fileNum offset). intros h.
  destruct (length (cache_shards C)) as [|n] eqn:Hlen.
  { by destruct (cache_shards C). }
  destruct (lookup_lt_is_Some_2 (cache_shards C)
              (Z.to_nat (h mod Z.of_nat (S n)))) as [s Hs].
  { pose proof (Z.mod_pos_bound h (Z.of_nat (S n))). lia. }
  by exists (Z.to_nat (h mod Z.of_nat (S n))), s.
Qed.

Lemma creachable_nonempty C : creachable C -> cache_shards C <> [].
Proof.
  intros R Hx. apply creachable_shards in R. rewrite Hx in R. simpl in R. lia.
Qed.

Lemma Cache_Get_total id fileNum offset C :
  creachable C -> id <> 0%N ->
  exists h C', Cache_Get id fileNum offset C = Ok (h, C').
Proof.
  intros R Hid. destruct (creachable_CInv C R) as [ls M].
  destruct (getShard_total id fileNum offset C Hid (creachable_nonempty C R))
    as (i & s & Hi & Hs).
  destruct (CInv_ring C ls i s M Hs) as [l Hl].
  destruct (Get_spec (Key id fileNum offset) (enter C s) l
              (CInv_shard C ls i s l M Hs Hl)) as (h & s' & Hrun & _).
  exists h, (leave i s' C). unfold Cache_Get. rewrite Hi. cbn [bind].
  unfold onShard. rewrite Hs. by rewrite Hrun.
Qed.

Lemma Cache_Delete_total id fileNum offset C :
  creachable C -> id <> 0%N ->
  exists C', Cache_Delete id fileNum offset C = Ok C'.
Proof.
  intros R Hid. destruct (creachable_CInv C R) as [ls M].
  destruct (getShard_total id fileNum offset C Hid (creachable_nonempty C R))
    as (i & s & Hi & Hs).
  destruct (CInv_ring C ls i s M Hs) as [l Hl].
  destruct (Delete_spec (Key id fileNum offset) (enter C s) l
              (CInv_shard C ls i s l M Hs Hl)) as (s' & l' & Hrun & _).
  exists (leave i s' C). unfold Cache_Delete. rewrite Hi. cbn [bind].
  unfold onShard. rewrite Hs. by rewrite Hrun.
Qed.

Lemma Cache_Set_total id fileNum offset v x C :
  creachable C -> id <> 0%N ->
  cache_values C !! v = Some x -> v_refs x = 1 ->
  exists C',
    returnsA (fun fuel => Cache_Set fuel id fileNum offset v C) (Some v, C') /\
    exists x', cache_values C' !! v = Some x' /\ v_buf x' = v_buf x.
Proof.
  intros R Hid Hx Hr. destruct (creachable_CInv C R) as [ls M].
  destruct (getShard_total id fileNum offset C Hid (creachable_nonempty C R))
    as (i & s & Hi & Hs).
  destruct (CInv_ring C ls i s M Hs) as [l Hl].
  destruct (Set_total (Key id fileNum offset) v x (enter C s) l
              (CInv_shard C ls i s l M Hs Hl) Hx Hr)
    as (s' & [n Hret] & Hpost).
  exists (leave i s' C). split.
  - exists n. intros m Hm. unfold Cache_Set. rewrite Hi. cbn [bind].
    unfold onShard. rewrite Hs. by rewrite (Hret m Hm).
  - by destruct Hpost as (_ & _ & _ & _ & _ & ?).
Qed.

Lemma onShard_refs {A} i (op : shard -> res (A * shard)) C a C' :
  onShard i op C = Ok (a, C') -> cache_refs C' = cache_refs C.
Proof.
  unfold onShard. destruct (cache_shards C !! i) as [s|]; [|done].
  destruct (op (enter C s)) as [r| |]; try done. cbn [bind].
  by intros [= _ <-].
Qed.

(** A reachable cache has a reference. *)
Lemma creachable_refs C : creachable C -> 1 <= cache_refs C.
Proof.
  induction 1 as [procs size Hp Hs|b C _ IH|id fn off C h C' _ IH Hrun
                  |fuel id fn off v C h C' _ IH Hrun
                  |id fn off C C' _ IH Hrun
                  |fuel id fn C C' _ IH Hrun
                  |fuel n C r C' _ IH Hrun
                  |fuel shardN C r C' _ IH Hrun
                  |C C' _ IH Hrun
                  |fuel C C' _ IH Hrun Hpos
                  |C _ IH].
  - destruct (New_shards procs size Hp) as (_ & _ & _ & Hr & _). lia.
  - exact IH.
  - unfold Cache_Get in Hrun. apply bind_Ok in Hrun as (i & _ & Hrun).
    by rewrite (onShard_refs _ _ _ _ _ Hrun).
  - unfold Cache_Set in Hrun. apply bind_Ok in Hrun as (i & _ & Hrun).
    by rewrite (onShard_refs _ _ _ _ _ Hrun).
  - unfold Cache_Delete in Hrun. apply bind_Ok in Hrun as (i & _ & Hrun).
    apply bind_Ok in Hrun as ([u C1] & Hrun & Hfin). injection Hfin as <-.
    by rewrite (onShard_refs _ _ _ _ _ Hrun).
  - unfold Cache_EvictFile in Hrun. destruct (id =? 0)%N; [done|].
    by rewrite (eachShardFrom_refs _ _ _ _ _ Hrun).
  - unfold Cache_Reserve in Hrun.
    destruct (length (cache_shards C)) eqn:E; [done|]. rewrite <-E in Hrun.
    apply bind_Ok in Hrun as (C1 & Hrun & Hfin). injection Hfin as _ <-.
    by rewrite (eachShardFrom_refs _ _ _ _ _ Hrun).
  - unfold Unreserve in Hrun. destruct (shardN =? -1); [done|].
    apply bind_Ok in Hrun as (C1 & Hrun & Hfin). injection Hfin as _ <-.
    by rewrite (eachShardFrom_refs _ _ _ _ _ Hrun).
  - unfold Ref in Hrun. destruct (_ <=? 1); [done|]. injection Hrun as <-.
    simpl. lia.
  - lia.
  - exact IH.
Qed.

(** ** Metrics of the cache *)

Lemma blocks_size c l : Inv c l -> size (blocks c) = length l.
Proof.
  intros I. rewrite <-(cached_perm c l (inv_struct _ _ I)). unfold cached.
  by rewrite length_fmap, length_map_to_list.
Qed.

Lemma metrics_fold C shards ls : forall m z,
  Forall2 (fun s l => Inv (enter C s) l) shards ls ->
  m_Size (foldl addMetrics m shards) - m_Size m
  = foldl (fun size s => size + Size s) z shards - z /\
  0 <= foldl (fun size s => size + Size s) z shards - z /\
  m_Count (foldl addMetrics m shards)
  = m_Count m + Z.of_nat (length (concat ls)) /\
  m_Hits (foldl addMetrics m shards) - m_Hits m
  = foldl (fun a s => a + hits s) 0 shards /\
  m_Misses (foldl addMetrics m shards) - m_Misses m
  = foldl (fun a s => a + misses s) 0 shards.
Proof.
  intros m z H. revert m z.
  assert (forall l a, foldl (fun a s => a + hits s) a l
                      = a + foldl (fun a s => a + hits s) 0 l) as Hh.
  { induction l as [|s l IH]; intros a; simpl; [lia|].
    rewrite (IH (a + hits s)), (IH (0 + hits s)). lia. }
  assert (forall l a, foldl (fun a s => a + misses s) a l
                      = a + foldl (fun a s => a + misses s) 0 l) as Hm.
  { induction l as [|s l IH]; intros a; simpl; [lia|].
    rewrite (IH (a + misses s)), (IH (0 + misses s)). lia. }
  induction H as [|s l shards ls I _ IH]; intros m z.
  - simpl. repeat split; lia.
  - cbn [foldl concat]. rewrite length_app.
    destruct (IH (addMetrics m s) (z + Size s)) as (H1 & H2 & H3 & H4 & H5).
    destruct (Inv_counters _ l etHot I) as [Hhot _].
    destruct (Inv_counters _ l etCold I) as [Hcold _].
    pose proof (blocks_size _ l I) as Hsz.
    simpl in Hhot, Hcold, Hsz. unfold Size in *.
    cbn [addMetrics m_Size m_Count m_Hits m_Misses] in *.
    rewrite (Hh shards (0 + hits s)), (Hm shards (0 + misses s)).
    repeat split; lia.
Qed.

Lemma Cache_Metrics_spec C ls :
  CInv C ls ->
  m_Size (Cache_Metrics C) = Cache_Size C /\ 0 <= Cache_Size C /\
  m_Count (Cache_Metrics C) = Z.of_nat (length (concat ls)) /\
  m_Hits (Cache_Metrics C) = foldl (fun a s => a + hits s) 0 (cache_shards C) /\
  m_Misses (Cache_Metrics C)
  = foldl (fun a s => a + misses s) 0 (cache_shards C).
Proof.
  intros M.
  assert (Forall2 (fun s l => Inv (enter C s) l) (cache_shards C) ls) as HF.
  { apply Forall2_same_length_lookup_2.
    - by destruct M as [-> _].
    - intros i s l Hs Hl. by apply (CInv_shard C ls i). }
  destruct (metrics_fold C (cache_shards C) ls (mkMetrics 0 0 0 0) 0 HF)
    as (H1 & H2 & H3 & H4 & H5).
  unfold Cache_Metrics, Cache_Size. simpl in *. repeat split; lia.
Qed.

(** * Further properties of the shard *)

(** X1: on a well-formed shard the eviction sweep [evict] returns. It
    leaves a well-formed shard whose resident size is below the target
    size; it adds no entry, and leaves the configuration, the keys outside
    the ring and the Values the ring does not hold as they were. *)
Theorem X1_evict_returns c l :
  Inv c l ->
  exists c' l',
    returns evict c c' /\ Inv c' l' /\ Frame l c c' l' /\
    sizeHot c' + sizeCold c' < targetSize c'.
Proof.
  intros I.
  destruct (evict_returns c l I) as (c' & l' & Hret & I' & F' & _ & Hlt).
  by exists c', l'.
Qed.

Lemma X1_evict_returns_witness :
  exists l c' l',
    Inv ex_pair l /\ returns evict ex_pair c' /\ Inv c' l' /\
    Frame l ex_pair c' l' /\ sizeHot c' + sizeCold c' < targetSize c'.
Proof.
  destruct (reachable_Inv ex_pair ex_pair_reachable) as (l & I & _).
  destruct (X1_evict_returns ex_pair l I) as (c' & l' & H).
  exists l, c', l'. exact (conj I H).
Defined.

(** X2: on a well-formed shard in which [coldTarget] is below the target
    size or some category has a positive size, every hand whose pointer is
    set returns from its step, and so do the two inner loops of the cold
    hand. *)
Theorem X2_hands_return c l :
  Inv c l ->
  coldTarget c < targetSize c \/ 0 < sizeHot c + sizeCold c + sizeTest c ->
  (is_Some (handCold c) -> exists c', returns runHandCold c c') /\
  (is_Some (handHot c) -> exists c', returns runHandHot c c') /\
  (is_Some (handTest c) -> exists c', returns runHandTest c c') /\
  (exists c', returns hotLoop c c') /\
  (exists c', returns testLoop c c').
Proof.
  intros I L.
  destruct (hands_return c l I L) as (H1 & H2 & H3 & H4 & H5). done.
Qed.

Lemma X2_hands_return_witness :
  exists c1 c2 c3,
    returns runHandCold ex_pair c1 /\ returns runHandHot ex_pair c2 /\
    returns runHandTest ex_pair c3.
Proof.
  destruct (reachable_Inv ex_pair ex_pair_reachable) as (l & I & _).
  destruct (X2_hands_return ex_pair l I) as (H1 & H2 & H3 & _).
  { right. by vm_compute. }
  destruct H1 as [c1 H1]; [eexists; vm_compute; reflexivity|].
  destruct H2 as [c2 H2]; [eexists; vm_compute; reflexivity|].
  destruct H3 as [c3 H3]; [eexists; vm_compute; reflexivity|].
  exists c1, c2, c3. exact (conj H1 (conj H2 H3)).
Defined.

(** X3: [Set] returns on every reachable state when it is passed a Value
    with one reference (a Value from [Alloc]). It returns the Handle of that
    Value; the shard is well formed, its target size is unchanged, its
    resident size is below twice the target size, an entry of the key holds
    this Value and no other, and the Value keeps its buffer. *)
Theorem X3_Set_returns k v x c :
  reachable c -> mem_values c !! v = Some x -> v_refs x = 1 ->
  exists c',
    returnsA (fun fuel => Set_ fuel k v c) (Some v, c') /\
    Set_post k v x c (Some v) c'.
Proof.
  intros R Hx Hr. destruct (reachable_Inv c R) as (l & I & _).
  by apply (Set_total k v x c l).
Qed.

Lemma X3_Set_returns_witness :
  exists c',
    returnsA (fun fuel => Set_ fuel kC 3%positive (Alloc (bytes 6) ex_pair).2)
      (Some 3%positive, c') /\
    Set_post kC 3%positive (mkValue (bytes 6) 1) (Alloc (bytes 6) ex_pair).2
      (Some 3%positive) c'.
Proof.
  apply (X3_Set_returns kC 3%positive (mkValue (bytes 6) 1)
           (Alloc (bytes 6) ex_pair).2).
  - apply reach_Alloc. apply ex_pair_reachable.
  - by vm_compute.
  - reflexivity.
Defined.

(** X4: [Reserve] returns on every reachable state, for every amount. The
    reservation is added to [reservedSize] as a 64-bit integer (it is the
    plain sum when that fits), [maxSize] is unchanged, the target size is
    the 64-bit difference of [maxSize] and the new reserved size, but at
    least 1; the shard is well formed and its resident size is below the
    new target size. *)
Theorem X4_Reserve_returns n c :
  reachable c ->
  exists c' l',
    returnsA (fun fuel => Reserve fuel n c) c' /\ Inv c' l' /\
    reservedSize c' = wrap64 (reservedSize c + n) /\
    (- 2 ^ 63 <= reservedSize c + n < 2 ^ 63 ->
       reservedSize c' = reservedSize c + n) /\
    maxSize c' = maxSize c /\
    targetSize c' = Z.max 1 (wrap64 (maxSize c - (reservedSize c + n))) /\
    sizeHot c' + sizeCold c' < targetSize c'.
Proof.
  intros R. destruct (reachable_Inv c R) as (l & I & _).
  destruct (Reserve_total n c l I)
    as (c' & l' & Hret & I' & _ & Hres & Hmax & Hlt).
  exists c', l'. split; [done|]. split; [done|]. split; [done|].
  split; [intros Hfit; by rewrite Hres, wrap64_id|].
  split; [done|]. split; [|done].
  unfold targetSize. rewrite Hmax, Hres, wrap64_sub_r.
  destruct (_ <? 1) eqn:E; [apply Z.ltb_lt in E|apply Z.ltb_ge in E]; lia.
Qed.

(** A reservation of the least 64-bit integer makes the difference wrap
    around: the target size is 1 and the sweep empties the shard. *)
Lemma X4_Reserve_returns_witness :
  exists c' l',
    returnsA (fun fuel => Reserve fuel (- 2 ^ 63) ex_pair) c' /\ Inv c' l' /\
    reservedSize c' = - 2 ^ 63 /\ maxSize c' = 10 /\ targetSize c' = 1 /\
    sizeHot c' + sizeCold c' < 1.
Proof.
  destruct (X4_Reserve_returns (- 2 ^ 63) ex_pair ex_pair_reachable)
    as (c' & l' & H1 & H2 & H3 & _ & H5 & H6 & H7).
  assert (targetSize c' = 1) as HT by (rewrite H6; reflexivity).
  exists c', l'. rewrite HT in H7.
  exact (conj H1 (conj H2 (conj H3 (conj H5 (conj HT H7))))).
Defined.



(** X6: on every reachable state the number of keys in the blocks map
    (the shard's part of [Metrics.Count]) is the sum of the three category
    counts, and the shard's [Size] (its part of [Metrics.Size]) is the sum
    of the sizes of the entries that hold a Value; it is not negative and
    below twice the target size. *)
Theorem X6_shard_metrics c :
  reachable c ->
  m_Count (shardMetrics c) = countHot c + countCold c + countTest c /\
  m_Size (shardMetrics c) = zsum (held_bytes c) (cached c) /\
  Size c = m_Size (shardMetrics c) /\
  0 <= Size c < 2 * targetSize c.
Proof.
  intros R. destruct (reachable_Inv c R) as (l & I & Hlt).
  pose proof (cached_perm c l (inv_struct _ _ I)) as Hperm.
  split; [|split; [|split; [done|]]].
  - simpl. rewrite (count_total c l I), <-Hperm. unfold cached.
    by rewrite length_fmap, length_map_to_list.
  - simpl. rewrite (zsum_perm _ _ _ Hperm). by apply size_resident.
  - unfold Size. split; [|done].
    destruct (Inv_counters c l etHot I) as [? _].
    destruct (Inv_counters c l etCold I) as [? _]. simpl in *. lia.
Qed.

Lemma X6_shard_metrics_witness :
  m_Count (shardMetrics ex_ghost) =
    countHot ex_ghost + countCold ex_ghost + countTest ex_ghost /\
  m_Size (shardMetrics ex_ghost) = zsum (held_bytes ex_ghost) (cached ex_ghost) /\
  Size ex_ghost = m_Size (shardMetrics ex_ghost) /\
  0 <= Size ex_ghost < 2 * targetSize ex_ghost.
Proof. apply (X6_shard_metrics ex_ghost). apply ex_ghost_reachable. Defined.

(** X7: on every reachable state each of the three hands is nil exactly
    when the blocks map is empty, and a hand that is set points to an
    allocated entry that the blocks map holds under the entry's key. *)
Theorem X7_hands_and_blocks c :
  reachable c ->
  (handHot c = None <-> blocks c = ∅) /\
  (handCold c = None <-> blocks c = ∅) /\
  (handTest c = None <-> blocks c = ∅) /\
  (forall e, handHot c = Some e \/ handCold c = Some e \/ handTest c = Some e ->
     exists ee, mem_entries c !! e = Some ee /\ blocks c !! e_key ee = Some e).
Proof.
  intros R. destruct (reachable_Inv c R) as (l & I & _).
  pose proof (inv_struct _ _ I) as S.
  assert (l = [] <-> blocks c = ∅) as Hnil.
  { split.
    - intros ->. apply map_empty. intros k.
      destruct (blocks c !! k) as [p|] eqn:Hb; [|done].
      apply (st_blocks _ _ S) in Hb as [Hp _]. by apply elem_of_nil in Hp.
    - intros Hb. destruct l as [|p l]; [done|].
      destruct (Struct_alloc c (p :: l) p S) as [e He]; [set_solver|].
      assert (blocks c !! e_key e = Some p) as Hk.
      { apply (st_blocks _ _ S). split; [set_solver|]. unfold fld. by rewrite He. }
      by rewrite Hb in Hk. }
  pose proof (st_hands _ _ S) as Hh.
  destruct (hands_elim _ _ Hh) as
    [(Hl & Ha & Hb & Hd)|(a & b & d & Ha & Hb & Hd & Hal & Hbl & Hdl)].
  - rewrite Ha, Hb, Hd. repeat split; try (intros _; by apply Hnil);
      try done. intros e [?|[?|?]]; done.
  - assert (blocks c <> ∅) as Hne.
    { intros Hx. apply Hnil in Hx. subst l. by apply elem_of_nil in Hal. }
    rewrite Ha, Hb, Hd. repeat split; try done.
    intros e He.
    assert (e ∈ l) as Hin by (destruct He as [[= <-]|[[= <-]|[= <-]]]; done).
    destruct (Struct_alloc c l e S Hin) as [ee Hee].
    exists ee. split; [done|]. apply (st_blocks _ _ S). split; [done|].
    unfold fld. by rewrite Hee.
Qed.

Lemma X7_hands_and_blocks_witness :
  (handHot ex_pair = None <-> blocks ex_pair = ∅) /\
  (exists ee, mem_entries ex_pair !! 2%positive = Some ee /\
     blocks ex_pair !! e_key ee = Some 2%positive).
Proof.
  destruct (X7_hands_and_blocks ex_pair ex_pair_reachable) as (H1 & _ & _ & H4).
  split; [exact H1|]. apply H4. right. left. vm_compute. reflexivity.
Defined.



(** X9: on every reachable state, [Set] of an absent key with a Value of
    one reference whose length is at most the target size returns and
    admits the key: the blocks map holds the key with a new cold,
    unreferenced entry of that key, Value and size; the Value has two
    references; the resident size is below the target size plus the new
    size; and a following [Get] of the key returns the Handle of the
    Value. *)
Theorem X9_Set_admits k v x c :
  reachable c -> mem_values c !! v = Some x -> v_refs x = 1 ->
  blocks c !! k = None ->
  Z.of_nat (length (v_buf x)) <= targetSize c ->
  exists c' e ee c'',
    returnsA (fun fuel => Set_ fuel k v c) (Some v, c') /\
    blocks c' !! k = Some e /\ mem_entries c' !! e = Some ee /\
    e_key ee = k /\
    cargo ee = (Some v, Z.of_nat (length (v_buf x)), etCold, false) /\
    mem_values c' !! v = Some (mkValue (v_buf x) 2) /\
    sizeHot c' + sizeCold c' < targetSize c + Z.of_nat (length (v_buf x)) /\
    Get k c' = Ok (Some v, c'') /\
    mem_values c'' !! v = Some (mkValue (v_buf x) 3).
Proof.
  intros R Hx Hr Hnone Hfits. destruct (reachable_Inv c R) as (l & I & _).
  destruct (Set_total k v x c l I Hx Hr) as (c' & Hret & _).
  destruct (returnsA_run _ _ Hret) as [n Hrun].
  destruct (Set_absent_admits n k v x c l (Some v) c' I Hx Hr Hnone Hfits Hrun)
    as (e & ee & _ & Hb & He & Hk & Hcargo & Hv & Hlt).
  assert (e_val ee = Some v) as Hval by (by injection Hcargo).
  exists c', e, ee, (Get_hit e ee v (mkValue (v_buf x) 2) c').
  repeat (split; [done|]). split.
  - by apply Get_hit_eq.
  - unfold Get_hit. simpl. by rewrite lookup_insert_eq.
Qed.

Lemma X9_Set_admits_witness :
  exists c' e ee c'',
    returnsA (fun fuel => Set_ fuel kC 3%positive (Alloc (bytes 6) ex_pair).2)
      (Some 3%positive, c') /\
    blocks c' !! kC = Some e /\ mem_entries c' !! e = Some ee /\
    Get kC c' = Ok (Some 3%positive, c'').
Proof.
  destruct (X9_Set_admits kC 3%positive (mkValue (bytes 6) 1)
              (Alloc (bytes 6) ex_pair).2)
    as (c' & e & ee & c'' & H1 & H2 & H3 & _ & _ & _ & _ & H4 & _).
  - apply reach_Alloc. apply ex_pair_reachable.
  - vm_compute. reflexivity.
  - reflexivity.
  - vm_compute. reflexivity.
  - vm_compute. discriminate.
  - exists c', e, ee, c''. exact (conj H1 (conj H2 (conj H3 H4))).
Defined.

(** X10: [shard.Free] returns on every shard whose ring and maps are well
    formed and whose ring holds live Values, each in one slot. Its loop
    already leaves the blocks map and the files map empty and the three
    hands nil; every entry of the ring is freed and no other entry is
    touched; every Value that the ring held loses one reference (and is
    freed when that was its last one), the other Values are unchanged; the
    size and count counters, [coldTarget] and the hit and miss counters are
    left as they were. *)
Theorem X10_shard_Free c l :
  Struct c l -> Owned c l ->
  exists c',
    (forall fuel, (length l < fuel)%nat ->
       freeLoop fuel c = Ok c' /\ shard_Free fuel c = Ok c') /\
    blocks c' = ∅ /\ files c' = ∅ /\
    handHot c' = None /\ handCold c' = None /\ handTest c' = None /\
    (forall x, x ∈ l -> mem_entries c' !! x = None) /\
    (forall x, x ∉ l -> mem_entries c' !! x = mem_entries c !! x) /\
    (forall w, unheld c l w -> mem_values c' !! w = mem_values c !! w) /\
    (forall p ep w x, p ∈ l -> mem_entries c !! p = Some ep ->
       e_val ep = Some w -> mem_values c !! w = Some x ->
       mem_values c' !! w = dropped x) /\
    scalars c' = scalars c.
Proof. apply shard_Free_spec. Qed.

Lemma X10_shard_Free_witness :
  exists l c',
    Struct ex_files l /\ Owned ex_files l /\
    shard_Free (S (length l)) ex_files = Ok c' /\
    blocks c' = ∅ /\ files c' = ∅ /\ scalars c' = scalars ex_files.
Proof.
  destruct (reachable_Inv ex_files ex_files_reachable) as (l & I & _).
  destruct (X10_shard_Free ex_files l (inv_struct _ _ I) (Inv_Owned _ _ I))
    as (c' & Hret & Hb & Hf & _ & _ & _ & _ & _ & _ & _ & Hsc).
  exists l, c'.
  exact (conj (inv_struct _ _ I) (conj (Inv_Owned _ _ I)
          (conj (proj2 (Hret (S (length l)) (Nat.lt_succ_diag_r _)))
             (conj Hb (conj Hf Hsc))))).
Defined.

(** X11: on a shard whose ring and maps are well formed, [metaCheck] of an
    entry (in the invariants build) passes when the entry is not in the
    ring and the six size and count counters equal the recount over the
    ring; it ends the program when the entry is still in the ring, and
    when some counter differs from the recount. *)
Theorem X11_metaCheck c l e fuel :
  Struct c l -> (length l <= fuel)%nat ->
  (e ∉ l -> Counts c l -> metaCheck fuel e c = Ok tt) /\
  (e ∈ l -> metaCheck fuel e c = Panic) /\
  (~ Counts c l -> metaCheck fuel e c = Panic).
Proof. apply metaCheck_spec. Qed.

Lemma X11_metaCheck_witness :
  exists l,
    Struct ex_pair l /\
    metaCheck (length l) 3%positive ex_pair = Ok tt /\
    metaCheck (length l) 1%positive ex_pair = Panic.
Proof.
  destruct (reachable_Inv ex_pair ex_pair_reachable) as (l & I & _).
  exists l. split; [apply (inv_struct _ _ I)|]. split.
  - destruct (X11_metaCheck ex_pair l 3%positive (length l) (inv_struct _ _ I)
                (Nat.le_refl _)) as (H & _ & _).
    apply H; [|apply (inv_counts _ _ I)].
    intros Hin. apply (Struct_alloc _ _ _ (inv_struct _ _ I)) in Hin.
    destruct Hin as [x Hx]. vm_compute in Hx. discriminate Hx.
  - destruct (X11_metaCheck ex_pair l 1%positive (length l) (inv_struct _ _ I)
                (Nat.le_refl _)) as (_ & H & _).
    apply H. apply (st_blocks _ _ (inv_struct _ _ I) kA 1%positive).
    vm_compute. reflexivity.
Defined.

(** X12: on a well-formed shard the check that the invariants build runs
    inside [metaEvict] passes: [metaEvict] with the check returns what
    [metaEvict] without it returns. *)
Theorem X12_metaEvict_checked c l e fuel :
  Inv c l -> e ∈ l -> (length l <= S fuel)%nat ->
  metaEvict_checked fuel e c = metaEvict e c.
Proof. apply metaEvict_checked_eq. Qed.

Lemma X12_metaEvict_checked_witness :
  exists l,
    Inv ex_pair l /\
    metaEvict_checked (length l) 1%positive ex_pair =
      metaEvict 1%positive ex_pair.
Proof.
  destruct (reachable_Inv ex_pair ex_pair_reachable) as (l & I & _).
  exists l. split; [exact I|].
  apply (X12_metaEvict_checked ex_pair l 1%positive (length l) I).
  - apply (st_blocks _ _ (inv_struct _ _ I) kA 1%positive).
    vm_compute. reflexivity.
  - apply Nat.le_succ_diag_r.
Defined.





(** * Further properties of the cache *)

(** ** Concrete caches *)

Definition run_Cache_Set (id fileNum offset : N) (n : nat) (C : Cache) : Cache :=
  let vc := Cache_Alloc (bytes n) C in
  match Cache_Set 64 id fileNum offset vc.1 vc.2 with
  | Ok r => r.2
  | _ => C
  end.

(** A cache of 40 bytes on one processor: four shards of 10 bytes. *)
Definition ex_cache : Cache := New 1 40.

(** The same cache with two blocks of 6 bytes, of two files. *)
Definition ex_cache_two : Cache :=
  run_Cache_Set 1 2 0 6 (run_Cache_Set 1 1 0 6 ex_cache).

Lemma run_Cache_Set_reachable id fileNum offset n C :
  creachable C -> creachable (run_Cache_Set id fileNum offset n C).
Proof.
  intros R. unfold run_Cache_Set. cbv zeta.
  destruct (Cache_Set 64 id fileNum offset (Cache_Alloc (bytes n) C).1
              (Cache_Alloc (bytes n) C).2) as [[h C']| |] eqn:E; try done.
  apply (creach_Set 64 id fileNum offset (Cache_Alloc (bytes n) C).1
           (Cache_Alloc (bytes n) C).2 h C'); [by apply creach_Alloc|done].
Qed.

Lemma ex_cache_reachable : creachable ex_cache.
Proof. apply creach_New; lia. Qed.

Lemma ex_cache_two_reachable : creachable ex_cache_two.
Proof. do 2 apply run_Cache_Set_reachable. apply ex_cache_reachable. Qed.



(** X16: on a reachable cache, [Cache.Set] of a key that its shard does
    not hold, with a Value of one reference that fits the target size of
    the shard, returns the Handle of the Value, and [Cache.Get] of the same
    key then returns that Handle again: the Value has two references after
    [Set] and three after [Get]. The other shards are not touched. *)
Theorem X16_Cache_Set_Get id fileNum offset v x C i s :
  creachable C ->
  getShard id fileNum offset C = Ok i -> cache_shards C !! i = Some s ->
  cache_values C !! v = Some x -> v_refs x = 1 ->
  blocks s !! Key id fileNum offset = None ->
  Z.of_nat (length (v_buf x)) <= targetSize s ->
  exists C' C'',
    returnsA (fun fuel => Cache_Set fuel id fileNum offset v C) (Some v, C') /\
    Cache_Get id fileNum offset C' = Ok (Some v, C'') /\
    cache_values C' !! v = Some (mkValue (v_buf x) 2) /\
    cache_values C'' !! v = Some (mkValue (v_buf x) 3) /\
    (forall j, j <> i ->
       cache_shards C' !! j = cache_shards C !! j /\
       cache_shards C'' !! j = cache_shards C !! j).
Proof.
  intros R Hi Hs Hx Hr Hnone Hfit.
  destruct (creachable_CInv C R) as [ls M].
  destruct (CInv_ring C ls i s M Hs) as [l Hl].
  apply (Cache_Set_Get id fileNum offset v x C i s l); try done.
  by apply (CInv_shard C ls i).
Qed.

Lemma X16_Cache_Set_Get_witness :
  exists C' C'',
    returnsA (fun fuel => Cache_Set fuel 1 1 0 1%positive
                            (Cache_Alloc (bytes 6) ex_cache).2)
      (Some 1%positive, C') /\
    Cache_Get 1 1 0 C' = Ok (Some 1%positive, C'').
Proof.
  destruct (X16_Cache_Set_Get 1 1 0 1%positive (mkValue (bytes 6) 1)
              (Cache_Alloc (bytes 6) ex_cache).2 1%nat (newShard 10))
    as (C' & C'' & H1 & H2 & _).
  - apply creach_Alloc. apply ex_cache_reachable.
  - vm_compute. reflexivity.
  - vm_compute. reflexivity.
  - vm_compute. reflexivity.
  - reflexivity.
  - vm_compute. reflexivity.
  - vm_compute. discriminate.
  - exists C', C''. exact (conj H1 H2).
Defined.

(** X17: on every reachable cache the operations return, without a panic
    and for every fuel that is large enough: [Cache.Get] and
    [Cache.Delete] with an ID that is not 0, [Cache.Set] with such an ID
    and a Value of one reference (it returns the Handle of the Value,
    whose buffer is kept), [Cache.EvictFile] with such an ID, and
    [Cache.Reserve] with any amount. *)
Theorem X17_Cache_returns C :
  creachable C ->
  (forall id fileNum offset, id <> 0%N ->
     exists h C', Cache_Get id fileNum offset C = Ok (h, C')) /\
  (forall id fileNum offset, id <> 0%N ->
     exists C', Cache_Delete id fileNum offset C = Ok C') /\
  (forall id fileNum offset v x, id <> 0%N ->
     cache_values C !! v = Some x -> v_refs x = 1 ->
     exists C',
       returnsA (fun fuel => Cache_Set fuel id fileNum offset v C)
         (Some v, C') /\
       exists x', cache_values C' !! v = Some x' /\ v_buf x' = v_buf x) /\
  (forall id fileNum, id <> 0%N ->
     exists C', returnsA (fun fuel => Cache_EvictFile fuel id fileNum C) C') /\
  (forall n,
     exists r C', returnsA (fun fuel => Cache_Reserve fuel n C) (r, C')).
Proof.
  intros R. split; [|split; [|split; [|split]]].
  - intros id fileNum offset Hid. by apply Cache_Get_total.
  - intros id fileNum offset Hid. by apply Cache_Delete_total.
  - intros id fileNum offset v x Hid Hx Hr. by apply (Cache_Set_total _ _ _ v x).
  - intros id fileNum Hid. destruct (creachable_CInv C R) as [ls M].
    destruct (Cache_EvictFile_spec id fileNum C ls M Hid) as (C' & _ & H & _).
    by exists C'.
  - intros n. destruct (creachable_CInv C R) as [ls M].
    destruct (Cache_Reserve_spec n C ls M (creachable_nonempty C R))
      as (C' & _ & H & _).
    eexists _, C'. exact H.
Qed.

Lemma X17_Cache_returns_witness :
  (exists h C', Cache_Get 1 1 0 ex_cache_two = Ok (h, C')) /\
  (exists C', Cache_Delete 1 1 0 ex_cache_two = Ok C') /\
  (exists r C', returnsA (fun fuel => Cache_Reserve fuel 30 ex_cache_two) (r, C')).
Proof.
  destruct (X17_Cache_returns ex_cache_two ex_cache_two_reachable)
    as (H1 & H2 & _ & _ & H5).
  split; [|split].
  - apply H1. discriminate.
  - apply H2. discriminate.
  - apply H5.
Defined.

(** X18: on a reachable cache [Cache.EvictFile] with an ID that is not 0
    returns; afterwards no shard holds a key of the file, every key of
    another file is bound as before, and [Cache.Get] of any offset of the
    file misses. With the ID 0 it panics. *)
Theorem X18_Cache_EvictFile id fileNum C :
  creachable C ->
  (id = 0%N -> forall fuel, Cache_EvictFile fuel id fileNum C = Panic) /\
  (id <> 0%N ->
   exists C',
     returnsA (fun fuel => Cache_EvictFile fuel id fileNum C) C' /\
     length (cache_shards C') = length (cache_shards C) /\
     (forall j s, cache_shards C !! j = Some s ->
        exists s', cache_shards C' !! j = Some s' /\
          forall k, blocks s' !! k
                    = if decide (file k = Key id fileNum 0) then None
                      else blocks s !! k) /\
     (forall offset,
        exists C'', Cache_Get id fileNum offset C' = Ok (None, C''))).
Proof.
  intros R. split.
  - intros -> fuel. done.
  - intros Hid. destruct (creachable_CInv C R) as [ls M].
    destruct (Cache_EvictFile_spec id fileNum C ls M Hid)
      as (C' & ls' & Hret & _ & Hlen & Hgone & Hget).
    exists C'. split; [done|]. split; [done|]. split; [done|].
    intros offset. apply Hget. by apply creachable_nonempty.
Qed.

Lemma X18_Cache_EvictFile_witness :
  exists C' C'',
    returnsA (fun fuel => Cache_EvictFile fuel 1 1 ex_cache_two) C' /\
    Cache_Get 1 1 0 C' = Ok (None, C'').
Proof.
  destruct (X18_Cache_EvictFile 1 1 ex_cache_two ex_cache_two_reachable)
    as [_ H].
  destruct H as (C' & H1 & _ & _ & H4); [discriminate|].
  destruct (H4 0%N) as [C'' H5].
  exists C', C''. exact (conj H1 H5).
Defined.

(** X19: on a reachable cache [Cache.Reserve(n)] returns after reserving
    in every shard the same amount [shardN], the truncated quotient by the
    number [len] of shards of the 64-bit sum [n + len - 1]; the reserved
    size of every shard grows by it as a 64-bit integer, and every shard
    then has a resident size below its target size. When [n] is not
    negative and the sum does not exceed the largest 64-bit integer, the
    shards reserve at least [n] and less than [n + len] together. Unless
    the amount per shard is -1, the first call of the returned closure
    returns and gives every shard its reserved size, as a 64-bit integer,
    and its target size back; a second call panics. *)
Theorem X19_Cache_Reserve n C :
  creachable C ->
  let len := Z.of_nat (length (cache_shards C)) in
  let shardN := wrap64 (n + len - 1) ÷ len in
  exists C1,
    returnsA (fun fuel => Cache_Reserve fuel n C) (shardN, C1) /\
    (forall j s, cache_shards C !! j = Some s ->
       exists s1, cache_shards C1 !! j = Some s1 /\
         reservedSize s1 = wrap64 (reservedSize s + shardN) /\
         maxSize s1 = maxSize s /\
         sizeHot s1 + sizeCold s1 < targetSize s1) /\
    (0 <= n -> n + len - 1 < 2 ^ 63 ->
       shardN = (n + len - 1) ÷ len /\ n <= len * shardN < n + len) /\
    (shardN <> -1 ->
     exists C2,
       returnsA (fun fuel => Unreserve fuel shardN C1) (-1, C2) /\
       (forall j s, cache_shards C !! j = Some s ->
          exists s2, cache_shards C2 !! j = Some s2 /\
            reservedSize s2 = wrap64 (reservedSize s) /\
            maxSize s2 = maxSize s /\ targetSize s2 = targetSize s /\
            sizeHot s2 + sizeCold s2 < targetSize s2) /\
       forall fuel, Unreserve fuel (-1) C2 = Panic).
Proof.
  intros R len shardN. destruct (creachable_CInv C R) as [ls M].
  destruct (Cache_Reserve_spec n C ls M (creachable_nonempty C R))
    as (C1 & ls1 & Hret & _ & Hres & Hround & Hback).
  exists C1. split; [done|]. split; [done|]. split.
  { intros Hn Hbig. split; [|by apply Hround].
    subst shardN. by rewrite wrap64_id by lia. }
  intros Hn. destruct (Hback Hn) as (C2 & ls2 & Hret2 & _ & Hres2 & Hp).
  by exists C2.
Qed.

Lemma X19_Cache_Reserve_witness :
  exists C1 C2,
    returnsA (fun fuel => Cache_Reserve fuel 30 ex_cache_two) (8, C1) /\
    returnsA (fun fuel => Unreserve fuel 8 C1) (-1, C2) /\
    Unreserve 0 (-1) C2 = Panic.
Proof.
  destruct (X19_Cache_Reserve 30 ex_cache_two ex_cache_two_reachable)
    as (C1 & H1 & _ & _ & H4).
  destruct H4 as (C2 & H5 & _ & H6).
  { vm_compute. discriminate. }
  exists C1, C2. exact (conj H1 (conj H5 (H6 O))).
Defined.

(** X20: on a reachable cache [Ref] followed by [Unref] gives the cache
    back. [Unref] of the last reference returns with every shard freed:
    both maps of every shard are empty and its hands are nil, the counters
    of the shards are left as they were, and the Values that no shard held
    are untouched. After that [Ref] panics and so does another [Unref]. *)
Theorem X20_Ref_Unref C :
  creachable C ->
  (forall fuel, exists C1,
     Ref C = Ok C1 /\ cache_refs C1 = cache_refs C + 1 /\
     Unref fuel C1 = Ok C) /\
  (cache_refs C = 1 ->
   exists C',
     returnsA (fun fuel => Unref fuel C) C' /\ cache_refs C' = 0 /\
     (forall j s', cache_shards C' !! j = Some s' ->
        blocks s' = ∅ /\ files s' = ∅ /\
        handHot s' = None /\ handCold s' = None /\ handTest s' = None) /\
     (forall j s, cache_shards C !! j = Some s ->
        exists s', cache_shards C' !! j = Some s' /\ scalars s' = scalars s) /\
     Ref C' = Panic /\ (forall fuel, Unref fuel C' = Panic)).
Proof.
  intros R.
  pose proof (creachable_refs C R) as Hrefs.
  split.
  - intros fuel. by apply Ref_Unref.
  - intros H1. destruct (creachable_CInv C R) as [ls M].
    destruct (Unref_last C ls M H1)
      as (C' & Hret & Hr & _ & Hempty & Hsc & _ & Hp1 & Hp2).
    exists C'. done.
Qed.

Lemma X20_Ref_Unref_witness :
  exists C',
    returnsA (fun fuel => Unref fuel ex_cache_two) C' /\ cache_refs C' = 0 /\
    Ref C' = Panic.
Proof.
  destruct (X20_Ref_Unref ex_cache_two ex_cache_two_reachable) as [_ H].
  destruct H as (C' & H1 & H2 & _ & _ & H5 & _); [vm_compute; reflexivity|].
  exists C'. exact (conj H1 (conj H2 H5)).
Defined.

(** X21: every reachable cache has at least four shards; every shard is
    well formed on the Values of the cache, and no Value is held by
    entries of two shards. *)
Theorem X21_creachable_well_formed C :
  creachable C ->
  (4 <= length (cache_shards C))%nat /\
  exists ls,
    length ls = length (cache_shards C) /\
    (forall i s l, cache_shards C !! i = Some s -> ls !! i = Some l ->
       Inv (enter C s) l) /\
    (forall i j si sj li lj v, i <> j ->
       cache_shards C !! i = Some si -> cache_shards C !! j = Some sj ->
       ls !! i = Some li -> ls !! j = Some lj ->
       holds si li v -> holds sj lj v -> False).
Proof.
  intros R. split; [by apply creachable_shards|].
  destruct (creachable_CInv C R) as [ls M]. exists ls.
  split; [apply M|]. split; [|apply M].
  intros i s l Hs Hl. by apply (CInv_shard C ls i).
Qed.

Lemma X21_creachable_well_formed_witness :
  (4 <= length (cache_shards ex_cache_two))%nat /\
  exists ls : list (list ptr),
    length ls = length (cache_shards ex_cache_two).
Proof.
  destruct (X21_creachable_well_formed ex_cache_two ex_cache_two_reachable)
    as (H1 & ls & H2 & _).
  split; [exact H1|]. exists ls. exact H2.
Defined.

(** X22: on a reachable cache the size that [Cache.Metrics] reports is the
    one of [Cache.Size] and is not negative; its count is the number of
    entries in the rings of all shards; its hits and misses are the sums of
    the counters of the shards. *)
Theorem X22_Cache_Metrics C :
  creachable C ->
  m_Size (Cache_Metrics C) = Cache_Size C /\ 0 <= Cache_Size C /\
  (exists ls,
     (forall i s l, cache_shards C !! i = Some s -> ls !! i = Some l ->
        Inv (enter C s) l) /\
     length ls = length (cache_shards C) /\
     m_Count (Cache_Metrics C) = Z.of_nat (length (concat ls))) /\
  m_Hits (Cache_Metrics C) = foldl (fun a s => a + hits s) 0 (cache_shards C) /\
  m_Misses (Cache_Metrics C)
  = foldl (fun a s => a + misses s) 0 (cache_shards C).
Proof.
  intros R. destruct (creachable_CInv C R) as [ls M].
  destruct (Cache_Metrics_spec C ls M) as (H1 & H2 & H3 & H4 & H5).
  split; [done|]. split; [done|]. split; [|done].
  exists ls. split; [|split; [apply M|done]].
  intros i s l Hs Hl. by apply (CInv_shard C ls i).
Qed.

Lemma X22_Cache_Metrics_witness :
  m_Size (Cache_Metrics ex_cache_two) = Cache_Size ex_cache_two /\
  Cache_Size ex_cache_two = 12.
Proof.
  destruct (X22_Cache_Metrics ex_cache_two ex_cache_two_reachable)
    as (H1 & _).
  split; [exact H1|]. vm_compute. reflexivity.
Defined.
